(** * VP8L lossless decoder (src/loaders/webp/dec/vp8l.cpp)

    A shallow embedding of the entropy-decoding core of the WebP lossless
    decoder: prefix-symbol decoding, the plane-code distance map, the LZ77
    copy engines, the main decode loop with its color cache and suspend
    snapshot, Huffman group descriptors and the palette expansion.

    Conventions.
    - A C [int] or [uint32_t] is a [Z]; where a value may leave its range the
      wrap-around is written with [to_int32] / [to_uint32].
    - An array is a [list] read and written through [load] / [store], which
      answer [None] outside the array (undefined behaviour in C).
    - The bit reader, the Huffman table builder and the allocator live in
      other translation units; they enter through the classes
      [BitReaderOps] and [Platform]. *)

From Stdlib Require Import ZArith Lia Bool.
From stdpp Require Import base option list numbers.

Local Open Scope Z_scope.

(* ================================================================== *)
(** * Part I: the embedding *)
(* ================================================================== *)

(** ** Machine integers *)

Definition to_uint32 (z : Z) : Z := z mod 2 ^ 32.
Definition to_int32 (z : Z) : Z := (z + 2 ^ 31) mod 2 ^ 32 - 2 ^ 31.
Definition to_uint64 (z : Z) : Z := z mod 2 ^ 64.
Definition to_uint8 (z : Z) : Z := z mod 2 ^ 8.

Definition is_uint32 (z : Z) : Prop := 0 <= z < 2 ^ 32.
Definition is_uint8 (z : Z) : Prop := 0 <= z < 2 ^ 8.

(** ** Arrays *)

Definition load {A} (m : list A) (i : Z) : option A :=
  if i <? 0 then None else m !! Z.to_nat i.

Definition store {A} (m : list A) (i : Z) (v : A) : option (list A) :=
  if (0 <=? i) && (i <? Z.of_nat (length m))
  then Some (<[Z.to_nat i := v]> m)
  else None.

(** ** Constants *)

Definition NUM_ARGB_CACHE_ROWS : Z := 16.

Definition kCodeLengthLiterals : Z := 16.
Definition kCodeLengthRepeatCode : Z := 16.
Definition kCodeLengthExtraBits : list Z := [2; 3; 7].
Definition kCodeLengthRepeatOffsets : list Z := [3; 3; 11].

(** Modelled from the spec: the alphabet sizes of format_constants.h, which
    is not part of the sources; the comment above [kTableSize] in vp8l.cpp
    gives the same numbers (256 green values, 24 length prefixes, 40
    distance prefixes, five codes per group, cache of at most 2^11). *)
Definition NUM_LITERAL_CODES : Z := 256.
Definition NUM_LENGTH_CODES : Z := 24.
Definition NUM_DISTANCE_CODES : Z := 40.
Definition HUFFMAN_CODES_PER_META_CODE : Z := 5.
Definition MAX_CACHE_BITS : Z := 11.
Definition DEFAULT_CODE_LENGTH : Z := 8.
Definition HUFFMAN_TABLE_BITS : Z := 8.
Definition HUFFMAN_TABLE_MASK : Z := 2 ^ HUFFMAN_TABLE_BITS - 1.

Inductive HuffIndex := GREEN | RED | BLUE | ALPHA | DIST.

Definition HuffIndex_to_Z (j : HuffIndex) : Z :=
  match j with GREEN => 0 | RED => 1 | BLUE => 2 | ALPHA => 3 | DIST => 4 end.

Definition kAlphabetSize : list Z :=
  [ NUM_LITERAL_CODES + NUM_LENGTH_CODES;
    NUM_LITERAL_CODES; NUM_LITERAL_CODES; NUM_LITERAL_CODES;
    NUM_DISTANCE_CODES ].

Definition kLiteralMap : list Z := [0; 1; 1; 1; 0].

Definition NUM_CODE_LENGTH_CODES : Z := 19.
Definition kCodeLengthCodeOrder : list Z :=
  [17; 18; 0; 1; 2; 3; 4; 5; 16; 6; 7; 8; 9; 10; 11; 12; 13; 14; 15].

Definition CODE_TO_PLANE_CODES : Z := 120.
Definition kCodeToPlane : list Z :=
  [ 0x18; 0x07; 0x17; 0x19; 0x28; 0x06; 0x27; 0x29; 0x16; 0x1a;
    0x26; 0x2a; 0x38; 0x05; 0x37; 0x39; 0x15; 0x1b; 0x36; 0x3a;
    0x25; 0x2b; 0x48; 0x04; 0x47; 0x49; 0x14; 0x1c; 0x35; 0x3b;
    0x46; 0x4a; 0x24; 0x2c; 0x58; 0x45; 0x4b; 0x34; 0x3c; 0x03;
    0x57; 0x59; 0x13; 0x1d; 0x56; 0x5a; 0x23; 0x2d; 0x44; 0x4c;
    0x55; 0x5b; 0x33; 0x3d; 0x68; 0x02; 0x67; 0x69; 0x12; 0x1e;
    0x66; 0x6a; 0x22; 0x2e; 0x54; 0x5c; 0x43; 0x4d; 0x65; 0x6b;
    0x32; 0x3e; 0x78; 0x01; 0x77; 0x79; 0x53; 0x5d; 0x11; 0x1f;
    0x64; 0x6c; 0x42; 0x4e; 0x76; 0x7a; 0x21; 0x2f; 0x75; 0x7b;
    0x31; 0x3f; 0x63; 0x6d; 0x52; 0x5e; 0x00; 0x74; 0x7c; 0x41;
    0x4f; 0x10; 0x20; 0x62; 0x6e; 0x30; 0x73; 0x7d; 0x51; 0x5f;
    0x40; 0x72; 0x7e; 0x61; 0x6f; 0x50; 0x71; 0x7f; 0x60; 0x70 ].

Definition FIXED_TABLE_SIZE : Z := 630 * 3 + 410.
Definition kTableSize : list Z :=
  [ FIXED_TABLE_SIZE + 654; FIXED_TABLE_SIZE + 656; FIXED_TABLE_SIZE + 658;
    FIXED_TABLE_SIZE + 662; FIXED_TABLE_SIZE + 670; FIXED_TABLE_SIZE + 686;
    FIXED_TABLE_SIZE + 718; FIXED_TABLE_SIZE + 782; FIXED_TABLE_SIZE + 912;
    FIXED_TABLE_SIZE + 1168; FIXED_TABLE_SIZE + 1680;
    FIXED_TABLE_SIZE + 2704 ].

(** ** The bit reader interface

    utils/bit_reader is outside the sources; vp8l.cpp uses the reader
    through the calls below.  A reader is a value; every call that moves
    the cursor returns the new reader. *)

Class BitReaderOps (BR : Type) := {
  (** [VP8LReadBits(br, n)]: the value read and the reader after it. *)
  VP8LReadBits : BR -> Z -> Z * BR;
  (** [VP8LPrefetchBits(br)]: the prefetched window, cursor unchanged. *)
  VP8LPrefetchBits : BR -> Z;
  (** [VP8LSetBitPos(br, val)]. *)
  VP8LSetBitPos : BR -> Z -> BR;
  (** [VP8LFillBitWindow(br)]. *)
  VP8LFillBitWindow : BR -> BR;
  (** the fields [br->bit_pos_] and [br->eos_]. *)
  bit_pos_ : BR -> Z;
  eos_ : BR -> bool;
  (** [VP8LReadBits] returns an unsigned value of at most [n] bits. *)
  VP8LReadBits_range :
    forall br n, 0 <= n -> 0 <= fst (VP8LReadBits br n) < 2 ^ n;
  (** [VP8LPrefetchBits] returns a [uint32_t]. *)
  VP8LPrefetchBits_range :
    forall br, 0 <= VP8LPrefetchBits br < 2 ^ 32
}.

Section PrefixCoding.
Context {BR : Type} `{BitReaderOps BR}.

(** GetCopyDistance (vp8l.cpp:148).  [offset] is an [int]; the sum with
    the [uint32_t] result of [VP8LReadBits] is unsigned and converted
    back to [int] on return. *)
Definition GetCopyDistance (distance_symbol : Z) (br : BR) : Z * BR :=
  if distance_symbol <? 4 then
    (to_int32 (distance_symbol + 1), br)
  else
    let extra_bits := Z.shiftr (distance_symbol - 2) 1 in
    let offset :=
      to_int32 (Z.shiftl (2 + Z.land distance_symbol 1) extra_bits) in
    let '(v, br') := VP8LReadBits br extra_bits in
    (to_int32 (to_uint32 (offset + v + 1)), br').

(** GetCopyLength (vp8l.cpp:159). *)
Definition GetCopyLength (length_symbol : Z) (br : BR) : Z * BR :=
  GetCopyDistance length_symbol br.
End PrefixCoding.

(** PlaneCodeToDistance (vp8l.cpp:165); [None] when the table is read
    outside its 120 entries. *)
Definition PlaneCodeToDistance (xsize plane_code : Z) : option Z :=
  if plane_code >? CODE_TO_PLANE_CODES then
    Some (to_int32 (plane_code - CODE_TO_PLANE_CODES))
  else
    dist_code ← load kCodeToPlane (plane_code - 1);
    let yoffset := Z.shiftr dist_code 4 in
    let xoffset := 8 - Z.land dist_code 0xf in
    let dist := to_int32 (to_int32 (yoffset * xsize) + xoffset) in
    Some (if dist >=? 1 then dist else 1).

(** ** The copy engines (vp8l.cpp:766-880)

    The raster is a list of pixels ([uint32_t], or [uint8_t] for the alpha
    path); a pointer into it is an index.  [base] is the address of element
    0, which the alignment tests look at.  The multi-byte stores follow the
    little-endian layout (the [#else] branch of [Rotate8b]). *)

(** [for (i = i0; i < i0 + n; ++i) dst[i] = src[i];] *)
Fixpoint copy_fwd (n : nat) (m : list Z) (dst src i : Z) : option (list Z) :=
  match n with
  | O => Some m
  | S n' =>
      v ← load m (src + i);
      m' ← store m (dst + i) v;
      copy_fwd n' m' dst src (i + 1)
  end.

Fixpoint load_range (m : list Z) (p : Z) (n : nat) : option (list Z) :=
  match n with
  | O => Some []
  | S n' => v ← load m p; vs ← load_range m (p + 1) n'; Some (v :: vs)
  end.

Fixpoint store_range (m : list Z) (p : Z) (vs : list Z) : option (list Z) :=
  match vs with
  | [] => Some m
  | v :: vs' => m' ← store m p v; store_range m' (p + 1) vs'
  end.

(** [memcpy(dst, src, n * sizeof( *dst))]: all elements are read, then
    written; a negative count is out of range. *)
Definition memcpy (m : list Z) (dst src n : Z) : option (list Z) :=
  if n <? 0 then None
  else vs ← load_range m src (Z.to_nat n); store_range m dst vs.

(** [((uint64_t* )dst)[i] = pattern]: low word first. *)
Definition store64 (m : list Z) (p pattern : Z) : option (list Z) :=
  m' ← store m p (to_uint32 pattern);
  store m' (p + 1) (Z.shiftr pattern 32).

(** [for (i = 0; i < n; ++i) ((uint64_t* )dst)[i] = pattern;] *)
Fixpoint fill64 (n : nat) (m : list Z) (dst i pattern : Z)
  : option (list Z) :=
  match n with
  | O => Some m
  | S n' =>
      m' ← store64 m (dst + 2 * i) pattern;
      fill64 n' m' dst (i + 1) pattern
  end.

(** CopySmallPattern32b (vp8l.cpp:844). *)
Definition CopySmallPattern32b (base : Z) (m : list Z)
    (src dst length pattern : Z) : option (list Z) :=
  '(m, src, dst, length, pattern) ←
    (if negb (Z.land (base + 4 * dst) 4 =? 0) then
       v ← load m src;
       m' ← store m dst v;
       Some (m', src + 1, dst + 1, length - 1,
             to_uint64 (Z.lor (Z.shiftr pattern 32) (Z.shiftl pattern 32)))
     else Some (m, src, dst, length, pattern));
  let n := Z.shiftr length 1 in
  m ← fill64 (Z.to_nat n) m dst 0 pattern;
  let i := Z.max 0 n in
  if negb (Z.land length 1 =? 0) then
    v ← load m (src + Z.shiftl i 1);
    store m (dst + Z.shiftl i 1) v
  else Some m.

(** CopyBlock32b (vp8l.cpp:862). *)
Definition CopyBlock32b (base : Z) (m : list Z) (dst dist length : Z)
  : option (list Z) :=
  let src := dst - dist in
  if (dist <=? 2) && (length >=? 4) && (Z.land (base + 4 * dst) 3 =? 0)
  then
    pattern ←
      (if dist =? 1 then
         s0 ← load m src;
         Some (Z.lor s0 (to_uint64 (Z.shiftl s0 32)))
       else
         s0 ← load m src;
         s1 ← load m (src + 1);
         Some (Z.lor s0 (Z.shiftl s1 32)));
    CopySmallPattern32b base m src dst length pattern
  else if dist >=? length then memcpy m dst src length
  else copy_fwd (Z.to_nat length) m dst src 0.

(** Rotate8b (vp8l.cpp:769), little-endian branch. *)
Definition Rotate8b (V : Z) : Z :=
  Z.lor (to_uint32 (Z.shiftl (Z.land V 0xff) 24)) (Z.shiftr V 8).

(** [((uint32_t* )dst)[i] = pattern] on a byte raster. *)
Definition store32_bytes (m : list Z) (p pattern : Z) : option (list Z) :=
  m ← store m p (Z.land pattern 0xff);
  m ← store m (p + 1) (Z.land (Z.shiftr pattern 8) 0xff);
  m ← store m (p + 2) (Z.land (Z.shiftr pattern 16) 0xff);
  store m (p + 3) (Z.land (Z.shiftr pattern 24) 0xff).

Fixpoint fill32 (n : nat) (m : list Z) (dst i pattern : Z)
  : option (list Z) :=
  match n with
  | O => Some m
  | S n' =>
      m' ← store32_bytes m (dst + 4 * i) pattern;
      fill32 n' m' dst (i + 1) pattern
  end.

(** The aligning loop of CopySmallPattern8b:
    [while ((uintptr_t)dst & 3) { *dst++ = *src++; ... }].
    The address grows by one per round, so four rounds of fuel are never
    used up (lemma [align8b_fuel]). *)
Fixpoint align8b (fuel : nat) (base : Z) (m : list Z)
    (src dst length pattern : Z) : option (list Z * Z * Z * Z * Z) :=
  if Z.land (base + dst) 3 =? 0 then Some (m, src, dst, length, pattern)
  else
    match fuel with
    | O => None
    | S fuel' =>
        v ← load m src;
        m' ← store m dst v;
        align8b fuel' base m' (src + 1) (dst + 1) (length - 1)
                (Rotate8b pattern)
    end.

(** CopySmallPattern8b (vp8l.cpp:778). *)
Definition CopySmallPattern8b (base : Z) (m : list Z)
    (src dst length pattern : Z) : option (list Z) :=
  '(m, src, dst, length, pattern) ←
    align8b 4 base m src dst length pattern;
  let n := Z.shiftr length 2 in
  m ← fill32 (Z.to_nat n) m dst 0 pattern;
  let i := Z.shiftl (Z.max 0 n) 2 in
  copy_fwd (Z.to_nat (length - i)) m dst src i.

(** [memcpy(&pattern, src, n)] into an integer that was zero: the bytes
    read, least significant first. *)
Fixpoint le_bytes (bs : list Z) : Z :=
  match bs with
  | [] => 0
  | b :: bs' => Z.lor b (Z.shiftl (le_bytes bs') 8)
  end.

(** CopyBlock8b (vp8l.cpp:798), portable branches of the [#if]s. *)
Definition CopyBlock8b (base : Z) (m : list Z) (dst dist length : Z)
  : option (list Z) :=
  let src := dst - dist in
  let Copy :=
    if dist >=? length then memcpy m dst src length
    else copy_fwd (Z.to_nat length) m dst src 0 in
  if length >=? 8 then
    if dist =? 1 then
      pattern ← load m src;
      CopySmallPattern8b base m src dst length
        (to_uint32 (0x01010101 * pattern))
    else if dist =? 2 then
      bs ← load_range m src 2;
      CopySmallPattern8b base m src dst length
        (to_uint32 (0x00010001 * le_bytes bs))
    else if dist =? 4 then
      bs ← load_range m src 4;
      CopySmallPattern8b base m src dst length (le_bytes bs)
    else Copy
  else Copy.

(** ** Decoder data (vp8li.h, huffman.h, color_cache.h)

    The headers are not part of the sources; the records list the fields
    vp8l.cpp reads and writes. *)

Inductive VP8StatusCode :=
  | VP8_STATUS_OK
  | VP8_STATUS_OUT_OF_MEMORY
  | VP8_STATUS_INVALID_PARAM
  | VP8_STATUS_BITSTREAM_ERROR
  | VP8_STATUS_UNSUPPORTED_FEATURE
  | VP8_STATUS_SUSPENDED.

Inductive VP8LDecodeState := READ_DATA | READ_HDR | READ_DIM.

Inductive VP8LImageTransformType :=
  | PREDICTOR_TRANSFORM
  | CROSS_COLOR_TRANSFORM
  | SUBTRACT_GREEN
  | COLOR_INDEXING_TRANSFORM.

Record HuffmanCode := { bits : Z; value : Z }.

(** A [HuffmanCode*] into the shared table block is the list of entries
    from that address on. *)
Record HTreeGroup := {
  htrees : HuffIndex -> list HuffmanCode;
  is_trivial_literal : bool;
  literal_arb : Z
}.

(** Modelled from the spec: the ColorCache of utils/color_cache.h, which is
    not part of the sources: [1 << hash_bits] slots of 32-bit colors, the
    slot of a color is [(color * 0x1e35a7bd) >> (32 - hash_bits)], insert
    overwrites, and a copy moves the color array between two caches of
    the same size. *)
Record VP8LColorCache := { colors_ : list Z; hash_bits_ : Z }.

Definition VP8LColorCacheInsert (cc : VP8LColorCache) (argb : Z)
  : option VP8LColorCache :=
  let key := Z.shiftr (to_uint32 (0x1e35a7bd * argb)) (32 - hash_bits_ cc) in
  colors ← store (colors_ cc) key argb;
  Some {| colors_ := colors; hash_bits_ := hash_bits_ cc |}.

Definition VP8LColorCacheLookup (cc : VP8LColorCache) (key : Z) : option Z :=
  load (colors_ cc) key.

Definition VP8LColorCacheCopy (src dst : VP8LColorCache)
  : option VP8LColorCache :=
  if (hash_bits_ src =? hash_bits_ dst)
     && (Z.of_nat (length (colors_ src)) =? Z.of_nat (length (colors_ dst)))
  then Some {| colors_ := colors_ src; hash_bits_ := hash_bits_ dst |}
  else None.

Definition VP8LColorCacheInit (hash_bits : Z) : VP8LColorCache :=
  {| colors_ := replicate (Z.to_nat (Z.shiftl 1 hash_bits)) 0;
     hash_bits_ := hash_bits |}.

Definition VP8LColorCacheClear : VP8LColorCache :=
  {| colors_ := []; hash_bits_ := 0 |}.

Record VP8LTransform := {
  type_ : VP8LImageTransformType;
  bits_ : Z;
  xsize_ : Z;
  ysize_ : Z;
  data_ : option (list Z)
}.

Record VP8LMetadata := {
  color_cache_size_ : Z;
  color_cache_ : VP8LColorCache;
  saved_color_cache_ : VP8LColorCache;
  huffman_mask_ : Z;
  huffman_subsample_bits_ : Z;
  huffman_xsize_ : Z;
  huffman_image_ : option (list Z);
  num_htree_groups_ : Z;
  htree_groups_ : list HTreeGroup
}.

(** InitMetadata (vp8l.cpp:1206): [memset(hdr, 0, sizeof( *hdr))]. *)
Definition InitMetadata : VP8LMetadata :=
  {| color_cache_size_ := 0;
     color_cache_ := VP8LColorCacheClear;
     saved_color_cache_ := VP8LColorCacheClear;
     huffman_mask_ := 0;
     huffman_subsample_bits_ := 0;
     huffman_xsize_ := 0;
     huffman_image_ := None;
     num_htree_groups_ := 0;
     htree_groups_ := [] |}.

(** ClearMetadata (vp8l.cpp:1211): frees, then InitMetadata. *)
Definition ClearMetadata (hdr : VP8LMetadata) : VP8LMetadata := InitMetadata.

Definition set_color_cache (hdr : VP8LMetadata) (cc : VP8LColorCache)
  : VP8LMetadata :=
  {| color_cache_size_ := color_cache_size_ hdr;
     color_cache_ := cc;
     saved_color_cache_ := saved_color_cache_ hdr;
     huffman_mask_ := huffman_mask_ hdr;
     huffman_subsample_bits_ := huffman_subsample_bits_ hdr;
     huffman_xsize_ := huffman_xsize_ hdr;
     huffman_image_ := huffman_image_ hdr;
     num_htree_groups_ := num_htree_groups_ hdr;
     htree_groups_ := htree_groups_ hdr |}.

Definition set_saved_color_cache (hdr : VP8LMetadata) (cc : VP8LColorCache)
  : VP8LMetadata :=
  {| color_cache_size_ := color_cache_size_ hdr;
     color_cache_ := color_cache_ hdr;
     saved_color_cache_ := cc;
     huffman_mask_ := huffman_mask_ hdr;
     huffman_subsample_bits_ := huffman_subsample_bits_ hdr;
     huffman_xsize_ := huffman_xsize_ hdr;
     huffman_image_ := huffman_image_ hdr;
     num_htree_groups_ := num_htree_groups_ hdr;
     htree_groups_ := htree_groups_ hdr |}.

(** GetMetaIndex (vp8l.cpp:645). *)
Definition GetMetaIndex (image : option (list Z)) (xsize bits x y : Z)
  : option Z :=
  if bits =? 0 then Some 0
  else
    img ← image;
    load img (xsize * Z.shiftr y bits + Z.shiftr x bits).

(** GetHtreeGroupForPos (vp8l.cpp:651). *)
Definition GetHtreeGroupForPos (hdr : VP8LMetadata) (x y : Z)
  : option HTreeGroup :=
  meta_index ← GetMetaIndex (huffman_image_ hdr) (huffman_xsize_ hdr)
                            (huffman_subsample_bits_ hdr) x y;
  load (htree_groups_ hdr) meta_index.

(** ** The decoder and the main loop *)

Record VP8LDecoder {BR : Type} := {
  status_ : VP8StatusCode;
  state_ : VP8LDecodeState;
  br_ : BR;
  incremental_ : bool;
  saved_br_ : BR;
  saved_last_pixel_ : Z;
  width_ : Z;
  height_ : Z;
  last_row_ : Z;
  last_pixel_ : Z;
  last_out_row_ : Z;
  hdr_ : VP8LMetadata;
  next_transform_ : Z;
  transforms_ : list VP8LTransform;
  transforms_seen_ : Z
}.
Arguments VP8LDecoder : clear implicits.

Section Decoder.
Context {BR : Type} `{BitReaderOps BR}.

Local Abbreviation Decoder := (VP8LDecoder BR).

Definition set_status (dec : Decoder) (s : VP8StatusCode) : Decoder :=
  {| status_ := s; state_ := state_ dec; br_ := br_ dec;
     incremental_ := incremental_ dec; saved_br_ := saved_br_ dec;
     saved_last_pixel_ := saved_last_pixel_ dec;
     width_ := width_ dec; height_ := height_ dec;
     last_row_ := last_row_ dec; last_pixel_ := last_pixel_ dec;
     last_out_row_ := last_out_row_ dec; hdr_ := hdr_ dec;
     next_transform_ := next_transform_ dec;
     transforms_ := transforms_ dec;
     transforms_seen_ := transforms_seen_ dec |}.

Definition set_state (dec : Decoder) (s : VP8LDecodeState) : Decoder :=
  {| status_ := status_ dec; state_ := s; br_ := br_ dec;
     incremental_ := incremental_ dec; saved_br_ := saved_br_ dec;
     saved_last_pixel_ := saved_last_pixel_ dec;
     width_ := width_ dec; height_ := height_ dec;
     last_row_ := last_row_ dec; last_pixel_ := last_pixel_ dec;
     last_out_row_ := last_out_row_ dec; hdr_ := hdr_ dec;
     next_transform_ := next_transform_ dec;
     transforms_ := transforms_ dec;
     transforms_seen_ := transforms_seen_ dec |}.

Definition set_br (dec : Decoder) (br : BR) : Decoder :=
  {| status_ := status_ dec; state_ := state_ dec; br_ := br;
     incremental_ := incremental_ dec; saved_br_ := saved_br_ dec;
     saved_last_pixel_ := saved_last_pixel_ dec;
     width_ := width_ dec; height_ := height_ dec;
     last_row_ := last_row_ dec; last_pixel_ := last_pixel_ dec;
     last_out_row_ := last_out_row_ dec; hdr_ := hdr_ dec;
     next_transform_ := next_transform_ dec;
     transforms_ := transforms_ dec;
     transforms_seen_ := transforms_seen_ dec |}.

Definition set_saved (dec : Decoder) (br : BR) (last_pixel : Z)
  : Decoder :=
  {| status_ := status_ dec; state_ := state_ dec; br_ := br_ dec;
     incremental_ := incremental_ dec; saved_br_ := br;
     saved_last_pixel_ := last_pixel;
     width_ := width_ dec; height_ := height_ dec;
     last_row_ := last_row_ dec; last_pixel_ := last_pixel_ dec;
     last_out_row_ := last_out_row_ dec; hdr_ := hdr_ dec;
     next_transform_ := next_transform_ dec;
     transforms_ := transforms_ dec;
     transforms_seen_ := transforms_seen_ dec |}.

Definition set_last_pixel (dec : Decoder) (last_pixel : Z) : Decoder :=
  {| status_ := status_ dec; state_ := state_ dec; br_ := br_ dec;
     incremental_ := incremental_ dec; saved_br_ := saved_br_ dec;
     saved_last_pixel_ := saved_last_pixel_ dec;
     width_ := width_ dec; height_ := height_ dec;
     last_row_ := last_row_ dec; last_pixel_ := last_pixel;
     last_out_row_ := last_out_row_ dec; hdr_ := hdr_ dec;
     next_transform_ := next_transform_ dec;
     transforms_ := transforms_ dec;
     transforms_seen_ := transforms_seen_ dec |}.

Definition set_hdr (dec : Decoder) (hdr : VP8LMetadata) : Decoder :=
  {| status_ := status_ dec; state_ := state_ dec; br_ := br_ dec;
     incremental_ := incremental_ dec; saved_br_ := saved_br_ dec;
     saved_last_pixel_ := saved_last_pixel_ dec;
     width_ := width_ dec; height_ := height_ dec;
     last_row_ := last_row_ dec; last_pixel_ := last_pixel_ dec;
     last_out_row_ := last_out_row_ dec; hdr_ := hdr;
     next_transform_ := next_transform_ dec;
     transforms_ := transforms_ dec;
     transforms_seen_ := transforms_seen_ dec |}.

Definition set_size (dec : Decoder) (width height : Z) : Decoder :=
  {| status_ := status_ dec; state_ := state_ dec; br_ := br_ dec;
     incremental_ := incremental_ dec; saved_br_ := saved_br_ dec;
     saved_last_pixel_ := saved_last_pixel_ dec;
     width_ := width; height_ := height;
     last_row_ := last_row_ dec; last_pixel_ := last_pixel_ dec;
     last_out_row_ := last_out_row_ dec; hdr_ := hdr_ dec;
     next_transform_ := next_transform_ dec;
     transforms_ := transforms_ dec;
     transforms_seen_ := transforms_seen_ dec |}.

Definition set_transforms (dec : Decoder) (next : Z)
    (ts : list VP8LTransform) (seen : Z) : Decoder :=
  {| status_ := status_ dec; state_ := state_ dec; br_ := br_ dec;
     incremental_ := incremental_ dec; saved_br_ := saved_br_ dec;
     saved_last_pixel_ := saved_last_pixel_ dec;
     width_ := width_ dec; height_ := height_ dec;
     last_row_ := last_row_ dec; last_pixel_ := last_pixel_ dec;
     last_out_row_ := last_out_row_ dec; hdr_ := hdr_ dec;
     next_transform_ := next;
     transforms_ := ts;
     transforms_seen_ := seen |}.

(** ReadSymbol (vp8l.cpp:181).  [table] is walked as an index from its
    first entry. *)
Definition ReadSymbol (table : list HuffmanCode) (br : BR)
  : option (Z * BR) :=
  let val := VP8LPrefetchBits br in
  let idx := Z.land val HUFFMAN_TABLE_MASK in
  e ← load table idx;
  let nbits := bits e - HUFFMAN_TABLE_BITS in
  if nbits >? 0 then
    let br := VP8LSetBitPos br (bit_pos_ br + HUFFMAN_TABLE_BITS) in
    let val := VP8LPrefetchBits br in
    let idx := idx + value e in
    let idx := idx + Z.land val (Z.shiftl 1 nbits - 1) in
    e ← load table idx;
    Some (value e, VP8LSetBitPos br (bit_pos_ br + bits e))
  else
    Some (value e, VP8LSetBitPos br (bit_pos_ br + bits e)).

(** SaveState (vp8l.cpp:967). *)
Definition SaveState (dec : Decoder) (last_pixel : Z) : option Decoder :=
  let dec := set_saved dec (br_ dec) last_pixel in
  if color_cache_size_ (hdr_ dec) >? 0 then
    saved ← VP8LColorCacheCopy (color_cache_ (hdr_ dec))
                               (saved_color_cache_ (hdr_ dec));
    Some (set_hdr dec (set_saved_color_cache (hdr_ dec) saved))
  else Some dec.

(** RestoreState (vp8l.cpp:976). *)
Definition RestoreState (dec : Decoder) : option Decoder :=
  let dec := set_status dec VP8_STATUS_SUSPENDED in
  let dec := set_br dec (saved_br_ dec) in
  let dec := set_last_pixel dec (saved_last_pixel_ dec) in
  if color_cache_size_ (hdr_ dec) >? 0 then
    cc ← VP8LColorCacheCopy (saved_color_cache_ (hdr_ dec))
                            (color_cache_ (hdr_ dec));
    Some (set_hdr dec (set_color_cache (hdr_ dec) cc))
  else Some dec.

(** The row-processing callback [ProcessRowsFunc]; it sees the decoder,
    whose [pixels_] is the raster being decoded, and the row. *)
Definition ProcessRowsFunc : Type := Decoder -> list Z -> Z -> Decoder.

Definition SYNC_EVERY_N_ROWS : Z := 8.

(** The local variables of DecodeImageData that change in the loop, with
    the decoder and the raster they point into. *)
Record LoopState := {
  ls_dec : Decoder;
  ls_data : list Z;
  ls_src : Z;             (* src - data *)
  ls_last_cached : Z;     (* last_cached - data *)
  ls_row : Z;
  ls_col : Z;
  ls_htree_group : HTreeGroup;
  ls_next_sync_row : Z
}.

(** [while (last_cached < src) VP8LColorCacheInsert(cc, *last_cached++);]
    run for [n = src - last_cached] rounds. *)
Fixpoint insert_pixels (n : nat) (cc : VP8LColorCache) (data : list Z)
    (last_cached : Z) : option VP8LColorCache :=
  match n with
  | O => Some cc
  | S n' =>
      px ← load data last_cached;
      cc' ← VP8LColorCacheInsert cc px;
      insert_pixels n' cc' data (last_cached + 1)
  end.

(** The cache catch-up of lines 1046, 1079 and 1086: afterwards
    [last_cached = src]. *)
Definition catch_up_cache (dec : Decoder) (data : list Z)
    (last_cached src : Z) : option (Decoder * Z) :=
  if last_cached <? src then
    cc ← insert_pixels (Z.to_nat (src - last_cached))
                       (color_cache_ (hdr_ dec)) data last_cached;
    Some (set_hdr dec (set_color_cache (hdr_ dec) cc), src)
  else Some (dec, last_cached).

(** The constants of one DecodeImageData call. *)
Record LoopEnv := {
  le_base : Z;                       (* address of data[0] *)
  le_width : Z;
  le_src_end : Z;
  le_src_last : Z;
  le_len_code_limit : Z;
  le_color_cache_limit : Z;
  le_color_cache : bool;             (* color_cache != NULL *)
  le_mask : Z;
  le_process_func : option ProcessRowsFunc
}.

(** [if ((row % NUM_ARGB_CACHE_ROWS == 0) && (process_func != NULL))
      process_func(dec, row);] *)
Definition call_process_func (env : LoopEnv) (dec : Decoder)
    (data : list Z) (row : Z) : Decoder :=
  match le_process_func env with
  | Some f =>
      if Z.rem row NUM_ARGB_CACHE_ROWS =? 0 then f dec data row else dec
  | None => dec
  end.

(** The label AdvanceByOne (vp8l.cpp:1036), entered after [*src] was
    written. *)
Definition AdvanceByOne (env : LoopEnv) (st : LoopState) (dec : Decoder)
    (data : list Z) (htree_group : HTreeGroup) (last_cached : Z)
  : option LoopState :=
  let src := ls_src st + 1 in
  let col := ls_col st + 1 in
  if col >=? le_width env then
    let col := 0 in
    let row := ls_row st + 1 in
    let dec := call_process_func env dec data row in
    '(dec, last_cached) ←
      (if le_color_cache env then catch_up_cache dec data last_cached src
       else Some (dec, last_cached));
    Some {| ls_dec := dec; ls_data := data; ls_src := src;
            ls_last_cached := last_cached; ls_row := row; ls_col := col;
            ls_htree_group := htree_group;
            ls_next_sync_row := ls_next_sync_row st |}
  else
    Some {| ls_dec := dec; ls_data := data; ls_src := src;
            ls_last_cached := last_cached; ls_row := ls_row st;
            ls_col := col; ls_htree_group := htree_group;
            ls_next_sync_row := ls_next_sync_row st |}.

(** [while (col >= width) { col -= width; ++row; ... process_func ... }]
    after a back-reference; a width below 1 never leaves the loop. *)
Fixpoint wrap_rows (fuel : nat) (env : LoopEnv) (dec : Decoder)
    (data : list Z) (row col : Z) : option (Decoder * Z * Z) :=
  if col >=? le_width env then
    match fuel with
    | O => None
    | S fuel' =>
        let col := col - le_width env in
        let row := row + 1 in
        wrap_rows fuel' env (call_process_func env dec data row) data
                  row col
    end
  else Some (dec, row, col).

(** What one round of the main loop does. *)
Inductive Outcome :=
  | Continue (st : LoopState)   (* back to the loop test *)
  | Break (st : LoopState)      (* [break]: end of stream seen *)
  | Error (st : LoopState).     (* [goto Error] *)

(** The head of a round (vp8l.cpp:1011-1020): the check-point, then the
    group refresh when a tile starts.  Yields the decoder,
    [next_sync_row] and [htree_group]. *)
Definition loop_head (env : LoopEnv) (st : LoopState)
  : option (Decoder * Z * HTreeGroup) :=
  '(dec, next_sync_row) ←
    (if ls_row st >=? ls_next_sync_row st then
       dec ← SaveState (ls_dec st) (ls_src st);
       Some (dec, ls_row st + SYNC_EVERY_N_ROWS)
     else Some (ls_dec st, ls_next_sync_row st));
  htree_group ←
    (if Z.land (ls_col st) (le_mask env) =? 0 then
       GetHtreeGroupForPos (hdr_ dec) (ls_col st) (ls_row st)
     else Some (ls_htree_group st));
  Some (dec, next_sync_row, htree_group).

(** The reads of a backward reference (vp8l.cpp:1053-1058): length, then
    distance symbol, distance code and plane distance. *)
Definition read_backward_ref (env : LoopEnv) (htree_group : HTreeGroup)
    (code : Z) (br : BR) : option (Z * Z * BR) :=
  let length_sym := code - NUM_LITERAL_CODES in
  let '(length, br) := GetCopyLength length_sym br in
  '(dist_symbol, br) ← ReadSymbol (htrees htree_group DIST) br;
  let br := VP8LFillBitWindow br in
  let '(dist_code, br) := GetCopyDistance dist_symbol br in
  dist ← PlaneCodeToDistance (le_width env) dist_code;
  Some (length, dist, br).

(** The pixel of a literal whose group needs all four symbols
    (vp8l.cpp:1034). *)
Definition literal_pixel (alpha red code blue : Z) : Z :=
  Z.lor (Z.lor (Z.lor (to_uint32 (Z.shiftl alpha 24))
                      (to_uint32 (Z.shiftl red 16)))
               (to_uint32 (Z.shiftl code 8)))
        (to_uint32 blue).

(** The reads of the red, blue and alpha symbols (vp8l.cpp:1029-1032). *)
Definition read_rba (htree_group : HTreeGroup) (br : BR)
  : option (Z * Z * Z * BR) :=
  '(red, br) ← ReadSymbol (htrees htree_group RED) br;
  let br := VP8LFillBitWindow br in
  '(blue, br) ← ReadSymbol (htrees htree_group BLUE) br;
  '(alpha, br) ← ReadSymbol (htrees htree_group ALPHA) br;
  Some (red, blue, alpha, br).

(** The body of [while (src < src_last)] (vp8l.cpp:1010-1094). *)
Definition loop_body (env : LoopEnv) (st : LoopState) : option Outcome :=
  '(dec, next_sync_row, htree_group) ← loop_head env st;
  let st1 br := {| ls_dec := set_br dec br; ls_data := ls_data st;
                   ls_src := ls_src st;
                   ls_last_cached := ls_last_cached st;
                   ls_row := ls_row st; ls_col := ls_col st;
                   ls_htree_group := htree_group;
                   ls_next_sync_row := next_sync_row |} in
  let br := VP8LFillBitWindow (br_ dec) in
  '(code, br) ← ReadSymbol (htrees htree_group GREEN) br;
  if eos_ br then Some (Break (st1 br))
  else if code <? NUM_LITERAL_CODES then
    if is_trivial_literal htree_group then
      let px := Z.lor (literal_arb htree_group)
                      (to_uint32 (Z.shiftl code 8)) in
      data ← store (ls_data st) (ls_src st) px;
      Continue <$> AdvanceByOne env (st1 br) (set_br dec br) data
                     htree_group (ls_last_cached st)
    else
      '(red, blue, alpha, br) ← read_rba htree_group br;
      if eos_ br then Some (Break (st1 br))
      else
        data ← store (ls_data st) (ls_src st)
                     (literal_pixel alpha red code blue);
        Continue <$> AdvanceByOne env (st1 br) (set_br dec br) data
                       htree_group (ls_last_cached st)
  else if code <? le_len_code_limit env then
    '(length, dist, br) ← read_backward_ref env htree_group code br;
    if eos_ br then Some (Break (st1 br))
    else if (ls_src st <? dist) || (le_src_end env - ls_src st <? length)
    then Some (Error (st1 br))
    else
      data ← CopyBlock32b (le_base env) (ls_data st) (ls_src st) dist
                          length;
      let src := ls_src st + length in
      let col := ls_col st + length in
      '(dec, row, col) ←
        wrap_rows (Z.to_nat col) env (set_br dec br) data (ls_row st) col;
      htree_group ←
        (if negb (Z.land col (le_mask env) =? 0) then
           GetHtreeGroupForPos (hdr_ dec) col row
         else Some htree_group);
      '(dec, last_cached) ←
        (if le_color_cache env then
           catch_up_cache dec data (ls_last_cached st) src
         else Some (dec, ls_last_cached st));
      Some (Continue
              {| ls_dec := dec; ls_data := data; ls_src := src;
                 ls_last_cached := last_cached; ls_row := row;
                 ls_col := col; ls_htree_group := htree_group;
                 ls_next_sync_row := next_sync_row |})
  else if code <? le_color_cache_limit env then
    let key := code - le_len_code_limit env in
    '(dec, last_cached) ←
      catch_up_cache (set_br dec br) (ls_data st) (ls_last_cached st)
                     (ls_src st);
    px ← VP8LColorCacheLookup (color_cache_ (hdr_ dec)) key;
    data ← store (ls_data st) (ls_src st) px;
    Continue <$> AdvanceByOne env (st1 br) dec data htree_group
                   last_cached
  else Some (Error (st1 br)).

(** [while (src < src_last) { ... }]; every round moves [src] forward,
    so [fuel = src_last - src] rounds are enough (lemma
    [main_loop_fuel]).  The result tells whether the loop ran to its
    end or broke out ([Continue] / [Break]) or jumped to [Error]. *)
Fixpoint main_loop (fuel : nat) (env : LoopEnv) (st : LoopState)
  : option Outcome :=
  if ls_src st <? le_src_last env then
    match fuel with
    | O => None
    | S fuel' =>
        o ← loop_body env st;
        match o with
        | Continue st' => main_loop fuel' env st'
        | Break st' => Some (Break st')
        | Error st' => Some (Error st')
        end
    end
  else Some (Continue st).

(** The constants DecodeImageData sets up before the loop
    (vp8l.cpp:997-1004). *)
Definition loop_env (dec : Decoder) (base width height last_row : Z)
    (process_func : option ProcessRowsFunc) : LoopEnv :=
  let len_code_limit := NUM_LITERAL_CODES + NUM_LENGTH_CODES in
  {| le_base := base; le_width := width;
     le_src_end := width * height;
     le_src_last := width * last_row;
     le_len_code_limit := len_code_limit;
     le_color_cache_limit :=
       len_code_limit + color_cache_size_ (hdr_ dec);
     le_color_cache := color_cache_size_ (hdr_ dec) >? 0;
     le_mask := huffman_mask_ (hdr_ dec);
     le_process_func := process_func |}.

(** The variables on entry to the loop (vp8l.cpp:990-1001). *)
Definition loop_init (dec : Decoder) (data : list Z) (width : Z)
  : option LoopState :=
  let row := Z.quot (last_pixel_ dec) width in
  let col := Z.rem (last_pixel_ dec) width in
  htree_group ← GetHtreeGroupForPos (hdr_ dec) col row;
  Some {| ls_dec := dec; ls_data := data; ls_src := last_pixel_ dec;
          ls_last_cached := last_pixel_ dec; ls_row := row; ls_col := col;
          ls_htree_group := htree_group;
          ls_next_sync_row :=
            if incremental_ dec then row else Z.shiftl 1 24 |}.

(** The label Error (vp8l.cpp:1113). *)
Definition decode_error (st : LoopState) : Z * Decoder * list Z :=
  (0, set_status (ls_dec st) VP8_STATUS_BITSTREAM_ERROR, ls_data st).

(** After the loop (vp8l.cpp:1097-1111). *)
Definition loop_exit (env : LoopEnv) (st : LoopState)
  : option (Z * Decoder * list Z) :=
  let dec := ls_dec st in
  if incremental_ dec && eos_ (br_ dec) && (ls_src st <? le_src_end env)
  then
    dec ← RestoreState dec;
    Some (1, dec, ls_data st)
  else if negb (eos_ (br_ dec)) then
    let dec :=
      match le_process_func env with
      | Some f => f dec (ls_data st) (ls_row st)
      | None => dec
      end in
    let dec := set_status dec VP8_STATUS_OK in
    let dec := set_last_pixel dec (ls_src st) in
    Some (1, dec, ls_data st)
  else Some (decode_error st).

(** DecodeImageData (vp8l.cpp:987).  [base] is the address of [data].
    Returns the [int] result, the decoder and the raster.  A zero width
    divides by zero. *)
Definition DecodeImageData (dec : Decoder) (base : Z) (data : list Z)
    (width height last_row : Z) (process_func : option ProcessRowsFunc)
  : option (Z * Decoder * list Z) :=
  if width =? 0 then None
  else
    let env := loop_env dec base width height last_row process_func in
    st ← loop_init dec data width;
    o ← main_loop (Z.to_nat (le_src_last env - ls_src st)) env st;
    match o with
    | Error st => Some (decode_error st)
    | Continue st | Break st => loop_exit env st
    end.

(** *** Notions used to state the properties of the loop *)

(** The state an outcome carries. *)
Definition outcome_state (o : Outcome) : LoopState :=
  match o with Continue st | Break st | Error st => st end.

(** A row-processing callback leaves the reader, the suspend snapshot,
    the metadata and the mode of the decoder alone (ProcessRows,
    ExtractAlphaRows and ExtractPalettedAlphaRows write [last_row_],
    [last_out_row_] and the output only). *)
Definition process_func_frame (process_func : option ProcessRowsFunc)
  : Prop :=
  match process_func with
  | None => True
  | Some f =>
      forall dec data row,
        br_ (f dec data row) = br_ dec /\
        saved_br_ (f dec data row) = saved_br_ dec /\
        saved_last_pixel_ (f dec data row) = saved_last_pixel_ dec /\
        incremental_ (f dec data row) = incremental_ dec /\
        hdr_ (f dec data row) = hdr_ dec
  end.

(** The check-point rule, told without the variable [next_sync_row]: going
    through the loop heads [sts] in order, a check-point is due at the
    first head whose row is at least [due]; it moves [due] to
    [SYNC_EVERY_N_ROWS] rows below.  [last_sync] returns the head of the
    latest check-point and the row the next one is due at. *)
Fixpoint last_sync (due : Z) (cur : option LoopState) (sts : list LoopState)
  : option LoopState * Z :=
  match sts with
  | [] => (cur, due)
  | st :: rest =>
      if ls_row st >=? due
      then last_sync (ls_row st + SYNC_EVERY_N_ROWS) (Some st) rest
      else last_sync due cur rest
  end.

End Decoder.

Arguments LoopState : clear implicits.
Arguments LoopEnv : clear implicits.
Arguments Outcome : clear implicits.
Arguments ProcessRowsFunc : clear implicits.

(** ** Reading the stream description (vp8l.cpp:197-409, 1121-1359) *)

(** What vp8l.cpp takes from outside besides the bit reader. *)
Class Platform := {
  (** [VP8LBuildHuffmanTable(table, root_bits, code_lengths, size)] of
      utils/huffman.c: the entries it writes from [table] on; the C
      result is their number, 0 for a malformed code. *)
  VP8LBuildHuffmanTable : Z -> list Z -> Z -> list HuffmanCode;
  (** The width of the lookup table for code lengths (huffman.h). *)
  LENGTHS_TABLE_BITS : Z;
  (** [malloc] / [calloc] for a number of bytes: the address of the block,
      or [None] for NULL. *)
  malloc : Z -> option Z;
  (** A block that [malloc] returns is not initialised: [malloc_cells n]
      is what its [n] cells (bytes or pixels, as the block is used) hold
      before the first write, whatever that is. *)
  malloc_cells : Z -> list Z;
  malloc_cells_length : forall n, length (malloc_cells n) = Z.to_nat n;
  (** [VP8LHtreeGroupsNew(num)] succeeds. *)
  VP8LHtreeGroupsNew_ok : Z -> bool
}.

(** Modelled from the spec: VP8LSubSampleSize of vp8li.h, which is not part
    of the sources: [subsampleSize(n, b) = (n + (1<<b) - 1) >> b]. *)
Definition VP8LSubSampleSize (size sampling_bits : Z) : Z :=
  Z.shiftr (size + Z.shiftl 1 sampling_bits - 1) sampling_bits.

Definition NUM_TRANSFORMS : Z := 4.

Definition transform_type_of_Z (t : Z) : option VP8LImageTransformType :=
  if t =? 0 then Some PREDICTOR_TRANSFORM
  else if t =? 1 then Some CROSS_COLOR_TRANSFORM
  else if t =? 2 then Some SUBTRACT_GREEN
  else if t =? 3 then Some COLOR_INDEXING_TRANSFORM
  else None.

(** The bytes of a [uint32_t] array, and back (little-endian). *)
Definition word_bytes (w : Z) : list Z :=
  [ Z.land w 0xff; Z.land (Z.shiftr w 8) 0xff;
    Z.land (Z.shiftr w 16) 0xff; Z.land (Z.shiftr w 24) 0xff ].

Definition words_bytes (ws : list Z) : list Z := ws ≫= word_bytes.

Fixpoint bytes_words (bs : list Z) : list Z :=
  match bs with
  | b0 :: b1 :: b2 :: b3 :: rest =>
      le_bytes [b0; b1; b2; b3] :: bytes_words rest
  | _ => []
  end.

(** The packing of palette indices chosen in ReadTransform
    (vp8l.cpp:1183). *)
Definition ColorIndexingBits (num_colors : Z) : Z :=
  if num_colors >? 16 then 0
  else if num_colors >? 4 then 1
  else if num_colors >? 2 then 2
  else 3.

(** Modelled from the spec: the index extraction of the color-indexing
    inverse transform (VP8LColorIndexInverseTransform of dsp/lossless, which
    is not part of the sources): with [bits > 0] a green byte packs
    [1 << bits] pixels of [8 >> bits] bits each, the [k]-th lowest first;
    the inverse reads the packed green, indexes the palette and writes the
    pixel. *)
Definition packed_index (bits green k : Z) : Z :=
  let bits_per_pixel := Z.shiftr 8 bits in
  Z.land (Z.shiftr green (k * bits_per_pixel))
         (Z.shiftl 1 bits_per_pixel - 1).

Section Stream.
Context {BR : Type} `{BitReaderOps BR} `{Platform}.

Local Abbreviation Decoder := (VP8LDecoder BR).

(** [for (i = 4; i < 4 * num_colors; ++i)
      new_data[i] = (data[i] + new_data[i - 4]) & 0xff;] *)
Fixpoint accumulate_palette (n : nat) (data new_data : list Z) (i : Z)
  : option (list Z) :=
  match n with
  | O => Some new_data
  | S n' =>
      d ← load data i;
      p ← load new_data (i - 4);
      new_data ← store new_data i (Z.land (d + p) 0xff);
      accumulate_palette n' data new_data (i + 1)
  end.

(** [for (; i < 4 * final_num_colors; ++i) new_data[i] = 0;] *)
Fixpoint black_tail (n : nat) (new_data : list Z) (i : Z)
  : option (list Z) :=
  match n with
  | O => Some new_data
  | S n' =>
      new_data ← store new_data i 0;
      black_tail n' new_data (i + 1)
  end.

(** ExpandColorMap (vp8l.cpp:1128): 0 when the allocation fails. *)
Definition ExpandColorMap (num_colors : Z) (transform : VP8LTransform)
  : option (Z * VP8LTransform) :=
  let final_num_colors := Z.shiftl 1 (Z.shiftr 8 (bits_ transform)) in
  match malloc (final_num_colors * 4) with
  | None => Some (0, transform)
  | Some _ =>
      old ← data_ transform;
      let data := words_bytes old in
      (* the bytes of the block just allocated *)
      let new_data := malloc_cells (4 * final_num_colors) in
      (* new_color_map[0] = transform->data_[0]; *)
      w0 ← load old 0;
      new_data ← store_range new_data 0 (word_bytes w0);
      let i := 4 in
      new_data ← accumulate_palette (Z.to_nat (4 * num_colors - i))
                                    data new_data i;
      let i := Z.max i (4 * num_colors) in
      new_data ← black_tail (Z.to_nat (4 * final_num_colors - i))
                            new_data i;
      Some (1, {| type_ := type_ transform; bits_ := bits_ transform;
                  xsize_ := xsize_ transform; ysize_ := ysize_ transform;
                  data_ := Some (bytes_words new_data) |})
  end.

Definition LENGTHS_TABLE_MASK : Z := Z.shiftl 1 LENGTHS_TABLE_BITS - 1.

(** [while (repeat-- > 0) code_lengths[symbol++] = length;] *)
Fixpoint repeat_length (n : nat) (code_lengths : list Z) (symbol len : Z)
  : option (list Z * Z) :=
  match n with
  | O => Some (code_lengths, symbol)
  | S n' =>
      code_lengths ← store code_lengths symbol len;
      repeat_length n' code_lengths (symbol + 1) len
  end.

(** The loop of ReadHuffmanCodeLengths (vp8l.cpp:224-248); the boolean
    is [false] after [goto End].  [symbol] grows in every round, so
    [num_symbols] rounds of fuel are enough. *)
Fixpoint code_lengths_loop (fuel : nat) (table : list HuffmanCode)
    (num_symbols : Z) (br : BR) (code_lengths : list Z)
    (symbol max_symbol prev_code_len : Z)
  : option (bool * BR * list Z) :=
  if symbol <? num_symbols then
    if max_symbol =? 0 then Some (true, br, code_lengths)
    else
      let max_symbol := max_symbol - 1 in
      match fuel with
      | O => None
      | S fuel' =>
          let br := VP8LFillBitWindow br in
          p ← load table (Z.land (VP8LPrefetchBits br) LENGTHS_TABLE_MASK);
          let br := VP8LSetBitPos br (bit_pos_ br + bits p) in
          let code_len := value p in
          if code_len <? kCodeLengthLiterals then
            code_lengths ← store code_lengths symbol code_len;
            code_lengths_loop fuel' table num_symbols br code_lengths
              (symbol + 1) max_symbol
              (if negb (code_len =? 0) then code_len else prev_code_len)
          else
            let use_prev := code_len =? kCodeLengthRepeatCode in
            let slot := code_len - kCodeLengthLiterals in
            extra_bits ← load kCodeLengthExtraBits slot;
            repeat_offset ← load kCodeLengthRepeatOffsets slot;
            let '(v, br) := VP8LReadBits br extra_bits in
            let repeat := v + repeat_offset in
            if symbol + repeat >? num_symbols then
              Some (false, br, code_lengths)
            else
              let len := if use_prev then prev_code_len else 0 in
              '(code_lengths, symbol) ←
                repeat_length (Z.to_nat repeat) code_lengths symbol len;
              code_lengths_loop fuel' table num_symbols br code_lengths
                symbol max_symbol prev_code_len
      end
  else Some (true, br, code_lengths).

(** ReadHuffmanCodeLengths (vp8l.cpp:197). *)
Definition ReadHuffmanCodeLengths (dec : Decoder)
    (code_length_code_lengths : list Z) (num_symbols : Z)
    (code_lengths : list Z) : option (Z * Decoder * list Z) :=
  let fail (dec : Decoder) (code_lengths : list Z) :=
    Some (0, set_status dec VP8_STATUS_BITSTREAM_ERROR, code_lengths) in
  let table :=
    VP8LBuildHuffmanTable LENGTHS_TABLE_BITS code_length_code_lengths
                          NUM_CODE_LENGTH_CODES in
  if Z.of_nat (length table) =? 0 then fail dec code_lengths
  else
    let '(use_length, br) := VP8LReadBits (br_ dec) 1 in
    let '(max_symbol, br) :=
      if negb (use_length =? 0) then
        let '(v, br) := VP8LReadBits br 3 in
        let length_nbits := 2 + 2 * v in
        let '(v, br) := VP8LReadBits br length_nbits in
        (2 + v, br)
      else (num_symbols, br) in
    if negb (use_length =? 0) && (max_symbol >? num_symbols) then
      fail (set_br dec br) code_lengths
    else
      '(ok, br, code_lengths) ←
        code_lengths_loop (Z.to_nat num_symbols) table num_symbols br
                          code_lengths 0 max_symbol DEFAULT_CODE_LENGTH;
      if ok : bool then Some (1, set_br dec br, code_lengths)
      else fail (set_br dec br) code_lengths.

(** [for (i = 0; i < num_codes; ++i)
      code_length_code_lengths[kCodeLengthCodeOrder[i]] = ReadBits(3);] *)
Fixpoint read_code_length_code_lengths (n : nat) (i : Z) (br : BR)
    (cl : list Z) : option (BR * list Z) :=
  match n with
  | O => Some (br, cl)
  | S n' =>
      k ← load kCodeLengthCodeOrder i;
      let '(v, br) := VP8LReadBits br 3 in
      cl ← store cl k v;
      read_code_length_code_lengths n' (i + 1) br cl
  end.

(** ReadHuffmanCode (vp8l.cpp:258): the size (0 on failure), the
    decoder, the [code_lengths] buffer and the table written. *)
Definition ReadHuffmanCode (alphabet_size : Z) (dec : Decoder)
    (code_lengths : list Z)
  : option (Z * Decoder * list Z * list HuffmanCode) :=
  let '(simple_code, br) := VP8LReadBits (br_ dec) 1 in
  (* memset(code_lengths, 0, alphabet_size * sizeof( *code_lengths)) *)
  code_lengths ←
    store_range code_lengths 0 (replicate (Z.to_nat alphabet_size) 0);
  '(ok, dec, code_lengths) ←
    (if negb (simple_code =? 0) then
       let '(v, br) := VP8LReadBits br 1 in
       let num_symbols := v + 1 in
       let '(first_symbol_len_code, br) := VP8LReadBits br 1 in
       let '(symbol, br) :=
         VP8LReadBits br (if first_symbol_len_code =? 0 then 1 else 8) in
       code_lengths ← store code_lengths symbol 1;
       if num_symbols =? 2 then
         let '(symbol, br) := VP8LReadBits br 8 in
         code_lengths ← store code_lengths symbol 1;
         Some (1, set_br dec br, code_lengths)
       else Some (1, set_br dec br, code_lengths)
     else
       let code_length_code_lengths :=
         replicate (Z.to_nat NUM_CODE_LENGTH_CODES) 0 in
       let '(v, br) := VP8LReadBits br 4 in
       let num_codes := v + 4 in
       if num_codes >? NUM_CODE_LENGTH_CODES then
         (* status = BITSTREAM_ERROR; return 0 *)
         Some (0, set_br dec br, code_lengths)
       else
         '(br, code_length_code_lengths) ←
           read_code_length_code_lengths (Z.to_nat num_codes) 0 br
                                         code_length_code_lengths;
         ReadHuffmanCodeLengths (set_br dec br) code_length_code_lengths
                                alphabet_size code_lengths);
  let ok := negb (ok =? 0) && negb (eos_ (br_ dec)) in
  let table :=
    if ok then
      VP8LBuildHuffmanTable HUFFMAN_TABLE_BITS
        (take (Z.to_nat alphabet_size) code_lengths) alphabet_size
    else [] in
  let size := Z.of_nat (length table) in
  if negb ok || (size =? 0) then
    Some (0, set_status dec VP8_STATUS_BITSTREAM_ERROR, code_lengths, table)
  else Some (size, dec, code_lengths, table).

(** [htrees[j]] of a group under construction. *)
Definition set_htree (htrees : HuffIndex -> list HuffmanCode)
    (j : HuffIndex) (t : list HuffmanCode) : HuffIndex -> list HuffmanCode :=
  fun k =>
    match j, k with
    | GREEN, GREEN | RED, RED | BLUE, BLUE | ALPHA, ALPHA | DIST, DIST => t
    | _, _ => htrees k
    end.

(** [next->bits] right after ReadHuffmanCode wrote at [next]; when the
    code was malformed nothing was written and the value read is not
    used. *)
Definition first_bits (t : list HuffmanCode) : Z :=
  match load t 0 with Some e => bits e | None => 0 end.

Definition first_value (t : list HuffmanCode) : Z :=
  match load t 0 with Some e => value e | None => 0 end.

(** The loop over [j] that reads the five codes of one group
    (vp8l.cpp:370-384); [None] in the result when a code failed
    ([goto Error]). *)
Fixpoint read_group_codes (js : list HuffIndex) (color_cache_bits : Z)
    (dec : Decoder) (code_lengths : list Z)
    (htrees : HuffIndex -> list HuffmanCode) (is_trivial_literal : bool)
  : option (Decoder * list Z *
            option ((HuffIndex -> list HuffmanCode) * bool)) :=
  match js with
  | [] => Some (dec, code_lengths, Some (htrees, is_trivial_literal))
  | j :: js' =>
      alphabet_size ← load kAlphabetSize (HuffIndex_to_Z j);
      let alphabet_size :=
        if (HuffIndex_to_Z j =? 0) && (color_cache_bits >? 0)
        then alphabet_size + Z.shiftl 1 color_cache_bits
        else alphabet_size in
      '(size, dec, code_lengths, table) ←
        ReadHuffmanCode alphabet_size dec code_lengths;
      let htrees := set_htree htrees j table in
      literal ← load kLiteralMap (HuffIndex_to_Z j);
      let is_trivial_literal :=
        if is_trivial_literal && (literal =? 1)
        then first_bits table =? 0 else is_trivial_literal in
      if size =? 0 then Some (dec, code_lengths, None)
      else read_group_codes js' color_cache_bits dec code_lengths htrees
                            is_trivial_literal
  end.

(** One round of the loop over the groups (vp8l.cpp:365-393). *)
Definition read_htree_group (color_cache_bits : Z) (dec : Decoder)
    (code_lengths : list Z)
  : option (Decoder * list Z * option HTreeGroup) :=
  '(dec, code_lengths, r) ←
    read_group_codes [GREEN; RED; BLUE; ALPHA; DIST] color_cache_bits dec
                     code_lengths (fun _ => []) true;
  match r : option ((HuffIndex -> list HuffmanCode) * bool) with
  | None => Some (dec, code_lengths, None)
  | Some (trees, trivial) =>
      let literal_arb :=
        if trivial then
          let red := first_value (trees RED) in
          let blue := first_value (trees BLUE) in
          let alpha := first_value (trees ALPHA) in
          Z.lor (Z.lor (to_uint32 (Z.shiftl alpha 24))
                       (to_uint32 (Z.shiftl red 16)))
                (to_uint32 blue)
        else 0 in
      Some (dec, code_lengths,
            Some {| htrees := trees;
                    is_trivial_literal := trivial;
                    literal_arb := literal_arb |})
  end.

Fixpoint read_htree_groups (n : nat) (color_cache_bits : Z) (dec : Decoder)
    (code_lengths : list Z) (groups : list HTreeGroup)
  : option (Decoder * option (list HTreeGroup)) :=
  match n with
  | O => Some (dec, Some groups)
  | S n' =>
      '(dec, code_lengths, g) ←
        read_htree_group color_cache_bits dec code_lengths;
      match g with
      | None => Some (dec, None)
      | Some g =>
          read_htree_groups n' color_cache_bits dec code_lengths
                            (groups ++ [g])
      end
  end.

(** The loop over the meta-Huffman image (vp8l.cpp:332-339). *)
Fixpoint meta_groups (n : nat) (huffman_image : list Z) (i : Z)
    (num_htree_groups : Z) : option (list Z * Z) :=
  match n with
  | O => Some (huffman_image, num_htree_groups)
  | S n' =>
      px ← load huffman_image i;
      let group := Z.land (Z.shiftr px 8) 0xffff in
      huffman_image ← store huffman_image i group;
      meta_groups n' huffman_image (i + 1)
        (if group >=? num_htree_groups then group + 1
         else num_htree_groups)
  end.

Definition set_huffman_subsample_bits (hdr : VP8LMetadata) (b : Z)
  : VP8LMetadata :=
  {| color_cache_size_ := color_cache_size_ hdr;
     color_cache_ := color_cache_ hdr;
     saved_color_cache_ := saved_color_cache_ hdr;
     huffman_mask_ := huffman_mask_ hdr;
     huffman_subsample_bits_ := b;
     huffman_xsize_ := huffman_xsize_ hdr;
     huffman_image_ := huffman_image_ hdr;
     num_htree_groups_ := num_htree_groups_ hdr;
     htree_groups_ := htree_groups_ hdr |}.

Definition set_huffman_groups (hdr : VP8LMetadata)
    (huffman_image : option (list Z)) (num_htree_groups : Z)
    (htree_groups : list HTreeGroup) : VP8LMetadata :=
  {| color_cache_size_ := color_cache_size_ hdr;
     color_cache_ := color_cache_ hdr;
     saved_color_cache_ := saved_color_cache_ hdr;
     huffman_mask_ := huffman_mask_ hdr;
     huffman_subsample_bits_ := huffman_subsample_bits_ hdr;
     huffman_xsize_ := huffman_xsize_ hdr;
     huffman_image_ := huffman_image;
     num_htree_groups_ := num_htree_groups;
     htree_groups_ := htree_groups |}.

Definition set_cache_size (hdr : VP8LMetadata) (size : Z)
  : VP8LMetadata :=
  {| color_cache_size_ := size;
     color_cache_ := color_cache_ hdr;
     saved_color_cache_ := saved_color_cache_ hdr;
     huffman_mask_ := huffman_mask_ hdr;
     huffman_subsample_bits_ := huffman_subsample_bits_ hdr;
     huffman_xsize_ := huffman_xsize_ hdr;
     huffman_image_ := huffman_image_ hdr;
     num_htree_groups_ := num_htree_groups_ hdr;
     htree_groups_ := htree_groups_ hdr |}.

Definition set_huffman_tiling (hdr : VP8LMetadata) (xsize mask : Z)
  : VP8LMetadata :=
  {| color_cache_size_ := color_cache_size_ hdr;
     color_cache_ := color_cache_ hdr;
     saved_color_cache_ := saved_color_cache_ hdr;
     huffman_mask_ := mask;
     huffman_subsample_bits_ := huffman_subsample_bits_ hdr;
     huffman_xsize_ := xsize;
     huffman_image_ := huffman_image_ hdr;
     num_htree_groups_ := num_htree_groups_ hdr;
     htree_groups_ := htree_groups_ hdr |}.

(** UpdateDecoder (vp8l.cpp:1262). *)
Definition UpdateDecoder (dec : Decoder) (width height : Z) : Decoder :=
  let hdr := hdr_ dec in
  let num_bits := huffman_subsample_bits_ hdr in
  let dec := set_size dec width height in
  set_hdr dec
    (set_huffman_tiling hdr (VP8LSubSampleSize width num_bits)
       (if num_bits =? 0 then -1 else Z.shiftl 1 num_bits - 1)).

(** The recursive calls of DecodeImageStream made by ReadHuffmanCodes and
    ReadTransform: [rec xsize ysize dec] is
    [DecodeImageStream(xsize, ysize, 0, dec, &image)]. *)
Definition SubStream : Type :=
  Z -> Z -> Decoder -> option (Z * Decoder * option (list Z)).

(** The meta-Huffman part of ReadHuffmanCodes (vp8l.cpp:321-340):
    [None] in the result after [goto Error]. *)
Definition read_meta_huffman (rec : SubStream) (dec : Decoder)
    (xsize ysize : Z) (allow_recursion : bool)
  : option (Decoder * option (option (list Z) * Z)) :=
  let '(use_meta, br) :=
    if allow_recursion then VP8LReadBits (br_ dec) 1 else (0, br_ dec) in
  let dec := set_br dec br in
  if allow_recursion && negb (use_meta =? 0) then
    let '(v, br) := VP8LReadBits (br_ dec) 3 in
    let dec := set_br dec br in
    let huffman_precision := v + 2 in
    let huffman_xsize := VP8LSubSampleSize xsize huffman_precision in
    let huffman_ysize := VP8LSubSampleSize ysize huffman_precision in
    let huffman_pixs := to_int32 (huffman_xsize * huffman_ysize) in
    '(ok, dec, huffman_image) ← rec huffman_xsize huffman_ysize dec;
    if ok =? 0 then Some (dec, None)
    else
      let dec :=
        set_hdr dec (set_huffman_subsample_bits (hdr_ dec)
                       huffman_precision) in
      image ← huffman_image;
      '(image, num_htree_groups) ←
        meta_groups (Z.to_nat huffman_pixs) image 0 1;
      Some (dec, Some (Some image, num_htree_groups))
  else Some (dec, Some (None, 1)).

(** ReadHuffmanCodes (vp8l.cpp:307). *)
Definition ReadHuffmanCodes (rec : SubStream) (dec : Decoder)
    (xsize ysize color_cache_bits : Z) (allow_recursion : bool)
  : option (Z * Decoder) :=
  table_size ← load kTableSize color_cache_bits;
  '(dec, meta) ← read_meta_huffman rec dec xsize ysize allow_recursion;
  match meta with
  | None => Some (0, dec)
  | Some (huffman_image, num_htree_groups) =>
      if eos_ (br_ dec) then Some (0, dec)
      else
        (* the largest alphabet, then the three allocations *)
        let max_alphabet_size :=
          Z.max (NUM_LITERAL_CODES + NUM_LENGTH_CODES
                 + (if color_cache_bits >? 0
                    then Z.shiftl 1 color_cache_bits else 0))
                (Z.max NUM_LITERAL_CODES NUM_DISTANCE_CODES) in
        match malloc (num_htree_groups * table_size * 4),
              VP8LHtreeGroupsNew_ok num_htree_groups,
              malloc (max_alphabet_size * 4) with
        | Some _, true, Some _ =>
            let code_lengths :=
              replicate (Z.to_nat max_alphabet_size) 0 in
            '(dec, groups) ←
              read_htree_groups (Z.to_nat num_htree_groups)
                                color_cache_bits dec code_lengths [];
            match groups with
            | None => Some (0, dec)
            | Some htree_groups =>
                Some (1, set_hdr dec
                           (set_huffman_groups (hdr_ dec) huffman_image
                              num_htree_groups htree_groups))
            end
        | _, _, _ =>
            Some (0, set_status dec VP8_STATUS_OUT_OF_MEMORY)
        end
  end.

(** [transform = &dec->transforms_[dec->next_transform_]] written back. *)
Definition put_transform (dec : Decoder) (n : Z) (transform : VP8LTransform)
  : option Decoder :=
  ts ← store (transforms_ dec) n transform;
  Some (set_transforms dec (next_transform_ dec) ts (transforms_seen_ dec)).

(** ReadTransform (vp8l.cpp:1150): the result, the decoder and the new
    [*xsize]. *)
Definition ReadTransform (rec : SubStream) (xsize ysize : Z)
    (dec : Decoder) : option (Z * Decoder * Z) :=
  (* [transform = &dec->transforms_[dec->next_transform_]]: the address
     only; the slot is first written after the test below. *)
  let n := next_transform_ dec in
  let '(t, br) := VP8LReadBits (br_ dec) 2 in
  let dec := set_br dec br in
  type ← transform_type_of_Z t;
  (* Each transform type can only be present once in the stream. *)
  if negb (Z.land (transforms_seen_ dec) (Z.shiftl 1 t) =? 0) then
    Some (0, dec, xsize)
  else
    old ← load (transforms_ dec) n;
    let dec :=
      set_transforms dec (n + 1) (transforms_ dec)
        (Z.lor (transforms_seen_ dec) (Z.shiftl 1 t)) in
    let transform (bits : Z) (data : option (list Z)) :=
      {| type_ := type; bits_ := bits; xsize_ := xsize; ysize_ := ysize;
         data_ := data |} in
    dec ← put_transform dec n (transform (bits_ old) None);
    match type with
    | PREDICTOR_TRANSFORM | CROSS_COLOR_TRANSFORM =>
        let '(v, br) := VP8LReadBits (br_ dec) 3 in
        let bits := v + 2 in
        dec ← put_transform (set_br dec br) n (transform bits None);
        '(ok, dec, data) ←
          rec (VP8LSubSampleSize xsize bits) (VP8LSubSampleSize ysize bits)
              dec;
        dec ← put_transform dec n (transform bits data);
        Some (ok, dec, xsize)
    | COLOR_INDEXING_TRANSFORM =>
        let '(v, br) := VP8LReadBits (br_ dec) 8 in
        let num_colors := v + 1 in
        let bits := ColorIndexingBits num_colors in
        let new_xsize := VP8LSubSampleSize xsize bits in
        dec ← put_transform (set_br dec br) n (transform bits None);
        '(ok, dec, data) ← rec num_colors 1 dec;
        if ok =? 0 then
          dec ← put_transform dec n (transform bits data);
          Some (0, dec, new_xsize)
        else
          '(ok, tr) ← ExpandColorMap num_colors (transform bits data);
          dec ← put_transform dec n tr;
          Some (ok, dec, new_xsize)
    | SUBTRACT_GREEN => Some (1, dec, xsize)
    end.

(** [while (ok && VP8LReadBits(br, 1)) ok = ReadTransform(...);]
    (vp8l.cpp:1286).  Each transform kind is accepted once, so the fifth
    round cannot succeed. *)
Fixpoint read_transforms (fuel : nat) (rec : SubStream) (dec : Decoder)
    (xsize ysize : Z) : option (Z * Decoder * Z) :=
  let '(more, br) := VP8LReadBits (br_ dec) 1 in
  let dec := set_br dec br in
  if more =? 0 then Some (1, dec, xsize)
  else
    match fuel with
    | O => None
    | S fuel' =>
        '(ok, dec, xsize) ← ReadTransform rec xsize ysize dec;
        if ok =? 0 then Some (0, dec, xsize)
        else read_transforms fuel' rec dec xsize ysize
    end.

(** The label End of DecodeImageStream (vp8l.cpp:1342). *)
Definition stream_end (ok : Z) (is_level0 : bool) (dec : Decoder)
    (data : option (list Z)) : Z * Decoder * option (list Z) :=
  if ok =? 0 then (0, set_hdr dec (ClearMetadata (hdr_ dec)), None)
  else
    let dec := set_last_pixel dec 0 in
    let dec :=
      if negb is_level0 then set_hdr dec (ClearMetadata (hdr_ dec))
      else dec in
    (ok, dec, data).

(** The color-cache descriptor (vp8l.cpp:1292): the result, the decoder
    and [color_cache_bits]. *)
Definition read_color_cache_bits (dec : Decoder) : Z * Decoder * Z :=
  let '(present, br) := VP8LReadBits (br_ dec) 1 in
  let dec := set_br dec br in
  if negb (present =? 0) then
    let '(color_cache_bits, br) := VP8LReadBits (br_ dec) 4 in
    let dec := set_br dec br in
    if (color_cache_bits >=? 1) && (color_cache_bits <=? MAX_CACHE_BITS)
    then (1, dec, color_cache_bits)
    else (0, set_status dec VP8_STATUS_BITSTREAM_ERROR, color_cache_bits)
  else (1, dec, 0).

(** DecodeImageStream (vp8l.cpp:1272), with the recursive calls it makes
    through ReadTransform and ReadHuffmanCodes abstracted as [rec]. *)
Definition DecodeImageStream_body (rec : SubStream) (xsize ysize : Z)
    (is_level0 : bool) (dec : Decoder)
  : option (Z * Decoder * option (list Z)) :=
  (* Read the transforms (may recurse). *)
  '(ok, dec, transform_xsize) ←
    (if is_level0 then
       read_transforms (Z.to_nat NUM_TRANSFORMS + 1) rec dec xsize ysize
     else Some (1, dec, xsize));
  let transform_ysize := ysize in
  (* Color cache *)
  let '(ok, dec, color_cache_bits, cache_failed) :=
    if negb (ok =? 0) then
      let '(ok, dec, b) := read_color_cache_bits dec in
      (ok, dec, b, ok =? 0)
    else (ok, dec, 0, false) in
  if cache_failed then Some (stream_end 0 is_level0 dec None)
  else
    (* Read the Huffman codes (may recurse). *)
    '(ok, dec) ←
      (if negb (ok =? 0) then
         ReadHuffmanCodes rec dec transform_xsize transform_ysize
                          color_cache_bits is_level0
       else Some (0, dec));
    if ok =? 0 then
      Some (stream_end 0 is_level0
              (set_status dec VP8_STATUS_BITSTREAM_ERROR) None)
    else
      (* Finish setting up the color-cache *)
      let dec :=
        if color_cache_bits >? 0 then
          match malloc (Z.shiftl 1 color_cache_bits * 4) with
          | Some _ =>
              inl (set_hdr dec
                     (set_color_cache
                        (set_cache_size (hdr_ dec)
                           (Z.shiftl 1 color_cache_bits))
                        (VP8LColorCacheInit color_cache_bits)))
          | None =>
              inr (set_status
                     (set_hdr dec
                        (set_cache_size (hdr_ dec)
                           (Z.shiftl 1 color_cache_bits)))
                     VP8_STATUS_OUT_OF_MEMORY)
          end
        else inl (set_hdr dec (set_cache_size (hdr_ dec) 0)) in
      match dec with
      | inr dec => Some (stream_end 0 is_level0 dec None)
      | inl dec =>
          let dec := UpdateDecoder dec transform_xsize transform_ysize in
          if is_level0 then
            Some (stream_end 1 is_level0 (set_state dec READ_HDR) None)
          else
            let total_size := transform_xsize * transform_ysize in
            match malloc (to_uint64 (total_size * 4)) with
            | None =>
                Some (stream_end 0 is_level0
                        (set_status dec VP8_STATUS_OUT_OF_MEMORY) None)
            | Some base =>
                (* Use the Huffman trees to decode the LZ77 data. *)
                '(ok, dec, data) ←
                  DecodeImageData dec base (malloc_cells total_size)
                    transform_xsize transform_ysize transform_ysize None;
                let ok := if eos_ (br_ dec) then 0 else ok in
                Some (stream_end ok is_level0 dec (Some data))
            end
      end.

(** DecodeImageStream: [depth] bounds the nesting of sub-streams; only a
    level-0 stream opens sub-streams, so depth 2 serves every call. *)
Fixpoint DecodeImageStream (depth : nat) (xsize ysize : Z)
    (is_level0 : bool) (dec : Decoder)
  : option (Z * Decoder * option (list Z)) :=
  match depth with
  | O => None
  | S depth' =>
      DecodeImageStream_body
        (fun xsize ysize dec => DecodeImageStream depth' xsize ysize false dec)
        xsize ysize is_level0 dec
  end.
End Stream.

Arguments SubStream : clear implicits.

(** ** A concrete bit reader

    Modelled from the spec: the BitReader of utils/bit_reader, which is not
    part of the sources.  The input is read least-significant-bit first
    through a 64-bit value buffer; [read(n)] returns the next [n <= 24]
    bits; [prefetch] shows the next 32 bits without advancing; the cursor
    is set in bits.  The reader's own cursor is the byte up to which the
    input has been loaded into the value buffer and a bit offset into
    that buffer, and the end-of-stream flag is set once every byte is
    loaded and the offset exceeds the 64 bits of the buffer (the fixed
    slack): counted in bits from the start of the input, as [sbr_pos]
    is, that is a cursor beyond the last byte of the input, and beyond
    bit 64 for an input shorter than the buffer, whose missing bytes
    read as zero.  From then on [read] yields zero.  The refill of the
    value buffer is not modelled, so [fillWindow] has nothing to do. *)
Record SpecBitReader := {
  sbr_buf : list Z;      (* the input bytes *)
  sbr_pos : Z;           (* the cursor, in bits *)
  sbr_eos : bool
}.

(** The width of the value buffer. *)
Definition sbr_value_bits : Z := 64.

(** The cursor is past the end once it has left both the input and the
    value buffer. *)
Definition sbr_past_end (buf : list Z) (pos : Z) : bool :=
  pos >? Z.max (8 * Z.of_nat (length buf)) sbr_value_bits.

Definition sbr_prefetch (br : SpecBitReader) : Z :=
  Z.shiftr (le_bytes (sbr_buf br)) (sbr_pos br) mod 2 ^ 32.

Definition sbr_set_bit_pos (br : SpecBitReader) (val : Z) : SpecBitReader :=
  {| sbr_buf := sbr_buf br; sbr_pos := val;
     sbr_eos := sbr_eos br || sbr_past_end (sbr_buf br) val |}.

Definition sbr_read_bits (br : SpecBitReader) (n : Z) : Z * SpecBitReader :=
  if negb (sbr_eos br) && (n <=? 24) then
    (Z.shiftr (le_bytes (sbr_buf br)) (sbr_pos br) mod 2 ^ n,
     sbr_set_bit_pos br (sbr_pos br + n))
  else
    (0, {| sbr_buf := sbr_buf br; sbr_pos := sbr_pos br; sbr_eos := true |}).

Definition sbr_init (buf : list Z) : SpecBitReader :=
  {| sbr_buf := buf; sbr_pos := 0; sbr_eos := false |}.


(* ================================================================== *)
(** * Part I, continued: further functions of vp8l.cpp *)
(* ================================================================== *)

(** ** The stream header (vp8l.cpp:109-146) *)

(** Modelled from the spec: the constants of format_constants.h, which is
    not part of the sources: the signature byte [0x2f], the 14 bits of a
    dimension, the 3 bits of the version and the 5 bytes of the header. *)
Definition VP8L_MAGIC_BYTE : Z := 0x2f.
Definition VP8L_IMAGE_SIZE_BITS : Z := 14.
Definition VP8L_VERSION_BITS : Z := 3.
Definition VP8L_FRAME_HEADER_SIZE : Z := 5.

(** VP8LCheckSignature (vp8l.cpp:109): [&&] reads [data[0]] only when the
    size is enough, and [data[4]] only behind a good first byte. *)
Definition VP8LCheckSignature (data : list Z) (size : Z) : option bool :=
  if size >=? VP8L_FRAME_HEADER_SIZE then
    d0 ← load data 0;
    if d0 =? VP8L_MAGIC_BYTE then
      d4 ← load data 4;
      Some (Z.shiftr d4 5 =? 0)
    else Some false
  else Some false.

(** The cropping window of a [VP8Io] and the rows it is handed
    ([mb_y], [mb_w], [mb_h]). *)
Record VP8Io := {
  crop_left : Z;
  crop_right : Z;
  crop_top : Z;
  crop_bottom : Z;
  mb_y : Z;
  mb_w : Z;
  mb_h : Z
}.

(** SetCropWindow (vp8l.cpp:621): the result, the [io] and [*in_data] (a
    byte address). *)
Definition SetCropWindow (io : VP8Io) (y_start y_end : Z) (in_data : Z)
    (pixel_stride : Z) : Z * VP8Io * Z :=
  let y_end := if y_end >? crop_bottom io then crop_bottom io else y_end in
  let '(y_start, in_data) :=
    if y_start <? crop_top io then
      let delta := to_int32 (crop_top io - y_start) in
      (crop_top io, in_data + to_int32 (delta * pixel_stride))
    else (y_start, in_data) in
  if y_start >=? y_end then (0, io, in_data)
  else
    let in_data := in_data + to_uint64 (to_uint64 (crop_left io) * 4) in
    (1,
     {| crop_left := crop_left io; crop_right := crop_right io;
        crop_top := crop_top io; crop_bottom := crop_bottom io;
        mb_y := to_int32 (y_start - crop_top io);
        mb_w := to_int32 (crop_right io - crop_left io);
        mb_h := to_int32 (y_end - y_start) |},
     in_data).

(** The loop of Is8bOptimizable (vp8l.cpp:746) from group [i] on. *)
Fixpoint groups_8b (n : nat) (groups : list HTreeGroup) (i : Z)
  : option Z :=
  match n with
  | O => Some 1
  | S n' =>
      g ← load groups i;
      r ← load (htrees g RED) 0;
      if bits r >? 0 then Some 0
      else
        b ← load (htrees g BLUE) 0;
        if bits b >? 0 then Some 0
        else
          a ← load (htrees g ALPHA) 0;
          if bits a >? 0 then Some 0
          else groups_8b n' groups (i + 1)
  end.

(** Is8bOptimizable (vp8l.cpp:741). *)
Definition Is8bOptimizable (hdr : VP8LMetadata) : option Z :=
  if color_cache_size_ hdr >? 0 then Some 0
  else groups_8b (Z.to_nat (num_htree_groups_ hdr)) (htree_groups_ hdr) 0.

Section Header.
Context {BR : Type} `{BitReaderOps BR} `{Platform}.

(** [VP8LInitBitReader(&br, data, size)] of utils/bit_reader. *)
Variable VP8LInitBitReader : list Z -> Z -> BR.

Local Abbreviation Decoder := (VP8LDecoder BR).

(** ReadImageInfo (vp8l.cpp:115): the result, the reader and what was
    written to [*width], [*height] and [*has_alpha]. *)
Definition ReadImageInfo (br : BR) : Z * BR * option (Z * Z * Z) :=
  let '(signature, br) := VP8LReadBits br 8 in
  if negb (signature =? VP8L_MAGIC_BYTE) then (0, br, None)
  else
    let '(v, br) := VP8LReadBits br VP8L_IMAGE_SIZE_BITS in
    let width := to_int32 (to_uint32 (v + 1)) in
    let '(v, br) := VP8LReadBits br VP8L_IMAGE_SIZE_BITS in
    let height := to_int32 (to_uint32 (v + 1)) in
    let '(v, br) := VP8LReadBits br 1 in
    let has_alpha := to_int32 v in
    let '(version, br) := VP8LReadBits br VP8L_VERSION_BITS in
    if negb (version =? 0) then (0, br, Some (width, height, has_alpha))
    else ((if eos_ br then 0 else 1), br, Some (width, height, has_alpha)).

(** VP8LGetInfo (vp8l.cpp:126), called with the three result pointers;
    [data = None] is the NULL pointer. *)
Definition VP8LGetInfo (data : option (list Z)) (data_size : Z)
  : option (Z * option (Z * Z * Z)) :=
  match data with
  | None => Some (0, None)
  | Some d =>
      if data_size <? VP8L_FRAME_HEADER_SIZE then Some (0, None)
      else
        good ← VP8LCheckSignature d data_size;
        if negb good then Some (0, None)
        else
          let br := VP8LInitBitReader d data_size in
          let '(ok, _, out) := ReadImageInfo br in
          if ok =? 0 then Some (0, None) else Some (1, out)
  end.

(** VP8LNew (vp8l.cpp:1225) when the allocation succeeds: [calloc] gives
    a decoder of zero bytes ([zero_br] stands for its reader), then the
    status and the state are set. *)
Definition VP8LNew (zero_br : BR) : Decoder :=
  {| status_ := VP8_STATUS_OK; state_ := READ_DIM; br_ := zero_br;
     incremental_ := false; saved_br_ := zero_br; saved_last_pixel_ := 0;
     width_ := 0; height_ := 0; last_row_ := 0; last_pixel_ := 0;
     last_out_row_ := 0; hdr_ := InitMetadata;
     next_transform_ := 0;
     transforms_ :=
       replicate (Z.to_nat NUM_TRANSFORMS)
         {| type_ := PREDICTOR_TRANSFORM; bits_ := 0; xsize_ := 0;
            ysize_ := 0; data_ := None |};
     transforms_seen_ := 0 |}.

(** ClearTransform (vp8l.cpp:1121). *)
Definition ClearTransform (transform : VP8LTransform) : VP8LTransform :=
  {| type_ := type_ transform; bits_ := bits_ transform;
     xsize_ := xsize_ transform; ysize_ := ysize_ transform;
     data_ := None |}.

(** [for (i = 0; i < dec->next_transform_; ++i)
      ClearTransform(&dec->transforms_[i]);] *)
Fixpoint clear_transforms (n : nat) (ts : list VP8LTransform) (i : Z)
  : option (list VP8LTransform) :=
  match n with
  | O => Some ts
  | S n' =>
      t ← load ts i;
      ts ← store ts i (ClearTransform t);
      clear_transforms n' ts (i + 1)
  end.

(** VP8LClear (vp8l.cpp:1236) on a decoder that is not NULL; the pixel
    and rescaler buffers it frees are not part of the record. *)
Definition VP8LClear (dec : Decoder) : option Decoder :=
  let dec := set_hdr dec (ClearMetadata (hdr_ dec)) in
  ts ← clear_transforms (Z.to_nat (next_transform_ dec)) (transforms_ dec) 0;
  Some (set_transforms dec 0 ts 0).

(** VP8LDecodeHeader (vp8l.cpp:1489) on a decoder that is not NULL: the
    result, the decoder and what was written to [io->width] and
    [io->height].  [io = None] is the NULL pointer, otherwise [io] gives
    [io->data] and [io->data_size]. *)
Definition VP8LDecodeHeader (dec : Decoder) (io : option (list Z * Z))
  : option (Z * Decoder * option (Z * Z)) :=
  match io with
  | None => Some (0, set_status dec VP8_STATUS_INVALID_PARAM, None)
  | Some (data, data_size) =>
      let dec := set_status dec VP8_STATUS_OK in
      let dec := set_br dec (VP8LInitBitReader data data_size) in
      let '(ok, br, out) := ReadImageInfo (br_ dec) in
      let dec := set_br dec br in
      if ok =? 0 then
        dec ← VP8LClear (set_status dec VP8_STATUS_BITSTREAM_ERROR);
        Some (0, dec, None)
      else
        '(width, height, _) ← out;
        let dec := set_state dec READ_DIM in
        '(ok, dec, _) ← DecodeImageStream 2 width height true dec;
        if ok =? 0 then
          dec ← VP8LClear dec;
          Some (0, dec, Some (width, height))
        else Some (1, dec, Some (width, height))
  end.
End Header.

(** ** The 8-bit alpha path (vp8l.cpp:684-697, 755-763, 884-965) *)

Section AlphaPath.
Context {BR : Type} `{BitReaderOps BR}.

Local Abbreviation Decoder := (VP8LDecoder BR).

(** The alpha plane [io->opaque] the 8-bit path writes to, the width
    [io->width] of its rows, and [VP8LColorIndexInverseTransformAlpha]
    of dsp/lossless: called with the transform, the first and the last
    row, the byte raster and the offset of its first row, the plane and
    the offset of the first row written. *)
Variable Plane : Type.
Variable VP8LColorIndexInverseTransformAlpha :
  VP8LTransform -> Z -> Z -> list Z -> Z -> Plane -> Z -> Plane.
Variable io_width : Z.

Definition set_rows (dec : Decoder) (last_row last_out_row : Z) : Decoder :=
  {| status_ := status_ dec; state_ := state_ dec; br_ := br_ dec;
     incremental_ := incremental_ dec; saved_br_ := saved_br_ dec;
     saved_last_pixel_ := saved_last_pixel_ dec;
     width_ := width_ dec; height_ := height_ dec;
     last_row_ := last_row; last_pixel_ := last_pixel_ dec;
     last_out_row_ := last_out_row; hdr_ := hdr_ dec;
     next_transform_ := next_transform_ dec;
     transforms_ := transforms_ dec;
     transforms_seen_ := transforms_seen_ dec |}.

(** ApplyInverseTransformsAlpha (vp8l.cpp:684). *)
Definition ApplyInverseTransformsAlpha (dec : Decoder) (num_rows : Z)
    (data : list Z) (rows : Z) (plane : Plane) : option Plane :=
  let start_row := last_row_ dec in
  let end_row := to_int32 (start_row + num_rows) in
  let rows_out := to_int32 (io_width * start_row) in
  transform ← load (transforms_ dec) 0;
  Some (VP8LColorIndexInverseTransformAlpha transform start_row end_row
          data rows plane rows_out).

(** ExtractPalettedAlphaRows (vp8l.cpp:755). *)
Definition ExtractPalettedAlphaRows (dec : Decoder) (data : list Z)
    (plane : Plane) (row : Z) : option (Decoder * Plane) :=
  let num_rows := to_int32 (row - last_row_ dec) in
  let rows := to_int32 (width_ dec * last_row_ dec) in
  plane ←
    (if num_rows >? 0
     then ApplyInverseTransformsAlpha dec num_rows data rows plane
     else Some plane);
  Some (set_rows dec row row, plane).

(** The local variables of DecodeAlphaData that change in the loop, with
    the decoder, the plane and the byte raster. *)
Record AlphaState := {
  as_dec : Decoder;
  as_plane : Plane;
  as_data : list Z;
  as_pos : Z;
  as_row : Z;
  as_col : Z;
  as_htree_group : HTreeGroup
}.

(** [if (row % NUM_ARGB_CACHE_ROWS == 0)
      ExtractPalettedAlphaRows(dec, row);] *)
Definition alpha_next_row (dec : Decoder) (data : list Z) (plane : Plane)
    (row : Z) : option (Decoder * Plane) :=
  if Z.rem row NUM_ARGB_CACHE_ROWS =? 0
  then ExtractPalettedAlphaRows dec data plane row
  else Some (dec, plane).

(** [while (col >= width) { col -= width; ++row; ... }] after a
    back-reference. *)
Fixpoint alpha_wrap_rows (fuel : nat) (width : Z) (dec : Decoder)
    (data : list Z) (plane : Plane) (row col : Z)
  : option (Decoder * Plane * Z * Z) :=
  if col >=? width then
    match fuel with
    | O => None
    | S fuel' =>
        let col := col - width in
        let row := row + 1 in
        '(dec, plane) ← alpha_next_row dec data plane row;
        alpha_wrap_rows fuel' width dec data plane row col
    end
  else Some (dec, plane, row, col).

(** What one round of the loop of DecodeAlphaData does. *)
Inductive AlphaOutcome :=
  | AContinue (st : AlphaState)   (* back to the loop test *)
  | AError (st : AlphaState).     (* [ok = 0; goto End] *)

(** The body of [while (!br->eos_ && pos < last)] (vp8l.cpp:902-948).
    The constants of the call are those of DecodeImageData and are kept
    in the same record: [le_src_end] is [end], [le_src_last] is [last]. *)
Definition alpha_body (env : LoopEnv BR) (st : AlphaState)
  : option AlphaOutcome :=
  let dec := as_dec st in
  htree_group ←
    (if Z.land (as_col st) (le_mask env) =? 0 then
       GetHtreeGroupForPos (hdr_ dec) (as_col st) (as_row st)
     else Some (as_htree_group st));
  let br := VP8LFillBitWindow (br_ dec) in
  '(code, br) ← ReadSymbol (htrees htree_group GREEN) br;
  let dec := set_br dec br in
  if code <? NUM_LITERAL_CODES then
    data ← store (as_data st) (as_pos st) (to_uint8 code);
    let pos := as_pos st + 1 in
    let col := as_col st + 1 in
    if col >=? le_width env then
      let row := as_row st + 1 in
      '(dec, plane) ← alpha_next_row dec data (as_plane st) row;
      Some (AContinue
              {| as_dec := dec; as_plane := plane; as_data := data;
                 as_pos := pos; as_row := row; as_col := 0;
                 as_htree_group := htree_group |})
    else
      Some (AContinue
              {| as_dec := dec; as_plane := as_plane st; as_data := data;
                 as_pos := pos; as_row := as_row st; as_col := col;
                 as_htree_group := htree_group |})
  else if code <? le_len_code_limit env then
    '(length, dist, br) ← read_backward_ref env htree_group code br;
    let dec := set_br dec br in
    if (as_pos st >=? dist) && (le_src_end env - as_pos st >=? length)
    then
      data ← CopyBlock8b (le_base env) (as_data st) (as_pos st) dist
                         length;
      let pos := as_pos st + length in
      let col := as_col st + length in
      '(dec, plane, row, col) ←
        alpha_wrap_rows (Z.to_nat col) (le_width env) dec data
                        (as_plane st) (as_row st) col;
      htree_group ←
        (if (pos <? le_src_last env)
            && negb (Z.land col (le_mask env) =? 0) then
           GetHtreeGroupForPos (hdr_ dec) col row
         else Some htree_group);
      Some (AContinue
              {| as_dec := dec; as_plane := plane; as_data := data;
                 as_pos := pos; as_row := row; as_col := col;
                 as_htree_group := htree_group |})
    else
      Some (AError
              {| as_dec := dec; as_plane := as_plane st;
                 as_data := as_data st; as_pos := as_pos st;
                 as_row := as_row st; as_col := as_col st;
                 as_htree_group := htree_group |})
  else
    Some (AError
            {| as_dec := dec; as_plane := as_plane st;
               as_data := as_data st; as_pos := as_pos st;
               as_row := as_row st; as_col := as_col st;
               as_htree_group := htree_group |}).

(** [while (!br->eos_ && pos < last) { ... }]; every round moves [pos]
    forward, so [last - pos] rounds of fuel are enough. *)
Fixpoint alpha_loop (fuel : nat) (env : LoopEnv BR) (st : AlphaState)
  : option AlphaOutcome :=
  if negb (eos_ (br_ (as_dec st))) && (as_pos st <? le_src_last env) then
    match fuel with
    | O => None
    | S fuel' =>
        o ← alpha_body env st;
        match o with
        | AContinue st' => alpha_loop fuel' env st'
        | AError st' => Some (AError st')
        end
    end
  else Some (AContinue st).

(** DecodeAlphaData (vp8l.cpp:884): the result, the decoder, the plane and
    the byte raster.  [base] is the address of [data]. *)
Definition DecodeAlphaData (dec : Decoder) (base : Z) (data : list Z)
    (plane : Plane) (width height last_row : Z)
  : option (Z * Decoder * Plane * list Z) :=
  if width =? 0 then None
  else
    let env := loop_env dec base width height last_row None in
    let row := Z.quot (last_pixel_ dec) width in
    let col := Z.rem (last_pixel_ dec) width in
    htree_group ← GetHtreeGroupForPos (hdr_ dec) col row;
    let st := {| as_dec := dec; as_plane := plane; as_data := data;
                 as_pos := last_pixel_ dec; as_row := row; as_col := col;
                 as_htree_group := htree_group |} in
    o ← alpha_loop (Z.to_nat (le_src_last env - as_pos st)) env st;
    '(ok, dec, plane, st) ←
      match o with
      | AContinue st =>
          (* Process the remaining rows corresponding to last row-block. *)
          '(dec, plane) ←
            ExtractPalettedAlphaRows (as_dec st) (as_data st) (as_plane st)
                                     (as_row st);
          Some (1, dec, plane, st)
      | AError st => Some (0, as_dec st, as_plane st, st)
      end;
    (* End: *)
    if (ok =? 0) || (eos_ (br_ dec) && (as_pos st <? le_src_end env)) then
      Some (0,
            set_status dec
              (if eos_ (br_ dec) then VP8_STATUS_SUSPENDED
               else VP8_STATUS_BITSTREAM_ERROR),
            plane, as_data st)
    else Some (ok, set_last_pixel dec (as_pos st), plane, as_data st).
End AlphaPath.

Arguments AlphaState : clear implicits.
Arguments AlphaOutcome : clear implicits.
Arguments as_dec {BR Plane}.
Arguments as_plane {BR Plane}.
Arguments as_data {BR Plane}.
Arguments as_pos {BR Plane}.
Arguments as_row {BR Plane}.
Arguments as_col {BR Plane}.
Arguments as_htree_group {BR Plane}.
Arguments AContinue {BR Plane}.
Arguments AError {BR Plane}.
Arguments ApplyInverseTransformsAlpha {BR Plane}.
Arguments ExtractPalettedAlphaRows {BR Plane}.
Arguments alpha_next_row {BR Plane}.
Arguments alpha_wrap_rows {BR Plane}.
Arguments alpha_body {BR _ Plane}.
Arguments alpha_loop {BR _ Plane}.
Arguments DecodeAlphaData {BR _ Plane}.
(* ================================================================== *)
(** * Part II: properties *)
(* ================================================================== *)

Lemma to_int32_small z : - 2 ^ 31 <= z < 2 ^ 31 -> to_int32 z = z.
Proof.
  intros Hz. unfold to_int32.
  rewrite Z.mod_small by lia. lia.
Qed.

Lemma to_uint32_small z : 0 <= z < 2 ^ 32 -> to_uint32 z = z.
Proof. intros Hz. unfold to_uint32. now rewrite Z.mod_small. Qed.

(** ** Arrays *)

Lemma load_Some {A} (m : list A) i v :
  load m i = Some v <-> 0 <= i /\ m !! Z.to_nat i = Some v.
Proof.
  unfold load. destruct (Z.ltb_spec i 0); split.
  - discriminate.
  - intros [? _]; lia.
  - intros; split; [lia | done].
  - intros [_ ?]; done.
Qed.

Lemma load_in_range {A} (m : list A) i :
  0 <= i < Z.of_nat (length m) -> exists v, load m i = Some v.
Proof.
  intros Hi. destruct (lookup_lt_is_Some_2 m (Z.to_nat i)) as [v Hv]; [lia|].
  exists v. apply load_Some. split; [lia | done].
Qed.

Lemma load_range_inv {A} (m : list A) i v :
  load m i = Some v -> 0 <= i < Z.of_nat (length m).
Proof.
  intros [Hi Hv]%load_Some. apply lookup_lt_Some in Hv. lia.
Qed.

Lemma store_in_range {A} (m : list A) i v :
  0 <= i < Z.of_nat (length m) ->
  store m i v = Some (<[Z.to_nat i := v]> m).
Proof.
  intros Hi. unfold store.
  destruct (Z.leb_spec 0 i); [|lia].
  destruct (Z.ltb_spec i (Z.of_nat (length m))); [done | lia].
Qed.

Lemma store_Some {A} (m m' : list A) i v :
  store m i v = Some m' ->
  0 <= i < Z.of_nat (length m) /\ m' = <[Z.to_nat i := v]> m.
Proof.
  unfold store.
  destruct (Z.leb_spec 0 i); [|discriminate].
  destruct (Z.ltb_spec i (Z.of_nat (length m))); [|discriminate].
  intros [= <-]. split; [lia | done].
Qed.

Lemma store_length {A} (m m' : list A) i v :
  store m i v = Some m' -> length m' = length m.
Proof. intros [_ ->]%store_Some. apply length_insert. Qed.

Lemma load_store_eq {A} (m m' : list A) i v :
  store m i v = Some m' -> load m' i = Some v.
Proof.
  intros [Hi ->]%store_Some. apply load_Some. split; [lia|].
  apply list_lookup_insert_eq. lia.
Qed.

Lemma load_store_ne {A} (m m' : list A) i j v :
  store m i v = Some m' -> j <> i -> load m' j = load m j.
Proof.
  intros [Hi ->]%store_Some Hne. unfold load.
  destruct (Z.ltb_spec j 0); [done|].
  apply list_lookup_insert_ne. lia.
Qed.

(** ** The run-length pattern of an overlapping copy *)

(** [run_length m m' pos D k]: [m'] is [m] with the [k] pixels from [pos]
    replaced by the periodic extension of the [D] pixels before [pos]. *)
Definition run_length (m m' : list Z) (pos D k : Z) : Prop :=
  length m' = length m /\
  (forall i, 0 <= i < k ->
     load m' (pos + i) = load m (pos - D + i mod D)) /\
  (forall j, j < pos \/ pos + k <= j -> load m' j = load m j).

Lemma run_length_cast m m' pos D k k' :
  k = k' -> run_length m m' pos D k -> run_length m m' pos D k'.
Proof. now intros ->. Qed.

Lemma run_length_0 m pos D : run_length m m pos D 0.
Proof. unfold run_length. split; [done|]. split; intros; [lia | done]. Qed.

(** Writing the value the pattern prescribes at [pos + k] extends it. *)
Lemma run_length_snoc_val m m1 m2 pos D k v :
  0 <= k ->
  run_length m m1 pos D k ->
  load m (pos - D + k mod D) = Some v ->
  store m1 (pos + k) v = Some m2 ->
  run_length m m2 pos D (k + 1).
Proof.
  intros Hk (Hlen & Hpat & Hframe) Hv Hst.
  repeat split.
  - rewrite (store_length _ _ _ _ Hst). done.
  - intros i Hi. destruct (decide (i = k)) as [->|Hne].
    + rewrite (load_store_eq _ _ _ _ Hst). done.
    + rewrite (load_store_ne _ _ _ _ _ Hst) by lia. apply Hpat. lia.
  - intros j Hj. rewrite (load_store_ne _ _ _ _ _ Hst) by lia.
    apply Hframe. lia.
Qed.

(** One round of the element loop: [dst[k] = src[k]] with [src = dst - D]
    reads either an original pixel or one the loop wrote before. *)
Lemma run_length_snoc_copy m m1 m2 pos D k v :
  1 <= D -> 0 <= k ->
  run_length m m1 pos D k ->
  load m1 (pos - D + k) = Some v ->
  store m1 (pos + k) v = Some m2 ->
  run_length m m2 pos D (k + 1).
Proof.
  intros HD Hk Hrl Hv Hst.
  eapply run_length_snoc_val; eauto.
  destruct Hrl as (Hlen & Hpat & Hframe).
  destruct (Z.lt_ge_cases k D) as [Hlt|Hge].
  - rewrite Z.mod_small by lia. rewrite <- Hframe by lia. done.
  - replace (k mod D) with ((k - D) mod D).
    + rewrite <- Hpat by lia. rewrite <- Hv. f_equal. lia.
    + replace k with ((k - D) + 1 * D) at 2 by lia.
      now rewrite Z.mod_add by lia.
Qed.

Lemma copy_fwd_run_length m pos D : forall n m1 k,
  1 <= D <= pos -> 0 <= k ->
  pos + k + Z.of_nat n <= Z.of_nat (length m) ->
  run_length m m1 pos D k ->
  exists m2, copy_fwd n m1 pos (pos - D) k = Some m2 /\
             run_length m m2 pos D (k + Z.of_nat n).
Proof.
  induction n as [|n IH]; intros m1 k HD Hk Hlen Hrl; simpl.
  - exists m1. split; [done|]. now rewrite Z.add_0_r.
  - assert (Hl1 : length m1 = length m) by apply Hrl.
    destruct (load_in_range m1 (pos - D + k)) as [v Hv]; [lia|].
    rewrite Hv; simpl.
    rewrite store_in_range by lia. simpl.
    destruct (IH (<[Z.to_nat (pos + k) := v]> m1) (k + 1)) as (m2 & Hc & Hr);
      [lia | lia | lia | |].
    + apply (run_length_snoc_copy m m1 _ pos D k v); try done; try lia.
      apply store_in_range. lia.
    + exists m2. split; [done|].
      replace (k + Z.of_nat (S n)) with (k + 1 + Z.of_nat n) by lia. done.
Qed.

(** ** 64-bit patterns of two pixels *)

Lemma lor_shiftl_add a b n :
  0 <= n -> 0 <= a < 2 ^ n -> Z.lor a (Z.shiftl b n) = a + b * 2 ^ n.
Proof.
  intros Hn Ha. rewrite Z.shiftl_mul_pow2 by done.
  symmetry. apply Z.add_nocarry_lor.
  apply Z.bits_inj'. intros i Hi.
  rewrite Z.land_spec, Z.bits_0.
  destruct (Z.lt_ge_cases i n) as [Hlt|Hge].
  - rewrite (Z.mul_pow2_bits_low b n i) by lia. apply andb_false_r.
  - rewrite <- (Z.mod_small a (2 ^ n)) by lia.
    rewrite Z.mod_pow2_bits_high by lia. done.
Qed.

Lemma pattern_lo s0 s1 :
  is_uint32 s0 -> to_uint32 (Z.lor s0 (Z.shiftl s1 32)) = s0.
Proof.
  intros H0. rewrite lor_shiftl_add by (done || lia).
  unfold to_uint32. rewrite Z.mod_add by lia. now apply Z.mod_small.
Qed.

Lemma pattern_hi s0 s1 :
  is_uint32 s0 -> Z.shiftr (Z.lor s0 (Z.shiftl s1 32)) 32 = s1.
Proof.
  intros H0. rewrite lor_shiftl_add by (done || lia).
  rewrite Z.shiftr_div_pow2 by lia.
  rewrite Z.div_add by lia. rewrite Z.div_small by done. lia.
Qed.

Lemma pattern_rot s0 s1 :
  is_uint32 s0 -> is_uint32 s1 ->
  let p := Z.lor s0 (Z.shiftl s1 32) in
  to_uint64 (Z.lor (Z.shiftr p 32) (Z.shiftl p 32))
  = Z.lor s1 (Z.shiftl s0 32).
Proof.
  intros H0 H1 p. subst p. rewrite pattern_hi by done.
  rewrite (lor_shiftl_add s0 s1) by (done || lia).
  rewrite !lor_shiftl_add by (done || lia).
  unfold to_uint64, is_uint32 in *.
  replace (s1 + (s0 + s1 * 2 ^ 32) * 2 ^ 32)
    with (s1 + s0 * 2 ^ 32 + s1 * 2 ^ 64) by lia.
  rewrite Z.mod_add by lia. apply Z.mod_small. lia.
Qed.

Lemma pattern_dup s0 :
  is_uint32 s0 ->
  Z.lor s0 (to_uint64 (Z.shiftl s0 32)) = Z.lor s0 (Z.shiftl s0 32).
Proof.
  intros H0. f_equal. unfold to_uint64, is_uint32 in *.
  rewrite Z.shiftl_mul_pow2 by lia. apply Z.mod_small. lia.
Qed.

(** The 64-bit fill writes the two halves of the pattern alternately. *)
Lemma fill64_run_length m pos D k0 lo hi : forall n m1 i,
  0 <= k0 -> 0 <= i -> is_uint32 lo ->
  pos + k0 + 2 * i + 2 * Z.of_nat n <= Z.of_nat (length m) -> 0 <= pos ->
  (forall j, 0 <= j -> load m (pos - D + (k0 + 2 * j) mod D) = Some lo) ->
  (forall j, 0 <= j -> load m (pos - D + (k0 + 2 * j + 1) mod D) = Some hi) ->
  run_length m m1 pos D (k0 + 2 * i) ->
  exists m2,
    fill64 n m1 (pos + k0) i (Z.lor lo (Z.shiftl hi 32)) = Some m2 /\
    run_length m m2 pos D (k0 + 2 * i + 2 * Z.of_nat n).
Proof.
  induction n as [|n IH]; intros m1 i Hk0 Hi Hlo Hlen Hpos Hev Hod Hrl; simpl.
  - exists m1. split; [done|]. now rewrite Z.add_0_r.
  - assert (Hl1 : length m1 = length m) by apply Hrl.
    unfold store64. rewrite pattern_lo, pattern_hi by done.
    rewrite store_in_range by lia. simpl.
    rewrite store_in_range by (rewrite length_insert; lia). simpl.
    set (m1a := <[Z.to_nat (pos + k0 + 2 * i) := lo]> m1).
    set (m1b := <[Z.to_nat (pos + k0 + 2 * i + 1) := hi]> m1a).
    assert (Hra : run_length m m1a pos D (k0 + 2 * i + 1)).
    { apply (run_length_snoc_val m m1 m1a pos D (k0 + 2 * i) lo);
        try done; try lia.
      - now apply Hev.
      - replace (pos + (k0 + 2 * i)) with (pos + k0 + 2 * i) by lia.
        apply store_in_range. lia. }
    assert (Hrb : run_length m m1b pos D (k0 + 2 * i + 1 + 1)).
    { apply (run_length_snoc_val m m1a m1b pos D (k0 + 2 * i + 1) hi);
        try done; try lia.
      - now apply Hod.
      - replace (pos + (k0 + 2 * i + 1)) with (pos + k0 + 2 * i + 1) by lia.
        apply store_in_range. unfold m1a. rewrite length_insert. lia. }
    destruct (IH m1b (i + 1)) as (m2 & Hf & Hr); try done; try lia.
    + replace (k0 + 2 * (i + 1)) with (k0 + 2 * i + 1 + 1) by lia. done.
    + exists m2. split; [done|].
      replace (k0 + 2 * i + 2 * Z.of_nat (S n))
        with (k0 + 2 * (i + 1) + 2 * Z.of_nat n) by lia. done.
Qed.

Lemma shiftr_1 x : Z.shiftr x 1 = x / 2.
Proof. now rewrite Z.shiftr_div_pow2 by lia. Qed.

Lemma shiftl_1 x : Z.shiftl x 1 = 2 * x.
Proof. rewrite Z.shiftl_mul_pow2 by lia. lia. Qed.

Lemma land_1 x : Z.land x 1 = x mod 2.
Proof. apply (Z.land_ones x 1). lia. Qed.

Lemma mod_add_even a j D :
  1 <= D -> 2 mod D = 0 -> (a + 2 * j) mod D = a mod D.
Proof.
  intros HD H2. apply Z.mod_divide in H2; [|lia].
  destruct H2 as [q Hq]. rewrite Hq.
  replace (a + q * D * j) with (a + (q * j) * D) by lia.
  apply Z.mod_add. lia.
Qed.

Lemma CopySmallPattern32b_run_length base m pos D L lo hi :
  1 <= D <= pos -> 2 mod D = 0 -> 2 <= L ->
  pos + L <= Z.of_nat (length m) ->
  is_uint32 lo -> is_uint32 hi ->
  load m (pos - D) = Some lo ->
  load m (pos - D + 1 mod D) = Some hi ->
  exists m',
    CopySmallPattern32b base m (pos - D) pos L (Z.lor lo (Z.shiftl hi 32))
      = Some m' /\
    run_length m m' pos D L.
Proof.
  intros HD H2 HL Hlen Hlo Hhi Hl0 Hl1.
  assert (Hev0 : forall j, 0 <= j ->
            load m (pos - D + (0 + 2 * j) mod D) = Some lo).
  { intros j _. rewrite mod_add_even by (done || lia).
    rewrite Z.mod_0_l by lia. now rewrite Z.add_0_r. }
  assert (Hod0 : forall j, 0 <= j ->
            load m (pos - D + (0 + 2 * j + 1) mod D) = Some hi).
  { intros j _. replace (0 + 2 * j + 1) with (1 + 2 * j) by lia.
    now rewrite mod_add_even by (done || lia). }
  unfold CopySmallPattern32b.
  destruct (Z.land (base + 4 * pos) 4 =? 0); simpl.
  - (* dst is 8-byte aligned *)
    rewrite shiftr_1, land_1.
    destruct (fill64_run_length m pos D 0 lo hi (Z.to_nat (L / 2)) m 0)
      as (m2 & Hf & Hr); try done; try lia.
    { rewrite Z2Nat.id by (apply Z.div_pos; lia).
      pose proof (Z.mul_div_le L 2). lia. }
    { apply run_length_0. }
    rewrite Z.add_0_r in Hf. rewrite Hf. simpl.
    rewrite Z2Nat.id in Hr by (apply Z.div_pos; lia).
    pose proof (Z.div_mod L 2 ltac:(lia)) as Hdm.
    pose proof (Z.mod_pos_bound L 2 ltac:(lia)) as Hmb.
    rewrite Z.max_r by (apply Z.div_pos; lia). rewrite shiftl_1.
    destruct (Z.eqb_spec (L mod 2) 0) as [He|Hne]; simpl.
    + exists m2. split; [done|].
      eapply run_length_cast; [|exact Hr]. lia.
    + assert (Hl2 : length m2 = length m) by apply Hr.
      destruct (load_in_range m2 (pos - D + 2 * (L / 2))) as [v Hv]; [lia|].
      rewrite Hv. simpl.
      rewrite store_in_range by lia.
      eexists; split; [done|].
      apply (run_length_cast _ _ _ _ (0 + 2 * 0 + 2 * (L / 2) + 1)); [lia|].
      apply (run_length_snoc_copy m m2 _ pos D _ v); try done; try lia;
        try (rewrite <- Hv; f_equal; lia);
        try (rewrite store_in_range by lia; do 3 f_equal; lia).
  - (* one pixel first, then the rotated pattern *)
    rewrite Hl0. simpl. rewrite store_in_range by lia. simpl.
    rewrite pattern_rot by done.
    set (m1 := <[Z.to_nat pos := lo]> m).
    assert (Hr1 : run_length m m1 pos D (1 + 2 * 0)).
    { apply (run_length_snoc_val m m m1 pos D 0 lo); try done.
      - apply run_length_0.
      - rewrite Z.mod_0_l by lia. now rewrite Z.add_0_r.
      - rewrite Z.add_0_r. apply store_in_range. lia. }
    rewrite shiftr_1, land_1.
    destruct (fill64_run_length m pos D 1 hi lo
                (Z.to_nat ((L - 1) / 2)) m1 0)
      as (m2 & Hf & Hr); try done; try lia;
      try (intros j _; now rewrite mod_add_even by (done || lia));
      try (intros j Hj;
           replace (1 + 2 * j + 1) with (0 + 2 * (j + 1)) by lia;
           apply Hev0; lia).
    { rewrite Z2Nat.id by (apply Z.div_pos; lia).
      pose proof (Z.mul_div_le (L - 1) 2). lia. }
    rewrite Hf. simpl.
    rewrite Z2Nat.id in Hr by (apply Z.div_pos; lia).
    pose proof (Z.div_mod (L - 1) 2 ltac:(lia)) as Hdm.
    pose proof (Z.mod_pos_bound (L - 1) 2 ltac:(lia)) as Hmb.
    rewrite Z.max_r by (apply Z.div_pos; lia). rewrite shiftl_1.
    destruct (Z.eqb_spec ((L - 1) mod 2) 0) as [He|Hne]; simpl.
    + exists m2. split; [done|].
      eapply run_length_cast; [|exact Hr]. lia.
    + assert (Hl2 : length m2 = length m) by apply Hr.
      destruct (load_in_range m2 (pos - D + 1 + 2 * ((L - 1) / 2)))
        as [v Hv]; [lia|].
      rewrite Hv. simpl.
      rewrite store_in_range by lia.
      eexists; split; [done|].
      apply (run_length_cast _ _ _ _ (1 + 2 * 0 + 2 * ((L - 1) / 2) + 1));
        [lia|].
      apply (run_length_snoc_copy m m2 _ pos D _ v); try done; try lia;
        try (rewrite <- Hv; f_equal; lia);
        try (rewrite store_in_range by lia; do 3 f_equal; lia).
Qed.

Lemma CopyBlock32b_run_length base m pos D L :
  1 <= D -> D < L -> D <= pos ->
  pos + L <= Z.of_nat (length m) ->
  Forall is_uint32 m ->
  exists m', CopyBlock32b base m pos D L = Some m' /\
             run_length m m' pos D L.
Proof.
  intros HD HDL Hpos Hlen Hm. unfold CopyBlock32b.
  destruct ((D <=? 2) && (L >=? 4) && (Z.land (base + 4 * pos) 3 =? 0))
    eqn:Hfast.
  - apply andb_prop in Hfast as [Hfast _].
    apply andb_prop in Hfast as [HD2 HL4].
    apply Z.leb_le in HD2. apply Z.geb_le in HL4.
    destruct (load_in_range m (pos - D)) as [s0 Hs0]; [lia|].
    assert (H0 : is_uint32 s0).
    { apply load_Some in Hs0 as [_ Hs0].
      eapply (proj1 (Forall_lookup _ _) Hm); eauto. }
    rewrite Hs0. simpl.
    destruct (Z.eqb_spec D 1) as [->|Hne]; simpl.
    + rewrite pattern_dup by done.
      apply CopySmallPattern32b_run_length; try done; try lia.
      rewrite Z.mod_1_r, Z.add_0_r. done.
    + assert (D = 2) as -> by lia.
      destruct (load_in_range m (pos - 2 + 1)) as [s1 Hs1]; [lia|].
      assert (H1 : is_uint32 s1).
      { apply load_Some in Hs1 as [_ Hs1].
        eapply (proj1 (Forall_lookup _ _) Hm); eauto. }
      rewrite Hs1. simpl.
      apply CopySmallPattern32b_run_length; try done; try lia.
  - destruct (Z.geb_spec D L); [lia|].
    destruct (copy_fwd_run_length m pos D (Z.to_nat L) m 0)
      as (m' & Hc & Hr); try lia.
    { apply run_length_0. }
    exists m'. split; [done|]. rewrite Z2Nat.id in Hr by lia. done.
Qed.

(** ** 32-bit patterns of four bytes *)

Definition pat4 (b0 b1 b2 b3 : Z) : Z :=
  b0 + 2 ^ 8 * (b1 + 2 ^ 8 * (b2 + 2 ^ 8 * b3)).

Lemma le_bytes_4 b0 b1 b2 b3 :
  is_uint8 b0 -> is_uint8 b1 -> is_uint8 b2 -> is_uint8 b3 ->
  le_bytes [b0; b1; b2; b3] = pat4 b0 b1 b2 b3.
Proof.
  unfold is_uint8, pat4. intros H0 H1 H2 H3. simpl le_bytes.
  rewrite Z.shiftl_0_l, Z.lor_0_r.
  rewrite !lor_shiftl_add by lia. lia.
Qed.

Lemma le_bytes_2 b0 b1 :
  is_uint8 b0 -> is_uint8 b1 ->
  to_uint32 (0x00010001 * le_bytes [b0; b1]) = pat4 b0 b1 b0 b1.
Proof.
  unfold is_uint8, pat4, to_uint32. intros H0 H1. simpl le_bytes.
  rewrite Z.shiftl_0_l, Z.lor_0_r.
  rewrite !lor_shiftl_add by lia. rewrite Z.mod_small; lia.
Qed.

Lemma le_bytes_1 b0 :
  is_uint8 b0 -> to_uint32 (0x01010101 * b0) = pat4 b0 b0 b0 b0.
Proof.
  unfold is_uint8, pat4, to_uint32. intros H0. rewrite Z.mod_small; lia.
Qed.

Lemma land_255 x : Z.land x 0xff = x mod 2 ^ 8.
Proof. apply (Z.land_ones x 8). lia. Qed.

Lemma land_3 x : Z.land x 3 = x mod 4.
Proof. apply (Z.land_ones x 2). lia. Qed.

Section Pat4.
Variables b0 b1 b2 b3 : Z.
Hypothesis H0 : is_uint8 b0.
Hypothesis H1 : is_uint8 b1.
Hypothesis H2 : is_uint8 b2.
Hypothesis H3 : is_uint8 b3.

Lemma pat4_byte0 : Z.land (pat4 b0 b1 b2 b3) 0xff = b0.
Proof.
  rewrite land_255. unfold pat4, is_uint8 in *.
  change (2 ^ 8) with 256 in *. Z.div_mod_to_equations. lia.
Qed.

Lemma pat4_shiftr8 :
  Z.shiftr (pat4 b0 b1 b2 b3) 8 = b1 + 2 ^ 8 * (b2 + 2 ^ 8 * b3).
Proof.
  rewrite Z.shiftr_div_pow2 by lia. unfold pat4, is_uint8 in *.
  change (2 ^ 8) with 256 in *. Z.div_mod_to_equations. lia.
Qed.

Lemma Rotate8b_pat4 : Rotate8b (pat4 b0 b1 b2 b3) = pat4 b1 b2 b3 b0.
Proof.
  unfold Rotate8b. rewrite pat4_byte0, pat4_shiftr8.
  unfold is_uint8, to_uint32, pat4 in *.
  rewrite Z.shiftl_mul_pow2 by lia.
  rewrite (Z.mod_small (b0 * 2 ^ 24)) by lia.
  rewrite Z.lor_comm. rewrite <- (Z.shiftl_mul_pow2 b0 24) by lia.
  rewrite lor_shiftl_add by lia. lia.
Qed.
End Pat4.

Lemma pat4_bytes b0 b1 b2 b3 :
  is_uint8 b0 -> is_uint8 b1 -> is_uint8 b2 -> is_uint8 b3 ->
  let p := pat4 b0 b1 b2 b3 in
  Z.land p 0xff = b0 /\
  Z.land (Z.shiftr p 8) 0xff = b1 /\
  Z.land (Z.shiftr p 16) 0xff = b2 /\
  Z.land (Z.shiftr p 24) 0xff = b3.
Proof.
  intros H0 H1 H2 H3 p. subst p.
  rewrite !land_255, !Z.shiftr_div_pow2 by lia.
  unfold pat4, is_uint8 in *.
  change (2 ^ 8) with 256 in *. change (2 ^ 16) with 65536.
  change (2 ^ 24) with 16777216.
  repeat split; Z.div_mod_to_equations; lia.
Qed.

Lemma mod_add_multiple a c j D :
  1 <= D -> c mod D = 0 -> (a + c * j) mod D = a mod D.
Proof.
  intros HD Hc. apply Z.mod_divide in Hc; [|lia].
  destruct Hc as [q Hq]. rewrite Hq.
  replace (a + q * D * j) with (a + (q * j) * D) by lia.
  apply Z.mod_add. lia.
Qed.

Lemma copy_fwd_shift : forall n m dst src a i,
  copy_fwd n m (dst + a) (src + a) i = copy_fwd n m dst src (a + i).
Proof.
  induction n as [|n IH]; intros m dst src a i; simpl; [done|].
  replace (src + a + i) with (src + (a + i)) by lia.
  replace (dst + a + i) with (dst + (a + i)) by lia.
  destruct (load m (src + (a + i))) as [v|]; simpl; [|done].
  destruct (store m (dst + (a + i)) v) as [m'|]; simpl; [|done].
  rewrite IH. f_equal. lia.
Qed.

(** [pat_at m pos D k b0 b1 b2 b3]: the four bytes are the ones the
    run-length pattern prescribes at offsets [k .. k+3]. *)
Definition pat_at (m : list Z) (pos D k b0 b1 b2 b3 : Z) : Prop :=
  load m (pos - D + k mod D) = Some b0 /\
  load m (pos - D + (k + 1) mod D) = Some b1 /\
  load m (pos - D + (k + 2) mod D) = Some b2 /\
  load m (pos - D + (k + 3) mod D) = Some b3.

Lemma pat_at_shift m pos D k j b0 b1 b2 b3 :
  1 <= D -> 4 mod D = 0 ->
  pat_at m pos D k b0 b1 b2 b3 -> pat_at m pos D (k + 4 * j) b0 b1 b2 b3.
Proof.
  intros HD H4 (P0 & P1 & P2 & P3). unfold pat_at.
  replace (k + 4 * j + 1) with (k + 1 + 4 * j) by lia.
  replace (k + 4 * j + 2) with (k + 2 + 4 * j) by lia.
  replace (k + 4 * j + 3) with (k + 3 + 4 * j) by lia.
  rewrite !mod_add_multiple by done. done.
Qed.

Lemma pat_at_rotate m pos D k b0 b1 b2 b3 :
  1 <= D -> 4 mod D = 0 ->
  pat_at m pos D k b0 b1 b2 b3 -> pat_at m pos D (k + 1) b1 b2 b3 b0.
Proof.
  intros HD H4 (P0 & P1 & P2 & P3). unfold pat_at.
  replace (k + 1 + 1) with (k + 2) by lia.
  replace (k + 1 + 2) with (k + 3) by lia.
  replace (k + 1 + 3) with (k + 4 * 1) by lia.
  rewrite mod_add_multiple by done. done.
Qed.

Lemma store32_bytes_run_length m m1 pos D k b0 b1 b2 b3 :
  0 <= k -> 0 <= pos ->
  is_uint8 b0 -> is_uint8 b1 -> is_uint8 b2 -> is_uint8 b3 ->
  pos + k + 4 <= Z.of_nat (length m) ->
  pat_at m pos D k b0 b1 b2 b3 ->
  run_length m m1 pos D k ->
  exists m2, store32_bytes m1 (pos + k) (pat4 b0 b1 b2 b3) = Some m2 /\
             run_length m m2 pos D (k + 4).
Proof.
  intros Hk Hpos H0 H1 H2 H3 Hlen (P0 & P1 & P2 & P3) Hr.
  destruct (pat4_bytes b0 b1 b2 b3 H0 H1 H2 H3) as (E0 & E1 & E2 & E3).
  unfold store32_bytes. rewrite E0, E1, E2, E3.
  assert (Hl1 : length m1 = length m) by apply Hr.
  rewrite store_in_range by lia. simpl.
  rewrite store_in_range by (rewrite !length_insert; lia). simpl.
  rewrite store_in_range by (rewrite !length_insert; lia). simpl.
  rewrite store_in_range by (rewrite !length_insert; lia).
  eexists; split; [done|].
  set (ma := <[Z.to_nat (pos + k) := b0]> m1).
  set (mb := <[Z.to_nat (pos + k + 1) := b1]> ma).
  set (mc := <[Z.to_nat (pos + k + 2) := b2]> mb).
  assert (Ha : run_length m ma pos D (k + 1)).
  { apply (run_length_snoc_val m m1 ma pos D k b0); try done.
    apply store_in_range. lia. }
  assert (Hb : run_length m mb pos D (k + 1 + 1)).
  { apply (run_length_snoc_val m ma mb pos D (k + 1) b1); try done; [lia|].
    replace (pos + (k + 1)) with (pos + k + 1) by lia.
    apply store_in_range. unfold ma. rewrite length_insert. lia. }
  assert (Hc : run_length m mc pos D (k + 2 + 1)).
  { apply (run_length_snoc_val m mb mc pos D (k + 2) b2); try done; [lia| |].
    - eapply run_length_cast; [|exact Hb]. lia.
    - replace (pos + (k + 2)) with (pos + k + 2) by lia.
      apply store_in_range. unfold mb, ma. rewrite !length_insert. lia. }
  eapply (run_length_cast _ _ _ _ (k + 3 + 1)); [lia|].
  apply (run_length_snoc_val m mc _ pos D (k + 3) b3); try done; [lia| |].
  - eapply run_length_cast; [|exact Hc]. lia.
  - replace (pos + (k + 3)) with (pos + k + 3) by lia.
    apply store_in_range. unfold mc, mb, ma. rewrite !length_insert. lia.
Qed.

Lemma fill32_run_length m pos D ka b0 b1 b2 b3 : forall n m1 i,
  1 <= D -> 4 mod D = 0 -> 0 <= ka -> 0 <= i -> 0 <= pos ->
  is_uint8 b0 -> is_uint8 b1 -> is_uint8 b2 -> is_uint8 b3 ->
  pos + ka + 4 * i + 4 * Z.of_nat n <= Z.of_nat (length m) ->
  pat_at m pos D ka b0 b1 b2 b3 ->
  run_length m m1 pos D (ka + 4 * i) ->
  exists m2,
    fill32 n m1 (pos + ka) i (pat4 b0 b1 b2 b3) = Some m2 /\
    run_length m m2 pos D (ka + 4 * i + 4 * Z.of_nat n).
Proof.
  induction n as [|n IH];
    intros m1 i HD H4 Hka Hi Hpos H0 H1 H2 H3 Hlen Hpat Hr; simpl.
  - exists m1. split; [done|]. now rewrite Z.add_0_r.
  - destruct (store32_bytes_run_length m m1 pos D (ka + 4 * i) b0 b1 b2 b3)
      as (ma & Hst & Hra); try done; try lia.
    { now apply pat_at_shift. }
    replace (pos + ka + 4 * i) with (pos + (ka + 4 * i)) by lia.
    rewrite Hst. simpl.
    destruct (IH ma (i + 1)) as (m2 & Hf & Hr2); try done; try lia.
    { eapply run_length_cast; [|exact Hra]. lia. }
    exists m2. split; [done|].
    eapply run_length_cast; [|exact Hr2]. lia.
Qed.

Lemma align8b_eq fuel base m src dst length pattern :
  align8b fuel base m src dst length pattern =
  if Z.land (base + dst) 3 =? 0 then Some (m, src, dst, length, pattern)
  else
    match fuel with
    | O => None
    | S fuel' =>
        v ← load m src;
        m' ← store m dst v;
        align8b fuel' base m' (src + 1) (dst + 1) (length - 1)
                (Rotate8b pattern)
    end.
Proof. destruct fuel; reflexivity. Qed.

(** The aligning loop stops after at most three bytes, each of which
    continues the pattern; the pattern word is rotated accordingly. *)
Lemma align8b_run_length base m pos D L : forall fuel k m1 b0 b1 b2 b3,
  1 <= D <= pos -> 4 mod D = 0 -> 0 <= k ->
  (- (base + pos + k)) mod 4 < Z.of_nat fuel ->
  pos + k + (- (base + pos + k)) mod 4 <= Z.of_nat (length m) ->
  is_uint8 b0 -> is_uint8 b1 -> is_uint8 b2 -> is_uint8 b3 ->
  pat_at m pos D k b0 b1 b2 b3 ->
  run_length m m1 pos D k ->
  exists m2 k' c0 c1 c2 c3,
    align8b fuel base m1 (pos - D + k) (pos + k) (L - k) (pat4 b0 b1 b2 b3)
      = Some (m2, pos - D + k', pos + k', L - k', pat4 c0 c1 c2 c3) /\
    k' = k + (- (base + pos + k)) mod 4 /\
    is_uint8 c0 /\ is_uint8 c1 /\ is_uint8 c2 /\ is_uint8 c3 /\
    pat_at m pos D k' c0 c1 c2 c3 /\
    run_length m m2 pos D k'.
Proof.
  induction fuel as [|fuel IH];
    intros k m1 b0 b1 b2 b3 HD H4 Hk Hfuel Hlen H0 H1 H2 H3 Hpat Hr;
    rewrite align8b_eq, land_3;
    replace (base + (pos + k)) with (base + pos + k) by lia;
    destruct (Z.eqb_spec ((base + pos + k) mod 4) 0) as [Hal|Hal].
  - exists m1, k, b0, b1, b2, b3. split; [done|].
    split; [Z.div_mod_to_equations; lia | done].
  - exfalso. Z.div_mod_to_equations; lia.
  - exists m1, k, b0, b1, b2, b3. split; [done|].
    split; [Z.div_mod_to_equations; lia | done].
  - assert (Hl1 : length m1 = length m) by apply Hr.
    assert (Hstep : (- (base + pos + (k + 1))) mod 4
                    = (- (base + pos + k)) mod 4 - 1)
      by (Z.div_mod_to_equations; lia).
    assert (Hr1 : 1 <= (- (base + pos + k)) mod 4)
      by (Z.div_mod_to_equations; lia).
    destruct (load_in_range m1 (pos - D + k)) as [v Hv]; [lia|].
    rewrite Hv. simpl. rewrite store_in_range by lia. simpl.
    rewrite Rotate8b_pat4 by done.
    replace (pos - D + k + 1) with (pos - D + (k + 1)) by lia.
    replace (pos + k + 1) with (pos + (k + 1)) by lia.
    replace (L - k - 1) with (L - (k + 1)) by lia.
    destruct (IH (k + 1) (<[Z.to_nat (pos + k) := v]> m1) b1 b2 b3 b0)
      as (m2 & k' & c0 & c1 & c2 & c3 & Hal2 & Hk' & Hrest);
      try done; try lia.
    { now apply pat_at_rotate. }
    { apply (run_length_snoc_copy m m1 _ pos D k v); try done; try lia.
      apply store_in_range. lia. }
    exists m2, k', c0, c1, c2, c3. split; [done|]. split; [lia|done].
Qed.

Lemma shiftr_2 x : Z.shiftr x 2 = x / 4.
Proof. now rewrite Z.shiftr_div_pow2 by lia. Qed.

Lemma shiftl_2 x : Z.shiftl x 2 = 4 * x.
Proof. rewrite Z.shiftl_mul_pow2 by lia. lia. Qed.

Lemma CopySmallPattern8b_run_length base m pos D L b0 b1 b2 b3 :
  1 <= D <= pos -> 4 mod D = 0 -> 3 <= L ->
  pos + L <= Z.of_nat (length m) ->
  is_uint8 b0 -> is_uint8 b1 -> is_uint8 b2 -> is_uint8 b3 ->
  pat_at m pos D 0 b0 b1 b2 b3 ->
  exists m',
    CopySmallPattern8b base m (pos - D) pos L (pat4 b0 b1 b2 b3) = Some m' /\
    run_length m m' pos D L.
Proof.
  intros HD H4 HL Hlen H0 H1 H2 H3 Hpat.
  unfold CopySmallPattern8b.
  pose proof (Z.mod_pos_bound (- (base + pos + 0)) 4 ltac:(lia)) as Hr4.
  destruct (align8b_run_length base m pos D L 4 0 m b0 b1 b2 b3)
    as (m2 & k & c0 & c1 & c2 & c3 & Hal & Hk & C0 & C1 & C2 & C3 & Hp & Hr);
    try done; try lia.
  { apply run_length_0. }
  rewrite !Z.add_0_r, Z.sub_0_r in Hal. rewrite Hal. simpl.
  rewrite shiftr_2, shiftl_2.
  assert (Hn : 0 <= (L - k) / 4) by (apply Z.div_pos; lia).
  pose proof (Z.div_mod (L - k) 4 ltac:(lia)) as Hdm.
  pose proof (Z.mod_pos_bound (L - k) 4 ltac:(lia)) as Hmb.
  destruct (fill32_run_length m pos D k c0 c1 c2 c3
              (Z.to_nat ((L - k) / 4)) m2 0)
    as (m3 & Hf & Hr3); try done; try lia.
  { eapply run_length_cast; [|exact Hr]. lia. }
  rewrite Hf. simpl. rewrite Z.max_r by done.
  rewrite copy_fwd_shift.
  rewrite Z2Nat.id in Hr3 by done.
  destruct (copy_fwd_run_length m pos D
              (Z.to_nat (L - k - 4 * ((L - k) / 4))) m3
              (k + 4 * ((L - k) / 4)))
    as (m4 & Hc & Hr4'); try done; try lia.
  { eapply run_length_cast; [|exact Hr3]. lia. }
  exists m4. split; [done|].
  eapply run_length_cast; [|exact Hr4']. lia.
Qed.

Lemma load_uint8 m i v : Forall is_uint8 m -> load m i = Some v -> is_uint8 v.
Proof.
  intros Hm [_ Hv]%load_Some. eapply (proj1 (Forall_lookup _ _) Hm); eauto.
Qed.

Lemma load_range_2 m p a b :
  load m p = Some a -> load m (p + 1) = Some b ->
  load_range m p 2 = Some [a; b].
Proof. intros Ha Hb. simpl. rewrite Ha, Hb. done. Qed.

Lemma load_range_4 m p a b c d :
  load m p = Some a -> load m (p + 1) = Some b ->
  load m (p + 1 + 1) = Some c -> load m (p + 1 + 1 + 1) = Some d ->
  load_range m p 4 = Some [a; b; c; d].
Proof. intros Ha Hb Hc Hd. simpl. rewrite Ha, Hb, Hc, Hd. done. Qed.

Lemma option_bind_Some {A B} (f : A -> option B) x : Some x ≫= f = f x.
Proof. done. Qed.

Lemma CopyBlock8b_run_length base m pos D L :
  1 <= D -> D < L -> D <= pos ->
  pos + L <= Z.of_nat (length m) ->
  Forall is_uint8 m ->
  exists m', CopyBlock8b base m pos D L = Some m' /\
             run_length m m' pos D L.
Proof.
  intros HD HDL Hpos Hlen Hm. unfold CopyBlock8b.
  assert (Hcopy : exists m',
            (if D >=? L then memcpy m pos (pos - D) L
             else copy_fwd (Z.to_nat L) m pos (pos - D) 0) = Some m' /\
            run_length m m' pos D L).
  { destruct (Z.geb_spec D L); [lia|].
    destruct (copy_fwd_run_length m pos D (Z.to_nat L) m 0)
      as (m' & Hc & Hr); try lia.
    { apply run_length_0. }
    exists m'. split; [done|]. rewrite Z2Nat.id in Hr by lia. done. }
  destruct (Z.geb_spec L 8) as [HL8|]; [|done].
  destruct (Z.eqb_spec D 1) as [->|Hn1];
    [|destruct (Z.eqb_spec D 2) as [->|Hn2];
      [|destruct (Z.eqb_spec D 4) as [->|Hn4]; [|done]]].
  - destruct (load_in_range m (pos - 1)) as [s0 Hs0]; [lia|].
    pose proof (load_uint8 _ _ _ Hm Hs0) as U0.
    rewrite Hs0, option_bind_Some, le_bytes_1 by done.
    apply CopySmallPattern8b_run_length; try done; try lia.
    unfold pat_at. rewrite !Z.mod_1_r, Z.add_0_r. done.
  - destruct (load_in_range m (pos - 2)) as [s0 Hs0]; [lia|].
    destruct (load_in_range m (pos - 2 + 1)) as [s1 Hs1]; [lia|].
    pose proof (load_uint8 _ _ _ Hm Hs0) as U0.
    pose proof (load_uint8 _ _ _ Hm Hs1) as U1.
    rewrite (load_range_2 _ _ _ _ Hs0 Hs1), option_bind_Some.
    rewrite le_bytes_2 by done.
    apply CopySmallPattern8b_run_length; try done; try lia.
    unfold pat_at.
    change (0 mod 2) with 0. change ((0 + 1) mod 2) with 1.
    change ((0 + 2) mod 2) with 0. change ((0 + 3) mod 2) with 1.
    rewrite Z.add_0_r. done.
  - destruct (load_in_range m (pos - 4)) as [s0 Hs0]; [lia|].
    destruct (load_in_range m (pos - 4 + 1)) as [s1 Hs1]; [lia|].
    destruct (load_in_range m (pos - 4 + 1 + 1)) as [s2 Hs2]; [lia|].
    destruct (load_in_range m (pos - 4 + 1 + 1 + 1)) as [s3 Hs3]; [lia|].
    pose proof (load_uint8 _ _ _ Hm Hs0) as U0.
    pose proof (load_uint8 _ _ _ Hm Hs1) as U1.
    pose proof (load_uint8 _ _ _ Hm Hs2) as U2.
    pose proof (load_uint8 _ _ _ Hm Hs3) as U3.
    rewrite (load_range_4 _ _ _ _ _ _ Hs0 Hs1 Hs2 Hs3), option_bind_Some.
    rewrite le_bytes_4 by done.
    apply CopySmallPattern8b_run_length; try done; try lia.
    unfold pat_at.
    change (0 mod 4) with 0. change ((0 + 1) mod 4) with 1.
    change ((0 + 2) mod 4) with 2. change ((0 + 3) mod 4) with 3.
    rewrite Z.add_0_r.
    replace (pos - 4 + 2) with (pos - 4 + 1 + 1) by lia.
    replace (pos - 4 + 3) with (pos - 4 + 1 + 1 + 1) by lia. done.
Qed.

(** C1.  A back-reference copy of length [L] at distance [D], with
    [1 <= D < L] and inside the raster as the decode loop checks it
    ([D <= pos], [pos + L] within the raster), leaves the run-length
    pattern: pixel [pos + i] holds what pixel [pos - D + (i mod D)] held
    before the copy, for every [i] in [[0, L)]; the raster keeps its size
    and nothing outside [[pos, pos + L)] changes.  This holds for the
    32-bit engine (64-bit pattern path for [D <= 2], [L >= 4], or the
    element loop) and for the 8-bit engine (32-bit pattern path for
    [D] in {1, 2, 4}, [L >= 8], or the element loop), at every alignment
    [base] of the raster. *)
Theorem CopyBlock_run_length_pattern base m pos D L :
  1 <= D -> D < L -> D <= pos -> pos + L <= Z.of_nat (length m) ->
  (Forall is_uint32 m ->
   exists m', CopyBlock32b base m pos D L = Some m' /\
     length m' = length m /\
     (forall i, 0 <= i < L ->
        load m' (pos + i) = load m (pos - D + i mod D)) /\
     (forall j, j < pos \/ pos + L <= j -> load m' j = load m j)) /\
  (Forall is_uint8 m ->
   exists m', CopyBlock8b base m pos D L = Some m' /\
     length m' = length m /\
     (forall i, 0 <= i < L ->
        load m' (pos + i) = load m (pos - D + i mod D)) /\
     (forall j, j < pos \/ pos + L <= j -> load m' j = load m j)).
Proof.
  intros HD HDL Hpos Hlen. split; intros Hm.
  - now apply CopyBlock32b_run_length.
  - now apply CopyBlock8b_run_length.
Qed.

(** ** Prefix symbols and plane codes *)

Section PrefixProperties.
Context {BR : Type} `{BitReaderOps BR}.

Lemma GetCopyDistance_small (k : Z) (br : BR) :
  0 <= k < 4 -> GetCopyDistance k br = (k + 1, br).
Proof.
  intros Hk. unfold GetCopyDistance.
  destruct (Z.ltb_spec k 4); [|lia].
  rewrite to_int32_small by lia. done.
Qed.

Lemma GetCopyDistance_large (k : Z) (br : BR) :
  4 <= k < NUM_DISTANCE_CODES ->
  GetCopyDistance k br =
    (Z.shiftl (2 + Z.land k 1) (Z.shiftr (k - 2) 1)
     + fst (VP8LReadBits br (Z.shiftr (k - 2) 1)) + 1,
     snd (VP8LReadBits br (Z.shiftr (k - 2) 1))) /\
  1 <= Z.shiftr (k - 2) 1 <= 18 /\
  2 <= Z.shiftl (2 + Z.land k 1) (Z.shiftr (k - 2) 1) <= 3 * 2 ^ 18.
Proof.
  unfold NUM_DISTANCE_CODES. intros Hk. unfold GetCopyDistance.
  destruct (Z.ltb_spec k 4); [lia|].
  set (extra := Z.shiftr (k - 2) 1).
  pose proof (VP8LReadBits_range br extra) as Hr.
  destruct (VP8LReadBits br extra) as [v br']. simpl in *.
  assert (Hex : 1 <= extra <= 18).
  { unfold extra. rewrite shiftr_1. Z.div_mod_to_equations. lia. }
  assert (Hb : 0 <= Z.land k 1 <= 1).
  { rewrite land_1. Z.div_mod_to_equations. lia. }
  assert (Hp : 2 <= 2 ^ extra <= 2 ^ 18).
  { split.
    - change 2 with (2 ^ 1) at 1. apply Z.pow_le_mono_r; lia.
    - apply Z.pow_le_mono_r; lia. }
  rewrite Z.shiftl_mul_pow2 by lia.
  change (2 ^ 18) with 262144 in *.
  rewrite (to_int32_small ((2 + Z.land k 1) * 2 ^ extra)) by nia.
  rewrite to_uint32_small by nia.
  rewrite to_int32_small by nia.
  split; [done|]. split; [done|]. nia.
Qed.

(** A decoded length or distance code is at least 1 and fits an [int]. *)
Lemma GetCopyDistance_pos (k : Z) (br : BR) :
  0 <= k < NUM_DISTANCE_CODES ->
  1 <= fst (GetCopyDistance k br) < 2 ^ 31.
Proof.
  intros Hk. destruct (Z.lt_ge_cases k 4) as [Hlt|Hge].
  - rewrite GetCopyDistance_small by lia. simpl.
    unfold NUM_DISTANCE_CODES in Hk. lia.
  - destruct (GetCopyDistance_large k br) as (-> & Hex & Hoff); [lia|].
    simpl. pose proof (VP8LReadBits_range br (Z.shiftr (k - 2) 1)) as Hr.
    assert (Hp : 2 ^ Z.shiftr (k - 2) 1 <= 2 ^ 18)
      by (apply Z.pow_le_mono_r; lia).
    change (2 ^ 18) with 262144 in *. lia.
Qed.

(** C5.  For a length or distance prefix symbol [k] (the distance
    alphabet has 40 symbols, the length alphabet 24): if [k < 4] the
    value is [k + 1] and no bit is read; otherwise
    [extra = (k - 2) >> 1] bits [e] are read and the value is
    [((2 + (k & 1)) << extra) + e + 1].  Lengths are decoded by the same
    function. *)
Theorem GetCopyDistance_prefix_value (k : Z) (br : BR) :
  0 <= k < NUM_DISTANCE_CODES ->
  GetCopyLength k br = GetCopyDistance k br /\
  (k < 4 -> GetCopyDistance k br = (k + 1, br)) /\
  (4 <= k ->
   let extra := Z.shiftr (k - 2) 1 in
   let e := fst (VP8LReadBits br extra) in
   GetCopyDistance k br =
     (Z.shiftl (2 + Z.land k 1) extra + e + 1,
      snd (VP8LReadBits br extra))).
Proof.
  intros Hk. split; [done|]. split.
  - intros Hlt. apply GetCopyDistance_small. lia.
  - intros Hge. apply GetCopyDistance_large. lia.
Qed.
End PrefixProperties.

Lemma kCodeToPlane_range : Forall (fun d => 0 <= d < 128) kCodeToPlane.
Proof. unfold kCodeToPlane. repeat (constructor; [lia|]). constructor. Qed.

(** C6.  For every raster width and every distance code [code >= 1]:
    codes 1..120 index the 120-entry table [kCodeToPlane], whose entry
    packs the offsets [y = entry >> 4] and [x = entry & 0xf], and yield
    [y * width + (8 - x)] clamped to at least 1; every code above 120
    yields [code - 120].  (Widths up to 2^28 in absolute value keep the
    [int] arithmetic exact; a raster is at most 16384 wide.) *)
Theorem PlaneCodeToDistance_table_or_linear (xsize code : Z) :
  Z.abs xsize <= 2 ^ 28 -> 1 <= code < 2 ^ 31 ->
  length kCodeToPlane = 120%nat /\
  (code <= 120 ->
   exists entry,
     load kCodeToPlane (code - 1) = Some entry /\
     PlaneCodeToDistance xsize code =
       Some (Z.max 1 (Z.shiftr entry 4 * xsize + (8 - Z.land entry 0xf)))) /\
  (120 < code -> PlaneCodeToDistance xsize code = Some (code - 120)).
Proof.
  intros Hx Hc. split; [done|]. unfold PlaneCodeToDistance.
  unfold CODE_TO_PLANE_CODES. split.
  - intros Hle. destruct (Z.gtb_spec code 120); [lia|].
    destruct (load_in_range kCodeToPlane (code - 1)) as [d Hd];
      [simpl; lia|].
    exists d. split; [done|]. rewrite Hd, option_bind_Some.
    assert (Hr : 0 <= d < 128).
    { apply load_Some in Hd as [_ Hd].
      eapply (proj1 (Forall_lookup _ _) kCodeToPlane_range); eauto. }
    assert (Hy : 0 <= Z.shiftr d 4 <= 7).
    { rewrite Z.shiftr_div_pow2 by lia. change (2 ^ 4) with 16.
      Z.div_mod_to_equations. lia. }
    assert (Hxo : 0 <= Z.land d 0xf <= 15).
    { replace (Z.land d 15) with (d mod 16)
        by (symmetry; apply (Z.land_ones d 4); lia).
      Z.div_mod_to_equations. lia. }
    change (2 ^ 28) with 268435456 in Hx.
    rewrite (to_int32_small (Z.shiftr d 4 * xsize)) by nia.
    rewrite to_int32_small by nia.
    f_equal. destruct (Z.geb_spec (Z.shiftr d 4 * xsize + (8 - Z.land d 15)) 1);
      lia.
  - intros Hgt. destruct (Z.gtb_spec code 120); [|lia].
    rewrite to_int32_small by lia. done.
Qed.

(** ** The main loop *)

(** Inversion of an equation [e = Some _] on code written in the option
    monad. *)
Ltac inv_opt H :=
  repeat first
    [ discriminate H
    | match type of H with
      | Some _ = Some _ => injection H as H
      | (?m ≫= _) = Some _ =>
          let E := fresh "E" in
          destruct m eqn:E;
          [rewrite option_bind_Some in H; inv_opt E | discriminate H]
      | (_ <$> ?m) = Some _ =>
          let E := fresh "E" in
          destruct m eqn:E; [simpl in H; inv_opt E | discriminate H]
      | (let '(_, _) := ?p in _) = Some _ =>
          let E := fresh "E" in destruct p eqn:E
      | (if ?b then _ else _) = Some _ =>
          let E := fresh "E" in destruct b eqn:E
      | (match ?x with _ => _ end) = Some _ =>
          let E := fresh "E" in destruct x eqn:E
      end ].

Section LoopProperties.
Context {BR : Type} `{BitReaderOps BR}.

Local Abbreviation Decoder := (VP8LDecoder BR).

(** A run of the loop: [Trace env st sts st'] when the rounds started at
    the loop heads [sts] (in order, beginning with [st]) all came back to
    the loop test, the last one leaving the variables at [st']. *)
Inductive Trace (env : LoopEnv BR)
  : LoopState BR -> list (LoopState BR) -> LoopState BR -> Prop :=
  | Trace_nil st : Trace env st [] st
  | Trace_cons st st1 sts st' :
      ls_src st < le_src_last env ->
      loop_body env st = Some (Continue st1) ->
      Trace env st1 sts st' ->
      Trace env st (st :: sts) st'.

(** The first [n] rounds of a run, computed: the loop heads and the
    variables after the last of them; [None] unless all [n] rounds come
    back to the loop test. *)
Fixpoint run_rounds (n : nat) (env : LoopEnv BR) (st : LoopState BR)
  : option (list (LoopState BR) * LoopState BR) :=
  match n with
  | O => Some ([], st)
  | S n' =>
      if ls_src st <? le_src_last env then
        match loop_body env st with
        | Some (Continue st1) =>
            '(sts, st') ← run_rounds n' env st1;
            Some (st :: sts, st')
        | _ => None
        end
      else None
  end.

Lemma run_rounds_Trace env : forall n st sts st',
  run_rounds n env st = Some (sts, st') -> Trace env st sts st'.
Proof.
  induction n as [|n IH]; intros st sts st' Hr; simpl in Hr.
  - injection Hr as <- <-. apply Trace_nil.
  - destruct (Z.ltb_spec (ls_src st) (le_src_last env)) as [Hlt|];
      [|discriminate].
    destruct (loop_body env st) as [[st1| |]|] eqn:Hb; try discriminate.
    destruct (run_rounds n env st1) as [[sts1 st1']|] eqn:Hn;
      [|discriminate].
    rewrite option_bind_Some in Hr. injection Hr as <- <-.
    eapply Trace_cons; eauto.
Qed.

Lemma read_backward_ref_length env g code br L D br' :
  read_backward_ref env g code br = Some (L, D, br') ->
  NUM_LITERAL_CODES <= code < NUM_LITERAL_CODES + NUM_DISTANCE_CODES ->
  1 <= L < 2 ^ 31.
Proof.
  unfold read_backward_ref, GetCopyLength. intros Hr Hc.
  pose proof (GetCopyDistance_pos (code - NUM_LITERAL_CODES) br
                ltac:(lia)) as Hpos.
  destruct (GetCopyDistance (code - NUM_LITERAL_CODES) br) as [len br1].
  inv_opt Hr. simpl in Hpos. subst. done.
Qed.

Lemma AdvanceByOne_src env (st : LoopState BR) dec data g lc st' :
  AdvanceByOne env st dec data g lc = Some st' ->
  ls_src st' = ls_src st + 1 /\ ls_data st' = data /\
  ls_next_sync_row st' = ls_next_sync_row st.
Proof.
  unfold AdvanceByOne. intros Ha. inv_opt Ha; subst st'; simpl; done.
Qed.

(** Every round that comes back to the loop test has moved [src]. *)
Lemma loop_body_progress env st st' :
  le_len_code_limit env <= NUM_LITERAL_CODES + NUM_DISTANCE_CODES ->
  loop_body env st = Some (Continue st') ->
  ls_src st < ls_src st'.
Proof.
  intros Hlim Hb. unfold loop_body in Hb. inv_opt Hb; simplify_eq;
    try match goal with
        | Ha : AdvanceByOne _ _ _ _ _ _ = Some _ |- _ =>
            apply AdvanceByOne_src in Ha as (-> & _); simpl; lia
        end;
    simpl;
    match goal with
    | Hr : read_backward_ref _ _ _ _ = Some _,
      H1 : (_ <? NUM_LITERAL_CODES) = false,
      H2 : (_ <? le_len_code_limit _) = true |- _ =>
        apply Z.ltb_ge in H1; apply Z.ltb_lt in H2;
        apply read_backward_ref_length in Hr; lia
    end.
Qed.

Lemma main_loop_eq fuel env st :
  main_loop fuel env st =
  if ls_src st <? le_src_last env then
    match fuel with
    | O => None
    | S fuel' =>
        o ← loop_body env st;
        match o with
        | Continue st' => main_loop fuel' env st'
        | Break st' => Some (Break st')
        | Error st' => Some (Error st')
        end
    end
  else Some (Continue st).
Proof. destruct fuel; reflexivity. Qed.

(** With [src_last - src] rounds of fuel the loop follows any run. *)
Lemma main_loop_trace env st sts st' :
  le_len_code_limit env <= NUM_LITERAL_CODES + NUM_DISTANCE_CODES ->
  Trace env st sts st' ->
  forall fuel,
    le_src_last env - ls_src st <= Z.of_nat fuel ->
    exists fuel',
      le_src_last env - ls_src st' <= Z.of_nat fuel' /\
      main_loop fuel env st = main_loop fuel' env st'.
Proof.
  intros Hlim Ht. induction Ht as [st|st st1 sts st' Hlt Hb Ht IH];
    intros fuel Hfuel.
  - exists fuel. done.
  - pose proof (loop_body_progress _ _ _ Hlim Hb) as Hp.
    destruct fuel as [|fuel]; [lia|].
    destruct (IH fuel) as (fuel' & Hf' & Heq); [lia|].
    exists fuel'. split; [done|].
    rewrite main_loop_eq. destruct (Z.ltb_spec (ls_src st) (le_src_last env));
      [|lia].
    rewrite Hb, option_bind_Some. done.
Qed.

(** A run that ends in a round which does not come back decides the
    result of the loop. *)
Lemma main_loop_stops env st sts st' o :
  le_len_code_limit env <= NUM_LITERAL_CODES + NUM_DISTANCE_CODES ->
  Trace env st sts st' ->
  ls_src st' < le_src_last env ->
  loop_body env st' = Some o ->
  (forall st'', o <> Continue st'') ->
  main_loop (Z.to_nat (le_src_last env - ls_src st)) env st = Some o.
Proof.
  intros Hlim Ht Hlt Hb Ho.
  destruct (main_loop_trace env st sts st' Hlim Ht
              (Z.to_nat (le_src_last env - ls_src st)))
    as (fuel' & Hf' & ->); [lia|].
  rewrite main_loop_eq.
  destruct (Z.ltb_spec (ls_src st') (le_src_last env)); [|lia].
  destruct fuel' as [|fuel']; [lia|].
  rewrite Hb, option_bind_Some.
  destruct o; [exfalso; eapply Ho; done | done | done].
Qed.

Lemma main_loop_finishes env st sts st' :
  le_len_code_limit env <= NUM_LITERAL_CODES + NUM_DISTANCE_CODES ->
  Trace env st sts st' ->
  le_src_last env <= ls_src st' ->
  main_loop (Z.to_nat (le_src_last env - ls_src st)) env st
  = Some (Continue st').
Proof.
  intros Hlim Ht Hge.
  destruct (main_loop_trace env st sts st' Hlim Ht
              (Z.to_nat (le_src_last env - ls_src st)))
    as (fuel' & Hf' & ->); [lia|].
  rewrite main_loop_eq.
  destruct (Z.ltb_spec (ls_src st') (le_src_last env)); [lia|done].
Qed.

Lemma DecodeImageData_unfold (dec : Decoder) base data width height last_row
    process_func st0 o :
  width <> 0 ->
  loop_init dec data width = Some st0 ->
  main_loop
    (Z.to_nat (le_src_last (loop_env dec base width height last_row
                                     process_func) - ls_src st0))
    (loop_env dec base width height last_row process_func) st0 = Some o ->
  DecodeImageData dec base data width height last_row process_func =
  match o with
  | Error st => Some (decode_error st)
  | Continue st | Break st =>
      loop_exit (loop_env dec base width height last_row process_func) st
  end.
Proof.
  intros Hw Hinit Hloop. unfold DecodeImageData.
  destruct (Z.eqb_spec width 0); [done|].
  rewrite Hinit, option_bind_Some, Hloop, option_bind_Some. done.
Qed.

Lemma loop_env_len_code_limit (dec : Decoder) base width height last_row pf :
  le_len_code_limit (loop_env dec base width height last_row pf)
  <= NUM_LITERAL_CODES + NUM_DISTANCE_CODES.
Proof. simpl. unfold NUM_LENGTH_CODES, NUM_DISTANCE_CODES. lia. Qed.

(** The three ways a round ends without coming back to the loop test,
    in terms of what was read. *)
Lemma loop_body_green_eos env (st : LoopState BR) dec1 nsr g code br1 :
  loop_head env st = Some (dec1, nsr, g) ->
  ReadSymbol (htrees g GREEN) (VP8LFillBitWindow (br_ dec1))
    = Some (code, br1) ->
  eos_ br1 = true ->
  exists st', loop_body env st = Some (Break st') /\
              ls_dec st' = set_br dec1 br1 /\ ls_data st' = ls_data st /\
              ls_src st' = ls_src st.
Proof.
  intros Hh Hg He. unfold loop_body.
  rewrite Hh, option_bind_Some. cbv beta iota.
  rewrite Hg, option_bind_Some. cbv beta iota. rewrite He.
  eexists; split; [done|]. done.
Qed.

Lemma loop_body_literal_eos env (st : LoopState BR) dec1 nsr g code br1
    red blue alpha br2 :
  loop_head env st = Some (dec1, nsr, g) ->
  ReadSymbol (htrees g GREEN) (VP8LFillBitWindow (br_ dec1))
    = Some (code, br1) ->
  eos_ br1 = false ->
  code < NUM_LITERAL_CODES ->
  is_trivial_literal g = false ->
  read_rba g br1 = Some (red, blue, alpha, br2) ->
  eos_ br2 = true ->
  exists st', loop_body env st = Some (Break st') /\
              ls_dec st' = set_br dec1 br2 /\ ls_data st' = ls_data st /\
              ls_src st' = ls_src st.
Proof.
  intros Hh Hg He Hc Ht Hr He2. unfold loop_body.
  rewrite Hh, option_bind_Some. cbv beta iota.
  rewrite Hg, option_bind_Some. cbv beta iota. rewrite He.
  destruct (Z.ltb_spec code NUM_LITERAL_CODES); [|lia].
  rewrite Ht, Hr, option_bind_Some. cbv beta iota. rewrite He2.
  eexists; split; [done|]. done.
Qed.

Lemma loop_body_backref env (st : LoopState BR) dec1 nsr g code br1
    L D br2 :
  loop_head env st = Some (dec1, nsr, g) ->
  ReadSymbol (htrees g GREEN) (VP8LFillBitWindow (br_ dec1))
    = Some (code, br1) ->
  eos_ br1 = false ->
  NUM_LITERAL_CODES <= code < le_len_code_limit env ->
  read_backward_ref env g code br1 = Some (L, D, br2) ->
  (eos_ br2 = true ->
   exists st', loop_body env st = Some (Break st') /\
               ls_dec st' = set_br dec1 br2 /\ ls_data st' = ls_data st /\
               ls_src st' = ls_src st) /\
  (eos_ br2 = false ->
   ls_src st < D \/ le_src_end env - ls_src st < L ->
   exists st', loop_body env st = Some (Error st') /\
               ls_dec st' = set_br dec1 br2 /\ ls_data st' = ls_data st).
Proof.
  intros Hh Hg He Hc Hr. unfold loop_body.
  rewrite Hh, option_bind_Some. cbv beta iota.
  rewrite Hg, option_bind_Some. cbv beta iota. rewrite He.
  destruct (Z.ltb_spec code NUM_LITERAL_CODES); [lia|].
  destruct (Z.ltb_spec code (le_len_code_limit env)); [|lia].
  rewrite Hr, option_bind_Some. cbv beta iota.
  split.
  - intros ->. eexists; split; [done|]. done.
  - intros -> Hbad.
    assert ((ls_src st <? D) || (le_src_end env - ls_src st <? L) = true)
      as ->.
    { apply orb_true_iff. rewrite !Z.ltb_lt. done. }
    eexists; split; [done|]. done.
Qed.

Lemma loop_body_bad_symbol env (st : LoopState BR) dec1 nsr g code br1 :
  loop_head env st = Some (dec1, nsr, g) ->
  ReadSymbol (htrees g GREEN) (VP8LFillBitWindow (br_ dec1))
    = Some (code, br1) ->
  eos_ br1 = false ->
  NUM_LITERAL_CODES <= code -> le_len_code_limit env <= code ->
  le_color_cache_limit env <= code ->
  exists st', loop_body env st = Some (Error st') /\
              ls_dec st' = set_br dec1 br1 /\ ls_data st' = ls_data st.
Proof.
  intros Hh Hg He H1 H2 H3. unfold loop_body.
  rewrite Hh, option_bind_Some. cbv beta iota.
  rewrite Hg, option_bind_Some. cbv beta iota. rewrite He.
  destruct (Z.ltb_spec code NUM_LITERAL_CODES); [lia|].
  destruct (Z.ltb_spec code (le_len_code_limit env)); [lia|].
  destruct (Z.ltb_spec code (le_color_cache_limit env)); [lia|].
  eexists; split; [done|]. done.
Qed.

(** Without incremental mode, a round that saw the end of the stream
    makes the call fail. *)
Lemma loop_exit_eos_not_incremental env (st : LoopState BR) :
  incremental_ (ls_dec st) = false ->
  eos_ (br_ (ls_dec st)) = true ->
  loop_exit env st = Some (decode_error st).
Proof. intros Hi He. unfold loop_exit. rewrite Hi, He. done. Qed.

(** C2.  During 32-bit entropy decoding, let the loop have come to a
    round (at loop head [st], pixel position [ls_src st]) in which the
    green symbol [code] is read.  If
    - the round reads a back-reference whose distance [D] exceeds the
      pixels already decoded or whose length [L] exceeds the pixels left
      to the end of the raster, or
    - the symbol is outside all valid ranges (not below 256 + 24, the
      literals and length prefixes, and not below
      256 + 24 + color_cache_size, the cache keys), or
    - the decoder is not in incremental mode and the end of the stream is
      reached in this round (after the green symbol, after the red, blue
      and alpha symbols of a literal, or after the reads of a
      back-reference),
    then DecodeImageData returns 0 and the status is BITSTREAM_ERROR.
    In the first two cases the symbols were really read: the reader had
    not hit the end of the stream. *)
Theorem DecodeImageData_bitstream_error
    (dec : Decoder) (base : Z) (data : list Z) (width height last_row : Z)
    (process_func : option (ProcessRowsFunc BR))
    (st0 : LoopState BR) (sts : list (LoopState BR)) (st : LoopState BR)
    (dec1 : Decoder) (next_sync_row : Z) (g : HTreeGroup) (code : Z)
    (br1 : BR) :
  let env := loop_env dec base width height last_row process_func in
  width <> 0 ->
  loop_init dec data width = Some st0 ->
  Trace env st0 sts st ->
  ls_src st < le_src_last env ->
  loop_head env st = Some (dec1, next_sync_row, g) ->
  ReadSymbol (htrees g GREEN) (VP8LFillBitWindow (br_ dec1))
    = Some (code, br1) ->
  (eos_ br1 = false /\
   NUM_LITERAL_CODES <= code < NUM_LITERAL_CODES + NUM_LENGTH_CODES /\
   exists L D br2,
     read_backward_ref env g code br1 = Some (L, D, br2) /\
     eos_ br2 = false /\
     (D > ls_src st \/ L > width * height - ls_src st))
  \/
  (eos_ br1 = false /\
   NUM_LITERAL_CODES + NUM_LENGTH_CODES <= code /\
   NUM_LITERAL_CODES + NUM_LENGTH_CODES + color_cache_size_ (hdr_ dec)
   <= code)
  \/
  (incremental_ dec1 = false /\
   (eos_ br1 = true \/
    (eos_ br1 = false /\ code < NUM_LITERAL_CODES /\
     is_trivial_literal g = false /\
     exists red blue alpha br2,
       read_rba g br1 = Some (red, blue, alpha, br2) /\ eos_ br2 = true) \/
    (eos_ br1 = false /\
     NUM_LITERAL_CODES <= code < NUM_LITERAL_CODES + NUM_LENGTH_CODES /\
     exists L D br2,
       read_backward_ref env g code br1 = Some (L, D, br2) /\
       eos_ br2 = true))) ->
  exists dec' data',
    DecodeImageData dec base data width height last_row process_func
      = Some (0, dec', data') /\
    status_ dec' = VP8_STATUS_BITSTREAM_ERROR.
Proof.
  intros env Hw Hinit Ht Hlt Hh Hg Hcase.
  pose proof (loop_env_len_code_limit dec base width height last_row
                process_func) as Hlim. fold env in Hlim.
  assert (Hstop : forall o st',
            loop_body env st = Some o ->
            (o = Error st' \/
             o = Break st' /\ incremental_ (ls_dec st') = false /\
             eos_ (br_ (ls_dec st')) = true) ->
            exists dec' data',
              DecodeImageData dec base data width height last_row
                process_func = Some (0, dec', data') /\
              status_ dec' = VP8_STATUS_BITSTREAM_ERROR).
  { intros o st' Hb Ho.
    assert (Hm : main_loop (Z.to_nat (le_src_last env - ls_src st0)) env st0
                 = Some o).
    { eapply main_loop_stops; eauto.
      intros st'' ->. destruct Ho as [?|[? _]]; discriminate. }
    rewrite (DecodeImageData_unfold _ _ _ _ _ _ _ _ _ Hw Hinit Hm).
    destruct Ho as [->|(-> & Hi & He)].
    - eexists _, _. split; done.
    - rewrite loop_exit_eos_not_incremental by done.
      eexists _, _. split; done. }
  destruct Hcase as [(He & Hc & L & D & br2 & Hr & He2 & Hbad)
                    |[(He & Hc0 & Hc)
                     |(Hinc & [He|[(He & Hc & Htr & r & b & a & br2 & Hr & He2)
                                  |(He & Hc & L & D & br2 & Hr & He2)]])]].
  - destruct (loop_body_backref env st dec1 next_sync_row g code br1 L D br2)
      as [_ Herr]; try done.
    destruct Herr as (st' & Hb & _); [done | simpl; lia |].
    eapply Hstop; eauto.
  - destruct (loop_body_bad_symbol env st dec1 next_sync_row g code br1)
      as (st' & Hb & _); try done.
    + unfold NUM_LENGTH_CODES in *. lia.
    + eapply Hstop; eauto.
  - destruct (loop_body_green_eos env st dec1 next_sync_row g code br1)
      as (st' & Hb & Hd & _); try done.
    eapply Hstop; eauto. right. rewrite Hd. done.
  - destruct (loop_body_literal_eos env st dec1 next_sync_row g code br1
                r b a br2) as (st' & Hb & Hd & _); try done.
    eapply Hstop; eauto. right. rewrite Hd. done.
  - destruct (loop_body_backref env st dec1 next_sync_row g code br1 L D br2)
      as [Hbrk _]; try done.
    destruct Hbrk as (st' & Hb & Hd & _); [done|].
    eapply Hstop; eauto. right. rewrite Hd. done.
Qed.

(** ** The suspend snapshot *)

Definition cache_shape (cc : VP8LColorCache) : Z * nat :=
  (hash_bits_ cc, length (colors_ cc)).

(** [stable d d']: from [d] to [d'] the snapshot, the mode and the shape
    of the color cache did not change. *)
Definition stable (d d' : Decoder) : Prop :=
  saved_br_ d' = saved_br_ d /\
  saved_last_pixel_ d' = saved_last_pixel_ d /\
  saved_color_cache_ (hdr_ d') = saved_color_cache_ (hdr_ d) /\
  incremental_ d' = incremental_ d /\
  color_cache_size_ (hdr_ d') = color_cache_size_ (hdr_ d) /\
  cache_shape (color_cache_ (hdr_ d')) = cache_shape (color_cache_ (hdr_ d)).

Lemma stable_refl d : stable d d.
Proof. repeat split. Qed.

Lemma stable_trans d1 d2 d3 : stable d1 d2 -> stable d2 d3 -> stable d1 d3.
Proof.
  intros (A1 & A2 & A3 & A4 & A5 & A6) (B1 & B2 & B3 & B4 & B5 & B6).
  repeat split; congruence.
Qed.

Lemma stable_set_br d br : stable d (set_br d br).
Proof. repeat split. Qed.

Lemma VP8LColorCacheInsert_shape cc px cc' :
  VP8LColorCacheInsert cc px = Some cc' -> cache_shape cc' = cache_shape cc.
Proof.
  unfold VP8LColorCacheInsert. intros Hi. inv_opt Hi. subst cc'.
  unfold cache_shape. simpl. f_equal. eapply store_length; eauto.
Qed.

Lemma insert_pixels_shape data : forall n cc p cc',
  insert_pixels n cc data p = Some cc' -> cache_shape cc' = cache_shape cc.
Proof.
  induction n as [|n IH]; intros cc p cc' Hi; simpl in Hi.
  - now inv_opt Hi; subst.
  - inv_opt Hi.
    match goal with
    | Hins : VP8LColorCacheInsert _ _ = Some _,
      Hrec : insert_pixels _ _ _ _ = Some _ |- _ =>
        apply IH in Hrec; apply VP8LColorCacheInsert_shape in Hins;
        congruence
    end.
Qed.

Lemma stable_catch_up_cache (d : Decoder) data lc src d' lc' :
  catch_up_cache d data lc src = Some (d', lc') ->
  stable d d' /\ br_ d' = br_ d.
Proof.
  unfold catch_up_cache. intros Hc. inv_opt Hc; simplify_eq.
  - split; [|done]. repeat split; simpl.
    eapply insert_pixels_shape; eauto.
  - split; [apply stable_refl | done].
Qed.

Lemma stable_call_process_func (env : LoopEnv BR) d data row :
  process_func_frame (le_process_func env) ->
  stable d (call_process_func env d data row) /\
  br_ (call_process_func env d data row) = br_ d.
Proof.
  unfold call_process_func, process_func_frame. intros Hf.
  destruct (le_process_func env) as [f|]; [|split; [apply stable_refl|done]].
  destruct (Z.rem row NUM_ARGB_CACHE_ROWS =? 0);
    [|split; [apply stable_refl|done]].
  destruct (Hf d data row) as (F1 & F2 & F3 & F4 & F5).
  split; [|done]. repeat split; congruence.
Qed.

Lemma stable_wrap_rows (env : LoopEnv BR) data : forall fuel d row col d' row' col',
  process_func_frame (le_process_func env) ->
  wrap_rows fuel env d data row col = Some (d', row', col') ->
  stable d d' /\ br_ d' = br_ d.
Proof.
  induction fuel as [|fuel IH]; intros d row col d' row' col' Hf Hw;
    simpl in Hw; inv_opt Hw; simplify_eq; try (split; [apply stable_refl|done]).
  match goal with
  | Hrec : wrap_rows _ _ _ _ _ _ = Some _ |- _ =>
      apply IH in Hrec as [Hs Hb]; [|done]
  end.
  destruct (stable_call_process_func env d data (row + 1) Hf) as [Hs' Hb'].
  split; [eapply stable_trans; eauto | congruence].
Qed.

Lemma stable_AdvanceByOne (env : LoopEnv BR) st d data g lc st' :
  process_func_frame (le_process_func env) ->
  AdvanceByOne env st d data g lc = Some st' ->
  stable d (ls_dec st') /\ br_ (ls_dec st') = br_ d /\
  ls_next_sync_row st' = ls_next_sync_row st.
Proof.
  unfold AdvanceByOne. intros Hf Ha.
  destruct (stable_call_process_func env d data (ls_row st + 1) Hf)
    as [Hs Hb].
  inv_opt Ha; simplify_eq; simpl; try done.
  - match goal with
    | Hc : catch_up_cache _ _ _ _ = Some _ |- _ =>
        apply stable_catch_up_cache in Hc as [Hs2 Hb2]
    end.
    split; [eapply stable_trans; eauto|]. split; [congruence|done].
Qed.

Ltac stable_facts Hf :=
  repeat match goal with
    | Ha : AdvanceByOne _ _ _ _ _ _ = Some _ |- _ =>
        apply (stable_AdvanceByOne _ _ _ _ _ _ _ Hf) in Ha
          as (? & ? & ?)
    | Hw : wrap_rows _ _ _ _ _ _ = Some _ |- _ =>
        apply (stable_wrap_rows _ _ _ _ _ _ _ _ _ Hf) in Hw as (? & ?)
    | Hc : catch_up_cache _ _ _ _ = Some _ |- _ =>
        apply stable_catch_up_cache in Hc as (? & ?)
    end.

(** What a round does to the decoder after its head: the snapshot and
    [next_sync_row] stay, and the reader is past the end of the stream
    exactly when the round breaks out. *)
Lemma loop_body_stable (env : LoopEnv BR) st o :
  process_func_frame (le_process_func env) ->
  loop_body env st = Some o ->
  exists dec1 nsr g,
    loop_head env st = Some (dec1, nsr, g) /\
    stable dec1 (ls_dec (outcome_state o)) /\
    ls_next_sync_row (outcome_state o) = nsr /\
    eos_ (br_ (ls_dec (outcome_state o)))
    = match o with Break _ => true | _ => false end.
Proof.
  intros Hf Hb. unfold loop_body in Hb.
  destruct (loop_head env st) as [[[dec1 nsr] g]|] eqn:Hh;
    [|discriminate].
  rewrite option_bind_Some in Hb. cbv beta iota in Hb.
  exists dec1, nsr, g. split; [done|].
  inv_opt Hb; simplify_eq; stable_facts Hf; simpl in *;
    (split; [|split]);
    try done;
    try (eapply stable_trans; [apply (stable_set_br dec1)|]; eassumption);
    try (eapply stable_trans; [apply (stable_set_br dec1)|];
         eapply stable_trans; eassumption);
    try apply stable_set_br;
    try congruence.
Qed.

(** [synced d s]: the snapshot held by [d] is the state at loop head [s]
    (reader, pixel position and, with a color cache, its colors). *)
Definition synced (d : Decoder) (s : LoopState BR) : Prop :=
  saved_br_ d = br_ (ls_dec s) /\
  saved_last_pixel_ d = ls_src s /\
  (color_cache_size_ (hdr_ d) > 0 ->
   colors_ (saved_color_cache_ (hdr_ d))
   = colors_ (color_cache_ (hdr_ (ls_dec s))) /\
   cache_shape (saved_color_cache_ (hdr_ d))
   = cache_shape (color_cache_ (hdr_ d))).

Lemma synced_stable d d' s : stable d d' -> synced d s -> synced d' s.
Proof.
  intros (A1 & A2 & A3 & A4 & A5 & A6) (S1 & S2 & S3).
  repeat split; try congruence; rewrite A5 in *; rewrite A3;
    destruct (S3 ltac:(done)); congruence.
Qed.

(** The head of a round takes the check-point exactly when
    [row >= next_sync_row], and then records the reader, the pixel
    position and the colors of the cache as they are. *)
Lemma loop_head_sync (env : LoopEnv BR) st dec1 nsr g :
  loop_head env st = Some (dec1, nsr, g) ->
  incremental_ dec1 = incremental_ (ls_dec st) /\
  color_cache_size_ (hdr_ dec1) = color_cache_size_ (hdr_ (ls_dec st)) /\
  color_cache_ (hdr_ dec1) = color_cache_ (hdr_ (ls_dec st)) /\
  br_ dec1 = br_ (ls_dec st) /\
  if ls_row st >=? ls_next_sync_row st
  then nsr = ls_row st + SYNC_EVERY_N_ROWS /\ synced dec1 st
  else nsr = ls_next_sync_row st /\ dec1 = ls_dec st.
Proof.
  unfold loop_head, SaveState. intros Hh.
  destruct (ls_row st >=? ls_next_sync_row st); inv_opt Hh; simplify_eq;
    simpl; repeat split; try done; try lia.
  all: match goal with
       | Hc : VP8LColorCacheCopy _ _ = Some _ |- _ =>
           unfold VP8LColorCacheCopy in Hc; inv_opt Hc; simplify_eq; simpl
       end; try done.
  all: match goal with
       | Hc : _ && _ = true |- _ =>
           apply andb_prop in Hc as [Hb Hl];
           apply Z.eqb_eq in Hb; apply Z.eqb_eq in Hl
       end.
  all: simpl in *; unfold cache_shape; simpl; f_equal; congruence.
Qed.

Lemma loop_body_Break_src (env : LoopEnv BR) st st' :
  loop_body env st = Some (Break st') ->
  ls_src st' = ls_src st /\ ls_data st' = ls_data st.
Proof.
  intros Hb. unfold loop_body in Hb. inv_opt Hb; simplify_eq; try done.
  all: match goal with
       | Ha : AdvanceByOne _ _ _ _ _ _ = Some _ |- _ => clear Ha
       end.
Qed.

(** The invariant of a run in incremental mode: [next_sync_row] is the
    row the rule says, and the snapshot is the latest check-point. *)
Definition sync_inv (st : LoopState BR) (cur : option (LoopState BR))
    (due : Z) : Prop :=
  ls_next_sync_row st = due /\
  match cur with Some s => synced (ls_dec st) s | None => True end.

Lemma loop_body_sync_inv (env : LoopEnv BR) st o cur due :
  process_func_frame (le_process_func env) ->
  loop_body env st = Some o ->
  sync_inv st cur due ->
  sync_inv (outcome_state o) (last_sync due cur [st]).1
           (last_sync due cur [st]).2 /\
  incremental_ (ls_dec (outcome_state o)) = incremental_ (ls_dec st) /\
  color_cache_size_ (hdr_ (ls_dec (outcome_state o)))
  = color_cache_size_ (hdr_ (ls_dec st)).
Proof.
  intros Hf Hb [Hdue Hcur].
  destruct (loop_body_stable env st o Hf Hb)
    as (dec1 & nsr & g & Hh & Hst & Hn & _).
  destruct (loop_head_sync env st dec1 nsr g Hh)
    as (Hi & Hsz & _ & _ & Hsync).
  pose proof Hst as (_ & _ & _ & Hi' & Hsz' & _).
  split; [|split; congruence].
  simpl. rewrite <- Hdue.
  destruct (ls_row st >=? ls_next_sync_row st); simpl.
  - destruct Hsync as [-> Hs]. split; [done|].
    eapply synced_stable; eauto.
  - destruct Hsync as [-> ->]. split; [done|].
    destruct cur; [|done]. eapply synced_stable; eauto.
Qed.

Lemma last_sync_app (due : Z) (cur : option (LoopState BR)) l1 l2 :
  last_sync due cur (l1 ++ l2)
  = last_sync (last_sync due cur l1).2 (last_sync due cur l1).1 l2.
Proof.
  revert due cur. induction l1 as [|st l1 IH]; intros due cur; simpl;
    [done|].
  destruct (ls_row st >=? due); apply IH.
Qed.

Lemma trace_sync_inv (env : LoopEnv BR) st sts st' :
  process_func_frame (le_process_func env) ->
  Trace env st sts st' ->
  forall cur due,
    sync_inv st cur due ->
    sync_inv st' (last_sync due cur sts).1 (last_sync due cur sts).2 /\
    incremental_ (ls_dec st') = incremental_ (ls_dec st) /\
    color_cache_size_ (hdr_ (ls_dec st'))
    = color_cache_size_ (hdr_ (ls_dec st)).
Proof.
  intros Hf Ht. induction Ht as [st|st st1 sts st' Hlt Hb Ht IH];
    intros cur due Hinv.
  - done.
  - destruct (loop_body_sync_inv env st _ cur due Hf Hb Hinv)
      as (Hinv1 & Hi1 & Hs1).
    simpl in Hinv1, Hi1, Hs1.
    destruct (IH _ _ Hinv1) as (Hinv' & Hi' & Hs').
    change (st :: sts) with ([st] ++ sts). rewrite last_sync_app.
    split; [done|]. split; congruence.
Qed.

Lemma last_sync_is_Some (due : Z) (s : LoopState BR) l :
  exists s', (last_sync due (Some s) l).1 = Some s'.
Proof.
  revert due s. induction l as [|st l IH]; intros due s; simpl; [eauto|].
  destruct (ls_row st >=? due); apply IH.
Qed.

Lemma Trace_head (env : LoopEnv BR) st sts st' :
  Trace env st sts st' -> exists rest, sts ++ [st'] = st :: rest.
Proof. intros Ht. destruct Ht; simpl; eauto. Qed.

Lemma RestoreState_synced (d : Decoder) s :
  synced d s ->
  exists d',
    RestoreState d = Some d' /\
    status_ d' = VP8_STATUS_SUSPENDED /\
    br_ d' = br_ (ls_dec s) /\
    last_pixel_ d' = ls_src s /\
    (color_cache_size_ (hdr_ d) > 0 ->
     colors_ (color_cache_ (hdr_ d'))
     = colors_ (color_cache_ (hdr_ (ls_dec s)))).
Proof.
  intros (S1 & S2 & S3). unfold RestoreState. simpl.
  destruct (Z.gtb_spec (color_cache_size_ (hdr_ d)) 0) as [Hsz|Hsz].
  - destruct (S3 ltac:(lia)) as [Hc Hshape].
    unfold VP8LColorCacheCopy. unfold cache_shape in Hshape.
    injection Hshape as Hb Hl. rewrite Hb, Hl, !Z.eqb_refl. simpl.
    eexists; split; [done|]. simpl. repeat split; done.
  - eexists; split; [done|]. simpl. repeat split; try done; lia.
Qed.

Lemma loop_init_fields (dec : Decoder) data width st0 :
  loop_init dec data width = Some st0 ->
  ls_dec st0 = dec /\ ls_data st0 = data /\
  ls_src st0 = last_pixel_ dec /\ ls_last_cached st0 = last_pixel_ dec /\
  ls_row st0 = Z.quot (last_pixel_ dec) width /\
  ls_col st0 = Z.rem (last_pixel_ dec) width /\
  ls_next_sync_row st0
  = (if incremental_ dec then ls_row st0 else Z.shiftl 1 24).
Proof. unfold loop_init. intros Hi. inv_opt Hi. subst st0. done. Qed.

(** C3.  In incremental mode the loop takes its snapshot of (reader,
    pixel position, color cache) at the head of the first round of the
    call and from then on at the head of the first round whose row lies
    [SYNC_EVERY_N_ROWS = 8] rows or more below the row of the previous
    snapshot ([last_sync] tells this rule over the loop heads
    [sts ++ [st]] of the run); a copy can carry the position over a
    multiple of 8 rows, so the snapshot need not be at the first symbol
    of every eighth row.  If the end of the stream shows in a round
    before the raster is complete, DecodeImageData returns 1 with status
    SUSPENDED and the decoder is back at the latest such snapshot [s]: its
    reader is the reader at [s], [last_pixel_] is the pixel position at
    [s], and the colors of the cache (when there is one) are those at
    [s]. *)
Theorem DecodeImageData_suspend_restores_snapshot
    (dec : Decoder) (base : Z) (data : list Z) (width height last_row : Z)
    (process_func : option (ProcessRowsFunc BR))
    (st0 : LoopState BR) (sts : list (LoopState BR)) (st : LoopState BR)
    (o : Outcome BR) :
  let env := loop_env dec base width height last_row process_func in
  width <> 0 ->
  incremental_ dec = true ->
  width * last_row <= width * height ->
  process_func_frame process_func ->
  loop_init dec data width = Some st0 ->
  Trace env st0 sts st ->
  ls_src st < le_src_last env ->
  loop_body env st = Some o ->
  eos_ (br_ (ls_dec (outcome_state o))) = true ->
  exists s due dec',
    last_sync (ls_row st0) None (sts ++ [st]) = (Some s, due) /\
    DecodeImageData dec base data width height last_row process_func
      = Some (1, dec', ls_data st) /\
    status_ dec' = VP8_STATUS_SUSPENDED /\
    br_ dec' = br_ (ls_dec s) /\
    last_pixel_ dec' = ls_src s /\
    (color_cache_size_ (hdr_ dec) > 0 ->
     colors_ (color_cache_ (hdr_ dec'))
     = colors_ (color_cache_ (hdr_ (ls_dec s)))).
Proof.
  intros env Hw Hinc Hle Hf Hinit Ht Hlt Hb Heos.
  pose proof (loop_env_len_code_limit dec base width height last_row
                process_func) as Hlim. fold env in Hlim.
  assert (Hf' : process_func_frame (le_process_func env)) by done.
  (* only a [break] leaves the reader at the end of the stream *)
  destruct (loop_body_stable env st o Hf' Hb) as (_ & _ & _ & _ & _ & _ & He).
  rewrite Heos in He.
  destruct o as [st_b|st_b|st_b]; try discriminate. simpl in Heos.
  destruct (loop_body_Break_src env st st_b Hb) as [Hsrc Hdata].
  (* the invariant along the run *)
  destruct (loop_init_fields dec data width st0 Hinit)
    as (Hd0 & _ & _ & _ & _ & _ & Hn0).
  rewrite Hinc in Hn0.
  assert (Hinv0 : sync_inv st0 None (ls_row st0)) by (split; done).
  destruct (trace_sync_inv env st0 sts st Hf' Ht _ _ Hinv0)
    as (Hinv & Hi & Hsz).
  destruct (loop_body_sync_inv env st _ _ _ Hf' Hb Hinv)
    as (Hinvb & Hib & Hszb).
  rewrite <- last_sync_app in Hinvb. simpl in Hinvb, Hib, Hszb.
  (* the first head of the run is a check-point *)
  destruct (Trace_head env st0 sts st Ht) as [rest Hrest].
  assert (Hsome : exists s, (last_sync (ls_row st0) None (sts ++ [st])).1
                            = Some s).
  { rewrite Hrest. simpl.
    destruct (Z.geb_spec (ls_row st0) (ls_row st0)); [|lia].
    apply last_sync_is_Some. }
  destruct Hsome as [s Hs].
  destruct (last_sync (ls_row st0) None (sts ++ [st])) as [cur due] eqn:Hls.
  simpl in Hs. subst cur. destruct Hinvb as [_ Hsynced]. simpl in Hsynced.
  (* the call *)
  assert (Hm : main_loop (Z.to_nat (le_src_last env - ls_src st0)) env st0
               = Some (Break st_b)).
  { eapply main_loop_stops; eauto. }
  rewrite (DecodeImageData_unfold _ _ _ _ _ _ _ _ _ Hw Hinit Hm).
  fold env. unfold loop_exit.
  assert (Hinc_b : incremental_ (ls_dec st_b) = true) by congruence.
  rewrite Hinc_b, Heos.
  assert (Hend : (ls_src st_b <? le_src_end env) = true).
  { apply Z.ltb_lt. rewrite Hsrc. simpl in *. lia. }
  rewrite Hend. simpl.
  destruct (RestoreState_synced (ls_dec st_b) s Hsynced)
    as (dec' & Hr & Hst & Hbr & Hlp & Hcc).
  rewrite Hr, option_bind_Some.
  exists s, due, dec'. split; [done|].
  split; [congruence|]. repeat split; try done.
  intros Hpos. apply Hcc. rewrite Hszb, Hsz, Hd0. done.
Qed.

(** ** The color cache is filled lazily *)




Lemma call_process_func_hdr (env : LoopEnv BR) d data row :
  process_func_frame (le_process_func env) ->
  hdr_ (call_process_func env d data row) = hdr_ d.
Proof.
  unfold call_process_func, process_func_frame. intros Hf.
  destruct (le_process_func env) as [f|]; [|done].
  destruct (Z.rem row NUM_ARGB_CACHE_ROWS =? 0); [|done].
  apply Hf.
Qed.

Lemma wrap_rows_hdr (env : LoopEnv BR) data :
  forall fuel d row col d' row' col',
  process_func_frame (le_process_func env) ->
  wrap_rows fuel env d data row col = Some (d', row', col') ->
  hdr_ d' = hdr_ d.
Proof.
  induction fuel as [|fuel IH]; intros d row col d' row' col' Hf Hw;
    simpl in Hw; inv_opt Hw; simplify_eq; try done.
  match goal with
  | Hrec : wrap_rows _ _ _ _ _ _ = Some _ |- _ =>
      apply IH in Hrec; [|done]
  end.
  rewrite call_process_func_hdr in *; done.
Qed.


End LoopProperties.

(** ** The stream description *)

Section StreamProperties.
Context {BR : Type} `{BitReaderOps BR} `{Platform}.

Local Abbreviation Decoder := (VP8LDecoder BR).

(** The transforms of a stream, as DecodeImageStream reads them before
    the color-cache descriptor. *)
Definition stream_transforms (rec : SubStream BR) (xsize ysize : Z)
    (is_level0 : bool) (dec : Decoder) : option (Z * Decoder * Z) :=
  if is_level0 then
    read_transforms (Z.to_nat NUM_TRANSFORMS + 1) rec dec xsize ysize
  else Some (1, dec, xsize).

(** C8.  After the transforms, when the color-cache-present bit is 1 the
    4-bit field [color_cache_bits] is accepted exactly when it lies in
    [1, 11] ([MAX_CACHE_BITS = 11]).  Any other value makes
    DecodeImageStream return 0 with status BITSTREAM_ERROR right behind
    the descriptor: the reader stands just after the four bits, no raster
    is returned, the metadata is cleared and the pixel and output row
    counters are untouched. *)
Theorem DecodeImageStream_color_cache_bits
    (depth : nat) (xsize ysize : Z) (is_level0 : bool) (dec dec1 : Decoder)
    (ok txsize : Z) :
  let rec := fun xsize ysize dec =>
               DecodeImageStream depth xsize ysize false dec in
  let br2 := snd (VP8LReadBits (br_ dec1) 1) in
  let color_cache_bits := fst (VP8LReadBits br2 4) in
  let br3 := snd (VP8LReadBits br2 4) in
  stream_transforms rec xsize ysize is_level0 dec = Some (ok, dec1, txsize) ->
  ok <> 0 ->
  fst (VP8LReadBits (br_ dec1) 1) <> 0 ->
  0 <= color_cache_bits < 16 /\
  (1 <= color_cache_bits <= 11 <->
   read_color_cache_bits dec1 = (1, set_br dec1 br3, color_cache_bits)) /\
  (~ 1 <= color_cache_bits <= 11 ->
   exists dec',
     DecodeImageStream (S depth) xsize ysize is_level0 dec
       = Some (0, dec', None) /\
     status_ dec' = VP8_STATUS_BITSTREAM_ERROR /\
     br_ dec' = br3 /\
     hdr_ dec' = InitMetadata /\
     last_pixel_ dec' = last_pixel_ dec1 /\
     last_row_ dec' = last_row_ dec1 /\
     last_out_row_ dec' = last_out_row_ dec1).
Proof.
  intros rec br2 color_cache_bits br3 Htr Hok Hbit.
  pose proof (VP8LReadBits_range br2 4 ltac:(lia)) as Hrange.
  fold color_cache_bits in Hrange. change (2 ^ 4) with 16 in Hrange.
  split; [done|].
  assert (Hread : read_color_cache_bits dec1 =
            if (color_cache_bits >=? 1) && (color_cache_bits <=? MAX_CACHE_BITS)
            then (1, set_br dec1 br3, color_cache_bits)
            else (0, set_status (set_br dec1 br3) VP8_STATUS_BITSTREAM_ERROR,
                  color_cache_bits)).
  { unfold read_color_cache_bits.
    destruct (VP8LReadBits (br_ dec1) 1) as [present b2] eqn:E1.
    simpl in Hbit. subst br2. simpl in *.
    destruct (Z.eqb_spec present 0) as [|_]; [done|]. simpl.
    subst color_cache_bits br3.
    destruct (VP8LReadBits b2 4) as [ccb b3]. simpl. done. }
  unfold MAX_CACHE_BITS in Hread.
  split.
  - rewrite Hread. split.
    + intros [H1 H2].
      destruct (Z.geb_spec color_cache_bits 1); [|lia].
      destruct (Z.leb_spec color_cache_bits 11); [|lia]. done.
    + destruct (Z.geb_spec color_cache_bits 1);
        destruct (Z.leb_spec color_cache_bits 11); simpl;
        intros [=]; lia.
  - intros Hbad.
    assert (Hfail : (color_cache_bits >=? 1) && (color_cache_bits <=? 11)
                    = false).
    { destruct (Z.geb_spec color_cache_bits 1);
        destruct (Z.leb_spec color_cache_bits 11); simpl; try done. lia. }
    rewrite Hfail in Hread.
    simpl. unfold DecodeImageStream_body.
    fold rec. unfold stream_transforms in Htr. rewrite Htr.
    rewrite option_bind_Some. cbv beta iota.
    destruct (Z.eqb_spec ok 0) as [|_]; [done|]. simpl negb. cbv iota.
    rewrite Hread. cbv beta iota. simpl (0 =? 0).
    eexists; split; [reflexivity|]. simpl. done.
Qed.

(** *** The meta-Huffman image *)

Definition group_of_pixel (px : Z) : Z := Z.land (Z.shiftr px 8) 0xffff.

Lemma group_of_pixel_range px : 0 <= group_of_pixel px <= 0xffff.
Proof.
  unfold group_of_pixel.
  replace (Z.land (Z.shiftr px 8) 65535) with (Z.shiftr px 8 mod 2 ^ 16)
    by (symmetry; apply (Z.land_ones _ 16); lia).
  pose proof (Z.mod_pos_bound (Z.shiftr px 8) (2 ^ 16) ltac:(lia)). lia.
Qed.

Lemma meta_groups_spec : forall n image i num,
  0 <= i -> i + Z.of_nat n <= Z.of_nat (length image) ->
  exists image' num',
    meta_groups n image i num = Some (image', num') /\
    length image' = length image /\
    (forall j, i <= j < i + Z.of_nat n ->
       load image' j = group_of_pixel <$> load image j) /\
    (forall j, j < i \/ i + Z.of_nat n <= j -> load image' j = load image j) /\
    num <= num' /\
    (forall j g, i <= j < i + Z.of_nat n -> load image' j = Some g ->
       g < num') /\
    (num' = num \/
     exists j, i <= j < i + Z.of_nat n /\ load image' j = Some (num' - 1)).
Proof.
  induction n as [|n IH]; intros image i num Hi Hlen.
  - exists image, num. simpl.
    split; [done|]. split; [done|]. split; [intros; lia|].
    split; [done|]. split; [lia|]. split; [intros; lia|]. now left.
  - simpl meta_groups.
    destruct (load_in_range image i) as [px Hpx]; [lia|].
    rewrite Hpx, option_bind_Some. fold (group_of_pixel px).
    rewrite store_in_range by lia. rewrite option_bind_Some.
    set (image1 := <[Z.to_nat i := group_of_pixel px]> image).
    set (num1 := if group_of_pixel px >=? num then group_of_pixel px + 1
                 else num).
    assert (Hst : store image i (group_of_pixel px) = Some image1)
      by (apply store_in_range; lia).
    assert (Hl1 : length image1 = length image)
      by (unfold image1; apply length_insert).
    destruct (IH image1 (i + 1) num1) as
      (image' & num' & Hm & Hl & Hmap & Hframe & Hle & Hlt & Hmax);
      [lia | lia |].
    exists image', num'. split; [done|].
    assert (Hi' : load image' i = Some (group_of_pixel px)).
    { rewrite Hframe by lia. eapply load_store_eq; eauto. }
    assert (Hn1 : num <= num1 /\ group_of_pixel px < num1).
    { unfold num1. destruct (Z.geb_spec (group_of_pixel px) num); lia. }
    split; [congruence|]. split; [|split; [|split; [|split]]].
    + intros j Hj. destruct (decide (j = i)) as [->|Hne].
      * rewrite Hi', Hpx. done.
      * rewrite Hmap by lia.
        rewrite (load_store_ne _ _ _ _ _ Hst) by done. done.
    + intros j Hj. rewrite Hframe by lia.
      apply (load_store_ne _ _ _ _ _ Hst). lia.
    + lia.
    + intros j g Hj Hg. destruct (decide (j = i)) as [->|Hne].
      * rewrite Hi' in Hg. injection Hg as <-. lia.
      * eapply Hlt; [|done]. lia.
    + destruct Hmax as [->|(j & Hj & Hg)].
      * unfold num1. destruct (Z.geb_spec (group_of_pixel px) num).
        -- right. exists i. split; [lia|]. rewrite Hi'. f_equal. lia.
        -- now left.
      * right. exists j. split; [lia|done].
Qed.

Lemma read_htree_groups_length : forall n ccb (dec : Decoder) cl groups
    dec' groups',
  read_htree_groups n ccb dec cl groups = Some (dec', Some groups') ->
  length groups' = (length groups + n)%nat.
Proof.
  induction n as [|n IH]; intros ccb dec cl groups dec' groups' Hr;
    simpl in Hr.
  - inv_opt Hr. simplify_eq. lia.
  - destruct (read_htree_group ccb dec cl) as [[[d c] [g|]]|];
      simpl in Hr; try discriminate.
    apply IH in Hr. rewrite length_app in Hr. simpl in Hr. lia.
Qed.

(** C4, as the code has it.  When the meta-Huffman bit is set (it is read
    only where recursion is allowed) the decoder decodes the sub-sampled
    image as a sub-stream and replaces every pixel by its group index,
    which is bits 8..23 of the pixel (the red and green bytes,
    [(pixel >> 8) & 0xffff]); [num_htree_groups] is the largest index
    plus 1.  When the bit is unset, or not read, there is one group and
    no image.  ReadHuffmanCodes records the image and the count and
    builds that many groups. *)
Theorem ReadHuffmanCodes_meta_groups
    (rec : SubStream BR) (dec : Decoder) (xsize ysize : Z)
    (allow_recursion : bool) :
  let use_meta := fst (VP8LReadBits (br_ dec) 1) in
  let br1 := snd (VP8LReadBits (br_ dec) 1) in
  let precision := fst (VP8LReadBits br1 3) + 2 in
  let br2 := snd (VP8LReadBits br1 3) in
  let huffman_xsize := VP8LSubSampleSize xsize precision in
  let huffman_ysize := VP8LSubSampleSize ysize precision in
  (allow_recursion = false \/ use_meta = 0 ->
   exists dec',
     read_meta_huffman rec dec xsize ysize allow_recursion
     = Some (dec', Some (None, 1))) /\
  (allow_recursion = true -> use_meta <> 0 ->
   forall ok dec1 image,
     rec huffman_xsize huffman_ysize (set_br (set_br dec br1) br2)
     = Some (ok, dec1, Some image) ->
     ok <> 0 ->
     Z.of_nat (length image) = huffman_xsize * huffman_ysize ->
     1 <= huffman_xsize * huffman_ysize < 2 ^ 31 ->
     exists dec' image' num,
       read_meta_huffman rec dec xsize ysize allow_recursion
       = Some (dec', Some (Some image', num)) /\
       huffman_subsample_bits_ (hdr_ dec') = precision /\
       length image' = length image /\
       (forall i px, load image i = Some px ->
          load image' i = Some (Z.land (Z.shiftr px 8) 0xffff)) /\
       (forall i g, load image' i = Some g -> 0 <= g < num) /\
       (exists i, load image' i = Some (num - 1))) /\
  (forall color_cache_bits dec',
     ReadHuffmanCodes rec dec xsize ysize color_cache_bits allow_recursion
     = Some (1, dec') ->
     exists dec1 image num,
       read_meta_huffman rec dec xsize ysize allow_recursion
       = Some (dec1, Some (image, num)) /\
       num_htree_groups_ (hdr_ dec') = num /\
       huffman_image_ (hdr_ dec') = image /\
       length (htree_groups_ (hdr_ dec')) = Z.to_nat num).
Proof.
  intros use_meta br1 precision br2 hx hy.
  split; [|split].
  - intros Hunset. unfold read_meta_huffman.
    destruct allow_recursion; simpl.
    + destruct Hunset as [|Hu]; [done|]. subst use_meta.
      destruct (VP8LReadBits (br_ dec) 1) as [u b1]. simpl in Hu. subst u.
      simpl. eauto.
    + eauto.
  - intros -> Hset ok dec1 image Hrec Hok Hlen Hpix.
    unfold read_meta_huffman. subst use_meta br1 precision br2 hx hy.
    destruct (VP8LReadBits (br_ dec) 1) as [u b1]. simpl in *.
    destruct (Z.eqb_spec u 0) as [|_]; [done|]. simpl.
    destruct (VP8LReadBits b1 3) as [v b2]. simpl in *.
    rewrite Hrec, option_bind_Some. cbv beta iota.
    destruct (Z.eqb_spec ok 0) as [|_]; [done|].
    rewrite option_bind_Some.
    rewrite to_int32_small by lia.
    destruct (meta_groups_spec
                (Z.to_nat (VP8LSubSampleSize xsize (v + 2)
                           * VP8LSubSampleSize ysize (v + 2))) image 0 1)
      as (image' & num & Hm & Hl & Hmap & _ & Hle & Hlt & Hmax);
      [lia | lia |].
    rewrite Hm, option_bind_Some.
    eexists _, image', num. split; [done|].
    split; [done|]. split; [done|].
    assert (Hin : forall i px, load image i = Some px ->
              load image' i = Some (group_of_pixel px)).
    { intros i px Hpx. pose proof (load_range_inv _ _ _ Hpx).
      rewrite Hmap by lia. rewrite Hpx. done. }
    split; [exact Hin|].
    assert (Hback : forall i g, load image' i = Some g ->
              exists px, load image i = Some px /\ g = group_of_pixel px).
    { intros i g Hg. pose proof (load_range_inv _ _ _ Hg) as Hr.
      rewrite Hl in Hr.
      destruct (load_in_range image i Hr) as [px Hpx].
      exists px. split; [done|]. rewrite (Hin _ _ Hpx) in Hg. congruence. }
    split.
    + intros i g Hg. destruct (Hback i g Hg) as (px & Hpx & ->).
      pose proof (group_of_pixel_range px).
      split; [lia|]. eapply Hlt; [|done].
      pose proof (load_range_inv _ _ _ Hpx). lia.
    + destruct Hmax as [->|(j & Hj & Hg)]; [|eauto].
      destruct (load_in_range image' 0) as [g Hg]; [lia|].
      exists 0. rewrite Hg. f_equal.
      destruct (Hback 0 g Hg) as (px & Hpx & ->).
      pose proof (group_of_pixel_range px).
      assert (group_of_pixel px < 1) by (eapply Hlt; [|done]; lia). lia.
  - intros ccb dec' Hr. unfold ReadHuffmanCodes in Hr.
    inv_opt Hr; simplify_eq.
    match goal with
    | Hg : read_htree_groups _ _ _ _ _ = Some _ |- _ =>
        apply read_htree_groups_length in Hg
    end.
    eexists _, _, _. split; [done|]. simpl. repeat split; done.
Qed.

(** *** Trivial literals *)

(** A table that decodes the single symbol [v] without consuming bits:
    every first-level entry is [{bits = 0, value = v}]. *)
Definition single_symbol_table (t : list HuffmanCode) (v : Z) : Prop :=
  forall i, 0 <= i <= HUFFMAN_TABLE_MASK ->
    load t i = Some {| bits := 0; value := v |}.

Lemma ReadSymbol_single_symbol t v (br : BR) :
  single_symbol_table t v ->
  ReadSymbol t br = Some (v, VP8LSetBitPos br (bit_pos_ br + 0)).
Proof.
  intros Ht. unfold ReadSymbol.
  rewrite Ht; [done|].
  unfold HUFFMAN_TABLE_MASK, HUFFMAN_TABLE_BITS.
  change (2 ^ 8 - 1) with 255. rewrite land_255.
  pose proof (Z.mod_pos_bound (VP8LPrefetchBits br) (2 ^ 8) ltac:(lia)).
  lia.
Qed.

Lemma single_symbol_first t v :
  single_symbol_table t v -> first_bits t = 0 /\ first_value t = v.
Proof.
  intros Ht. unfold first_bits, first_value.
  rewrite Ht; [done|]. unfold HUFFMAN_TABLE_MASK, HUFFMAN_TABLE_BITS. lia.
Qed.

(** What the loop over the five codes leaves in a group. *)
Lemma read_htree_group_trivial ccb (dec : Decoder) cl dec' cl' grp :
  read_htree_group ccb dec cl = Some (dec', cl', Some grp) ->
  is_trivial_literal grp
  = (first_bits (htrees grp RED) =? 0)
    && (first_bits (htrees grp BLUE) =? 0)
    && (first_bits (htrees grp ALPHA) =? 0) /\
  (is_trivial_literal grp = true ->
   literal_arb grp
   = Z.lor (Z.lor (to_uint32 (Z.shiftl (first_value (htrees grp ALPHA)) 24))
                  (to_uint32 (Z.shiftl (first_value (htrees grp RED)) 16)))
           (to_uint32 (first_value (htrees grp BLUE)))).
Proof.
  unfold read_htree_group. intros Hr.
  destruct (read_group_codes _ _ _ _ _ _) as [[[d c] r]|] eqn:Hg;
    [|discriminate].
  rewrite option_bind_Some in Hr. cbv beta iota in Hr.
  destruct r as [[trees trivial]|]; [|discriminate].
  injection Hr as <- <- <-. simpl.
  assert (Htriv : trivial
                  = (first_bits (trees RED) =? 0)
                    && (first_bits (trees BLUE) =? 0)
                    && (first_bits (trees ALPHA) =? 0)).
  { cbn [read_group_codes] in Hg.
    repeat match type of Hg with
      | context [load kAlphabetSize ?i] =>
          let v := eval vm_compute in (load kAlphabetSize i) in
          change (load kAlphabetSize i) with v in Hg
      | context [load kLiteralMap ?i] =>
          let v := eval vm_compute in (load kLiteralMap i) in
          change (load kLiteralMap i) with v in Hg
      end.
    repeat rewrite option_bind_Some in Hg. cbv beta in Hg.
    revert Hg.
    repeat match goal with
      | |- context [ReadHuffmanCode ?a ?d ?c] =>
          destruct (ReadHuffmanCode a d c) as [[[[? ?] ?] ?]|];
          [repeat rewrite option_bind_Some; cbv beta iota | discriminate]
      | |- context [if ?z =? 0 then Some (_, _, None) else _] =>
          destruct (z =? 0); [discriminate|]
      end.
    intros [= <- <- <- <-]. simpl.
    repeat match goal with
      | |- context [first_bits ?t =? 0] => destruct (first_bits t =? 0)
      end; done. }
  split; [done|].
  intros ->. done.
Qed.

Lemma shiftl_uint32 v n :
  0 <= v < 2 ^ 8 -> 0 <= n <= 24 -> to_uint32 (Z.shiftl v n) = Z.shiftl v n.
Proof.
  intros Hv Hn. apply to_uint32_small.
  rewrite Z.shiftl_mul_pow2 by lia.
  assert (0 < 2 ^ n) by (apply Z.pow_pos_nonneg; lia).
  assert (2 ^ n <= 2 ^ 24) by (apply Z.pow_le_mono_r; lia).
  change (2 ^ 24) with 16777216 in *. change (2 ^ 8) with 256 in *.
  change (2 ^ 32) with 4294967296. nia.
Qed.

(** A group whose red, blue and alpha tables are single-symbol tables is
    marked trivial, with the three symbols in [literal_arb]. *)
Lemma trivial_group_literal_arb
    (color_cache_bits : Z) (dec : Decoder) (code_lengths : list Z)
    (dec' : Decoder) (code_lengths' : list Z) (grp : HTreeGroup)
    (red blue alpha : Z) :
  read_htree_group color_cache_bits dec code_lengths
    = Some (dec', code_lengths', Some grp) ->
  single_symbol_table (htrees grp RED) red ->
  single_symbol_table (htrees grp BLUE) blue ->
  single_symbol_table (htrees grp ALPHA) alpha ->
  0 <= red < 256 -> 0 <= blue < 256 -> 0 <= alpha < 256 ->
  is_trivial_literal grp = true /\
  literal_arb grp = Z.lor (Z.lor (Z.shiftl alpha 24) (Z.shiftl red 16)) blue /\
  (forall br : BR, exists br',
     read_rba grp br = Some (red, blue, alpha, br')).
Proof.
  intros Hgrp HR HB HA Hr Hb Ha.
  destruct (read_htree_group_trivial _ _ _ _ _ _ Hgrp) as [Htriv Harb].
  destruct (single_symbol_first _ _ HR) as [Rb Rv].
  destruct (single_symbol_first _ _ HB) as [Bb Bv].
  destruct (single_symbol_first _ _ HA) as [Ab Av].
  rewrite Rb, Bb, Ab in Htriv. simpl in Htriv.
  specialize (Harb Htriv). rewrite Rv, Bv, Av in Harb.
  rewrite !shiftl_uint32 in Harb by (try done; lia).
  rewrite (to_uint32_small blue) in Harb by lia.
  split; [done|]. split; [done|].
  intros br. unfold read_rba.
  rewrite (ReadSymbol_single_symbol _ _ _ HR), option_bind_Some.
  cbv beta iota.
  rewrite (ReadSymbol_single_symbol _ _ _ HB), option_bind_Some.
  cbv beta iota.
  rewrite (ReadSymbol_single_symbol _ _ _ HA), option_bind_Some.
  cbv beta iota. eauto.
Qed.

Lemma literal_pixel_lor (alpha red S blue : Z) :
  0 <= red < 256 -> 0 <= blue < 256 -> 0 <= alpha < 256 ->
  0 <= S < NUM_LITERAL_CODES ->
  literal_pixel alpha red S blue
  = Z.lor (Z.lor (Z.lor (Z.shiftl alpha 24) (Z.shiftl red 16))
                 (Z.shiftl S 8)) blue.
Proof.
  intros Hr Hb Ha HS. unfold literal_pixel, NUM_LITERAL_CODES in *.
  rewrite !shiftl_uint32 by (try done; lia).
  rewrite (to_uint32_small blue) by lia. done.
Qed.

(** The round of a literal of a trivial group: it comes back to the loop
    test, one pixel further, with [literal_arb | (S << 8)] written. *)
Lemma trivial_literal_round (env : LoopEnv BR) (st : LoopState BR)
    (o : Outcome BR) (dec1 : Decoder) (nsr S : Z) (br1 : BR)
    (grp : HTreeGroup) :
  loop_head env st = Some (dec1, nsr, grp) ->
  ReadSymbol (htrees grp GREEN) (VP8LFillBitWindow (br_ dec1))
    = Some (S, br1) ->
  eos_ br1 = false ->
  S < NUM_LITERAL_CODES ->
  is_trivial_literal grp = true ->
  loop_body env st = Some o ->
  exists st',
    o = Continue st' /\
    ls_src st' = ls_src st + 1 /\
    load (ls_data st') (ls_src st)
    = Some (Z.lor (literal_arb grp) (to_uint32 (Z.shiftl S 8))).
Proof.
  intros Hh Hg He HS Htriv Hbody.
  unfold loop_body in Hbody.
  rewrite Hh, option_bind_Some in Hbody. cbv beta iota in Hbody.
  rewrite Hg, option_bind_Some in Hbody. cbv beta iota in Hbody.
  rewrite He in Hbody.
  destruct (Z.ltb_spec S NUM_LITERAL_CODES); [|lia].
  rewrite Htriv in Hbody.
  inv_opt Hbody; simplify_eq.
  eexists. split; [done|].
  match goal with
  | Ha : AdvanceByOne _ _ _ _ _ _ = Some _ |- _ =>
      apply AdvanceByOne_src in Ha as (Hsrc & -> & _)
  end.
  split; [done|].
  match goal with
  | Hs : store _ _ _ = Some _ |- _ =>
      rewrite (load_store_eq _ _ _ _ Hs)
  end.
  done.
Qed.

(** *** The expanded palette *)

Lemma store_range_length : forall vs (m : list Z) p m',
  store_range m p vs = Some m' -> length m' = length m.
Proof.
  induction vs as [|v vs IH]; intros m p m' Hs; simpl in Hs.
  - now injection Hs as <-.
  - inv_opt Hs.
    match goal with
    | Hst : store _ _ _ = Some _, Hr : store_range _ _ _ = Some _ |- _ =>
        apply IH in Hr; apply store_length in Hst; congruence
    end.
Qed.

Lemma store_range_in_range : forall vs (m : list Z) p,
  0 <= p -> p + Z.of_nat (length vs) <= Z.of_nat (length m) ->
  exists m', store_range m p vs = Some m'.
Proof.
  induction vs as [|v vs IH]; intros m p Hp Hlen; simpl in *; [eauto|].
  rewrite store_in_range by lia. rewrite option_bind_Some.
  apply IH; [lia|]. rewrite length_insert. lia.
Qed.

Lemma accumulate_palette_spec data : forall n nd i,
  4 <= i ->
  i + Z.of_nat n <= Z.of_nat (length data) ->
  i + Z.of_nat n <= Z.of_nat (length nd) ->
  exists nd', accumulate_palette n data nd i = Some nd' /\
              length nd' = length nd.
Proof.
  induction n as [|n IH]; intros nd i Hi Hd Hn; simpl; [eauto|].
  destruct (load_in_range data i) as [d Hld]; [lia|].
  destruct (load_in_range nd (i - 4)) as [p Hlp]; [lia|].
  rewrite Hld, option_bind_Some, Hlp, option_bind_Some.
  rewrite store_in_range by lia. rewrite option_bind_Some.
  destruct (IH (<[Z.to_nat i := Z.land (d + p) 255]> nd) (i + 1))
    as (nd' & Ha & Hl); [lia | lia | rewrite length_insert; lia |].
  exists nd'. split; [done|]. rewrite Hl. apply length_insert.
Qed.

Lemma black_tail_spec : forall n (nd : list Z) i,
  0 <= i -> i + Z.of_nat n <= Z.of_nat (length nd) ->
  exists nd', black_tail n nd i = Some nd' /\
              length nd' = length nd /\
              (forall j, i <= j < i + Z.of_nat n -> load nd' j = Some 0) /\
              (forall j, j < i -> load nd' j = load nd j).
Proof.
  induction n as [|n IH]; intros nd i Hi Hn; simpl.
  - exists nd. repeat split; try done. intros; lia.
  - rewrite store_in_range by lia. rewrite option_bind_Some.
    assert (Hst : store nd i 0 = Some (<[Z.to_nat i := 0]> nd))
      by (apply store_in_range; lia).
    destruct (IH (<[Z.to_nat i := 0]> nd) (i + 1))
      as (nd' & Hb & Hl & Hz & Hf); [lia | rewrite length_insert; lia |].
    exists nd'. split; [done|].
    split; [rewrite Hl; apply length_insert|]. split.
    + intros j Hj. destruct (decide (j = i)) as [->|Hne].
      * rewrite Hf by lia. eapply load_store_eq; eauto.
      * apply Hz. lia.
    + intros j Hj. rewrite Hf by lia.
      apply (load_store_ne _ _ _ _ _ Hst). lia.
Qed.

Lemma words_bytes_length ws :
  length (words_bytes ws) = (4 * length ws)%nat.
Proof.
  unfold words_bytes. induction ws as [|w ws IH]; [done|].
  rewrite bind_cons, length_app, IH. simpl. lia.
Qed.

Lemma bytes_words_length : forall n bs,
  length bs = (4 * n)%nat -> length (bytes_words bs) = n.
Proof.
  induction n as [|n IH]; intros bs Hl.
  - destruct bs; [done|discriminate].
  - destruct bs as [|b0 [|b1 [|b2 [|b3 rest]]]]; simpl in Hl; try lia.
    simpl. f_equal. apply IH. lia.
Qed.

Lemma bytes_words_zero : forall j bs,
  (forall k, (4 * j <= k < 4 * j + 4)%nat -> bs !! k = Some 0) ->
  bytes_words bs !! j = Some 0.
Proof.
  induction j as [|j IH]; intros bs Hz.
  - pose proof (Hz 0%nat ltac:(lia)) as Hz0.
    pose proof (Hz 1%nat ltac:(lia)) as Hz1.
    pose proof (Hz 2%nat ltac:(lia)) as Hz2.
    pose proof (Hz 3%nat ltac:(lia)) as Hz3.
    destruct bs as [|b0 [|b1 [|b2 [|b3 rest]]]]; simpl in *; try discriminate.
    simplify_eq. done.
  - pose proof (Hz (4 * S j)%nat ltac:(lia)) as Hlen.
    apply lookup_lt_Some in Hlen.
    destruct bs as [|b0 [|b1 [|b2 [|b3 rest]]]]; simpl in Hlen; try lia.
    change (bytes_words (b0 :: b1 :: b2 :: b3 :: rest))
      with (le_bytes [b0; b1; b2; b3] :: bytes_words rest).
    simpl. apply IH. intros k Hk.
    specialize (Hz (4 + k)%nat ltac:(lia)). done.
Qed.

Lemma shiftl_1_pow n : 0 <= n -> Z.shiftl 1 n = 2 ^ n.
Proof. intros Hn. rewrite Z.shiftl_mul_pow2 by done. lia. Qed.

Lemma packed_index_range bits green k :
  0 <= bits <= 3 ->
  0 <= packed_index bits green k < Z.shiftl 1 (Z.shiftr 8 bits).
Proof.
  intros Hb. unfold packed_index.
  assert (Hbpp : 0 <= Z.shiftr 8 bits) by (apply Z.shiftr_nonneg; lia).
  rewrite shiftl_1_pow by done.
  replace (2 ^ Z.shiftr 8 bits - 1) with (Z.ones (Z.shiftr 8 bits))
    by (rewrite Z.ones_equiv; lia).
  rewrite Z.land_ones by done.
  apply Z.mod_pos_bound. apply Z.pow_pos_nonneg; lia.
Qed.

Lemma ColorIndexingBits_fits num_colors :
  1 <= num_colors <= 256 ->
  0 <= ColorIndexingBits num_colors <= 3 /\
  2 <= Z.shiftl 1 (Z.shiftr 8 (ColorIndexingBits num_colors)) <= 256 /\
  num_colors <= Z.shiftl 1 (Z.shiftr 8 (ColorIndexingBits num_colors)).
Proof.
  intros Hn. unfold ColorIndexingBits.
  destruct (Z.gtb_spec num_colors 16);
    [change (Z.shiftl 1 (Z.shiftr 8 0)) with 256; lia|].
  destruct (Z.gtb_spec num_colors 4);
    [change (Z.shiftl 1 (Z.shiftr 8 1)) with 16; lia|].
  destruct (Z.gtb_spec num_colors 2);
    [change (Z.shiftl 1 (Z.shiftr 8 2)) with 4
    |change (Z.shiftl 1 (Z.shiftr 8 3)) with 2]; lia.
Qed.

(** C10.  For a palette of [num_colors] in [1, 256] (ReadTransform reads
    [num_colors - 1] from 8 bits) the packing
    [bits = 0, 1, 2, 3] for [num_colors > 16, > 4, > 2, <= 2] satisfies
    [num_colors <= 1 << (8 >> bits)]; ExpandColorMap returns a palette of
    [1 << (8 >> bits)] entries whose entries from [num_colors] on are
    [0x00000000]; hence every packed green index (of [8 >> bits] bits)
    lies inside the expanded palette, and an index beyond the declared
    palette reads transparent black. *)
Theorem ExpandColorMap_black_tail (num_colors : Z) :
  1 <= num_colors <= 256 ->
  let bits := ColorIndexingBits num_colors in
  let final_num_colors := Z.shiftl 1 (Z.shiftr 8 bits) in
  bits = (if num_colors >? 16 then 0
          else if num_colors >? 4 then 1
          else if num_colors >? 2 then 2 else 3) /\
  num_colors <= final_num_colors /\
  forall (transform : VP8LTransform) (old : list Z) (addr : Z),
    bits_ transform = bits ->
    data_ transform = Some old ->
    Z.of_nat (length old) = num_colors ->
    malloc (final_num_colors * 4) = Some addr ->
    exists new,
      ExpandColorMap num_colors transform
      = Some (1, {| type_ := type_ transform; bits_ := bits_ transform;
                    xsize_ := xsize_ transform; ysize_ := ysize_ transform;
                    data_ := Some new |}) /\
      Z.of_nat (length new) = final_num_colors /\
      (forall j, num_colors <= j < final_num_colors -> load new j = Some 0) /\
      (forall green k,
         let idx := packed_index bits green k in
         0 <= idx < final_num_colors /\
         (exists c, load new idx = Some c) /\
         (num_colors <= idx -> load new idx = Some 0)).
Proof.
  intros Hn bits F.
  destruct (ColorIndexingBits_fits num_colors Hn) as (Hb & HF & Hfit).
  fold bits in Hb, HF, Hfit. fold F in HF, Hfit.
  split; [done|]. split; [done|].
  intros transform old addr Hbits Hdata Hlen Hmalloc.
  unfold ExpandColorMap. rewrite Hbits. fold bits. fold F.
  rewrite Hmalloc, Hdata, option_bind_Some.
  destruct (load_in_range old 0) as [w0 Hw0]; [lia|].
  rewrite Hw0, option_bind_Some.
  set (nd0 := malloc_cells (4 * F)).
  assert (Hl0 : Z.of_nat (length nd0) = 4 * F)
    by (unfold nd0; rewrite malloc_cells_length; lia).
  destruct (store_range_in_range (word_bytes w0) nd0 0) as [nd1 Hs1];
    [lia | simpl; lia |].
  rewrite Hs1, option_bind_Some.
  pose proof (store_range_length _ _ _ _ Hs1) as Hl1.
  destruct (accumulate_palette_spec (words_bytes old)
              (Z.to_nat (4 * num_colors - 4)) nd1 4)
    as (nd2 & Ha & Hl2); [lia | rewrite words_bytes_length; lia | lia |].
  rewrite Ha, option_bind_Some.
  rewrite Z.max_r by lia.
  destruct (black_tail_spec (Z.to_nat (4 * F - 4 * num_colors)) nd2
              (4 * num_colors))
    as (nd3 & Hbt & Hl3 & Hzero & _); [lia | lia |].
  rewrite Hbt, option_bind_Some.
  eexists; split; [done|].
  assert (Hlen3 : length (bytes_words nd3) = Z.to_nat F)
    by (apply bytes_words_length; lia).
  assert (Htail : forall j, num_colors <= j < F ->
            load (bytes_words nd3) j = Some 0).
  { intros j Hj. apply load_Some. split; [lia|].
    apply bytes_words_zero. intros k Hk.
    specialize (Hzero (Z.of_nat k) ltac:(lia)).
    apply load_Some in Hzero as [_ Hz]. rewrite Nat2Z.id in Hz. done. }
  split; [lia|]. split; [exact Htail|].
  intros green k.
  pose proof (packed_index_range bits green k Hb) as Hidx.
  fold F in Hidx.
  split; [done|]. split.
  - apply load_in_range. lia.
  - intros Hge. apply Htail. lia.
Qed.
End StreamProperties.


(* ================================================================== *)
(** * Further properties of the decoder *)
(* ================================================================== *)

Lemma to_uint64_small z : 0 <= z < 2 ^ 64 -> to_uint64 z = z.
Proof. intros Hz. unfold to_uint64. now rewrite Z.mod_small. Qed.

(** ** The prefix code of lengths and distances *)

Section PrefixRanges.
Context {BR : Type} `{BitReaderOps BR}.

(** The values a prefix symbol can decode to lie between these two. *)
Definition prefix_first (k : Z) : Z :=
  if k <? 4 then k + 1
  else Z.shiftl (2 + Z.land k 1) (Z.shiftr (k - 2) 1) + 1.

Definition prefix_last (k : Z) : Z :=
  if k <? 4 then k + 1
  else Z.shiftl (2 + Z.land k 1) (Z.shiftr (k - 2) 1)
       + 2 ^ Z.shiftr (k - 2) 1.

Lemma GetCopyDistance_between (k : Z) (br : BR) :
  0 <= k < NUM_DISTANCE_CODES ->
  prefix_first k <= fst (GetCopyDistance k br) <= prefix_last k.
Proof.
  intros Hk. unfold prefix_first, prefix_last.
  destruct (Z.ltb_spec k 4).
  - rewrite GetCopyDistance_small by lia. simpl. lia.
  - destruct (GetCopyDistance_large k br) as (-> & Hex & _); [lia|].
    simpl. pose proof (VP8LReadBits_range br (Z.shiftr (k - 2) 1)). lia.
Qed.

Lemma prefix_ranges_ordered (k1 k2 : Z) :
  0 <= k1 < k2 -> k2 < NUM_DISTANCE_CODES ->
  prefix_last k1 < prefix_first k2.
Proof.
  intros H1 H2. unfold NUM_DISTANCE_CODES in H2.
  assert (Hall : forallb (fun a =>
            forallb (fun b =>
              implb (a <? b)%nat
                    (prefix_last (Z.of_nat a) <? prefix_first (Z.of_nat b)))
              (seq 0 40)) (seq 0 40) = true) by (vm_compute; reflexivity).
  rewrite forallb_forall in Hall.
  specialize (Hall (Z.to_nat k1)). rewrite forallb_forall in Hall.
  specialize (Hall ltac:(apply in_seq; lia) (Z.to_nat k2)
                   ltac:(apply in_seq; lia)).
  rewrite !Z2Nat.id in Hall by lia.
  destruct (Nat.ltb_spec (Z.to_nat k1) (Z.to_nat k2)); [|lia].
  simpl in Hall. lia.
Qed.

(** Every copy length lies in [1, 4096] and every distance code in
    [1, 2^20], whatever the extra bits read. *)
Theorem GetCopyDistance_bounds (k : Z) (br : BR) :
  0 <= k < NUM_DISTANCE_CODES ->
  1 <= fst (GetCopyDistance k br) <= 2 ^ 20 /\
  (k < NUM_LENGTH_CODES -> fst (GetCopyLength k br) <= 4096).
Proof.
  intros Hk. pose proof (GetCopyDistance_between k br Hk) as Hb.
  unfold NUM_DISTANCE_CODES, NUM_LENGTH_CODES in *.
  assert (Hf : 1 <= prefix_first k).
  { assert (Hall : forallb (fun a => 1 <=? prefix_first (Z.of_nat a))
                     (seq 0 40) = true) by (vm_compute; reflexivity).
    rewrite forallb_forall in Hall.
    specialize (Hall (Z.to_nat k) ltac:(apply in_seq; lia)).
    rewrite Z2Nat.id in Hall by lia. lia. }
  assert (Hl : prefix_last k <= 2 ^ 20).
  { assert (Hall : forallb (fun a => prefix_last (Z.of_nat a) <=? 2 ^ 20)
                     (seq 0 40) = true) by (vm_compute; reflexivity).
    rewrite forallb_forall in Hall.
    specialize (Hall (Z.to_nat k) ltac:(apply in_seq; lia)).
    rewrite Z2Nat.id in Hall by lia. lia. }
  split; [lia|]. intros Hlen. unfold GetCopyLength.
  assert (Hl' : prefix_last k <= 4096).
  { assert (Hall : forallb (fun a => prefix_last (Z.of_nat a) <=? 4096)
                     (seq 0 24) = true) by (vm_compute; reflexivity).
    rewrite forallb_forall in Hall.
    specialize (Hall (Z.to_nat k) ltac:(apply in_seq; lia)).
    rewrite Z2Nat.id in Hall by lia. lia. }
  lia.
Qed.

(** The prefix code keeps the order of its symbols: whatever extra bits
    are read, a smaller symbol decodes to a smaller value.  So a value
    tells its symbol, and the ranges of the symbols do not overlap. *)
Theorem GetCopyDistance_monotone (k1 k2 : Z) (br1 br2 : BR) :
  0 <= k1 < k2 -> k2 < NUM_DISTANCE_CODES ->
  fst (GetCopyDistance k1 br1) < fst (GetCopyDistance k2 br2).
Proof.
  intros H1 H2.
  pose proof (GetCopyDistance_between k1 br1 ltac:(lia)).
  pose proof (GetCopyDistance_between k2 br2 ltac:(lia)).
  pose proof (prefix_ranges_ordered k1 k2 H1 H2). lia.
Qed.
End PrefixRanges.

(** ** The stream header *)

Section HeaderProperties.
Context {BR : Type} `{BitReaderOps BR} `{Platform}.
Variable VP8LInitBitReader : list Z -> Z -> BR.

Local Abbreviation Decoder := (VP8LDecoder BR).

Lemma ReadImageInfo_ok (br br' : BR) out :
  ReadImageInfo br = (1, br', out) ->
  exists width height has_alpha,
    out = Some (width, height, has_alpha) /\
    1 <= width <= 16384 /\ 1 <= height <= 16384 /\
    0 <= has_alpha <= 1 /\
    fst (VP8LReadBits br 8) = VP8L_MAGIC_BYTE /\
    eos_ br' = false.
Proof.
  unfold ReadImageInfo. intros Hr.
  destruct (VP8LReadBits br 8) as [sig br1] eqn:E0. simpl.
  destruct (Z.eqb_spec sig VP8L_MAGIC_BYTE) as [->|]; simpl in Hr;
    [|discriminate].
  pose proof (VP8LReadBits_range br1 VP8L_IMAGE_SIZE_BITS) as Hw.
  destruct (VP8LReadBits br1 VP8L_IMAGE_SIZE_BITS) as [w br2].
  pose proof (VP8LReadBits_range br2 VP8L_IMAGE_SIZE_BITS) as Hh.
  destruct (VP8LReadBits br2 VP8L_IMAGE_SIZE_BITS) as [h br3].
  pose proof (VP8LReadBits_range br3 1) as Ha.
  destruct (VP8LReadBits br3 1) as [a br4].
  destruct (VP8LReadBits br4 VP8L_VERSION_BITS) as [v br5].
  unfold VP8L_IMAGE_SIZE_BITS in *. simpl in Hw, Hh, Ha.
  change (2 ^ 14) with 16384 in *. change (2 ^ 1) with 2 in *.
  destruct (v =? 0); simpl in Hr; [|discriminate].
  destruct (eos_ br5) eqn:Heos; [discriminate|].
  injection Hr as <- <-.
  rewrite (to_uint32_small (w + 1)), (to_uint32_small (h + 1)) by lia.
  rewrite !to_int32_small by lia.
  eexists _, _, _. split; [done|]. repeat split; try lia. done.
Qed.

(** ReadImageInfo accepts a header only behind the signature byte and
    with version 0 before the end of the stream, and then reports
    dimensions within 1..16384 and an alpha flag of 0 or 1. *)
Theorem ReadImageInfo_dimensions (br br' : BR) (ok : Z)
    (out : option (Z * Z * Z)) :
  ReadImageInfo br = (ok, br', out) ->
  (ok = 0 \/ ok = 1) /\
  (fst (VP8LReadBits br 8) <> VP8L_MAGIC_BYTE -> ok = 0 /\ out = None) /\
  (eos_ br' = true -> ok = 0) /\
  (ok = 1 ->
   exists width height has_alpha,
     out = Some (width, height, has_alpha) /\
     1 <= width <= 16384 /\ 1 <= height <= 16384 /\
     0 <= has_alpha <= 1).
Proof.
  intros Hr. split; [|split; [|split]].
  - revert Hr. unfold ReadImageInfo.
    destruct (VP8LReadBits br 8) as [sig br1].
    destruct (negb (sig =? VP8L_MAGIC_BYTE)); [intros [= <- _ _]; lia|].
    destruct (VP8LReadBits br1 _) as [w br2].
    destruct (VP8LReadBits br2 _) as [h br3].
    destruct (VP8LReadBits br3 1) as [a br4].
    destruct (VP8LReadBits br4 _) as [v br5].
    destruct (negb (v =? 0)); [intros [= <- _ _]; lia|].
    destruct (eos_ br5); intros [= <- _ _]; lia.
  - revert Hr. unfold ReadImageInfo.
    destruct (VP8LReadBits br 8) as [sig br1]. simpl. intros Hr Hs.
    destruct (Z.eqb_spec sig VP8L_MAGIC_BYTE); [done|]. simpl in Hr.
    injection Hr as <- _ <-. done.
  - revert Hr. unfold ReadImageInfo.
    destruct (VP8LReadBits br 8) as [sig br1].
    destruct (negb (sig =? VP8L_MAGIC_BYTE)); [intros [= <- _ _]; done|].
    destruct (VP8LReadBits br1 _) as [w br2].
    destruct (VP8LReadBits br2 _) as [h br3].
    destruct (VP8LReadBits br3 1) as [a br4].
    destruct (VP8LReadBits br4 _) as [v br5].
    destruct (negb (v =? 0)); [intros [= <- _ _]; done|].
    intros [= <- <- _] He. rewrite He. done.
  - intros ->. destruct (ReadImageInfo_ok _ _ _ Hr)
      as (w & h & a & ? & ? & ? & ? & _).
    eauto 10.
Qed.

(** VP8LGetInfo answers 1 only for at least 5 bytes that start with
    [0x2f] and carry version 0 in the top three bits of the fifth byte,
    and then with dimensions within 1..16384; without data, or with fewer
    than 5 bytes, it answers 0 and reads nothing. *)
Theorem VP8LGetInfo_accepts (data : option (list Z)) (data_size : Z) :
  (data = None \/ data_size < 5 ->
   VP8LGetInfo VP8LInitBitReader data data_size = Some (0, None)) /\
  (forall out,
     VP8LGetInfo VP8LInitBitReader data data_size = Some (1, out) ->
     exists d d4 width height has_alpha,
       data = Some d /\ 5 <= data_size /\
       load d 0 = Some 0x2f /\
       load d 4 = Some d4 /\ Z.shiftr d4 5 = 0 /\
       out = Some (width, height, has_alpha) /\
       1 <= width <= 16384 /\ 1 <= height <= 16384 /\
       0 <= has_alpha <= 1).
Proof.
  split.
  - intros [->|Hs]; [done|]. unfold VP8LGetInfo.
    destruct data; [|done]. unfold VP8L_FRAME_HEADER_SIZE.
    destruct (Z.ltb_spec data_size 5); [done | lia].
  - intros out. unfold VP8LGetInfo. destruct data as [d|]; [|discriminate].
    unfold VP8L_FRAME_HEADER_SIZE.
    destruct (Z.ltb_spec data_size 5); [discriminate|].
    unfold VP8LCheckSignature, VP8L_FRAME_HEADER_SIZE.
    destruct (Z.geb_spec data_size 5); [|lia].
    destruct (load d 0) as [d0|] eqn:E0; [|discriminate].
    rewrite option_bind_Some.
    destruct (Z.eqb_spec d0 VP8L_MAGIC_BYTE) as [->|];
      [|rewrite option_bind_Some; discriminate].
    destruct (load d 4) as [d4|] eqn:E4; [|discriminate].
    rewrite !option_bind_Some.
    destruct (Z.eqb_spec (Z.shiftr d4 5) 0) as [Hv|]; [|discriminate].
    simpl.
    destruct (ReadImageInfo (VP8LInitBitReader d data_size))
      as [[ok br'] o] eqn:Hr.
    destruct (Z.eqb_spec ok 0); [discriminate|]. intros [= <-].
    assert (ok = 1) as ->.
    { destruct (ReadImageInfo_dimensions _ _ _ _ Hr) as ([|] & _); lia. }
    destruct (ReadImageInfo_ok _ _ _ Hr)
      as (w & h & a & -> & ? & ? & ? & _).
    exists d, d4, w, h, a. done.
Qed.

End HeaderProperties.

(** ** The crop window *)

(** SetCropWindow clips the rows [y_start, y_end) to the crop window:
    it answers 1 exactly when the clipped range is not empty, and then
    hands over the rows [mb_y, mb_y + mb_h) of the window, which lie inside
    it and inside the rows given, the width of the window, and the address
    of the pixel at the first clipped row and the left edge. *)
Theorem SetCropWindow_clips (io : VP8Io) (y_start y_end in_data
    pixel_stride : Z) :
  0 <= crop_left io < crop_right io -> crop_right io <= 16384 ->
  0 <= crop_top io <= crop_bottom io -> crop_bottom io <= 16384 ->
  0 <= y_start < y_end -> y_end <= 16384 ->
  0 <= pixel_stride <= 65536 ->
  let top := Z.max y_start (crop_top io) in
  let bottom := Z.min y_end (crop_bottom io) in
  (bottom <= top ->
   fst (fst (SetCropWindow io y_start y_end in_data pixel_stride)) = 0 /\
   snd (fst (SetCropWindow io y_start y_end in_data pixel_stride)) = io) /\
  (top < bottom ->
   exists io',
     SetCropWindow io y_start y_end in_data pixel_stride
     = (1, io', in_data + (top - y_start) * pixel_stride
               + 4 * crop_left io) /\
     mb_y io' = top - crop_top io /\
     mb_h io' = bottom - top /\
     mb_w io' = crop_right io - crop_left io /\
     0 <= mb_y io' /\ 1 <= mb_h io' /\ 1 <= mb_w io' /\
     crop_top io + mb_y io' + mb_h io' <= crop_bottom io /\
     y_start <= crop_top io + mb_y io' /\
     crop_top io + mb_y io' + mb_h io' <= y_end /\
     crop_left io' = crop_left io /\ crop_right io' = crop_right io /\
     crop_top io' = crop_top io /\ crop_bottom io' = crop_bottom io).
Proof.
  intros Hl Hr Ht Hb Hy Hye Hs top bottom. unfold SetCropWindow.
  assert (He : (if y_end >? crop_bottom io then crop_bottom io else y_end)
               = bottom).
  { unfold bottom. destruct (Z.gtb_spec y_end (crop_bottom io)); lia. }
  rewrite He.
  destruct (Z.ltb_spec y_start (crop_top io)).
  - rewrite (to_int32_small (crop_top io - y_start)) by lia.
    rewrite (to_int32_small ((crop_top io - y_start) * pixel_stride))
      by nia.
    assert (top = crop_top io) as Htop by lia.
    destruct (Z.geb_spec (crop_top io) bottom); split; intros Hc;
      try lia; try done.
    rewrite (to_uint64_small (crop_left io)) by lia.
    rewrite to_uint64_small by lia.
    rewrite !to_int32_small by lia.
    eexists. split; [f_equal; rewrite Htop; lia|]. simpl. lia.
  - assert (top = y_start) as Htop by lia.
    destruct (Z.geb_spec y_start bottom); split; intros Hc;
      try lia; try done.
    rewrite (to_uint64_small (crop_left io)) by lia.
    rewrite to_uint64_small by lia.
    rewrite !to_int32_small by lia.
    eexists. split; [f_equal; rewrite Htop; lia|]. simpl. lia.
Qed.

(** ** The copy engines keep the size of the raster *)

Lemma copy_fwd_length : forall n m dst src i m',
  copy_fwd n m dst src i = Some m' -> length m' = length m.
Proof.
  induction n as [|n IH]; intros m dst src i m' Hc; simpl in Hc.
  - now injection Hc as <-.
  - inv_opt Hc.
    match goal with Hs : store _ _ _ = Some _ |- _ =>
      apply store_length in Hs; rewrite <- Hs end.
    eapply IH. eassumption.
Qed.

Lemma memcpy_length m dst src n m' :
  memcpy m dst src n = Some m' -> length m' = length m.
Proof.
  unfold memcpy. intros Hm. inv_opt Hm.
  eapply store_range_length. eassumption.
Qed.

Lemma store64_length m p pattern m' :
  store64 m p pattern = Some m' -> length m' = length m.
Proof.
  unfold store64. intros Hs. inv_opt Hs.
  apply store_length in Hs.
  match goal with E : store m _ _ = Some _ |- _ =>
    apply store_length in E; lia end.
Qed.

Lemma fill64_length : forall n m dst i pattern m',
  fill64 n m dst i pattern = Some m' -> length m' = length m.
Proof.
  induction n as [|n IH]; intros m dst i pattern m' Hf; simpl in Hf.
  - now injection Hf as <-.
  - inv_opt Hf.
    match goal with E : store64 _ _ _ = Some _ |- _ =>
      apply store64_length in E; rewrite <- E end.
    eapply IH. eassumption.
Qed.

Lemma CopySmallPattern32b_length base m src dst length0 pattern m' :
  CopySmallPattern32b base m src dst length0 pattern = Some m' ->
  length m' = length m.
Proof.
  unfold CopySmallPattern32b. intros Hc. inv_opt Hc; simplify_eq;
    repeat match goal with
    | E : store _ _ _ = Some _ |- _ => apply store_length in E
    | E : fill64 _ _ _ _ _ = Some _ |- _ => apply fill64_length in E
    end; congruence.
Qed.

Lemma CopyBlock32b_length base m dst dist length0 m' :
  CopyBlock32b base m dst dist length0 = Some m' -> length m' = length m.
Proof.
  unfold CopyBlock32b. intros Hc. inv_opt Hc; simplify_eq;
    repeat match goal with
    | E : CopySmallPattern32b _ _ _ _ _ _ = Some _ |- _ =>
        apply CopySmallPattern32b_length in E
    | E : memcpy _ _ _ _ = Some _ |- _ => apply memcpy_length in E
    | E : copy_fwd _ _ _ _ _ = Some _ |- _ => apply copy_fwd_length in E
    end; congruence.
Qed.

(** ** What DecodeImageData returns *)

Section LoopResults.
Context {BR : Type} `{BitReaderOps BR}.

Local Abbreviation Decoder := (VP8LDecoder BR).

Lemma AdvanceByOne_data (env : LoopEnv BR) st dec data g lc st' :
  AdvanceByOne env st dec data g lc = Some st' -> ls_data st' = data.
Proof. intros Ha. apply AdvanceByOne_src in Ha. tauto. Qed.

Lemma loop_body_data_length (env : LoopEnv BR) st o :
  loop_body env st = Some o ->
  length (ls_data (outcome_state o)) = length (ls_data st).
Proof.
  unfold loop_body. intros Hb. inv_opt Hb; simplify_eq; simpl; try done;
    repeat match goal with
    | E : AdvanceByOne _ _ _ _ _ _ = Some _ |- _ =>
        apply AdvanceByOne_data in E
    | E : store _ _ _ = Some _ |- _ => apply store_length in E
    | E : CopyBlock32b _ _ _ _ _ = Some _ |- _ =>
        apply CopyBlock32b_length in E
    end; congruence.
Qed.

Lemma Trace_data_length (env : LoopEnv BR) st sts st' :
  Trace env st sts st' -> length (ls_data st') = length (ls_data st).
Proof.
  induction 1 as [|st st1 sts st' _ Hb _ IH]; [done|].
  apply loop_body_data_length in Hb. simpl in Hb. congruence.
Qed.

(** A run of the loop that returns went through rounds that came back to
    the loop test, and then either met the end of the rows asked for or
    left the loop in a last round. *)
Lemma main_loop_run (env : LoopEnv BR) : forall fuel st o,
  main_loop fuel env st = Some o ->
  exists sts st',
    Trace env st sts st' /\
    ((o = Continue st' /\ le_src_last env <= ls_src st') \/
     (ls_src st' < le_src_last env /\ loop_body env st' = Some o /\
      forall st'', o <> Continue st'')).
Proof.
  induction fuel as [|fuel IH]; intros st o Hm; rewrite main_loop_eq in Hm;
    destruct (Z.ltb_spec (ls_src st) (le_src_last env)) as [Hlt|Hge];
    try discriminate.
  - injection Hm as <-. exists [], st. split; [constructor|]. left. done.
  - destruct (loop_body env st) as [[st1|st1|st1]|] eqn:Hb;
      try discriminate; rewrite option_bind_Some in Hm.
    + destruct (IH _ _ Hm) as (sts & st' & Ht & Hend).
      exists (st :: sts), st'. split; [|done].
      econstructor; eassumption.
    + injection Hm as <-. exists [], st. split; [constructor|].
      right. done.
    + injection Hm as <-. exists [], st. split; [constructor|].
      right. done.
  - injection Hm as <-. exists [], st. split; [constructor|]. left. done.
Qed.

Lemma Trace_frame (env : LoopEnv BR) st sts st' :
  process_func_frame (le_process_func env) ->
  Trace env st sts st' ->
  incremental_ (ls_dec st') = incremental_ (ls_dec st).
Proof.
  intros Hf. induction 1 as [|st st1 sts st' _ Hb _ IH]; [done|].
  rewrite IH.
  destruct (loop_body_stable env st _ Hf Hb)
    as (d1 & nsr & g & Hh & Hst & _).
  apply loop_head_sync in Hh as (Hi & _).
  destruct Hst as (_ & _ & _ & Hinc & _). simpl in Hinc. congruence.
Qed.

Lemma Trace_eos (env : LoopEnv BR) st sts st' :
  process_func_frame (le_process_func env) ->
  Trace env st sts st' ->
  sts = [] \/ eos_ (br_ (ls_dec st')) = false.
Proof.
  intros Hf. induction 1 as [|st st1 sts st' _ Hb Ht IH]; [by left|].
  right. destruct IH as [->|]; [|done].
  inversion Ht; subst.
  destruct (loop_body_stable env st _ Hf Hb) as (_ & _ & _ & _ & _ & _ & He).
  done.
Qed.

Lemma DecodeImageData_cases
    (dec : Decoder) (base : Z) (data : list Z) (width height last_row : Z)
    (process_func : option (ProcessRowsFunc BR))
    (ok : Z) (dec' : Decoder) (data' : list Z) :
  process_func_frame process_func ->
  DecodeImageData dec base data width height last_row process_func
    = Some (ok, dec', data') ->
  length data' = length data /\
  ((ok = 0 /\ status_ dec' = VP8_STATUS_BITSTREAM_ERROR) \/
   (ok = 1 /\ status_ dec' = VP8_STATUS_SUSPENDED /\
    incremental_ dec = true /\
    br_ dec' = saved_br_ dec' /\ last_pixel_ dec' = saved_last_pixel_ dec') \/
   (ok = 1 /\ status_ dec' = VP8_STATUS_OK /\
    eos_ (br_ dec') = false /\ width * last_row <= last_pixel_ dec')).
Proof.
  intros Hf. unfold DecodeImageData.
  destruct (width =? 0); [discriminate|]. cbv zeta.
  set (env := loop_env dec base width height last_row process_func).
  assert (Hf' : process_func_frame (le_process_func env)) by done.
  destruct (loop_init dec data width) as [st0|] eqn:Hi; [|discriminate].
  rewrite option_bind_Some.
  destruct (loop_init_fields _ _ _ _ Hi) as (Hd0 & Hdata0 & _).
  destruct (main_loop _ env st0) as [o|] eqn:Hm; [|discriminate].
  rewrite option_bind_Some.
  destruct (main_loop_run env _ _ _ Hm) as (sts & st & Ht & Hend).
  pose proof (Trace_data_length _ _ _ _ Ht) as Hlen.
  pose proof (Trace_frame _ _ _ _ Hf' Ht) as Hinc.
  assert (Hlo : length (ls_data (outcome_state o)) = length data).
  { destruct Hend as [[-> _]|(_ & Hb & _)]; simpl; [congruence|].
    apply loop_body_data_length in Hb. congruence. }
  assert (Hio : incremental_ (ls_dec (outcome_state o)) = incremental_ dec).
  { destruct Hend as [[-> _]|(_ & Hb & _)]; simpl; [congruence|].
    destruct (loop_body_stable env st _ Hf' Hb)
      as (d1 & nsr & g & Hh & Hst & _).
    apply loop_head_sync in Hh as (Hi' & _).
    destruct Hst as (_ & _ & _ & Hinc' & _). congruence. }
  assert (Hexit : forall stx,
            outcome_state o = stx ->
            (o = Continue stx /\ le_src_last env <= ls_src stx) \/
            eos_ (br_ (ls_dec stx)) = true ->
            loop_exit env stx = Some (ok, dec', data') ->
            length data' = length data /\
            ((ok = 0 /\ status_ dec' = VP8_STATUS_BITSTREAM_ERROR) \/
             (ok = 1 /\ status_ dec' = VP8_STATUS_SUSPENDED /\
              incremental_ dec = true /\
              br_ dec' = saved_br_ dec' /\
              last_pixel_ dec' = saved_last_pixel_ dec') \/
             (ok = 1 /\ status_ dec' = VP8_STATUS_OK /\
              eos_ (br_ dec') = false /\
              width * last_row <= last_pixel_ dec'))).
  { intros stx Hx Hcase. unfold loop_exit.
    destruct (incremental_ (ls_dec stx) && eos_ (br_ (ls_dec stx))
              && (ls_src stx <? le_src_end env)) eqn:Hc.
    - apply andb_prop in Hc as [Hc _]. apply andb_prop in Hc as [Hc _].
      unfold RestoreState. cbn -[Z.gtb].
      destruct (color_cache_size_ (hdr_ (ls_dec stx)) >? 0).
      + destruct (VP8LColorCacheCopy _ _); [|discriminate].
        rewrite !option_bind_Some. intros [= <- <- <-].
        split; [congruence|]. right. left. simpl.
        repeat split; congruence.
      + rewrite option_bind_Some. intros [= <- <- <-].
        split; [congruence|]. right. left. simpl.
        repeat split; congruence.
    - destruct (eos_ (br_ (ls_dec stx))) eqn:He; simpl.
      + intros [= <- <- <-]. split; [congruence|]. left. done.
      + intros [= <- <- <-]. split; [congruence|]. right. right.
        destruct Hcase as [[-> Hge]|]; [|discriminate].
        split; [done|]. split; [done|]. simpl. split; [|exact Hge].
        destruct process_func as [f|]; [|done].
        destruct (Hf (ls_dec stx) (ls_data stx) (ls_row stx)) as (-> & _).
        done. }
  destruct o as [st1|st1|st1].
  - apply (Hexit st1 eq_refl).
    destruct Hend as [[[= ->] Hge]|(_ & _ & Hne)]; [left; done|].
    exfalso. eapply Hne. reflexivity.
  - apply (Hexit st1 eq_refl). right.
    destruct Hend as [[[=] _]|(_ & Hb & _)].
    destruct (loop_body_stable env st _ Hf' Hb) as (_ & _ & _ & _ & _ & _ & He).
    done.
  - intros [= <- <- <-]. split; [done|]. left. done.
Qed.

(** DecodeImageData returns 0 only with status BITSTREAM_ERROR, and 1
    only in two ways: suspended (incremental mode, status SUSPENDED, the
    reader and [last_pixel_] set back to the saved ones), or done with the
    rows asked for (status OK, the reader not at its end, [last_pixel_] at
    or beyond the last row asked for).  The raster keeps its size in
    every case. *)
Theorem DecodeImageData_result
    (dec : Decoder) (base : Z) (data : list Z) (width height last_row : Z)
    (process_func : option (ProcessRowsFunc BR))
    (ok : Z) (dec' : Decoder) (data' : list Z) :
  process_func_frame process_func ->
  DecodeImageData dec base data width height last_row process_func
    = Some (ok, dec', data') ->
  length data' = length data /\
  ((ok = 0 /\ status_ dec' = VP8_STATUS_BITSTREAM_ERROR) \/
   (ok = 1 /\ status_ dec' = VP8_STATUS_SUSPENDED /\
    incremental_ dec = true /\
    br_ dec' = saved_br_ dec' /\ last_pixel_ dec' = saved_last_pixel_ dec') \/
   (ok = 1 /\ status_ dec' = VP8_STATUS_OK /\
    eos_ (br_ dec') = false /\ width * last_row <= last_pixel_ dec')).
Proof. apply DecodeImageData_cases. Qed.
End LoopResults.

(** ** What DecodeImageStream and VP8LDecodeHeader return *)

Section StreamResults.
Context {BR : Type} `{BitReaderOps BR} `{Platform}.
Variable VP8LInitBitReader : list Z -> Z -> BR.

Local Abbreviation Decoder := (VP8LDecoder BR).

Lemma read_color_cache_bits_failed (dec dec1 : Decoder) b :
  read_color_cache_bits dec = (0, dec1, b) ->
  status_ dec1 = VP8_STATUS_BITSTREAM_ERROR.
Proof.
  unfold read_color_cache_bits.
  destruct (VP8LReadBits (br_ dec) 1) as [p br1].
  destruct (negb (p =? 0)); [|discriminate].
  destruct (VP8LReadBits _ 4) as [c br2].
  destruct ((c >=? 1) && (c <=? MAX_CACHE_BITS)); [discriminate|].
  intros [= <- _]. done.
Qed.

Lemma DecodeImageStream_body_cases (rec : SubStream BR) xsize ysize
    is_level0 (dec : Decoder) ok dec' data :
  DecodeImageStream_body rec xsize ysize is_level0 dec
    = Some (ok, dec', data) ->
  (ok = 0 ->
   status_ dec' <> VP8_STATUS_OK /\ data = None /\
   hdr_ dec' = InitMetadata) /\
  (ok <> 0 ->
   ok = 1 /\ last_pixel_ dec' = 0 /\
   if is_level0 then data = None /\ state_ dec' = READ_HDR
   else hdr_ dec' = InitMetadata /\ eos_ (br_ dec') = false /\
        exists raster, data = Some raster /\
                       length raster = Z.to_nat (xsize * ysize)).
Proof.
  unfold DecodeImageStream_body. intros Hb.
  destruct (if is_level0 then _ else _) as [[[ok1 dec1] txs]|] eqn:Ht;
    [|discriminate].
  rewrite option_bind_Some in Hb. cbv zeta in Hb.
  assert (Hlvl : is_level0 = false -> txs = xsize /\ ok1 = 1).
  { intros ->. injection Ht as <- _ <-. done. }
  destruct (negb (ok1 =? 0)) eqn:Hok1.
  - destruct (read_color_cache_bits dec1) as [[ok2 dec2] ccb] eqn:Hcc.
    destruct (Z.eqb_spec ok2 0) as [->|Hok2].
    + injection Hb as <- <- <-. unfold stream_end. simpl.
      apply read_color_cache_bits_failed in Hcc.
      split; [|done]. intros _. rewrite Hcc. done.
    + cbn [negb] in Hb.
      destruct (ReadHuffmanCodes rec dec2 txs ysize ccb is_level0)
        as [[ok3 dec3]|] eqn:Hh; [|discriminate].
      rewrite option_bind_Some in Hb.
      destruct (Z.eqb_spec ok3 0) as [->|Hok3].
      { injection Hb as <- <- <-. unfold stream_end. simpl. done. }
      destruct (if ccb >? 0 then _ else _) as [dec4|dec4] eqn:Hd4 in Hb.
      * destruct is_level0.
        { injection Hb as <- <- <-. unfold stream_end. simpl. done. }
        destruct (Hlvl eq_refl) as [-> _].
        match type of Hb with
        | match ?m with _ => _ end = _ => destruct m as [base|]
        end.
        2:{ injection Hb as <- <- <-. unfold stream_end. simpl. done. }
        destruct (DecodeImageData _ _ _ _ _ _ _) as [[[ok5 dec5] data5]|]
          eqn:Hdd; [|discriminate].
        rewrite option_bind_Some in Hb.
        destruct (DecodeImageData_cases _ _ _ _ _ _ None _ _ _ I Hdd)
          as (Hlen & Hcases).
        rewrite malloc_cells_length in Hlen.
        unfold stream_end in Hb.
        destruct (eos_ (br_ dec5)) eqn:He5.
        { simpl in Hb. injection Hb as <- <- <-. simpl.
          split; [|done]. intros _.
          destruct Hcases as [(_ & ->)|[(_ & -> & _)|(_ & _ & Hc & _)]];
            try done; congruence. }
        destruct Hcases as [(-> & Hs)|[(-> & _)|(-> & _)]]; simpl in Hb;
          injection Hb as <- <- <-; simpl.
        -- split; [|done]. intros _. rewrite Hs. done.
        -- split; [done|]. intros _. repeat split; try done. eauto.
        -- split; [done|]. intros _. repeat split; try done. eauto.
      * injection Hb as <- <- <-. unfold stream_end. simpl.
        split; [|done]. intros _.
        destruct (ccb >? 0); [|discriminate].
        destruct (malloc _); [discriminate|].
        injection Hd4 as <-. done.
  - rewrite Hok1, option_bind_Some in Hb. simpl in Hb.
    injection Hb as <- <- <-. unfold stream_end. simpl. done.
Qed.

(** A failing DecodeImageStream never leaves status OK behind (the
    assertion at the end of VP8LDecodeHeader), returns no raster and
    leaves the metadata cleared.  A successful one answers 1 and resets
    [last_pixel_]; at level 0 it stops behind the Huffman codes in state
    READ_HDR without a raster, below level 0 it returns a raster of
    [xsize * ysize] pixels, the reader not at its end, the metadata
    cleared. *)
Theorem DecodeImageStream_result (depth : nat) (xsize ysize : Z)
    (is_level0 : bool) (dec : Decoder) (ok : Z) (dec' : Decoder)
    (data : option (list Z)) :
  DecodeImageStream depth xsize ysize is_level0 dec
    = Some (ok, dec', data) ->
  (ok = 0 ->
   status_ dec' <> VP8_STATUS_OK /\ data = None /\
   hdr_ dec' = InitMetadata) /\
  (ok <> 0 ->
   ok = 1 /\ last_pixel_ dec' = 0 /\
   if is_level0 then data = None /\ state_ dec' = READ_HDR
   else hdr_ dec' = InitMetadata /\ eos_ (br_ dec') = false /\
        exists raster, data = Some raster /\
                       length raster = Z.to_nat (xsize * ysize)).
Proof.
  destruct depth as [|depth]; [discriminate|]. simpl.
  apply DecodeImageStream_body_cases.
Qed.

Lemma VP8LClear_fields (dec dec' : Decoder) :
  VP8LClear dec = Some dec' ->
  status_ dec' = status_ dec /\ hdr_ dec' = InitMetadata /\
  next_transform_ dec' = 0 /\ transforms_seen_ dec' = 0.
Proof. unfold VP8LClear. intros Hc. inv_opt Hc. subst dec'. done. Qed.

(** VP8LDecodeHeader (on a decoder that is not NULL) answers 0 only with
    a status other than OK, as its closing assertion says, and then, when
    there was an [io], with the decoder cleared: no metadata, no
    transforms.  It answers 1 only for dimensions within 1..16384, in
    state READ_HDR. *)
Theorem VP8LDecodeHeader_result (dec : Decoder) (io : option (list Z * Z))
    (ok : Z) (dec' : Decoder) (out : option (Z * Z)) :
  VP8LDecodeHeader VP8LInitBitReader dec io = Some (ok, dec', out) ->
  (ok = 0 \/ ok = 1) /\
  (ok = 0 ->
   status_ dec' <> VP8_STATUS_OK /\
   (io = None -> status_ dec' = VP8_STATUS_INVALID_PARAM) /\
   (io <> None ->
    hdr_ dec' = InitMetadata /\ next_transform_ dec' = 0 /\
    transforms_seen_ dec' = 0)) /\
  (ok = 1 ->
   exists width height,
     out = Some (width, height) /\
     1 <= width <= 16384 /\ 1 <= height <= 16384 /\
     state_ dec' = READ_HDR /\ last_pixel_ dec' = 0).
Proof.
  unfold VP8LDecodeHeader. destruct io as [[d size]|].
  2:{ intros [= <- <- <-]. split; [by left|]. split; [|done]. done. }
  cbv zeta. simpl br_.
  destruct (ReadImageInfo (VP8LInitBitReader d size)) as [[ok1 br1] o1]
    eqn:Hr.
  destruct (Z.eqb_spec ok1 0) as [->|Hok1].
  - intros Hc. inv_opt Hc. subst.
    match goal with E : VP8LClear _ = Some _ |- _ =>
      apply VP8LClear_fields in E as (Hs & Hh & Hn & Ht) end.
    split; [by left|]. split; [|done]. intros _.
    rewrite Hs. simpl. done.
  - assert (ok1 = 1) as ->.
    { destruct (ReadImageInfo_dimensions _ _ _ _ Hr) as ([|] & _); lia. }
    destruct (ReadImageInfo_ok _ _ _ Hr)
      as (w & h & a & -> & Hw & Hh & _).
    rewrite option_bind_Some. cbv beta iota.
    destruct (DecodeImageStream 2 w h true _) as [[[ok2 dec2] data2]|]
      eqn:Hs; [|discriminate].
    rewrite option_bind_Some.
    destruct (DecodeImageStream_body_cases _ _ _ _ _ _ _ _ Hs)
      as [Hfail Hgood].
    destruct (Z.eqb_spec ok2 0) as [->|Hok2].
    + intros Hc. inv_opt Hc. subst.
      match goal with E : VP8LClear _ = Some _ |- _ =>
        apply VP8LClear_fields in E as (Hst & Hhd & Hn & Ht) end.
      split; [by left|]. split; [|done]. intros _.
      rewrite Hst. destruct (Hfail eq_refl) as (? & _). done.
    + intros [= <- <- <-]. destruct (Hgood Hok2) as (-> & Hlp & _ & Hst).
      split; [by right|]. split; [done|]. intros _.
      exists w, h. done.
Qed.
End StreamResults.

(** ** The 8-bit alpha path: Is8bOptimizable *)

Lemma groups_8b_spec : forall n groups i,
  groups_8b n groups i = Some 1 ->
  forall k, i <= k < i + Z.of_nat n ->
    exists g, load groups k = Some g /\
      first_bits (htrees g RED) <= 0 /\
      first_bits (htrees g BLUE) <= 0 /\
      first_bits (htrees g ALPHA) <= 0.
Proof.
  induction n as [|n IH]; intros groups i Hg k Hk; [lia|].
  simpl in Hg.
  destruct (load groups i) as [g|] eqn:Eg; [|discriminate].
  rewrite option_bind_Some in Hg.
  destruct (load (htrees g RED) 0) as [r|] eqn:Er; [|discriminate].
  rewrite option_bind_Some in Hg.
  destruct (Z.gtb_spec (bits r) 0); [discriminate|].
  destruct (load (htrees g BLUE) 0) as [b|] eqn:Eb; [|discriminate].
  rewrite option_bind_Some in Hg.
  destruct (Z.gtb_spec (bits b) 0); [discriminate|].
  destruct (load (htrees g ALPHA) 0) as [a|] eqn:Ea; [|discriminate].
  rewrite option_bind_Some in Hg.
  destruct (Z.gtb_spec (bits a) 0); [discriminate|].
  destruct (Z.eq_dec k i) as [->|Hne].
  - exists g. unfold first_bits. rewrite Er, Eb, Ea. done.
  - apply (IH _ _ Hg). lia.
Qed.

Lemma testbit_uint8_high b n :
  0 <= b < 256 -> 8 <= n -> Z.testbit b n = false.
Proof.
  intros Hb Hn. destruct (Z.eq_dec b 0) as [->|]; [apply Z.bits_0|].
  apply Z.bits_above_log2; [lia|].
  assert (Z.log2 b < 8); [|lia].
  apply Z.log2_lt_pow2; lia.
Qed.

(** The green byte of a literal pixel composed from [literal_arb] is
    the green symbol. *)
Lemma green_byte_of_literal (alpha red blue S : Z) :
  0 <= blue < 256 -> 0 <= S < 256 ->
  Z.land
    (Z.shiftr
       (Z.lor (Z.lor (Z.lor (to_uint32 (Z.shiftl alpha 24))
                            (to_uint32 (Z.shiftl red 16)))
                     (to_uint32 blue))
              (to_uint32 (Z.shiftl S 8))) 8) 0xff = S.
Proof.
  intros Hb HS. apply Z.bits_inj'. intros n Hn.
  rewrite Z.land_spec, Z.shiftr_spec by lia.
  change 255 with (Z.ones 8).
  destruct (Z.lt_ge_cases n 8) as [Hlt|Hge].
  - rewrite Z.ones_spec_low by lia. rewrite andb_true_r.
    rewrite !Z.lor_spec. unfold to_uint32.
    rewrite !Z.mod_pow2_bits_low by lia.
    rewrite (Z.shiftl_spec_low alpha) by lia.
    rewrite (Z.shiftl_spec_low red) by lia.
    rewrite (testbit_uint8_high blue) by lia.
    rewrite Z.shiftl_spec by lia. simpl. f_equal. lia.
  - rewrite Z.ones_spec_high by lia. rewrite andb_false_r.
    symmetry. apply testbit_uint8_high; lia.
Qed.

Section EightBit.
Context {BR : Type} `{BitReaderOps BR} `{Platform}.

Local Abbreviation Decoder := (VP8LDecoder BR).

(** When Is8bOptimizable answers 1 there is no color cache, and every
    group that ReadHuffmanCodes built (its bit counts are [uint8_t], so
    not negative) is a trivial-literal group: red, blue and alpha of its
    literals are constants, and the green byte of the literal pixel,
    which ExtractAlphaRows takes as the alpha value, is the very symbol
    that DecodeAlphaData stores. *)
Theorem Is8bOptimizable_trivial_literals (hdr : VP8LMetadata)
    (i : Z) (g : HTreeGroup)
    (color_cache_bits : Z) (dec dec' : Decoder) (cl cl' : list Z) :
  Is8bOptimizable hdr = Some 1 ->
  0 <= i < num_htree_groups_ hdr ->
  load (htree_groups_ hdr) i = Some g ->
  read_htree_group color_cache_bits dec cl = Some (dec', cl', Some g) ->
  0 <= first_bits (htrees g RED) ->
  0 <= first_bits (htrees g BLUE) ->
  0 <= first_bits (htrees g ALPHA) ->
  color_cache_size_ hdr <= 0 /\
  is_trivial_literal g = true /\
  (0 <= first_value (htrees g BLUE) < 256 ->
   forall S, 0 <= S < NUM_LITERAL_CODES ->
     Z.land (Z.shiftr (Z.lor (literal_arb g) (to_uint32 (Z.shiftl S 8))) 8)
            0xff = S).
Proof.
  unfold Is8bOptimizable. intros H8 Hi Hg Hr Hr0 Hb0 Ha0.
  destruct (Z.gtb_spec (color_cache_size_ hdr) 0); [discriminate|].
  split; [done|].
  destruct (groups_8b_spec _ _ _ H8 i) as (g' & Hg' & Hrb & Hbb & Hab);
    [lia|].
  rewrite Hg in Hg'. injection Hg' as <-.
  destruct (read_htree_group_trivial _ _ _ _ _ _ Hr) as [Ht Harb].
  assert (Htriv : is_trivial_literal g = true).
  { rewrite Ht.
    replace (first_bits (htrees g RED)) with 0 by lia.
    replace (first_bits (htrees g BLUE)) with 0 by lia.
    replace (first_bits (htrees g ALPHA)) with 0 by lia. done. }
  split; [done|]. intros Hblue S HS.
  rewrite (Harb Htriv). apply green_byte_of_literal; [done|].
  unfold NUM_LITERAL_CODES in HS. done.
Qed.
End EightBit.

(** ** Back-references that do not overlap *)

Lemma load_range_spec (m : list Z) : forall n p,
  0 <= p -> p + Z.of_nat n <= Z.of_nat (length m) ->
  exists vs, load_range m p n = Some vs /\ length vs = n /\
    forall i, (i < n)%nat -> vs !! i = m !! (Z.to_nat p + i)%nat.
Proof.
  induction n as [|n IH]; intros p Hp Hlen; simpl.
  - exists []. split; [done|]. split; [done|]. intros; lia.
  - destruct (load_in_range m p) as [v Hv]; [lia|].
    destruct (IH (p + 1)) as (vs & Hvs & Hl & Hi); [lia..|].
    rewrite Hv, option_bind_Some, Hvs, option_bind_Some.
    exists (v :: vs). split; [done|]. split; [simpl; lia|].
    intros [|i] Hlt; simpl.
    + apply load_Some in Hv as [_ Hv]. rewrite Nat.add_0_r. done.
    + rewrite Hi by lia. f_equal. lia.
Qed.

Lemma store_range_spec : forall vs (m : list Z) p,
  0 <= p -> p + Z.of_nat (length vs) <= Z.of_nat (length m) ->
  exists m', store_range m p vs = Some m' /\ length m' = length m /\
    (forall i, (i < length vs)%nat ->
       m' !! (Z.to_nat p + i)%nat = vs !! i) /\
    (forall j, (j < Z.to_nat p)%nat \/ (Z.to_nat p + length vs <= j)%nat ->
       m' !! j = m !! j).
Proof.
  induction vs as [|v vs IH]; intros m p Hp Hlen; simpl in *.
  - exists m. split; [done|]. split; [done|]. split; [intros; lia | done].
  - rewrite store_in_range by lia. rewrite option_bind_Some.
    destruct (IH (<[Z.to_nat p := v]> m) (p + 1)) as (m' & Hs & Hl & Hi & Hf);
      [lia | rewrite length_insert; lia |].
    exists m'. split; [done|]. rewrite length_insert in Hl.
    split; [done|]. split.
    + intros [|i] Hlt; simpl.
      * rewrite Nat.add_0_r, Hf by lia.
        apply list_lookup_insert_eq. lia.
      * rewrite <- Hi by lia. f_equal. lia.
    + intros j Hj. rewrite Hf by lia.
      apply list_lookup_insert_ne. lia.
Qed.

Lemma memcpy_run_length (m : list Z) pos D L :
  1 <= D -> 0 <= L <= D -> D <= pos ->
  pos + L <= Z.of_nat (length m) ->
  exists m', memcpy m pos (pos - D) L = Some m' /\ run_length m m' pos D L.
Proof.
  intros HD HL Hpos Hlen. unfold memcpy.
  destruct (Z.ltb_spec L 0); [lia|].
  destruct (load_range_spec m (Z.to_nat L) (pos - D)) as (vs & Hvs & Hl & Hi);
    [lia..|].
  rewrite Hvs, option_bind_Some.
  destruct (store_range_spec vs m pos) as (m' & Hs & Hlm & Hw & Hf);
    [lia..|].
  exists m'. split; [done|]. split; [done|]. split.
  - intros i Hil. rewrite Z.mod_small by lia.
    unfold load. destruct (Z.ltb_spec (pos + i) 0); [lia|].
    destruct (Z.ltb_spec (pos - D + i) 0); [lia|].
    replace (Z.to_nat (pos + i)) with (Z.to_nat pos + Z.to_nat i)%nat by lia.
    rewrite Hw, Hi by lia. f_equal. lia.
  - intros j Hj. unfold load. destruct (Z.ltb_spec j 0); [done|].
    apply Hf. lia.
Qed.

(** A back-reference of length [L] at a distance [D >= L] inside the
    raster is a plain copy in both engines, through [memcpy]: pixel
    [pos + i] receives pixel [pos - D + i], the raster keeps its size
    and nothing else changes. *)
Theorem CopyBlock_plain_copy (base : Z) (m : list Z) (pos D L : Z) :
  1 <= L -> L <= D -> D <= pos -> pos + L <= Z.of_nat (length m) ->
  exists m',
    CopyBlock32b base m pos D L = Some m' /\
    CopyBlock8b base m pos D L = Some m' /\
    length m' = length m /\
    (forall i, 0 <= i < L -> load m' (pos + i) = load m (pos - D + i)) /\
    (forall j, j < pos \/ pos + L <= j -> load m' j = load m j).
Proof.
  intros HL HD Hpos Hlen.
  destruct (memcpy_run_length m pos D L) as (m' & Hm & Hlm & Hc & Hf);
    [lia..|].
  exists m'. split; [|split; [|split; [done|split; [|done]]]].
  - unfold CopyBlock32b.
    destruct (Z.leb_spec D 2); destruct (Z.geb_spec L 4); simpl;
      try lia; destruct (Z.geb_spec D L); try lia; done.
  - unfold CopyBlock8b.
    destruct (Z.geb_spec D L); [|lia].
    destruct (Z.geb_spec L 8); [|done].
    destruct (Z.eqb_spec D 1); [lia|].
    destruct (Z.eqb_spec D 2); [lia|].
    destruct (Z.eqb_spec D 4); [lia|]. done.
  - intros i Hi. rewrite Hc by done. rewrite Z.mod_small by lia. done.
Qed.

Lemma CopyBlock32b_defined base m pos D L :
  1 <= D -> 1 <= L -> D <= pos ->
  pos + L <= Z.of_nat (length m) ->
  Forall is_uint32 m ->
  exists m', CopyBlock32b base m pos D L = Some m' /\
             run_length m m' pos D L.
Proof.
  intros HD HL Hpos Hlen Hm. destruct (Z.lt_ge_cases D L).
  - now apply CopyBlock32b_run_length.
  - destruct (memcpy_run_length m pos D L) as (m' & Hc & Hr); [lia..|].
    exists m'. split; [|done]. unfold CopyBlock32b.
    destruct (Z.leb_spec D 2); destruct (Z.geb_spec L 4); simpl;
      try lia; destruct (Z.geb_spec D L); try lia; done.
Qed.

Lemma CopyBlock8b_defined base m pos D L :
  1 <= D -> 1 <= L -> D <= pos ->
  pos + L <= Z.of_nat (length m) ->
  Forall is_uint8 m ->
  exists m', CopyBlock8b base m pos D L = Some m' /\
             run_length m m' pos D L.
Proof.
  intros HD HL Hpos Hlen Hm. destruct (Z.lt_ge_cases D L).
  - now apply CopyBlock8b_run_length.
  - destruct (memcpy_run_length m pos D L) as (m' & Hc & Hr); [lia..|].
    exists m'. split; [|done]. unfold CopyBlock8b.
    destruct (Z.geb_spec D L); [|lia].
    destruct (Z.geb_spec L 8); [|done].
    destruct (Z.eqb_spec D 1); [lia|].
    destruct (Z.eqb_spec D 2); [lia|].
    destruct (Z.eqb_spec D 4); [lia|]. done.
Qed.

(** The pixels of the raster after a copy are pixels it held before. *)
Lemma run_length_Forall (P : Z -> Prop) m m' pos D L :
  1 <= D <= pos -> 0 <= L -> pos + L <= Z.of_nat (length m) ->
  run_length m m' pos D L -> Forall P m -> Forall P m'.
Proof.
  intros HD HL Hlen (Hl & Hc & Hf) Hm.
  apply Forall_lookup. intros j x Hx.
  assert (Hj : (j < length m')%nat) by (eapply lookup_lt_Some; eauto).
  assert (Hload : load m' (Z.of_nat j) = Some x).
  { apply load_Some. split; [lia|]. rewrite Nat2Z.id. done. }
  destruct (Z.lt_ge_cases (Z.of_nat j) pos) as [Hlt|Hge].
  - rewrite Hf in Hload by lia. apply load_Some in Hload as [_ Hload].
    eapply (proj1 (Forall_lookup _ _) Hm); eauto.
  - destruct (Z.lt_ge_cases (Z.of_nat j) (pos + L)) as [Hin|Hout].
    + replace (Z.of_nat j) with (pos + (Z.of_nat j - pos)) in Hload by lia.
      rewrite Hc in Hload by lia.
      apply load_Some in Hload as [_ Hload].
      eapply (proj1 (Forall_lookup _ _) Hm); eauto.
    + rewrite Hf in Hload by lia. apply load_Some in Hload as [_ Hload].
      eapply (proj1 (Forall_lookup _ _) Hm); eauto.
Qed.

(** ** Memory safety of the main loop *)

Lemma to_uint32_range z : is_uint32 (to_uint32 z).
Proof. unfold is_uint32, to_uint32. apply Z.mod_pos_bound. lia. Qed.

Lemma lor_uint32 a b : is_uint32 a -> is_uint32 b -> is_uint32 (Z.lor a b).
Proof.
  unfold is_uint32. intros Ha Hb.
  assert (He : Z.lor a b = Z.lor a b mod 2 ^ 32).
  { rewrite <- Z.land_ones by lia. rewrite Z.land_lor_distr_l.
    rewrite !Z.land_ones by lia. rewrite !Z.mod_small by lia. done. }
  rewrite He. apply Z.mod_pos_bound. lia.
Qed.

Lemma PlaneCodeToDistance_pos (xsize code : Z) :
  Z.abs xsize <= 2 ^ 28 -> 1 <= code < 2 ^ 31 ->
  exists D, PlaneCodeToDistance xsize code = Some D /\ 1 <= D < 2 ^ 31.
Proof.
  intros Hx Hc. unfold PlaneCodeToDistance, CODE_TO_PLANE_CODES.
  destruct (Z.gtb_spec code 120).
  - rewrite to_int32_small by lia. eexists. split; [done|]. lia.
  - destruct (load_in_range kCodeToPlane (code - 1)) as [d Hd];
      [simpl; lia|].
    rewrite Hd, option_bind_Some.
    assert (Hr : 0 <= d < 128).
    { apply load_Some in Hd as [_ Hd].
      eapply (proj1 (Forall_lookup _ _) kCodeToPlane_range); eauto. }
    assert (Hy : 0 <= Z.shiftr d 4 <= 7).
    { rewrite Z.shiftr_div_pow2 by lia. change (2 ^ 4) with 16.
      Z.div_mod_to_equations. lia. }
    assert (Hxo : 0 <= Z.land d 0xf <= 15).
    { replace (Z.land d 15) with (d mod 16)
        by (symmetry; apply (Z.land_ones d 4); lia).
      Z.div_mod_to_equations. lia. }
    change (2 ^ 28) with 268435456 in Hx.
    rewrite (to_int32_small (Z.shiftr d 4 * xsize)) by nia.
    rewrite to_int32_small by nia.
    eexists. split; [done|].
    destruct (Z.geb_spec (Z.shiftr d 4 * xsize + (8 - Z.land d 15)) 1); nia.
Qed.

Section LoopSafety.
Context {BR : Type} `{BitReaderOps BR}.

Local Abbreviation Decoder := (VP8LDecoder BR).

(** A table from which [ReadSymbol] reads a symbol whatever the reader
    holds: the walk stays inside the table. *)
Definition table_reads (t : list HuffmanCode) : Prop :=
  forall br : BR, exists v br', ReadSymbol t br = Some (v, br').

(** The same, with symbols of an alphabet of [n] symbols. *)
Definition table_reads_below (t : list HuffmanCode) (n : Z) : Prop :=
  forall br : BR,
    exists v br', ReadSymbol t br = Some (v, br') /\ 0 <= v < n.

Definition group_ok (g : HTreeGroup) : Prop :=
  table_reads (htrees g GREEN) /\ table_reads (htrees g RED) /\
  table_reads (htrees g BLUE) /\ table_reads (htrees g ALPHA) /\
  table_reads_below (htrees g DIST) NUM_DISTANCE_CODES /\
  is_uint32 (literal_arb g).

(** A color cache of [1 << hash_bits] colors. *)
Definition cache_ok (cc : VP8LColorCache) : Prop :=
  0 <= hash_bits_ cc <= 32 /\
  Z.of_nat (length (colors_ cc)) = 2 ^ hash_bits_ cc /\
  Forall is_uint32 (colors_ cc).

(** The part of the metadata that places the groups on the image. *)
Definition tiling (hdr : VP8LMetadata)
  : option (list Z) * Z * Z * list HTreeGroup :=
  (huffman_image_ hdr, huffman_xsize_ hdr, huffman_subsample_bits_ hdr,
   htree_groups_ hdr).

Lemma GetHtreeGroupForPos_tiling hdr hdr' x y :
  tiling hdr' = tiling hdr ->
  GetHtreeGroupForPos hdr' x y = GetHtreeGroupForPos hdr x y.
Proof.
  unfold tiling, GetHtreeGroupForPos. intros [= -> -> -> ->]. done.
Qed.

Variables (dec0 : Decoder) (width height : Z).

(** The metadata DecodeImageData starts from: every pixel position has a
    group whose tables can be read; a color cache, when there is one,
    has its [1 << hash_bits] colors, at least [color_cache_size_] of
    them; and the cache of the snapshot has the same size where a
    snapshot can be taken (incremental mode, or [1 << 24] rows). *)
Definition hdr_ok : Prop :=
  (forall x y, 0 <= x < width -> 0 <= y < height ->
     exists g, GetHtreeGroupForPos (hdr_ dec0) x y = Some g /\ group_ok g) /\
  (color_cache_size_ (hdr_ dec0) > 0 ->
   cache_ok (color_cache_ (hdr_ dec0)) /\
   color_cache_size_ (hdr_ dec0)
   <= Z.of_nat (length (colors_ (color_cache_ (hdr_ dec0)))) /\
   (incremental_ dec0 = true \/ Z.shiftl 1 24 <= height ->
    cache_shape (saved_color_cache_ (hdr_ dec0))
    = cache_shape (color_cache_ (hdr_ dec0)))).

(** What the loop keeps of the decoder. *)
Definition dec_inv (d : Decoder) : Prop :=
  tiling (hdr_ d) = tiling (hdr_ dec0) /\
  incremental_ d = incremental_ dec0 /\
  color_cache_size_ (hdr_ d) = color_cache_size_ (hdr_ dec0) /\
  (color_cache_size_ (hdr_ dec0) > 0 ->
   cache_ok (color_cache_ (hdr_ d)) /\
   cache_shape (color_cache_ (hdr_ d))
   = cache_shape (color_cache_ (hdr_ dec0)) /\
   (incremental_ dec0 = true \/ Z.shiftl 1 24 <= height ->
    cache_shape (saved_color_cache_ (hdr_ d))
    = cache_shape (color_cache_ (hdr_ dec0)))).

(** What the loop keeps of its variables. *)
Definition loop_inv (st : LoopState BR) : Prop :=
  dec_inv (ls_dec st) /\
  (0 <= ls_col st < width /\ 0 <= ls_row st /\
   ls_src st = ls_row st * width + ls_col st) /\
  (0 <= ls_last_cached st <= ls_src st /\ ls_src st <= width * height) /\
  (Z.of_nat (length (ls_data st)) = width * height /\
   Forall is_uint32 (ls_data st)) /\
  group_ok (ls_htree_group st) /\
  (incremental_ dec0 = false -> height < Z.shiftl 1 24 ->
   ls_next_sync_row st = Z.shiftl 1 24).

Lemma dec_inv_set_br d br : dec_inv d -> dec_inv (set_br d br).
Proof. done. Qed.

Lemma dec_inv_frame d d' :
  hdr_ d' = hdr_ d -> incremental_ d' = incremental_ d ->
  dec_inv d -> dec_inv d'.
Proof. unfold dec_inv. intros -> ->. done. Qed.

Lemma SaveState_defined d p :
  dec_inv d ->
  (incremental_ dec0 = true \/ Z.shiftl 1 24 <= height) ->
  exists d', SaveState d p = Some d' /\ dec_inv d' /\ br_ d' = br_ d.
Proof.
  intros (Ht & Hi & Hs & Hc) Hinc. unfold SaveState. simpl.
  destruct (Z.gtb_spec (color_cache_size_ (hdr_ d)) 0) as [Hgt|Hle].
  - destruct Hc as (Hok & Hsh & Hsv); [lia|]. specialize (Hsv Hinc).
    unfold VP8LColorCacheCopy.
    assert (Heq : cache_shape (color_cache_ (hdr_ d))
                  = cache_shape (saved_color_cache_ (hdr_ d)))
      by congruence.
    unfold cache_shape in Heq. injection Heq as Hhb Hlen.
    rewrite Hhb, Hlen, !Z.eqb_refl. simpl.
    eexists. split; [done|]. split; [|done].
    split; [done|]. split; [done|]. split; [done|]. intros _. simpl.
    split; [done|]. split; [done|]. intros _.
    unfold cache_shape in *. simpl. congruence.
  - eexists. split; [done|]. split; [|done].
    split; [done|]. split; [done|]. split; [done|]. intros Hgt. lia.
Qed.

Lemma VP8LColorCacheInsert_defined cc px :
  cache_ok cc -> is_uint32 px ->
  exists cc', VP8LColorCacheInsert cc px = Some cc' /\ cache_ok cc' /\
              cache_shape cc' = cache_shape cc.
Proof.
  intros (Hhb & Hlen & Hall) Hpx. unfold VP8LColorCacheInsert.
  set (key := Z.shiftr _ _).
  assert (Hkey : 0 <= key < 2 ^ hash_bits_ cc).
  { unfold key. rewrite Z.shiftr_div_pow2 by lia.
    pose proof (to_uint32_range (0x1e35a7bd * px)) as Hu.
    unfold is_uint32 in Hu.
    assert (Hp : 0 < 2 ^ (32 - hash_bits_ cc))
      by (apply Z.pow_pos_nonneg; lia).
    split; [apply Z.div_pos; lia|].
    apply Z.div_lt_upper_bound; [lia|].
    rewrite <- Z.pow_add_r by lia.
    replace (32 - hash_bits_ cc + hash_bits_ cc) with 32 by lia. lia. }
  rewrite store_in_range by lia. rewrite option_bind_Some.
  eexists. split; [done|]. split.
  - split; [done|]. simpl. rewrite length_insert. split; [done|].
    apply Forall_insert; done.
  - unfold cache_shape. simpl. rewrite length_insert. done.
Qed.

Lemma insert_pixels_defined data : forall n cc p,
  cache_ok cc -> Forall is_uint32 data ->
  0 <= p -> p + Z.of_nat n <= Z.of_nat (length data) ->
  exists cc', insert_pixels n cc data p = Some cc' /\ cache_ok cc' /\
              cache_shape cc' = cache_shape cc.
Proof.
  induction n as [|n IH]; intros cc p Hcc Hd Hp Hlen; simpl.
  - exists cc. done.
  - destruct (load_in_range data p) as [px Hpx]; [lia|].
    rewrite Hpx, option_bind_Some.
    assert (Hu : is_uint32 px).
    { apply load_Some in Hpx as [_ Hpx].
      eapply (proj1 (Forall_lookup _ _) Hd); eauto. }
    destruct (VP8LColorCacheInsert_defined cc px Hcc Hu)
      as (cc1 & -> & Hcc1 & Hsh1).
    rewrite option_bind_Some.
    destruct (IH cc1 (p + 1) Hcc1 Hd) as (cc2 & -> & Hcc2 & Hsh2); [lia..|].
    exists cc2. split; [done|]. split; [done|]. congruence.
Qed.

Lemma catch_up_cache_defined d data lc src :
  dec_inv d -> color_cache_size_ (hdr_ dec0) > 0 ->
  Forall is_uint32 data ->
  0 <= lc -> src <= Z.of_nat (length data) ->
  exists d', catch_up_cache d data lc src = Some (d', Z.max lc src) /\
             dec_inv d' /\ br_ d' = br_ d.
Proof.
  intros Hd Hsz Hdata Hlc Hsrc. unfold catch_up_cache.
  destruct (Z.ltb_spec lc src).
  - destruct Hd as (Ht & Hi & Hs & Hc).
    destruct (Hc Hsz) as (Hok & Hsh & Hsv).
    destruct (insert_pixels_defined data (Z.to_nat (src - lc))
                (color_cache_ (hdr_ d)) lc Hok Hdata)
      as (cc' & -> & Hok' & Hsh'); [lia..|].
    rewrite option_bind_Some. rewrite Z.max_r by lia.
    eexists. split; [done|]. split; [|done].
    split; [done|]. split; [done|]. split; [done|]. intros _. simpl.
    split; [done|]. split; [congruence | done].
  - rewrite Z.max_l by lia. eexists. done.
Qed.

Variables (base last_row : Z) (process_func : option (ProcessRowsFunc BR)).
Hypothesis Hframe : process_func_frame process_func.
Hypothesis Hwidth : 0 < width <= 2 ^ 28.

Local Abbreviation env :=
  (loop_env dec0 base width height last_row process_func).

Lemma call_process_func_inv d data row :
  dec_inv d ->
  dec_inv (call_process_func env d data row) /\
  br_ (call_process_func env d data row) = br_ d.
Proof.
  intros Hd. unfold call_process_func. simpl.
  destruct process_func as [f|]; [|done].
  destruct (Z.rem row NUM_ARGB_CACHE_ROWS =? 0); [|done].
  destruct (Hframe d data row) as (F1 & _ & _ & F4 & F5).
  split; [|done]. eapply dec_inv_frame; eauto.
Qed.

Lemma wrap_rows_defined data : forall fuel d row col,
  dec_inv d -> 0 <= col -> col <= Z.of_nat fuel ->
  exists d' row' col',
    wrap_rows fuel env d data row col = Some (d', row', col') /\
    dec_inv d' /\ br_ d' = br_ d /\
    0 <= col' < width /\ row <= row' /\
    row' * width + col' = row * width + col.
Proof.
  induction fuel as [|fuel IH]; intros d row col Hd Hc Hf; simpl.
  - destruct (Z.geb_spec col width); [lia|].
    exists d, row, col. split; [done|]. split; [done|]. split; [done|]. lia.
  - destruct (Z.geb_spec col width).
    + destruct (call_process_func_inv d data (row + 1) Hd) as [Hd1 Hb1].
      destruct (IH (call_process_func env d data (row + 1)) (row + 1)
                   (col - width) Hd1)
        as (d' & row' & col' & -> & Hd' & Hb' & Hc' & Hr' & He'); [lia..|].
      exists d', row', col'. split; [done|]. split; [done|].
      split; [congruence|]. lia.
    + exists d, row, col. split; [done|]. split; [done|]. split; [done|]. lia.
Qed.
Hypothesis Hlast : last_row <= height.
Hypothesis Hhdr : hdr_ok.

Lemma dec_inv_refl : dec_inv dec0.
Proof.
  split; [done|]. split; [done|]. split; [done|]. intros Hsz.
  destruct Hhdr as [_ Hc]. destruct (Hc Hsz) as (? & _ & ?). done.
Qed.

Lemma group_at d x y :
  dec_inv d -> 0 <= x < width -> 0 <= y < height ->
  exists g, GetHtreeGroupForPos (hdr_ d) x y = Some g /\ group_ok g.
Proof.
  intros (Ht & _) Hx Hy. rewrite (GetHtreeGroupForPos_tiling _ _ _ _ Ht).
  destruct Hhdr as [Hg _]. auto.
Qed.

Lemma loop_head_defined st :
  loop_inv st -> ls_src st < le_src_last env ->
  exists d1 nsr g,
    loop_head env st = Some (d1, nsr, g) /\
    dec_inv d1 /\ group_ok g /\ br_ d1 = br_ (ls_dec st) /\
    (incremental_ dec0 = false -> height < Z.shiftl 1 24 ->
     nsr = Z.shiftl 1 24).
Proof.
  intros (Hd & (Hcol & Hrow & Hsrc) & _ & _ & Hg & Hnsr) Hlt.
  simpl in Hlt. unfold loop_head.
  assert (Hrh : ls_row st < height) by nia.
  assert (Hsave : exists d1 nsr,
            (if ls_row st >=? ls_next_sync_row st
             then dec ← SaveState (ls_dec st) (ls_src st);
                  Some (dec, ls_row st + SYNC_EVERY_N_ROWS)
             else Some (ls_dec st, ls_next_sync_row st)) = Some (d1, nsr) /\
            dec_inv d1 /\ br_ d1 = br_ (ls_dec st) /\
            (incremental_ dec0 = false -> height < Z.shiftl 1 24 ->
             nsr = Z.shiftl 1 24)).
  { destruct (Z.geb_spec (ls_row st) (ls_next_sync_row st)) as [Hge|Hn].
    - assert (Hinc : incremental_ dec0 = true \/ Z.shiftl 1 24 <= height).
      { destruct (incremental_ dec0) eqn:Ei; [by left|].
        destruct (Z.lt_ge_cases height (Z.shiftl 1 24)); [|by right].
        specialize (Hnsr eq_refl ltac:(done)). lia. }
      destruct (SaveState_defined (ls_dec st) (ls_src st) Hd Hinc)
        as (d1 & -> & Hd1 & Hb1).
      rewrite option_bind_Some. eexists _, _. split; [done|].
      split; [done|]. split; [done|]. intros Hi Hh.
      destruct Hinc as [Hinc|Hinc]; [congruence | lia].
    - eexists _, _. split; [done|]. done. }
  destruct Hsave as (d1 & nsr & -> & Hd1 & Hb1 & Hn1).
  rewrite option_bind_Some. cbv beta iota.
  destruct (Z.land (ls_col st) (le_mask env) =? 0).
  - destruct (group_at d1 (ls_col st) (ls_row st) Hd1) as (g & -> & Hgo);
      [lia..|].
    rewrite option_bind_Some. eexists _, _, _. split; [done|]. done.
  - rewrite option_bind_Some. eexists _, _, _. split; [done|]. done.
Qed.

Lemma AdvanceByOne_defined (st : LoopState BR) d data g lc :
  dec_inv d -> group_ok g ->
  0 <= ls_col st < width -> 0 <= ls_row st ->
  ls_src st = ls_row st * width + ls_col st ->
  ls_src st < width * height ->
  0 <= lc <= ls_src st + 1 ->
  Z.of_nat (length data) = width * height -> Forall is_uint32 data ->
  (incremental_ dec0 = false -> height < Z.shiftl 1 24 ->
   ls_next_sync_row st = Z.shiftl 1 24) ->
  exists st',
    AdvanceByOne env st d data g lc = Some st' /\
    loop_inv st' /\ ls_src st' = ls_src st + 1.
Proof.
  intros Hd Hg Hcol Hrow Hsrc Hend Hlc Hlen Hdata Hnsr.
  unfold AdvanceByOne.
  destruct (Z.geb_spec (ls_col st + 1) (le_width env)) as [Hw|Hw];
    simpl in Hw.
  - destruct (call_process_func_inv d data (ls_row st + 1) Hd)
      as [Hd1 Hb1].
    destruct (le_color_cache env) eqn:Hcc; simpl in Hcc.
    + apply Z.gtb_lt in Hcc.
      destruct (catch_up_cache_defined
                  (call_process_func env d data (ls_row st + 1)) data lc
                  (ls_src st + 1) Hd1)
        as (d2 & -> & Hd2 & Hb2); [lia | done | lia | lia |].
      rewrite option_bind_Some. eexists. split; [done|].
      split; [|done]. split; [done|]. simpl.
      split; [nia|]. split; [lia|]. done.
    + rewrite option_bind_Some. eexists. split; [done|].
      split; [|done]. split; [done|]. simpl.
      split; [nia|]. split; [lia|]. done.
  - eexists. split; [done|]. split; [|done]. split; [done|]. simpl.
    split; [lia|]. split; [lia|]. done.
Qed.

Lemma read_backward_ref_defined g code br :
  group_ok g ->
  NUM_LITERAL_CODES <= code < NUM_LITERAL_CODES + NUM_LENGTH_CODES ->
  exists L D br',
    read_backward_ref env g code br = Some (L, D, br') /\
    1 <= L /\ 1 <= D.
Proof.
  intros (_ & _ & _ & _ & Hdist & _) Hc. unfold read_backward_ref.
  unfold NUM_LITERAL_CODES, NUM_LENGTH_CODES in Hc.
  pose proof (GetCopyDistance_pos (code - NUM_LITERAL_CODES) br) as HL.
  unfold GetCopyLength.
  destruct (GetCopyDistance (code - NUM_LITERAL_CODES) br) as [L br1].
  simpl in HL.
  destruct (Hdist br1) as (v & br2 & -> & Hv).
  rewrite option_bind_Some. cbv beta iota.
  pose proof (GetCopyDistance_pos v (VP8LFillBitWindow br2) Hv) as HD.
  destruct (GetCopyDistance v (VP8LFillBitWindow br2)) as [dc br3].
  simpl in HD.
  destruct (PlaneCodeToDistance_pos (le_width env) dc) as (D & -> & HD');
    [simpl; lia | lia |].
  rewrite option_bind_Some. eexists _, _, _. split; [done|].
  unfold NUM_LITERAL_CODES, NUM_DISTANCE_CODES in HL. lia.
Qed.

Lemma literal_pixel_uint32 a r c b : is_uint32 (literal_pixel a r c b).
Proof.
  unfold literal_pixel. repeat apply lor_uint32; apply to_uint32_range.
Qed.

Lemma Forall_store (P : Z -> Prop) (m m' : list Z) i v :
  store m i v = Some m' -> P v -> Forall P m -> Forall P m'.
Proof. intros [_ ->]%store_Some Hv Hm. apply Forall_insert; done. Qed.

(** One round of the loop from a state that satisfies the invariant is
    defined, and leads to such a state when it comes back to the loop
    test. *)
Lemma loop_body_defined st :
  loop_inv st -> ls_src st < le_src_last env ->
  exists o,
    loop_body env st = Some o /\
    dec_inv (ls_dec (outcome_state o)) /\
    match o with
    | Continue st' => loop_inv st' /\ ls_src st < ls_src st'
    | _ => True
    end.
Proof.
  intros Hinv Hlt.
  destruct (loop_head_defined st Hinv Hlt)
    as (d1 & nsr & g & Hh & Hd1 & Hg & Hb1 & Hn1).
  destruct Hinv
    as (Hd & (Hcol & Hrow & Hsrc) & (Hlc & Hse) & (Hlen & Hdata) & Hg0 & Hnsr).
  assert (Hend : ls_src st < width * height) by (simpl in Hlt; nia).
  unfold loop_body. rewrite Hh, option_bind_Some. cbv beta iota zeta.
  pose proof Hg as (Hgreen & Hred & Hblue & Halpha & Hdist & Harb).
  destruct (Hgreen (VP8LFillBitWindow (br_ d1))) as (code & br & ->).
  rewrite option_bind_Some. cbv beta iota.
  destruct (eos_ br) eqn:He.
  { eexists. split; [done|]. simpl. done. }
  destruct (Z.ltb_spec code NUM_LITERAL_CODES) as [Hlit|Hnlit].
  - (* a literal *)
    assert (Hadv : forall px, is_uint32 px -> forall br',
              exists o,
                (data ← store (ls_data st) (ls_src st) px;
                 Continue <$> AdvanceByOne env
                   {| ls_dec := set_br d1 br'; ls_data := ls_data st;
                      ls_src := ls_src st;
                      ls_last_cached := ls_last_cached st;
                      ls_row := ls_row st; ls_col := ls_col st;
                      ls_htree_group := g; ls_next_sync_row := nsr |}
                   (set_br d1 br') data g (ls_last_cached st)) = Some o /\
                dec_inv (ls_dec (outcome_state o)) /\
                match o with
                | Continue st' => loop_inv st' /\ ls_src st < ls_src st'
                | _ => True
                end).
    { intros px Hpx br'.
      destruct (store (ls_data st) (ls_src st) px) as [data|] eqn:Hst.
      2:{ rewrite store_in_range in Hst by lia. discriminate. }
      rewrite option_bind_Some.
      match goal with |- context [AdvanceByOne env ?s ?d ?dt ?gg ?lc] =>
        destruct (AdvanceByOne_defined s d dt gg lc)
          as (st' & -> & Hinv' & Hs'); simpl; try done; try lia
      end.
      - apply store_length in Hst. lia.
      - eapply Forall_store; eauto.
      - simpl in Hs'. exists (Continue st'). split; [done|].
        split; [apply Hinv'|]. split; [done|]. simpl. lia. }
    destruct (is_trivial_literal g).
    + apply Hadv. apply lor_uint32; [done | apply to_uint32_range].
    + unfold read_rba.
      destruct (Hred br) as (red & br2 & ->). rewrite option_bind_Some.
      cbv beta iota.
      destruct (Hblue (VP8LFillBitWindow br2)) as (blue & br3 & ->).
      rewrite option_bind_Some. cbv beta iota.
      destruct (Halpha br3) as (alpha & br4 & ->).
      rewrite !option_bind_Some. cbv beta iota.
      destruct (eos_ br4); [eexists; split; [done|]; simpl; done|].
      apply Hadv. apply literal_pixel_uint32.
  - change (le_len_code_limit env)
      with (NUM_LITERAL_CODES + NUM_LENGTH_CODES).
    destruct (Z.ltb_spec code (NUM_LITERAL_CODES + NUM_LENGTH_CODES))
      as [Hlenc|Hnlen].
    + (* a backward reference *)
      destruct (read_backward_ref_defined g code br Hg)
        as (L & D & br2 & -> & HL & HD); [lia|].
      rewrite option_bind_Some. cbv beta iota.
      destruct (eos_ br2); [eexists; split; [done|]; simpl; done|].
      change (le_src_end env) with (width * height).
      destruct (Z.ltb_spec (ls_src st) D); simpl;
        [eexists; split; [done|]; simpl; done|].
      destruct (Z.ltb_spec (width * height - ls_src st) L); simpl;
        [eexists; split; [done|]; simpl; done|].
      destruct (CopyBlock32b_defined base (ls_data st) (ls_src st)
                  D L) as (data & -> & Hrl); try done; try lia.
      rewrite option_bind_Some.
      assert (Hlen' : Z.of_nat (length data) = width * height).
      { destruct Hrl as (Hl & _). lia. }
      assert (Hdata' : Forall is_uint32 data).
      { apply (run_length_Forall is_uint32 (ls_data st) data (ls_src st) D L);
          [lia | lia | lia | done | done]. }
      destruct (wrap_rows_defined data (Z.to_nat (ls_col st + L))
                  (set_br d1 br2) (ls_row st) (ls_col st + L))
        as (d2 & row' & col' & -> & Hd2 & Hb2 & Hc' & Hr' & He');
        [done | lia | lia |].
      rewrite option_bind_Some. cbv beta iota.
      assert (Hgrp : exists g',
                (if negb (Z.land col' (huffman_mask_ (hdr_ dec0)) =? 0)
                 then GetHtreeGroupForPos (hdr_ d2) col' row'
                 else Some g) = Some g' /\ group_ok g').
      { destruct (Z.eqb_spec (Z.land col' (huffman_mask_ (hdr_ dec0))) 0)
          as [Hz|Hnz];
          simpl; [eauto|].
        assert (col' <> 0) by (intros ->; rewrite Z.land_0_l in Hnz; done).
        apply group_at; [done | lia | nia]. }
      destruct Hgrp as (g' & -> & Hg'). rewrite option_bind_Some.
      assert (Hcatch : exists d3 lc',
                (if color_cache_size_ (hdr_ dec0) >? 0
                 then catch_up_cache d2 data (ls_last_cached st)
                        (ls_src st + L)
                 else Some (d2, ls_last_cached st)) = Some (d3, lc') /\
                dec_inv d3 /\ 0 <= lc' <= ls_src st + L).
      { destruct (Z.gtb_spec (color_cache_size_ (hdr_ dec0)) 0) as [Hcc|Hcc].
        - apply Z.lt_gt in Hcc.
          destruct (catch_up_cache_defined d2 data (ls_last_cached st)
                      (ls_src st + L) Hd2)
            as (d3 & -> & Hd3 & _); [lia | done | lia | lia |].
          eexists _, _. split; [done|]. split; [done|]. lia.
        - eexists _, _. split; [done|]. split; [done|]. lia. }
      destruct Hcatch as (d3 & lc' & -> & Hd3 & Hlc').
      rewrite option_bind_Some. cbv beta iota.
      eexists. split; [done|]. simpl. split; [done|].
      split; [|lia]. split; [done|]. simpl.
      split; [split; [lia|]; split; [lia|]; lia|].
      split; [lia|]. done.
    + destruct (Z.ltb_spec code (le_color_cache_limit env)) as [Hcc|Hncc];
        [|eexists; split; [done|]; simpl; done].
      (* a color-cache reference *)
      simpl in Hcc.
      assert (Hsz : color_cache_size_ (hdr_ dec0) > 0) by lia.
      destruct (catch_up_cache_defined (set_br d1 br) (ls_data st)
                  (ls_last_cached st) (ls_src st))
        as (d2 & -> & Hd2 & _); [done | done | done | lia | lia |].
      rewrite option_bind_Some. cbv beta iota.
      destruct Hd2 as (Ht2 & Hi2 & Hs2 & Hc2).
      destruct (Hc2 Hsz) as (Hok2 & Hsh2 & Hsv2).
      destruct Hhdr as [_ Hc0]. destruct (Hc0 Hsz) as (_ & Hsize & _).
      assert (Hl2 : length (colors_ (color_cache_ (hdr_ d2)))
                    = length (colors_ (color_cache_ (hdr_ dec0)))).
      { unfold cache_shape in Hsh2. congruence. }
      unfold VP8LColorCacheLookup.
      destruct (load_in_range (colors_ (color_cache_ (hdr_ d2)))
                  (code - (NUM_LITERAL_CODES + NUM_LENGTH_CODES)))
        as [px Hpx]; [lia|].
      rewrite Hpx, option_bind_Some.
      assert (Hu : is_uint32 px).
      { destruct Hok2 as (_ & _ & Hall).
        apply load_Some in Hpx as [_ Hpx].
        eapply (proj1 (Forall_lookup _ _) Hall); eauto. }
      destruct (store (ls_data st) (ls_src st) px) as [data|] eqn:Hst.
      2:{ rewrite store_in_range in Hst by lia. discriminate. }
      rewrite option_bind_Some. rewrite Z.max_r by lia.
      match goal with |- context [AdvanceByOne env ?s ?d ?dt ?gg ?lc] =>
        destruct (AdvanceByOne_defined s d dt gg lc)
          as (st' & -> & Hinv' & Hs'); simpl; try done; try lia
      end.
      * apply store_length in Hst. lia.
      * eapply Forall_store; eauto.
      * simpl in Hs'. exists (Continue st'). split; [done|].
        split; [apply Hinv'|]. split; [done|]. simpl. lia.
Qed.

Lemma main_loop_defined : forall fuel st,
  loop_inv st -> le_src_last env - ls_src st <= Z.of_nat fuel ->
  exists o, main_loop fuel env st = Some o /\
            dec_inv (ls_dec (outcome_state o)).
Proof.
  induction fuel as [|fuel IH]; intros st Hinv Hf; rewrite main_loop_eq;
    destruct (Z.ltb_spec (ls_src st) (le_src_last env)) as [Hlt|Hge];
    try lia; try (exists (Continue st); split; [done|]; apply Hinv).
  destruct (loop_body_defined st Hinv Hlt) as (o & -> & Hd & Ho).
  rewrite option_bind_Some. destruct o as [st'|st'|st']; [|eauto..].
  apply IH; [apply Ho | lia].
Qed.

Lemma loop_exit_defined st :
  dec_inv (ls_dec st) -> exists r, loop_exit env st = Some r.
Proof.
  intros (Ht & Hi & Hs & Hc). unfold loop_exit.
  destruct (incremental_ (ls_dec st) && eos_ (br_ (ls_dec st))
            && (ls_src st <? le_src_end env)) eqn:Hcond.
  - apply andb_prop in Hcond as [Hcond _].
    apply andb_prop in Hcond as [Hinc _].
    unfold RestoreState. cbn -[Z.gtb].
    destruct (Z.gtb_spec (color_cache_size_ (hdr_ (ls_dec st))) 0)
      as [Hgt|Hle]; [|rewrite option_bind_Some; eauto].
    destruct Hc as (_ & Hsh & Hsv); [lia|].
    specialize (Hsv ltac:(left; congruence)).
    unfold VP8LColorCacheCopy.
    assert (Heq : cache_shape (saved_color_cache_ (hdr_ (ls_dec st)))
                  = cache_shape (color_cache_ (hdr_ (ls_dec st))))
      by congruence.
    unfold cache_shape in Heq. injection Heq as Hhb Hlen.
    rewrite Hhb, Hlen, !Z.eqb_refl. simpl. eauto.
  - destruct (negb (eos_ (br_ (ls_dec st)))); eauto.
Qed.

Lemma loop_init_defined data :
  0 <= last_pixel_ dec0 < width * height ->
  Z.of_nat (length data) = width * height -> Forall is_uint32 data ->
  exists st0, loop_init dec0 data width = Some st0 /\ loop_inv st0 /\
              ls_src st0 = last_pixel_ dec0.
Proof.
  intros Hlp Hlen Hdata. unfold loop_init.
  rewrite Z.quot_div_nonneg, Z.rem_mod_nonneg by lia.
  pose proof (Z.mod_pos_bound (last_pixel_ dec0) width ltac:(lia)) as Hm.
  pose proof (Z.div_mod (last_pixel_ dec0) width ltac:(lia)) as Hdm.
  assert (Hq : 0 <= last_pixel_ dec0 / width < height).
  { split; [apply Z.div_pos; lia|].
    apply Z.div_lt_upper_bound; lia. }
  destruct (group_at dec0 (last_pixel_ dec0 mod width)
              (last_pixel_ dec0 / width) dec_inv_refl)
    as (g & -> & Hg); [lia..|].
  rewrite option_bind_Some. eexists. split; [done|]. split; [|done].
  split; [apply dec_inv_refl|]. simpl.
  split; [split; [lia|]; split; [lia|]; lia|].
  split; [lia|]. split; [done|]. split; [done|].
  intros ->. done.
Qed.

Lemma DecodeImageData_total data :
  0 <= last_pixel_ dec0 < width * height ->
  Z.of_nat (length data) = width * height -> Forall is_uint32 data ->
  exists ok dec' data',
    DecodeImageData dec0 base data width height last_row process_func
    = Some (ok, dec', data').
Proof.
  intros Hlp Hlen Hdata. unfold DecodeImageData.
  destruct (Z.eqb_spec width 0); [lia|]. cbv zeta.
  destruct (loop_init_defined data Hlp Hlen Hdata) as (st0 & -> & Hinv & _).
  rewrite option_bind_Some.
  destruct (main_loop_defined
              (Z.to_nat (le_src_last env - ls_src st0)) st0 Hinv)
    as (o & -> & Hd); [lia|].
  rewrite option_bind_Some.
  destruct o as [st|st|st]; simpl in Hd.
  - destruct (loop_exit_defined st Hd) as ([[ok d'] data'] & ->). eauto.
  - destruct (loop_exit_defined st Hd) as ([[ok d'] data'] & ->). eauto.
  - unfold decode_error. eauto.
Qed.
End LoopSafety.

(** DecodeImageData is defined on every input: with metadata whose
    groups can be read at every pixel position and whose caches have
    their size, a raster of [width * height] pixels and a callback that
    keeps to its frame, the pixel loop never reads or writes outside the
    raster, the tables or the color cache, whatever the bit reader
    delivers, and it ends within the rounds its pixels allow. *)
Theorem DecodeImageData_memory_safe {BR : Type} `{BitReaderOps BR}
    (dec : VP8LDecoder BR) (base : Z) (data : list Z)
    (width height last_row : Z)
    (process_func : option (ProcessRowsFunc BR)) :
  0 < width <= 2 ^ 28 -> last_row <= height ->
  process_func_frame process_func ->
  hdr_ok dec width height ->
  0 <= last_pixel_ dec < width * height ->
  Z.of_nat (length data) = width * height -> Forall is_uint32 data ->
  exists ok dec' data',
    DecodeImageData dec base data width height last_row process_func
    = Some (ok, dec', data').
Proof.
  intros Hw Hl Hf Hh Hp Hlen Hd.
  eapply DecodeImageData_total; eauto.
Qed.

(** A table of 256 first-level entries, none longer than the first
    level, reads a symbol from every reader. *)
Lemma first_level_table_reads {BR : Type} `{BitReaderOps BR}
    (t : list HuffmanCode) (n : Z) :
  length t = 256%nat ->
  Forall (fun e => bits e <= HUFFMAN_TABLE_BITS /\ 0 <= value e < n) t ->
  table_reads_below (BR := BR) t n.
Proof.
  intros Hlen Hall br. unfold ReadSymbol.
  assert (Hidx : 0 <= Z.land (VP8LPrefetchBits br) HUFFMAN_TABLE_MASK < 256).
  { change HUFFMAN_TABLE_MASK with (Z.ones 8).
    rewrite Z.land_ones by lia. apply Z.mod_pos_bound. lia. }
  destruct (load_in_range t (Z.land (VP8LPrefetchBits br) HUFFMAN_TABLE_MASK))
    as [e He]; [lia|].
  rewrite He, option_bind_Some.
  assert (Hb : bits e <= HUFFMAN_TABLE_BITS /\ 0 <= value e < n).
  { apply load_Some in He as [_ He].
    eapply (proj1 (Forall_lookup _ _) Hall); eauto. }
  destruct (Z.gtb_spec (bits e - HUFFMAN_TABLE_BITS) 0); [lia|].
  eexists _, _. split; [done|]. tauto.
Qed.

Lemma table_reads_below_reads {BR : Type} `{BitReaderOps BR}
    (t : list HuffmanCode) (n : Z) :
  table_reads_below (BR := BR) t n -> table_reads (BR := BR) t.
Proof. intros Ht br. destruct (Ht br) as (v & br' & -> & _). eauto. Qed.

(** ** The group of a pixel position *)

Lemma same_tile (c b : Z) :
  0 <= b -> Z.land (c + 1) (Z.shiftl 1 b - 1) <> 0 ->
  Z.shiftr (c + 1) b = Z.shiftr c b.
Proof.
  intros Hb Hn. rewrite Z.shiftl_1_l in Hn.
  replace (2 ^ b - 1) with (Z.ones b) in Hn
    by (rewrite Z.ones_equiv; lia).
  rewrite Z.land_ones in Hn by done.
  rewrite !Z.shiftr_div_pow2 by done.
  assert (Hp : 0 < 2 ^ b) by (apply Z.pow_pos_nonneg; lia).
  pose proof (Z.div_mod (c + 1) (2 ^ b) ltac:(lia)) as Hdm.
  pose proof (Z.mod_pos_bound (c + 1) (2 ^ b) Hp) as Hm.
  apply (Z.div_unique c (2 ^ b) _ ((c + 1) mod 2 ^ b - 1)); lia.
Qed.

Section TileGroups.
Context {BR : Type} `{BitReaderOps BR}.

Local Abbreviation Decoder := (VP8LDecoder BR).

(** The tile mask as UpdateDecoder sets it. *)
Definition mask_ok (hdr : VP8LMetadata) : Prop :=
  0 <= huffman_subsample_bits_ hdr /\
  huffman_mask_ hdr
  = (if huffman_subsample_bits_ hdr =? 0 then -1
     else Z.shiftl 1 (huffman_subsample_bits_ hdr) - 1).

Lemma UpdateDecoder_mask_ok (dec : Decoder) width height :
  0 <= huffman_subsample_bits_ (hdr_ dec) ->
  mask_ok (hdr_ (UpdateDecoder dec width height)).
Proof. intros Hb. split; done. Qed.

(** Inside a tile the next column has the same group. *)
Lemma GetHtreeGroupForPos_next hdr col row :
  mask_ok hdr -> Z.land (col + 1) (huffman_mask_ hdr) <> 0 ->
  GetHtreeGroupForPos hdr (col + 1) row = GetHtreeGroupForPos hdr col row.
Proof.
  intros [Hb Hm] Hn. unfold GetHtreeGroupForPos, GetMetaIndex.
  rewrite Hm in Hn.
  destruct (Z.eqb_spec (huffman_subsample_bits_ hdr) 0); [done|].
  rewrite same_tile by done. done.
Qed.

Lemma SaveState_tiling (d d' : Decoder) p :
  SaveState d p = Some d' -> tiling (hdr_ d') = tiling (hdr_ d).
Proof. unfold SaveState. intros Hs. inv_opt Hs; subst; done. Qed.

Lemma catch_up_cache_tiling (d d' : Decoder) data lc src lc' :
  catch_up_cache d data lc src = Some (d', lc') ->
  tiling (hdr_ d') = tiling (hdr_ d).
Proof. unfold catch_up_cache. intros Hc. inv_opt Hc; simplify_eq; done. Qed.

Lemma AdvanceByOne_fields (env : LoopEnv BR) st d data g lc st' :
  process_func_frame (le_process_func env) ->
  AdvanceByOne env st d data g lc = Some st' ->
  ls_htree_group st' = g /\
  tiling (hdr_ (ls_dec st')) = tiling (hdr_ d) /\
  ls_row st' = (if ls_col st + 1 >=? le_width env then ls_row st + 1
                else ls_row st) /\
  ls_col st' = (if ls_col st + 1 >=? le_width env then 0
                else ls_col st + 1).
Proof.
  unfold AdvanceByOne. intros Hf Ha.
  pose proof (call_process_func_hdr env d data (ls_row st + 1) Hf) as Hp.
  destruct (ls_col st + 1 >=? le_width env).
  - inv_opt Ha; simplify_eq; simpl.
    + match goal with E : catch_up_cache _ _ _ _ = Some _ |- _ =>
        apply catch_up_cache_tiling in E; rewrite E, Hp end. done.
    + rewrite Hp. done.
  - injection Ha as <-. done.
Qed.

Lemma loop_head_group (env : LoopEnv BR) (hdr0 : VP8LMetadata) st d1 nsr g :
  tiling (hdr_ (ls_dec st)) = tiling hdr0 ->
  (Z.land (ls_col st) (le_mask env) <> 0 ->
   GetHtreeGroupForPos hdr0 (ls_col st) (ls_row st)
   = Some (ls_htree_group st)) ->
  loop_head env st = Some (d1, nsr, g) ->
  tiling (hdr_ d1) = tiling hdr0 /\
  GetHtreeGroupForPos hdr0 (ls_col st) (ls_row st) = Some g.
Proof.
  intros Ht Hg. unfold loop_head. intros Hh.
  destruct (if ls_row st >=? ls_next_sync_row st then _ else _)
    as [[d n]|] eqn:Hs; [|discriminate].
  rewrite option_bind_Some in Hh. cbv beta iota in Hh.
  assert (Htd : tiling (hdr_ d) = tiling hdr0).
  { destruct (ls_row st >=? ls_next_sync_row st).
    - destruct (SaveState (ls_dec st) (ls_src st)) as [dd|] eqn:Es;
        [|discriminate].
      rewrite option_bind_Some in Hs. injection Hs as <- _.
      apply SaveState_tiling in Es. congruence.
    - injection Hs as <- _. done. }
  destruct (Z.eqb_spec (Z.land (ls_col st) (le_mask env)) 0) as [Hz|Hnz].
  - destruct (GetHtreeGroupForPos (hdr_ d) (ls_col st) (ls_row st))
      as [g'|] eqn:Eg; [|discriminate].
    rewrite option_bind_Some in Hh. injection Hh as <- _ <-.
    split; [done|]. rewrite <- Eg.
    symmetry. apply GetHtreeGroupForPos_tiling. done.
  - rewrite option_bind_Some in Hh. injection Hh as <- _ <-.
    split; [done|]. auto.
Qed.

(** The invariant: the group the loop holds is the group of the current
    position, except at the start of a tile, where the head of the round
    fetches it. *)
Definition group_inv (env : LoopEnv BR) (hdr0 : VP8LMetadata)
    (st : LoopState BR) : Prop :=
  tiling (hdr_ (ls_dec st)) = tiling hdr0 /\
  (Z.land (ls_col st) (le_mask env) <> 0 ->
   GetHtreeGroupForPos hdr0 (ls_col st) (ls_row st)
   = Some (ls_htree_group st)).

Lemma loop_body_group_inv (env : LoopEnv BR) hdr0 st st' :
  process_func_frame (le_process_func env) ->
  mask_ok hdr0 -> le_mask env = huffman_mask_ hdr0 ->
  group_inv env hdr0 st ->
  loop_body env st = Some (Continue st') ->
  group_inv env hdr0 st'.
Proof.
  intros Hf Hm Hmask [Ht Hg] Hb. unfold loop_body in Hb.
  destruct (loop_head env st) as [[[d1 nsr] g]|] eqn:Hh; [|discriminate].
  rewrite option_bind_Some in Hb. cbv beta iota zeta in Hb.
  destruct (loop_head_group env hdr0 st d1 nsr g Ht Hg Hh) as [Ht1 Hg1].
  assert (Hadv : forall s d data lc,
            ls_col s = ls_col st -> ls_row s = ls_row st ->
            tiling (hdr_ d) = tiling hdr0 ->
            AdvanceByOne env s d data g lc = Some st' ->
            group_inv env hdr0 st').
  { intros s d data lc Hc Hr Htd Ha.
    destruct (AdvanceByOne_fields env s d data g lc st' Hf Ha)
      as (Hg' & Ht' & Hr' & Hc').
    split; [congruence|]. rewrite Hr', Hc', Hg', Hc, Hr.
    destruct (ls_col st + 1 >=? le_width env).
    - rewrite Z.land_0_l. done.
    - intros Hn. rewrite Hmask in Hn.
      rewrite GetHtreeGroupForPos_next by done. done. }
  destruct (ReadSymbol (htrees g GREEN) _) as [[code br]|]; [|discriminate].
  rewrite option_bind_Some in Hb. cbv beta iota in Hb.
  destruct (eos_ br); [discriminate|].
  destruct (code <? NUM_LITERAL_CODES).
  - (* a literal *)
    destruct (is_trivial_literal g).
    + destruct (store _ _ _) as [data|]; [|discriminate].
      rewrite option_bind_Some in Hb.
      destruct (AdvanceByOne _ _ _ _ _ _) as [s'|] eqn:Ha; [|discriminate].
      injection Hb as <-. eapply Hadv; [| | |exact Ha]; done.
    + destruct (read_rba g br) as [[[[r b] a] br2]|]; [|discriminate].
      rewrite option_bind_Some in Hb. cbv beta iota in Hb.
      destruct (eos_ br2); [discriminate|].
      destruct (store _ _ _) as [data|]; [|discriminate].
      rewrite option_bind_Some in Hb.
      destruct (AdvanceByOne _ _ _ _ _ _) as [s'|] eqn:Ha; [|discriminate].
      injection Hb as <-. eapply Hadv; [| | |exact Ha]; done.
  - destruct (code <? le_len_code_limit env).
    + (* a backward reference *)
      destruct (read_backward_ref _ _ _ _) as [[[L D] br2]|];
        [|discriminate].
      rewrite option_bind_Some in Hb. cbv beta iota in Hb.
      destruct (eos_ br2); [discriminate|].
      destruct (_ || _); [discriminate|].
      destruct (CopyBlock32b _ _ _ _ _) as [data|]; [|discriminate].
      rewrite option_bind_Some in Hb.
      destruct (wrap_rows _ _ _ _ _ _) as [[[d2 row'] col']|] eqn:Hw;
        [|discriminate].
      rewrite option_bind_Some in Hb. cbv beta iota in Hb.
      apply wrap_rows_hdr in Hw; [|done]. simpl in Hw.
      destruct (if negb _ then _ else _) as [g'|] eqn:Hgp in Hb;
        [|discriminate].
      rewrite option_bind_Some in Hb.
      destruct (if le_color_cache env then _ else _) as [[d3 lc']|] eqn:Hcc
        in Hb; [|discriminate].
      rewrite option_bind_Some in Hb. cbv beta iota in Hb.
      injection Hb as <-.
      assert (Ht3 : tiling (hdr_ d3) = tiling hdr0).
      { destruct (le_color_cache env).
        - apply catch_up_cache_tiling in Hcc. congruence.
        - injection Hcc as <- _. congruence. }
      split; simpl; [done|]. intros Hn.
      destruct (Z.eqb_spec (Z.land col' (le_mask env)) 0); [done|].
      simpl in Hgp. rewrite <- Hgp.
      symmetry. apply GetHtreeGroupForPos_tiling. congruence.
    + (* a color-cache reference *)
      destruct (code <? le_color_cache_limit env); [|discriminate].
      destruct (catch_up_cache _ _ _ _) as [[d2 lc']|] eqn:Hcc;
        [|discriminate].
      rewrite option_bind_Some in Hb. cbv beta iota in Hb.
      apply catch_up_cache_tiling in Hcc. simpl in Hcc.
      destruct (VP8LColorCacheLookup _ _) as [px|]; [|discriminate].
      rewrite option_bind_Some in Hb.
      destruct (store _ _ _) as [data|]; [|discriminate].
      rewrite option_bind_Some in Hb.
      destruct (AdvanceByOne _ _ _ _ _ _) as [s'|] eqn:Ha; [|discriminate].
      injection Hb as <-. eapply Hadv; [| | |exact Ha]; try done.
      congruence.
Qed.

Lemma Trace_group_inv (env : LoopEnv BR) hdr0 st sts st' :
  process_func_frame (le_process_func env) ->
  mask_ok hdr0 -> le_mask env = huffman_mask_ hdr0 ->
  Trace env st sts st' ->
  group_inv env hdr0 st -> group_inv env hdr0 st'.
Proof.
  intros Hf Hm Hmask. induction 1 as [|st st1 sts st' _ Hb _ IH]; [done|].
  intros Hg. apply IH. eapply loop_body_group_inv; eauto.
Qed.

(** Every symbol is decoded with the Huffman group of the tile its pixel
    lies in: in every round of DecodeImageData, the group the round uses
    is [GetHtreeGroupForPos] of the current column and row, although the
    loop fetches the group only where a tile starts and behind a
    back-reference. *)
Theorem DecodeImageData_group_of_position
    (dec : Decoder) (base : Z) (data : list Z) (width height last_row : Z)
    (process_func : option (ProcessRowsFunc BR))
    (st0 : LoopState BR) (sts : list (LoopState BR)) (st : LoopState BR)
    (d1 : Decoder) (nsr : Z) (g : HTreeGroup) :
  let env := loop_env dec base width height last_row process_func in
  process_func_frame process_func ->
  mask_ok (hdr_ dec) ->
  loop_init dec data width = Some st0 ->
  Trace env st0 sts st ->
  loop_head env st = Some (d1, nsr, g) ->
  GetHtreeGroupForPos (hdr_ dec) (ls_col st) (ls_row st) = Some g.
Proof.
  intros env Hf Hm Hi Ht Hh.
  assert (Hg0 : group_inv env (hdr_ dec) st0).
  { unfold loop_init in Hi. inv_opt Hi. subst st0. split; simpl; [done|].
    intros _. done. }
  destruct (Trace_group_inv env (hdr_ dec) st0 sts st Hf Hm eq_refl Ht Hg0)
    as [Htl Hgl].
  apply (loop_head_group env (hdr_ dec) st d1 nsr g Htl Hgl Hh).
Qed.
End TileGroups.

(** ** The kinds of transform *)

Section TransformsOnce.
Context {BR : Type} `{BitReaderOps BR} `{Platform}.

Local Abbreviation Decoder := (VP8LDecoder BR).


End TransformsOnce.

(* ================================================================== *)
(** * The 8-bit alpha path *)
(* ================================================================== *)

Lemma to_uint8_range (z : Z) : is_uint8 (to_uint8 z).
Proof. unfold is_uint8, to_uint8. apply Z.mod_pos_bound. lia. Qed.

Section AlphaSafety.
Context {BR : Type} `{BitReaderOps BR}.

Local Abbreviation Decoder := (VP8LDecoder BR).

Variable Plane : Type.
Variable Inverse :
  VP8LTransform -> Z -> Z -> list Z -> Z -> Plane -> Z -> Plane.
Variable io_width : Z.
Variables (dec0 : Decoder) (base width height last_row : Z).

Local Abbreviation env := (loop_env dec0 base width height last_row None).

(** What the alpha loop keeps of the decoder: all but the reader and the
    rows handed over. *)
Definition alpha_frame (d : Decoder) : Prop :=
  hdr_ d = hdr_ dec0 /\ transforms_ d = transforms_ dec0 /\
  status_ d = status_ dec0 /\ last_pixel_ d = last_pixel_ dec0.

(** What the alpha loop keeps of its variables. *)
Definition alpha_inv (st : AlphaState BR Plane) : Prop :=
  alpha_frame (as_dec st) /\
  (0 <= as_col st < width /\ 0 <= as_row st /\
   as_pos st = as_row st * width + as_col st) /\
  (last_pixel_ dec0 <= as_pos st <= width * height) /\
  (Z.of_nat (length (as_data st)) = width * height /\
   Forall is_uint8 (as_data st)) /\
  group_ok (as_htree_group st).

Hypothesis Hwidth : 0 < width <= 2 ^ 28.
Hypothesis Hlast : last_row <= height.
Hypothesis Hgroups :
  forall x y, 0 <= x < width -> 0 <= y < height ->
    exists g, GetHtreeGroupForPos (hdr_ dec0) x y = Some g /\ group_ok g.
Hypothesis Htransforms : transforms_ dec0 <> [].

Lemma ExtractPalettedAlphaRows_defined d data plane row :
  alpha_frame d ->
  exists d' plane',
    ExtractPalettedAlphaRows Inverse io_width d data plane row
    = Some (d', plane') /\
    alpha_frame d' /\ br_ d' = br_ d /\
    last_row_ d' = row /\ last_out_row_ d' = row.
Proof.
  intros (Hh & Ht & Hs & Hp). unfold ExtractPalettedAlphaRows.
  destruct (to_int32 (row - last_row_ d) >? 0).
  - unfold ApplyInverseTransformsAlpha.
    destruct (transforms_ d) as [|t ts] eqn:Et; [congruence|].
    change (load (t :: ts) 0) with (Some t).
    rewrite !option_bind_Some. eexists _, _. split; [reflexivity|].
    unfold alpha_frame. simpl. repeat split; congruence.
  - rewrite option_bind_Some. eexists _, _. split; [reflexivity|].
    unfold alpha_frame. simpl. done.
Qed.

Lemma alpha_next_row_defined d data plane row :
  alpha_frame d ->
  exists d' plane',
    alpha_next_row Inverse io_width d data plane row = Some (d', plane') /\
    alpha_frame d' /\ br_ d' = br_ d.
Proof.
  intros Hd. unfold alpha_next_row.
  destruct (Z.rem row NUM_ARGB_CACHE_ROWS =? 0).
  - destruct (ExtractPalettedAlphaRows_defined d data plane row Hd)
      as (d' & plane' & -> & Hd' & Hb & _). eexists _, _. done.
  - eexists _, _. done.
Qed.

Lemma alpha_wrap_rows_defined data : forall fuel d plane row col,
  alpha_frame d -> 0 <= col <= Z.of_nat fuel -> 0 <= row ->
  exists d' plane' row' col',
    alpha_wrap_rows Inverse io_width fuel width d data plane row col
    = Some (d', plane', row', col') /\
    alpha_frame d' /\ br_ d' = br_ d /\
    0 <= col' < width /\ 0 <= row' /\
    row' * width + col' = row * width + col.
Proof.
  induction fuel as [|fuel IH]; intros d plane row col Hd Hc Hr.
  - simpl. destruct (Z.geb_spec col width); [lia|].
    eexists _, _, _, _. split; [reflexivity|].
    split; [done|]. split; [done|]. split; [lia|]. split; [done|]. lia.
  - simpl. destruct (Z.geb_spec col width).
    + destruct (alpha_next_row_defined d data plane (row + 1) Hd)
        as (d1 & plane1 & -> & Hd1 & Hb1).
      rewrite option_bind_Some. cbv beta iota.
      destruct (IH d1 plane1 (row + 1) (col - width) Hd1)
        as (d' & plane' & row' & col' & -> & Hd' & Hb' & Hc' & Hr' & He);
        [lia | lia |].
      eexists _, _, _, _. split; [reflexivity|].
      split; [done|]. split; [congruence|]. split; [done|].
      split; [done|]. lia.
    + eexists _, _, _, _. split; [reflexivity|].
      split; [done|]. split; [done|]. split; [lia|]. split; [done|]. lia.
Qed.

(** One round of the alpha loop from a state that satisfies the invariant
    is defined; it moves forward when it comes back to the loop test and
    leaves position and raster alone when it fails. *)
Lemma alpha_body_defined st :
  alpha_inv st -> as_pos st < width * last_row ->
  exists o,
    alpha_body Inverse io_width env st = Some o /\
    match o with
    | AContinue st' => alpha_inv st' /\ as_pos st < as_pos st'
    | AError st' =>
        alpha_frame (as_dec st') /\
        Z.of_nat (length (as_data st')) = width * height /\
        Forall is_uint8 (as_data st')
    end.
Proof.
  intros (Hfr & (Hcol & Hrow & Hpos) & Hrange & (Hlen & Hbytes) & Hg) Hlt.
  assert (Hy : as_row st < height) by nia.
  assert (Hpos0 : 0 <= as_pos st) by nia.
  assert (Hend : width * last_row <= width * height) by nia.
  unfold alpha_body.
  assert (Hgrp : exists g,
             (if Z.land (as_col st) (le_mask env) =? 0
              then GetHtreeGroupForPos (hdr_ (as_dec st)) (as_col st)
                                       (as_row st)
              else Some (as_htree_group st)) = Some g /\ group_ok g).
  { destruct (Z.land (as_col st) (le_mask env) =? 0).
    - rewrite (proj1 Hfr). apply Hgroups; lia.
    - eexists. done. }
  destruct Hgrp as (g & -> & Hgok). rewrite option_bind_Some.
  destruct (proj1 Hgok (VP8LFillBitWindow (br_ (as_dec st))))
    as (code & br1 & ->).
  rewrite option_bind_Some. cbv beta iota.
  destruct (Z.ltb_spec code NUM_LITERAL_CODES) as [Hlit|Hnlit].
  - (* literal *)
    rewrite (store_in_range (as_data st) (as_pos st) (to_uint8 code))
      by lia.
    rewrite option_bind_Some.
    assert (Hb' : Forall is_uint8
                    (<[Z.to_nat (as_pos st) := to_uint8 code]> (as_data st)))
      by (apply Forall_insert; [done | apply to_uint8_range]).
    change (le_width env) with width.
    destruct (Z.geb_spec (as_col st + 1) width) as [Hw|Hw].
    + destruct (alpha_next_row_defined (set_br (as_dec st) br1)
                  (<[Z.to_nat (as_pos st) := to_uint8 code]> (as_data st))
                  (as_plane st) (as_row st + 1))
        as (d' & plane' & -> & Hd' & _); [done|].
      rewrite option_bind_Some. eexists. split; [reflexivity|]. unfold alpha_inv. simpl.
      split; [|lia]. split; [done|]. split; [lia|]. split; [nia|].
      split; [|done]. split; [|done]. rewrite length_insert. done.
    + eexists. split; [reflexivity|]. unfold alpha_inv. simpl.
      split; [|lia]. split; [done|]. split; [lia|]. split; [nia|].
      split; [|done]. split; [|done]. rewrite length_insert. done.
  - change (le_len_code_limit env)
      with (NUM_LITERAL_CODES + NUM_LENGTH_CODES).
    destruct (Z.ltb_spec code (NUM_LITERAL_CODES + NUM_LENGTH_CODES))
      as [Hlen_code|Hbad].
    + (* backward reference *)
      destruct (read_backward_ref_defined dec0 width height base last_row
                  None Hwidth g code br1 Hgok)
        as (L & D & br2 & -> & HL & HD); [lia|].
      rewrite option_bind_Some. cbv beta iota.
      change (le_src_end env) with (width * height).
      change (le_src_last env) with (width * last_row).
      change (le_width env) with width.
      destruct (Z.geb_spec (as_pos st) D) as [HposD|HposD];
        [destruct (Z.geb_spec (width * height - as_pos st) L)
           as [Hfit|Hfit]|]; cbn [andb].
      * destruct (CopyBlock8b_defined (le_base env) (as_data st)
                    (as_pos st) D L)
          as (m' & -> & Hrl); [lia..| done |].
        rewrite option_bind_Some.
        destruct (alpha_wrap_rows_defined m' (Z.to_nat (as_col st + L))
                    (set_br (set_br (as_dec st) br1) br2) (as_plane st)
                    (as_row st) (as_col st + L))
          as (d' & plane' & row' & col' & -> & Hd' & _ & Hc' & Hr' & He);
          [done | lia | lia |].
        rewrite option_bind_Some. cbv beta iota.
        assert (Hgrp : exists g',
                   (if (as_pos st + L <? width * last_row)
                       && negb (Z.land col' (le_mask env) =? 0)
                    then GetHtreeGroupForPos (hdr_ d') col' row'
                    else Some g) = Some g' /\ group_ok g').
        { destruct (Z.ltb_spec (as_pos st + L) (width * last_row));
            cbn [andb]; [|eexists; done].
          destruct (negb (Z.land col' (le_mask env) =? 0));
            [|eexists; done].
          rewrite (proj1 Hd'). apply Hgroups; [lia|nia]. }
        destruct Hgrp as (g' & -> & Hg'ok). rewrite option_bind_Some.
        eexists. split; [reflexivity|]. unfold alpha_inv. simpl.
        split; [|lia]. split; [done|]. split; [lia|]. split; [lia|].
        split; [|done]. split.
        -- destruct Hrl as (Hl' & _). rewrite Hl'. done.
        -- apply (run_length_Forall is_uint8 (as_data st) m' (as_pos st)
                    D L); [lia | lia | lia | done | done].
      * eexists. split; [reflexivity|]. simpl. done.
      * eexists. split; [reflexivity|]. simpl. done.
    + eexists. split; [reflexivity|]. simpl. done.
Qed.

(** The alpha loop ends within [last - pos] rounds: at the end of the
    stream or of the rows asked for, or with an error. *)
Lemma alpha_loop_defined : forall fuel st,
  alpha_inv st -> width * last_row - as_pos st <= Z.of_nat fuel ->
  exists o,
    alpha_loop Inverse io_width fuel env st = Some o /\
    match o with
    | AContinue st' =>
        alpha_inv st' /\
        (eos_ (br_ (as_dec st')) = true \/ width * last_row <= as_pos st')
    | AError st' =>
        alpha_frame (as_dec st') /\
        Z.of_nat (length (as_data st')) = width * height /\
        Forall is_uint8 (as_data st')
    end.
Proof.
  induction fuel as [|fuel IH]; intros st Hinv Hf; simpl;
    change (le_src_last env) with (width * last_row).
  - destruct (eos_ (br_ (as_dec st))) eqn:He; cbn [negb andb].
    + eexists. split; [reflexivity|]. simpl. auto.
    + destruct (Z.ltb_spec (as_pos st) (width * last_row)); [lia|].
      eexists. split; [reflexivity|]. simpl. auto.
  - destruct (eos_ (br_ (as_dec st))) eqn:He; cbn [negb andb].
    + eexists. split; [reflexivity|]. simpl. auto.
    + destruct (Z.ltb_spec (as_pos st) (width * last_row)) as [Hlt|Hge].
      * destruct (alpha_body_defined st Hinv Hlt) as (o & -> & Ho).
        rewrite option_bind_Some. destruct o as [st'|st'].
        -- apply IH; [tauto|lia].
        -- eexists. split; [reflexivity|]. done.
      * eexists. split; [reflexivity|]. simpl. auto.
Qed.

Lemma DecodeAlphaData_run (data : list Z) (plane : Plane) :
  0 <= last_pixel_ dec0 < width * height ->
  Z.of_nat (length data) = width * height ->
  Forall is_uint8 data ->
  exists ok dec' plane' data',
    DecodeAlphaData Inverse io_width dec0 base data plane width height
                    last_row
    = Some (ok, dec', plane', data') /\
    Z.of_nat (length data') = width * height /\
    Forall is_uint8 data' /\
    hdr_ dec' = hdr_ dec0 /\
    ((ok = 0 /\ last_pixel_ dec' = last_pixel_ dec0 /\
      status_ dec' = (if eos_ (br_ dec') then VP8_STATUS_SUSPENDED
                      else VP8_STATUS_BITSTREAM_ERROR)) \/
     (ok = 1 /\ status_ dec' = status_ dec0 /\
      last_pixel_ dec0 <= last_pixel_ dec' /\
      width * last_row <= last_pixel_ dec' <= width * height /\
      last_row_ dec' = last_pixel_ dec' / width /\
      last_out_row_ dec' = last_row_ dec' /\
      (eos_ (br_ dec') = true -> last_pixel_ dec' = width * height))).
Proof.
  intros Hlp Hlen Hbytes. unfold DecodeAlphaData.
  destruct (Z.eqb_spec width 0); [lia|].
  rewrite Z.quot_div_nonneg, Z.rem_mod_nonneg by lia.
  pose proof (Z.mod_pos_bound (last_pixel_ dec0) width ltac:(lia)) as Hm.
  pose proof (Z.div_mod (last_pixel_ dec0) width ltac:(lia)) as Hdm.
  assert (Hq : 0 <= last_pixel_ dec0 / width < height).
  { split; [apply Z.div_pos; lia|]. apply Z.div_lt_upper_bound; lia. }
  destruct (Hgroups (last_pixel_ dec0 mod width) (last_pixel_ dec0 / width))
    as (g & -> & Hg); [lia | lia |].
  rewrite option_bind_Some. cbv zeta.
  change (le_src_last env) with (width * last_row).
  change (le_src_end env) with (width * height).
  match goal with
  | |- context [alpha_loop _ _ ?f env ?s] =>
      destruct (alpha_loop_defined f s) as (o & -> & Ho)
  end.
  { unfold alpha_inv, alpha_frame. simpl.
    split; [done|]. split; [lia|]. split; [lia|]. done. }
  { simpl. lia. }
  rewrite option_bind_Some. destruct o as [st|st].
  - destruct Ho as ((Hfr & (Hcol & Hrow & Hpos) & Hrange & (Hl & Hb) & _)
                    & Hexit).
    destruct (ExtractPalettedAlphaRows_defined (as_dec st) (as_data st)
                (as_plane st) (as_row st) Hfr)
      as (d1 & plane1 & -> & (Hh1 & Ht1 & Hs1 & Hp1) & Hb1 & Hlr & Hlor).
    rewrite !option_bind_Some. cbv beta iota.
    change (1 =? 0) with false. cbn [orb].
    assert (Hend : width * last_row <= width * height) by nia.
    destruct (eos_ (br_ d1)) eqn:He; cbn [andb].
    + destruct (Z.ltb_spec (as_pos st) (width * height)) as [Hlt|Hge].
      * eexists _, _, _, _. split; [reflexivity|].
        split; [done|]. split; [done|]. split; [done|]. left. simpl.
        rewrite He. done.
      * eexists _, _, _, _. split; [reflexivity|].
        split; [done|]. split; [done|]. split; [done|]. right. simpl.
        split; [done|]. split; [done|]. split; [lia|]. split; [lia|].
        split; [|split; [congruence|lia]].
        rewrite Hlr. apply (Z.div_unique _ _ _ (as_col st)); lia.
    + eexists _, _, _, _. split; [reflexivity|].
      split; [done|]. split; [done|]. split; [done|]. right. simpl.
      rewrite Hb1 in He. destruct Hexit as [Hexit|Hexit]; [congruence|].
      split; [done|]. split; [done|]. split; [lia|]. split; [lia|].
      split; [|split; [congruence|congruence]].
      rewrite Hlr. apply (Z.div_unique _ _ _ (as_col st)); lia.
  - destruct Ho as ((Hh1 & Ht1 & Hs1 & Hp1) & Hl & Hb).
    rewrite option_bind_Some. cbv beta iota.
    change (0 =? 0) with true. cbn [orb].
    eexists _, _, _, _. split; [reflexivity|].
    split; [done|]. split; [done|]. split; [done|]. left. simpl. done.
Qed.
End AlphaSafety.

(** DecodeAlphaData is defined for every bit reader behaviour: from
    a start position inside a raster of [width * height] bytes, with
    metadata in which every pixel position has a group whose tables can
    be read and with a color-indexing transform in place, the 8-bit loop
    never indexes outside the raster or the tables and ends with a
    result. *)
Theorem DecodeAlphaData_memory_safe {BR : Type} `{BitReaderOps BR}
    {Plane : Type}
    (Inverse : VP8LTransform -> Z -> Z -> list Z -> Z -> Plane -> Z -> Plane)
    (io_width : Z) (dec : VP8LDecoder BR) (base : Z) (data : list Z)
    (plane : Plane) (width height last_row : Z) :
  0 < width <= 2 ^ 28 ->
  last_row <= height ->
  (forall x y, 0 <= x < width -> 0 <= y < height ->
     exists g, GetHtreeGroupForPos (hdr_ dec) x y = Some g /\ group_ok g) ->
  transforms_ dec <> [] ->
  0 <= last_pixel_ dec < width * height ->
  Z.of_nat (length data) = width * height ->
  Forall is_uint8 data ->
  exists ok dec' plane' data',
    DecodeAlphaData Inverse io_width dec base data plane width height
                    last_row
    = Some (ok, dec', plane', data') /\
    Z.of_nat (length data') = width * height /\
    Forall is_uint8 data'.
Proof.
  intros Hw Hl Hg Ht Hp Hlen Hb.
  destruct (DecodeAlphaData_run Plane Inverse io_width dec base width
              height last_row Hw Hl Hg Ht data plane Hp Hlen Hb)
    as (ok & dec' & plane' & data' & He & Hl' & Hb' & _).
  eexists _, _, _, _. done.
Qed.

(** The result of DecodeAlphaData.  It returns 0 with [last_pixel_]
    unchanged and the status SUSPENDED when the reader is at the end of
    the stream, BITSTREAM_ERROR otherwise; or it returns 1 with the
    status unchanged, [last_pixel_] moved forward to at least
    [width * last_row] and at most [width * height] (to exactly that when
    the stream has ended), and [last_row_] and [last_out_row_] set to the
    row of [last_pixel_]. *)
Theorem DecodeAlphaData_result {BR : Type} `{BitReaderOps BR}
    {Plane : Type}
    (Inverse : VP8LTransform -> Z -> Z -> list Z -> Z -> Plane -> Z -> Plane)
    (io_width : Z) (dec : VP8LDecoder BR) (base : Z) (data : list Z)
    (plane : Plane) (width height last_row : Z)
    (ok : Z) (dec' : VP8LDecoder BR) (plane' : Plane) (data' : list Z) :
  0 < width <= 2 ^ 28 ->
  last_row <= height ->
  (forall x y, 0 <= x < width -> 0 <= y < height ->
     exists g, GetHtreeGroupForPos (hdr_ dec) x y = Some g /\ group_ok g) ->
  transforms_ dec <> [] ->
  0 <= last_pixel_ dec < width * height ->
  Z.of_nat (length data) = width * height ->
  Forall is_uint8 data ->
  DecodeAlphaData Inverse io_width dec base data plane width height last_row
  = Some (ok, dec', plane', data') ->
  hdr_ dec' = hdr_ dec /\
  ((ok = 0 /\ last_pixel_ dec' = last_pixel_ dec /\
    status_ dec' = (if eos_ (br_ dec') then VP8_STATUS_SUSPENDED
                    else VP8_STATUS_BITSTREAM_ERROR)) \/
   (ok = 1 /\ status_ dec' = status_ dec /\
    last_pixel_ dec <= last_pixel_ dec' /\
    width * last_row <= last_pixel_ dec' <= width * height /\
    last_row_ dec' = last_pixel_ dec' / width /\
    last_out_row_ dec' = last_row_ dec' /\
    (eos_ (br_ dec') = true -> last_pixel_ dec' = width * height))).
Proof.
  intros Hw Hl Hg Ht Hp Hlen Hb He.
  destruct (DecodeAlphaData_run Plane Inverse io_width dec base width
              height last_row Hw Hl Hg Ht data plane Hp Hlen Hb)
    as (ok1 & dec1 & plane1 & data1 & He1 & _ & _ & Hh & Hr).
  rewrite He in He1. injection He1 as <- <- <- <-. done.
Qed.

(** ** The 8-bit path against the 32-bit path *)

(** The alpha value of a pixel is its green byte (ExtractAlphaRows,
    vp8l.cpp:1412: [(src[i] >> 8) & 0xff]). *)
Definition green_byte (px : Z) : Z := Z.land (Z.shiftr px 8) 0xff.

(** The byte raster [data8] holds the green bytes of the first [n]
    pixels of [data32]. *)
Definition green_rel (data8 data32 : list Z) (n : Z) : Prop :=
  forall i, 0 <= i < n -> load data8 i = green_byte <$> load data32 i.

Lemma green_byte_literal (arb code : Z) :
  green_byte arb = 0 ->
  green_byte (Z.lor arb (to_uint32 (Z.shiftl code 8))) = to_uint8 code.
Proof.
  unfold green_byte, to_uint8, to_uint32. intros Ha.
  rewrite Z.shiftr_lor, Z.land_lor_distr_l, Ha, Z.lor_0_l.
  apply Z.bits_inj'. intros n Hn.
  rewrite Z.land_spec, Z.shiftr_spec by lia.
  change 255 with (Z.ones 8).
  destruct (Z.lt_ge_cases n 8) as [Hlt|Hge].
  - rewrite Z.ones_spec_low, andb_true_r by lia.
    rewrite !Z.mod_pow2_bits_low by lia.
    rewrite Z.shiftl_spec by lia. f_equal. lia.
  - rewrite Z.ones_spec_high, andb_false_r by lia.
    rewrite Z.mod_pow2_bits_high by lia. done.
Qed.

Lemma green_rel_store data8 data32 n v px data8' data32' :
  store data8 n v = Some data8' ->
  store data32 n px = Some data32' ->
  green_byte px = v ->
  green_rel data8 data32 n -> green_rel data8' data32' (n + 1).
Proof.
  intros H8 H32 Hv Hrel i Hi. destruct (Z.eq_dec i n) as [->|Hne].
  - rewrite (load_store_eq _ _ _ _ H8), (load_store_eq _ _ _ _ H32).
    simpl. congruence.
  - rewrite (load_store_ne _ _ _ _ _ H8), (load_store_ne _ _ _ _ _ H32)
      by done.
    apply Hrel. lia.
Qed.

Lemma green_rel_copy data8 data32 pos D L data8' data32' :
  1 <= D <= pos -> 0 <= L ->
  run_length data8 data8' pos D L ->
  run_length data32 data32' pos D L ->
  green_rel data8 data32 pos -> green_rel data8' data32' (pos + L).
Proof.
  intros HD HL (_ & Hc8 & Hf8) (_ & Hc32 & Hf32) Hrel i Hi.
  destruct (Z.lt_ge_cases i pos) as [Hlt|Hge].
  - rewrite Hf8, Hf32 by lia. apply Hrel. lia.
  - replace i with (pos + (i - pos)) by lia.
    rewrite Hc8, Hc32 by lia. apply Hrel.
    pose proof (Z.mod_pos_bound (i - pos) D ltac:(lia)). lia.
Qed.

Section AlphaSimulation.
Context {BR : Type} `{BitReaderOps BR}.

Local Abbreviation Decoder := (VP8LDecoder BR).

Variable Plane : Type.
Variable Inverse :
  VP8LTransform -> Z -> Z -> list Z -> Z -> Plane -> Z -> Plane.
Variable io_width : Z.
Variables (dec0 : Decoder) (base32 base8 width height last_row : Z).
Variable process_func : option (ProcessRowsFunc BR).

Local Abbreviation env32 :=
  (loop_env dec0 base32 width height last_row process_func).
Local Abbreviation env8 :=
  (loop_env dec0 base8 width height last_row None).

(** A group the 8-bit path can decode with (what Is8bOptimizable asks
    for, with the literal ReadHuffmanCodes prepares): red, blue and
    alpha are fixed and folded into a pixel whose green byte is empty. *)
Definition alpha_group (g : HTreeGroup) : Prop :=
  group_ok g /\ is_trivial_literal g = true /\
  green_byte (literal_arb g) = 0.

(** The two loops in step: same reader, same position, and the byte
    raster holding the green bytes of the pixels decoded so far. *)
Definition sim (s : LoopState BR) (a : AlphaState BR Plane) : Prop :=
  (br_ (ls_dec s) = br_ (as_dec a) /\ hdr_ (ls_dec s) = hdr_ dec0 /\
   alpha_frame dec0 (as_dec a)) /\
  (ls_src s = as_pos a /\ ls_row s = as_row a /\ ls_col s = as_col a) /\
  (0 <= as_col a < width /\ 0 <= as_row a /\
   as_pos a = as_row a * width + as_col a /\ as_pos a <= width * height) /\
  (alpha_group (ls_htree_group s) /\
   (as_pos a < width * last_row -> as_htree_group a = ls_htree_group s)) /\
  (Z.of_nat (length (ls_data s)) = width * height /\
   Forall is_uint32 (ls_data s) /\
   Z.of_nat (length (as_data a)) = width * height /\
   Forall is_uint8 (as_data a)) /\
  green_rel (as_data a) (ls_data s) (as_pos a).

Hypothesis Hframe : process_func_frame process_func.
Hypothesis Hwidth : 0 < width <= 2 ^ 28.
Hypothesis Hlast : last_row <= height.
Hypothesis Hcache : color_cache_size_ (hdr_ dec0) <= 0.
Hypothesis Hgroups : Forall alpha_group (htree_groups_ (hdr_ dec0)).
Hypothesis Htransforms : transforms_ dec0 <> [].

Lemma group_lookup_alpha x y g :
  GetHtreeGroupForPos (hdr_ dec0) x y = Some g -> alpha_group g.
Proof.
  unfold GetHtreeGroupForPos. intros Hg.
  destruct (GetMetaIndex _ _ _ _ _) as [idx|]; [|discriminate].
  rewrite option_bind_Some in Hg. apply load_Some in Hg as [_ Hg].
  eapply (proj1 (Forall_lookup _ _) Hgroups); eauto.
Qed.

(** Without a color cache the head of a round leaves reader and
    metadata alone. *)
Lemma loop_head_alpha s d1 nsr g :
  hdr_ (ls_dec s) = hdr_ dec0 ->
  loop_head env32 s = Some (d1, nsr, g) ->
  br_ d1 = br_ (ls_dec s) /\ hdr_ d1 = hdr_ dec0 /\
  (if Z.land (ls_col s) (huffman_mask_ (hdr_ dec0)) =? 0
   then GetHtreeGroupForPos (hdr_ dec0) (ls_col s) (ls_row s)
   else Some (ls_htree_group s)) = Some g.
Proof.
  intros Hh. unfold loop_head.
  assert (Hsave : forall p,
             SaveState (ls_dec s) p
             = Some (set_saved (ls_dec s) (br_ (ls_dec s)) p)).
  { intros p. unfold SaveState. simpl. rewrite Hh.
    destruct (Z.gtb_spec (color_cache_size_ (hdr_ dec0)) 0); [lia|done]. }
  change (le_mask env32) with (huffman_mask_ (hdr_ dec0)).
  destruct (ls_row s >=? ls_next_sync_row s).
  - rewrite Hsave, !option_bind_Some. cbv beta iota.
    change (hdr_ (set_saved (ls_dec s) (br_ (ls_dec s)) (ls_src s)))
      with (hdr_ (ls_dec s)).
    rewrite Hh. intros Hg.
    destruct (if Z.land (ls_col s) (huffman_mask_ (hdr_ dec0)) =? 0
              then GetHtreeGroupForPos (hdr_ dec0) (ls_col s) (ls_row s)
              else Some (ls_htree_group s)) as [g0|]; [|discriminate].
    rewrite option_bind_Some in Hg. injection Hg as <- <- <-. done.
  - rewrite !option_bind_Some. cbv beta iota. rewrite Hh. intros Hg.
    destruct (if Z.land (ls_col s) (huffman_mask_ (hdr_ dec0)) =? 0
              then GetHtreeGroupForPos (hdr_ dec0) (ls_col s) (ls_row s)
              else Some (ls_htree_group s)) as [g0|]; [|discriminate].
    rewrite option_bind_Some in Hg. injection Hg as <- <- <-. done.
Qed.

Lemma call_process_func_alpha d data row :
  br_ (call_process_func env32 d data row) = br_ d /\
  hdr_ (call_process_func env32 d data row) = hdr_ d.
Proof.
  split.
  - apply (stable_call_process_func env32 d data row Hframe).
  - apply (call_process_func_hdr env32 d data row Hframe).
Qed.

(** The row wrap after a copy: both paths reach the same row and
    column. *)
Lemma wrap_rows_sim data32 data8 : forall fuel d32 d8 plane row col d32' row' col',
  wrap_rows fuel env32 d32 data32 row col = Some (d32', row', col') ->
  alpha_frame dec0 d8 ->
  exists d8' plane',
    alpha_wrap_rows Inverse io_width fuel width d8 data8 plane row col
    = Some (d8', plane', row', col') /\
    alpha_frame dec0 d8' /\ br_ d8' = br_ d8 /\
    br_ d32' = br_ d32 /\ hdr_ d32' = hdr_ d32.
Proof.
  induction fuel as [|fuel IH];
    intros d32 d8 plane row col d32' row' col' Hw Hd; simpl in Hw |- *;
    change (le_width env32) with width in Hw.
  - destruct (col >=? width); [discriminate|].
    injection Hw as <- <- <-. eexists _, _. done.
  - destruct (col >=? width).
    + destruct (alpha_next_row_defined Plane Inverse io_width dec0
                  Htransforms d8 data8 plane (row + 1) Hd)
        as (d1 & plane1 & -> & Hd1 & Hb1).
      rewrite option_bind_Some. cbv beta iota.
      destruct (IH _ d1 plane1 _ _ _ _ _ Hw Hd1)
        as (d8' & plane' & -> & Hd' & Hb' & Hb32 & Hh32).
      destruct (call_process_func_alpha d32 data32 (row + 1)) as [Eb Eh].
      eexists _, _. split; [reflexivity|].
      split; [done|]. split; [congruence|]. split; congruence.
    + injection Hw as <- <- <-. eexists _, _. done.
Qed.

(** One round of the 32-bit loop that comes back to the loop test is
    matched by one round of the 8-bit loop. *)
Lemma alpha_body_sim s a s' :
  sim s a -> ls_src s < width * last_row ->
  loop_body env32 s = Some (Continue s') ->
  exists a',
    alpha_body Inverse io_width env8 a = Some (AContinue a') /\
    sim s' a' /\ eos_ (br_ (as_dec a')) = false /\
    as_pos a < as_pos a'.
Proof.
  intros ((Hbr & Hhdr & Hfr) & (Hsrc & Hrow & Hcol) & (Hc & Hr & Hp & Hpe)
          & (Hga & Hgeq) & (Hl32 & Hu32 & Hl8 & Hu8) & Hgreen) Hlt Hb.
  assert (Hend : width * last_row <= width * height) by nia.
  assert (Hpos0 : 0 <= as_pos a) by nia.
  assert (Hy : as_row a < height) by nia.
  unfold loop_body in Hb.
  destruct (loop_head env32 s) as [[[d1 nsr] g]|] eqn:Hh; [|discriminate].
  rewrite option_bind_Some in Hb. cbv beta iota zeta in Hb.
  destruct (loop_head_alpha s d1 nsr g Hhdr Hh) as (Hb1 & Hh1 & Hg).
  assert (Hgok : alpha_group g).
  { destruct (Z.land (ls_col s) (huffman_mask_ (hdr_ dec0)) =? 0).
    - eapply group_lookup_alpha; eauto.
    - injection Hg as <-. done. }
  destruct Hgok as (Hgo & Htriv & Hgreen0).
  unfold alpha_body.
  change (le_mask env8) with (huffman_mask_ (hdr_ dec0)).
  rewrite (proj1 Hfr), <- Hcol, <- Hrow.
  assert (Hg8 : (if Z.land (ls_col s) (huffman_mask_ (hdr_ dec0)) =? 0
                 then GetHtreeGroupForPos (hdr_ dec0) (ls_col s) (ls_row s)
                 else Some (as_htree_group a)) = Some g).
  { destruct (Z.land (ls_col s) (huffman_mask_ (hdr_ dec0)) =? 0); [done|].
    rewrite Hgeq by lia. done. }
  rewrite Hg8, option_bind_Some. rewrite <- Hbr, <- Hb1.
  destruct (ReadSymbol (htrees g GREEN) (VP8LFillBitWindow (br_ d1)))
    as [[code br1]|] eqn:Hread; [|discriminate].
  rewrite option_bind_Some in Hb. rewrite option_bind_Some.
  cbv beta iota in Hb |- *.
  destruct (eos_ br1) eqn:He1; [discriminate|].
  change (le_width env8) with width.
  change (le_len_code_limit env8)
    with (NUM_LITERAL_CODES + NUM_LENGTH_CODES).
  change (le_len_code_limit env32)
    with (NUM_LITERAL_CODES + NUM_LENGTH_CODES) in Hb.
  change (le_src_end env8) with (width * height).
  change (le_src_end env32) with (width * height) in Hb.
  change (le_src_last env8) with (width * last_row).
  assert (Hcc : (color_cache_size_ (hdr_ dec0) >? 0) = false).
  { destruct (Z.gtb_spec (color_cache_size_ (hdr_ dec0)) 0); [lia|done]. }
  destruct (Z.ltb_spec code NUM_LITERAL_CODES) as [Hlit|Hnlit].
  - (* literal *)
    rewrite Htriv in Hb.
    destruct (store (ls_data s) (ls_src s)
                (Z.lor (literal_arb g) (to_uint32 (Z.shiftl code 8))))
      as [data32'|] eqn:Hst32; [|discriminate].
    rewrite option_bind_Some in Hb.
    assert (Hst8 := store_in_range (as_data a) (as_pos a) (to_uint8 code)
                      ltac:(lia)).
    rewrite Hst8, option_bind_Some.
    assert (Hdata :
              (Z.of_nat (length data32') = width * height /\
               Forall is_uint32 data32' /\
               Z.of_nat
                 (length (<[Z.to_nat (as_pos a) := to_uint8 code]>
                            (as_data a))) = width * height /\
               Forall is_uint8
                 (<[Z.to_nat (as_pos a) := to_uint8 code]> (as_data a))) /\
              green_rel
                (<[Z.to_nat (as_pos a) := to_uint8 code]> (as_data a))
                data32' (as_pos a + 1)).
    { split; [split; [|split; [|split]]|].
      - rewrite (store_length _ _ _ _ Hst32). done.
      - apply (Forall_store _ _ _ _ _ Hst32); [|done].
        apply lor_uint32; [apply Hgo | apply to_uint32_range].
      - rewrite length_insert. done.
      - apply Forall_insert; [done | apply to_uint8_range].
      - rewrite Hsrc in Hst32.
        apply (green_rel_store _ _ _ _ _ _ _ Hst8 Hst32); [|done].
        apply green_byte_literal, Hgreen0. }
    unfold AdvanceByOne in Hb.
    cbn [ls_col ls_row ls_src ls_next_sync_row] in Hb.
    change (le_width env32) with width in Hb.
    change (le_color_cache env32)
      with (color_cache_size_ (hdr_ dec0) >? 0) in Hb.
    rewrite Hcc in Hb.
    destruct (Z.geb_spec (ls_col s + 1) width) as [Hw|Hw].
    + rewrite option_bind_Some in Hb. simpl in Hb. injection Hb as <-.
      destruct (alpha_next_row_defined Plane Inverse io_width dec0
                  Htransforms (set_br (as_dec a) br1)
                  (<[Z.to_nat (as_pos a) := to_uint8 code]> (as_data a))
                  (as_plane a) (ls_row s + 1))
        as (d' & plane' & -> & Hd' & Hb'); [done|].
      rewrite option_bind_Some. cbv beta iota.
      destruct (call_process_func_alpha (set_br d1 br1) data32'
                  (ls_row s + 1)) as [Eb Eh].
      cbn [br_ hdr_ set_br] in Hb', Eb, Eh.
      eexists. split; [reflexivity|]. unfold sim. simpl.
      split; [|split; [congruence | lia]].
      split; [split; [congruence | split; [congruence | done]]|].
      split; [lia|]. split; [lia|].
      split; [split; [exact (conj Hgo (conj Htriv Hgreen0)) | done]|].
      exact Hdata.
    + simpl in Hb. injection Hb as <-.
      eexists. split; [reflexivity|]. unfold sim. simpl.
      split; [|split; [done | lia]].
      split; [split; [done | split; [done | done]]|].
      split; [lia|]. split; [lia|].
      split; [split; [exact (conj Hgo (conj Htriv Hgreen0)) | done]|].
      exact Hdata.
  - destruct (Z.ltb_spec code (NUM_LITERAL_CODES + NUM_LENGTH_CODES))
      as [Hlc|Hbad].
    + (* backward reference *)
      change (read_backward_ref env8 g code br1)
        with (read_backward_ref env32 g code br1).
      destruct (read_backward_ref_defined dec0 width height base32 last_row
                  process_func Hwidth g code br1 Hgo)
        as (L & D & br2 & Hrb & HL & HD); [lia|].
      rewrite Hrb in Hb. rewrite Hrb.
      rewrite option_bind_Some in Hb. rewrite option_bind_Some.
      cbv beta iota in Hb |- *.
      destruct (eos_ br2) eqn:He2; [discriminate|].
      destruct (Z.ltb_spec (ls_src s) D) as [?|HposD]; cbn [orb] in Hb;
        [discriminate|].
      destruct (Z.ltb_spec (width * height - ls_src s) L) as [?|Hfit];
        [discriminate|].
      rewrite <- Hsrc.
      destruct (Z.geb_spec (ls_src s) D); [|lia].
      destruct (Z.geb_spec (width * height - ls_src s) L); [|lia].
      cbn [andb].
      destruct (CopyBlock32b (le_base env32) (ls_data s) (ls_src s) D L)
        as [data32'|] eqn:Hc32; [|discriminate].
      rewrite option_bind_Some in Hb.
      destruct (CopyBlock32b_defined (le_base env32) (ls_data s) (ls_src s)
                  D L) as (m32 & Hc32' & Hrl32); [lia..| done |].
      rewrite Hc32 in Hc32'. injection Hc32' as <-.
      destruct (CopyBlock8b_defined (le_base env8) (as_data a) (ls_src s)
                  D L) as (data8' & Hc8 & Hrl8); [lia..| done |].
      rewrite Hc8, option_bind_Some.
      destruct (wrap_rows (Z.to_nat (ls_col s + L)) env32 (set_br d1 br2)
                  data32' (ls_row s) (ls_col s + L))
        as [[[d2 row'] col']|] eqn:Hw; [|discriminate].
      rewrite option_bind_Some in Hb. cbv beta iota in Hb.
      destruct (wrap_rows_sim data32' data8' _ _
                  (set_br (set_br (as_dec a) br1) br2) (as_plane a)
                  _ _ _ _ _ Hw)
        as (d8' & plane' & Hw8 & Hd8' & Hb8' & Hb32' & Hh32'); [done|].
      rewrite Hw8, option_bind_Some. cbv beta iota.
      destruct (alpha_wrap_rows_defined Plane Inverse io_width dec0 width
                  Hwidth Htransforms data8' (Z.to_nat (ls_col s + L))
                  (set_br (set_br (as_dec a) br1) br2) (as_plane a)
                  (ls_row s) (ls_col s + L))
        as (dx & px & rx & cx & Hwx & _ & _ & Hcx & Hrx & Hex);
        [done | lia | lia |].
      rewrite Hw8 in Hwx. injection Hwx as <- <- <- <-.
      cbn [br_ hdr_ set_br] in Hb8', Hb32', Hh32'.
      change (le_mask env32) with (huffman_mask_ (hdr_ dec0)) in Hb.
      change (le_color_cache env32)
        with (color_cache_size_ (hdr_ dec0) >? 0) in Hb.
      rewrite Hcc, Hh32', Hh1 in Hb. rewrite (proj1 Hd8').
      destruct (if negb (Z.land col' (huffman_mask_ (hdr_ dec0)) =? 0)
                then GetHtreeGroupForPos (hdr_ dec0) col' row'
                else Some g) as [g'|] eqn:Hg'; [|discriminate].
      rewrite !option_bind_Some in Hb. cbv beta iota in Hb.
      injection Hb as <-.
      assert (Hg'ok : alpha_group g').
      { destruct (negb (Z.land col' (huffman_mask_ (hdr_ dec0)) =? 0)).
        - eapply group_lookup_alpha; eauto.
        - injection Hg' as <-. exact (conj Hgo (conj Htriv Hgreen0)). }
      assert (Hg8' : exists g8,
                 (if (ls_src s + L <? width * last_row)
                     && negb (Z.land col' (huffman_mask_ (hdr_ dec0)) =? 0)
                  then GetHtreeGroupForPos (hdr_ dec0) col' row'
                  else Some g) = Some g8 /\
                 (ls_src s + L < width * last_row -> g8 = g')).
      { destruct (Z.ltb_spec (ls_src s + L) (width * last_row));
          cbn [andb].
        - exists g'. done.
        - exists g. split; [done | lia]. }
      destruct Hg8' as (g8 & -> & Hg8eq). rewrite option_bind_Some.
      eexists. split; [reflexivity|]. unfold sim. simpl.
      split; [|split; [congruence | lia]].
      split; [split; [congruence | split; [congruence | done]]|].
      split; [done|]. split; [lia|].
      split; [split; [done | done]|].
      destruct Hrl32 as (Hl32' & Hrl32). destruct Hrl8 as (Hl8' & Hrl8).
      split; [split; [|split; [|split]]|].
      * rewrite Hl32'. done.
      * apply (run_length_Forall is_uint32 (ls_data s) data32' (ls_src s)
                 D L); [lia | lia | lia | done | done].
      * rewrite Hl8'. done.
      * apply (run_length_Forall is_uint8 (as_data a) data8' (ls_src s)
                 D L); [lia | lia | lia | done | done].
      * apply (green_rel_copy (as_data a) (ls_data s) (ls_src s) D L);
          [lia | lia | done | done |]. rewrite Hsrc. done.
    + change (le_color_cache_limit env32)
        with (NUM_LITERAL_CODES + NUM_LENGTH_CODES
              + color_cache_size_ (hdr_ dec0)) in Hb.
      destruct (Z.ltb_spec code (NUM_LITERAL_CODES + NUM_LENGTH_CODES
                                 + color_cache_size_ (hdr_ dec0)));
        [lia | discriminate].
Qed.

Lemma alpha_loop_eq fuel (env : LoopEnv BR) (st : AlphaState BR Plane) :
  alpha_loop Inverse io_width fuel env st =
  if negb (eos_ (br_ (as_dec st))) && (as_pos st <? le_src_last env) then
    match fuel with
    | O => None
    | S fuel' =>
        o ← alpha_body Inverse io_width env st;
        match o with
        | AContinue st' => alpha_loop Inverse io_width fuel' env st'
        | AError st' => Some (AError st')
        end
    end
  else Some (AContinue st).
Proof. destruct fuel; reflexivity. Qed.

(** A run of the 32-bit loop to the end of the rows asked for is matched,
    round by round, by the 8-bit loop. *)
Lemma alpha_loop_sim : forall fuel s a sf,
  sim s a -> eos_ (br_ (as_dec a)) = false ->
  main_loop fuel env32 s = Some (Continue sf) ->
  exists af,
    alpha_loop Inverse io_width fuel env8 a = Some (AContinue af) /\
    sim sf af /\ eos_ (br_ (as_dec af)) = false /\
    width * last_row <= as_pos af.
Proof.
  induction fuel as [|fuel IH]; intros s a sf Hsim He Hm;
    rewrite main_loop_eq in Hm; rewrite alpha_loop_eq;
    change (le_src_last env32) with (width * last_row) in Hm;
    change (le_src_last env8) with (width * last_row);
    rewrite He; cbn [negb andb];
    pose proof Hsim as (_ & (Hsrc & _) & _); rewrite <- Hsrc;
    destruct (Z.ltb_spec (ls_src s) (width * last_row)) as [Hlt|Hge];
    try discriminate.
  - injection Hm as <-. exists a. split; [done|]. split; [done|].
    split; [done | lia].
  - destruct (loop_body env32 s) as [[s1|s1|s1]|] eqn:Hb;
      try discriminate; rewrite option_bind_Some in Hm;
      try discriminate.
    destruct (alpha_body_sim s a s1 Hsim Hlt Hb)
      as (a1 & -> & Hsim1 & He1 & _).
    rewrite option_bind_Some. apply (IH s1 a1 sf Hsim1 He1 Hm).
  - injection Hm as <-. exists a. split; [done|]. split; [done|].
    split; [done | lia].
Qed.

Lemma DecodeAlphaData_sim (data32 data8 : list Z) (plane : Plane)
    (dec32' : Decoder) (data32' : list Z) :
  0 <= last_pixel_ dec0 < width * height ->
  eos_ (br_ dec0) = false ->
  Z.of_nat (length data32) = width * height -> Forall is_uint32 data32 ->
  Z.of_nat (length data8) = width * height -> Forall is_uint8 data8 ->
  green_rel data8 data32 (last_pixel_ dec0) ->
  DecodeImageData dec0 base32 data32 width height last_row process_func
  = Some (1, dec32', data32') ->
  status_ dec32' = VP8_STATUS_OK ->
  exists dec8' plane' data8',
    DecodeAlphaData Inverse io_width dec0 base8 data8 plane width height
                    last_row
    = Some (1, dec8', plane', data8') /\
    br_ dec8' = br_ dec32' /\
    last_pixel_ dec8' = last_pixel_ dec32' /\
    green_rel data8' data32' (last_pixel_ dec32').
Proof.
  intros Hlp He0 Hl32 Hu32 Hl8 Hu8 Hrel Hd Hs.
  unfold DecodeImageData in Hd.
  destruct (Z.eqb_spec width 0); [lia|]. cbv zeta in Hd.
  destruct (loop_init dec0 data32 width) as [s0|] eqn:Hi; [|discriminate].
  rewrite option_bind_Some in Hd.
  destruct (main_loop _ env32 s0) as [o|] eqn:Hm; [|discriminate].
  rewrite option_bind_Some in Hd.
  assert (Hexit : forall sx,
            eos_ (br_ (ls_dec sx)) = true ->
            loop_exit env32 sx = Some (1, dec32', data32') -> False).
  { intros sx Hex. unfold loop_exit. rewrite Hex. cbn [negb].
    destruct (incremental_ (ls_dec sx) && true
              && (ls_src sx <? le_src_end env32)).
    - unfold RestoreState. cbn -[Z.gtb].
      destruct (color_cache_size_ (hdr_ (ls_dec sx)) >? 0).
      + destruct (VP8LColorCacheCopy _ _); [|discriminate].
        rewrite !option_bind_Some. intros [= <- _].
        simpl in Hs. discriminate.
      + rewrite option_bind_Some. intros [= <- _].
        simpl in Hs. discriminate.
    - unfold decode_error. discriminate. }
  destruct o as [sf|sf|sf].
  - unfold loop_init in Hi.
    destruct (GetHtreeGroupForPos (hdr_ dec0)
                (Z.rem (last_pixel_ dec0) width)
                (Z.quot (last_pixel_ dec0) width)) as [g0|] eqn:Hg0;
      [|discriminate].
    rewrite option_bind_Some in Hi. injection Hi as <-.
    unfold DecodeAlphaData. destruct (Z.eqb_spec width 0); [lia|].
    rewrite Hg0, option_bind_Some. cbv zeta.
    pose proof (Z.mod_pos_bound (last_pixel_ dec0) width ltac:(lia)) as Hmod.
    pose proof (Z.div_mod (last_pixel_ dec0) width ltac:(lia)) as Hdm.
    assert (Hq : 0 <= last_pixel_ dec0 / width).
    { apply Z.div_pos; lia. }
    match type of Hm with
    | main_loop _ _ ?s0 = _ =>
        match goal with
        | |- context [alpha_loop _ _ ?f env8 ?a0] =>
            assert (Hsim0 : sim s0 a0);
            [|destruct (alpha_loop_sim f s0 a0 sf Hsim0 He0 Hm)
                as (af & -> & Hsim & Hef & Hge)]
        end
    end.
    { unfold sim, alpha_frame. simpl.
      rewrite Z.quot_div_nonneg, Z.rem_mod_nonneg by lia.
      split; [done|]. split; [done|]. split; [lia|].
      split; [|done]. split; [|done].
      eapply group_lookup_alpha; eauto. }
    rewrite option_bind_Some.
    destruct Hsim as ((Hbr & Hhdr & Hfr) & (Hsrc & Hrow & Hcol) & _ & _
                      & (Hl32' & Hu32' & Hl8' & Hu8') & Hgreen).
    destruct (ExtractPalettedAlphaRows_defined Plane Inverse io_width dec0
                Htransforms (as_dec af) (as_data af) (as_plane af)
                (as_row af) Hfr)
      as (d1 & plane1 & -> & _ & Hb1 & _).
    rewrite !option_bind_Some. cbv beta iota.
    change (1 =? 0) with false. cbn [orb].
    rewrite Hb1, Hef. cbn [andb].
    unfold loop_exit in Hd. rewrite Hbr, Hef in Hd.
    rewrite andb_false_r in Hd. cbn [andb negb] in Hd.
    injection Hd as <- <-.
    eexists _, _, _. split; [reflexivity|]. simpl.
    split; [|split; [congruence|]].
    + rewrite Hb1, <- Hbr.
      change (le_process_func env32) with process_func.
      destruct process_func as [f|]; [|done].
      destruct (Hframe (ls_dec sf) (ls_data sf) (ls_row sf)) as (-> & _).
      done.
    + rewrite Hsrc. done.
  - exfalso. apply (Hexit sf); [|exact Hd].
    destruct (main_loop_run env32 _ _ _ Hm) as (sts & st & _ & Hend).
    destruct Hend as [[[=] _]|(_ & Hb & _)].
    destruct (loop_body_stable env32 st _ Hframe Hb)
      as (_ & _ & _ & _ & _ & _ & He).
    done.
  - unfold decode_error in Hd. discriminate.
Qed.
End AlphaSimulation.

(** The 8-bit path is the green channel of the 32-bit path.  With
    metadata the 8-bit path accepts (no color cache, every group with
    fixed red, blue and alpha), whenever DecodeImageData decodes its rows
    to the end (result 1, status OK), DecodeAlphaData started from the
    same decoder on a byte raster that holds the green bytes of the
    pixels decoded before also returns 1, leaves the reader and
    [last_pixel_] where DecodeImageData leaves them, and its raster
    holds the green byte [(pixel >> 8) & 0xff] of every pixel decoded,
    the value ExtractAlphaRows takes as alpha. *)
Theorem DecodeAlphaData_green_plane {BR : Type} `{BitReaderOps BR}
    {Plane : Type}
    (Inverse : VP8LTransform -> Z -> Z -> list Z -> Z -> Plane -> Z -> Plane)
    (io_width : Z) (dec : VP8LDecoder BR) (base32 base8 : Z)
    (data32 data8 : list Z) (plane : Plane) (width height last_row : Z)
    (process_func : option (ProcessRowsFunc BR))
    (dec32' : VP8LDecoder BR) (data32' : list Z) :
  process_func_frame process_func ->
  0 < width <= 2 ^ 28 ->
  last_row <= height ->
  color_cache_size_ (hdr_ dec) <= 0 ->
  Forall alpha_group (htree_groups_ (hdr_ dec)) ->
  transforms_ dec <> [] ->
  0 <= last_pixel_ dec < width * height ->
  eos_ (br_ dec) = false ->
  Z.of_nat (length data32) = width * height -> Forall is_uint32 data32 ->
  Z.of_nat (length data8) = width * height -> Forall is_uint8 data8 ->
  green_rel data8 data32 (last_pixel_ dec) ->
  DecodeImageData dec base32 data32 width height last_row process_func
  = Some (1, dec32', data32') ->
  status_ dec32' = VP8_STATUS_OK ->
  exists dec8' plane' data8',
    DecodeAlphaData Inverse io_width dec base8 data8 plane width height
                    last_row
    = Some (1, dec8', plane', data8') /\
    br_ dec8' = br_ dec32' /\
    last_pixel_ dec8' = last_pixel_ dec32' /\
    green_rel data8' data32' (last_pixel_ dec32').
Proof.
  intros Hf Hw Hl Hc Hg Ht Hp He Hl32 Hu32 Hl8 Hu8 Hrel Hd Hs.
  apply (DecodeAlphaData_sim Plane Inverse io_width dec base32 base8 width
           height last_row process_func Hf Hw Hl Hc Hg Ht data32 data8
           plane dec32' data32' Hp He Hl32 Hu32 Hl8 Hu8 Hrel Hd Hs).
Qed.

(* ================================================================== *)
(** * The groups of a decoded header *)
(* ================================================================== *)

Lemma VP8LSubSampleSize_div (size bits : Z) :
  0 <= bits ->
  VP8LSubSampleSize size bits = (size - 1) / 2 ^ bits + 1.
Proof.
  intros Hb. unfold VP8LSubSampleSize.
  rewrite shiftl_1_pow, Z.shiftr_div_pow2 by done.
  replace (size + 2 ^ bits - 1) with (size - 1 + 1 * 2 ^ bits) by lia.
  rewrite Z.div_add by lia. done.
Qed.

Lemma VP8LSubSampleSize_range (size bits : Z) :
  0 <= bits -> 1 <= size -> 1 <= VP8LSubSampleSize size bits <= size.
Proof.
  intros Hb Hs. rewrite VP8LSubSampleSize_div by done.
  assert (Hp : 0 < 2 ^ bits) by lia.
  assert (0 <= (size - 1) / 2 ^ bits) by (apply Z.div_pos; lia).
  assert ((size - 1) / 2 ^ bits <= size - 1).
  { apply Z.div_le_upper_bound; [lia|]. nia. }
  lia.
Qed.

(** The index GetMetaIndex computes stays inside the sub-sampled
    image. *)
Lemma meta_index_in_range (width height bits x y : Z) :
  0 <= bits -> 0 <= x < width -> 0 <= y < height ->
  0 <= VP8LSubSampleSize width bits * Z.shiftr y bits + Z.shiftr x bits
    < VP8LSubSampleSize width bits * VP8LSubSampleSize height bits.
Proof.
  intros Hb Hx Hy. rewrite !VP8LSubSampleSize_div by done.
  rewrite !Z.shiftr_div_pow2 by done.
  assert (Hp : 0 < 2 ^ bits) by lia.
  assert (0 <= x / 2 ^ bits <= (width - 1) / 2 ^ bits).
  { split; [apply Z.div_pos; lia | apply Z.div_le_mono; lia]. }
  assert (0 <= y / 2 ^ bits <= (height - 1) / 2 ^ bits).
  { split; [apply Z.div_pos; lia | apply Z.div_le_mono; lia]. }
  nia.
Qed.

Section StreamGroups.
Context {BR : Type} `{BitReaderOps BR} `{Platform}.

Local Abbreviation Decoder := (VP8LDecoder BR).

(** What a sub-stream leaves behind: the metadata cleared and, unless
    it failed, a raster of [xsize * ysize] pixels. *)
Definition rec_clears (rec : SubStream BR) : Prop :=
  forall xs ys (d : Decoder) ok d' data,
    rec xs ys d = Some (ok, d', data) ->
    hdr_ d' = InitMetadata /\
    (ok <> 0 ->
     exists raster, data = Some raster /\
                    length raster = Z.to_nat (xs * ys)).

Lemma DecodeImageStream_rec_clears depth :
  rec_clears (fun xs ys d => DecodeImageStream depth xs ys false d).
Proof.
  intros xs ys d ok d' data Hr. destruct depth as [|depth]; [discriminate|].
  simpl in Hr.
  destruct (DecodeImageStream_body_cases _ _ _ _ _ _ _ _ Hr) as [Hz Hnz].
  destruct (Z.eq_dec ok 0) as [->|Hne].
  - destruct (Hz eq_refl) as (_ & _ & ->). done.
  - destruct (Hnz Hne) as (_ & _ & Hh & _ & Hr'). done.
Qed.

(** *** Reading the codes leaves the metadata alone *)

Lemma ReadHuffmanCodeLengths_hdr (dec : Decoder) clcl n cl ok dec' cl' :
  ReadHuffmanCodeLengths dec clcl n cl = Some (ok, dec', cl') ->
  hdr_ dec' = hdr_ dec.
Proof.
  unfold ReadHuffmanCodeLengths. intros Hr.
  inv_opt Hr; simplify_eq; done.
Qed.

Lemma ReadHuffmanCode_hdr n (dec : Decoder) cl size dec' cl' table :
  ReadHuffmanCode n dec cl = Some (size, dec', cl', table) ->
  hdr_ dec' = hdr_ dec.
Proof.
  unfold ReadHuffmanCode. intros Hr.
  inv_opt Hr; simplify_eq; try done;
    match goal with
    | E : ReadHuffmanCodeLengths _ _ _ _ = Some _ |- _ =>
        apply ReadHuffmanCodeLengths_hdr in E; simpl in *; congruence
    end.
Qed.

Lemma read_group_codes_hdr : forall js ccb (dec : Decoder) cl trees triv
    dec' cl' r,
  read_group_codes js ccb dec cl trees triv = Some (dec', cl', r) ->
  hdr_ dec' = hdr_ dec.
Proof.
  induction js as [|j js IH]; intros ccb dec cl trees triv dec' cl' r Hr;
    simpl in Hr.
  - injection Hr as <- _ _. done.
  - destruct (load kAlphabetSize (HuffIndex_to_Z j)) as [a|];
      [|discriminate].
    rewrite option_bind_Some in Hr.
    destruct (ReadHuffmanCode _ dec cl) as [[[[size d1] cl1] t]|] eqn:Hc;
      [|discriminate].
    rewrite option_bind_Some in Hr. cbv beta iota zeta in Hr.
    apply ReadHuffmanCode_hdr in Hc.
    destruct (load kLiteralMap (HuffIndex_to_Z j)) as [lit|];
      [|discriminate].
    rewrite option_bind_Some in Hr.
    destruct (size =? 0).
    + injection Hr as <- _ _. done.
    + apply IH in Hr. congruence.
Qed.

Lemma read_htree_group_hdr ccb (dec : Decoder) cl dec' cl' g :
  read_htree_group ccb dec cl = Some (dec', cl', g) ->
  hdr_ dec' = hdr_ dec.
Proof.
  unfold read_htree_group. intros Hr.
  destruct (read_group_codes _ ccb dec cl _ _) as [[[d1 cl1] r]|] eqn:Hc;
    [|discriminate].
  rewrite option_bind_Some in Hr. cbv beta iota in Hr.
  apply read_group_codes_hdr in Hc.
  destruct r as [[trees triv]|]; injection Hr as <- _ _; done.
Qed.

Lemma read_htree_groups_hdr : forall n ccb (dec : Decoder) cl groups
    dec' r,
  read_htree_groups n ccb dec cl groups = Some (dec', r) ->
  hdr_ dec' = hdr_ dec.
Proof.
  induction n as [|n IH]; intros ccb dec cl groups dec' r Hr; simpl in Hr.
  - injection Hr as <- _. done.
  - destruct (read_htree_group ccb dec cl) as [[[d1 cl1] g]|] eqn:Hg;
      [|discriminate].
    rewrite option_bind_Some in Hr. cbv beta iota in Hr.
    apply read_htree_group_hdr in Hg.
    destruct g as [g|].
    + apply IH in Hr. congruence.
    + injection Hr as <- _. done.
Qed.

(** *** The transforms leave the tiling parameter cleared *)

Lemma put_transform_hdr (dec : Decoder) n t dec' :
  put_transform dec n t = Some dec' -> hdr_ dec' = hdr_ dec.
Proof. unfold put_transform. intros Hp. inv_opt Hp. subst dec'. done. Qed.

Lemma ColorIndexingBits_range n : 0 <= ColorIndexingBits n <= 3.
Proof.
  unfold ColorIndexingBits.
  destruct (n >? 16); [lia|]. destruct (n >? 4); [lia|].
  destruct (n >? 2); lia.
Qed.

Lemma ReadTransform_tiling (rec : SubStream BR) xs ys (dec : Decoder)
    ok dec' xs' :
  rec_clears rec -> 1 <= xs ->
  huffman_subsample_bits_ (hdr_ dec) = 0 ->
  ReadTransform rec xs ys dec = Some (ok, dec', xs') ->
  huffman_subsample_bits_ (hdr_ dec') = 0 /\ 1 <= xs' <= xs.
Proof.
  intros Hrec Hxs Hbits. unfold ReadTransform. intros Hr.
  inv_opt Hr; simplify_eq;
    repeat match goal with
    | E : put_transform _ _ _ = Some _ |- _ =>
        apply put_transform_hdr in E; simpl in E
    | E : rec _ _ _ = Some _ |- _ =>
        apply Hrec in E; destruct E as [E _]
    end;
    simpl in *;
    (split;
     [ repeat match goal with
              | E : hdr_ _ = _ |- _ => rewrite E; clear E
              end; done
     | first [ lia
             | apply VP8LSubSampleSize_range; [|done];
               apply ColorIndexingBits_range ] ]).
Qed.

Lemma read_transforms_tiling (rec : SubStream BR) ys :
  forall fuel (dec : Decoder) xs ok dec' xs',
  rec_clears rec -> 1 <= xs ->
  huffman_subsample_bits_ (hdr_ dec) = 0 ->
  read_transforms fuel rec dec xs ys = Some (ok, dec', xs') ->
  huffman_subsample_bits_ (hdr_ dec') = 0 /\ 1 <= xs' <= xs.
Proof.
  induction fuel as [|fuel IH]; intros dec xs ok dec' xs' Hrec Hxs Hb Hr;
    simpl in Hr;
    destruct (VP8LReadBits (br_ dec) 1) as [more br1];
    destruct (more =? 0); try discriminate;
    try (injection Hr as _ <- <-; simpl; split; [done | lia]).
  destruct (ReadTransform rec xs ys (set_br dec br1))
    as [[[ok1 d1] xs1]|] eqn:Ht; [|discriminate].
  rewrite option_bind_Some in Hr. cbv beta iota in Hr.
  destruct (ReadTransform_tiling rec xs ys (set_br dec br1) _ _ _ Hrec Hxs
              Hb Ht) as [Hb1 Hx1].
  destruct (ok1 =? 0).
  - injection Hr as _ <- <-. done.
  - destruct (IH _ _ _ _ _ Hrec (proj1 Hx1) Hb1 Hr) as [Hb' Hx'].
    split; [done | lia].
Qed.

Lemma read_color_cache_bits_hdr (dec : Decoder) ok dec1 b :
  read_color_cache_bits dec = (ok, dec1, b) -> hdr_ dec1 = hdr_ dec.
Proof.
  unfold read_color_cache_bits.
  destruct (VP8LReadBits (br_ dec) 1) as [p br1].
  destruct (negb (p =? 0)); [|intros [= _ <- _]; done].
  destruct (VP8LReadBits _ 4) as [c br2].
  destruct ((c >=? 1) && (c <=? MAX_CACHE_BITS)); intros [= _ <- _]; done.
Qed.

(** *** The meta-Huffman image names groups that exist *)

Lemma read_meta_huffman_cover (rec : SubStream BR) (dec : Decoder) xs ys
    allow d1 image num :
  rec_clears rec -> 1 <= xs -> 1 <= ys -> xs * ys < 2 ^ 31 ->
  huffman_subsample_bits_ (hdr_ dec) = 0 ->
  read_meta_huffman rec dec xs ys allow = Some (d1, Some (image, num)) ->
  1 <= num /\ 0 <= huffman_subsample_bits_ (hdr_ d1) /\
  forall x y, 0 <= x < xs -> 0 <= y < ys ->
    exists idx,
      GetMetaIndex image
        (VP8LSubSampleSize xs (huffman_subsample_bits_ (hdr_ d1)))
        (huffman_subsample_bits_ (hdr_ d1)) x y = Some idx /\
      0 <= idx < num.
Proof.
  intros Hrec Hxs Hys Hsz Hbits. unfold read_meta_huffman.
  assert (Hplain : forall br,
            Some (set_br dec br, Some (None, 1))
            = Some (d1, Some (image, num)) ->
            1 <= num /\ 0 <= huffman_subsample_bits_ (hdr_ d1) /\
            forall x y, 0 <= x < xs -> 0 <= y < ys ->
              exists idx,
                GetMetaIndex image
                  (VP8LSubSampleSize xs (huffman_subsample_bits_ (hdr_ d1)))
                  (huffman_subsample_bits_ (hdr_ d1)) x y = Some idx /\
                0 <= idx < num).
  { intros br [= <- <- <-]. simpl. rewrite Hbits.
    split; [lia|]. split; [lia|]. intros x y _ _. exists 0.
    split; [done | lia]. }
  destruct allow.
  - destruct (VP8LReadBits (br_ dec) 1) as [use br1].
    destruct (Z.eqb_spec use 0) as [|Huse]; [apply Hplain|].
    cbn [andb negb].
    pose proof (VP8LReadBits_range (br_ (set_br dec br1)) 3 ltac:(lia))
      as Hv.
    destruct (VP8LReadBits (br_ (set_br dec br1)) 3) as [v br2].
    simpl in Hv.
    pose proof (VP8LSubSampleSize_range xs (v + 2) ltac:(lia) Hxs) as Hhx.
    pose proof (VP8LSubSampleSize_range ys (v + 2) ltac:(lia) Hys) as Hhy.
    destruct (rec _ _ _) as [[[ok1 dr] himg]|] eqn:Hr; [|discriminate].
    rewrite option_bind_Some. cbv beta iota.
    destruct (Z.eqb_spec ok1 0) as [|Hok1]; [discriminate|].
    destruct (Hrec _ _ _ _ _ _ Hr) as [Hclr Hrast].
    destruct (Hrast Hok1) as (raster & -> & Hlen).
    rewrite option_bind_Some.
    assert (Hprod : 1 <= VP8LSubSampleSize xs (v + 2)
                         * VP8LSubSampleSize ys (v + 2) < 2 ^ 31) by nia.
    rewrite to_int32_small by lia.
    destruct (meta_groups_spec
                (Z.to_nat (VP8LSubSampleSize xs (v + 2)
                           * VP8LSubSampleSize ys (v + 2))) raster 0 1)
      as (image' & num' & -> & Hl' & Hconv & _ & Hnum & Hlt & _);
      [lia | lia |].
    rewrite option_bind_Some. intros [= <- <- <-]. simpl.
    split; [lia|]. split; [lia|]. intros x y Hx Hy.
    unfold GetMetaIndex. destruct (Z.eqb_spec (v + 2) 0); [lia|]. simpl.
    pose proof (meta_index_in_range xs ys (v + 2) x y ltac:(lia) Hx Hy)
      as Hidx.
    set (idx := VP8LSubSampleSize xs (v + 2) * Z.shiftr y (v + 2)
                + Z.shiftr x (v + 2)) in *.
    assert (Hin : 0 <= idx
                  < 0 + Z.of_nat
                          (Z.to_nat (VP8LSubSampleSize xs (v + 2)
                                     * VP8LSubSampleSize ys (v + 2))))
      by lia.
    destruct (load_in_range image' idx) as [g Hg]; [lia|].
    exists g. split; [done|]. split.
    + pose proof (Hconv idx Hin) as Hc. rewrite Hg in Hc.
      destruct (load raster idx) as [px|]; [|discriminate].
      injection Hc as ->. apply group_of_pixel_range.
    + apply (Hlt idx g Hin Hg).
  - apply Hplain.
Qed.

Lemma ReadHuffmanCodes_cover (rec : SubStream BR) (dec : Decoder) xs ys
    ccb allow ok dec' :
  rec_clears rec -> 1 <= xs -> 1 <= ys -> xs * ys < 2 ^ 31 ->
  huffman_subsample_bits_ (hdr_ dec) = 0 ->
  ReadHuffmanCodes rec dec xs ys ccb allow = Some (ok, dec') ->
  ok <> 0 ->
  0 <= huffman_subsample_bits_ (hdr_ dec') /\
  1 <= num_htree_groups_ (hdr_ dec') /\
  Z.of_nat (length (htree_groups_ (hdr_ dec')))
  = num_htree_groups_ (hdr_ dec') /\
  forall x y, 0 <= x < xs -> 0 <= y < ys ->
    exists idx g,
      GetMetaIndex (huffman_image_ (hdr_ dec'))
        (VP8LSubSampleSize xs (huffman_subsample_bits_ (hdr_ dec')))
        (huffman_subsample_bits_ (hdr_ dec')) x y = Some idx /\
      load (htree_groups_ (hdr_ dec')) idx = Some g.
Proof.
  intros Hrec Hxs Hys Hsz Hbits. unfold ReadHuffmanCodes. intros Hr Hok.
  destruct (load kTableSize ccb) as [ts|]; [|discriminate].
  rewrite option_bind_Some in Hr.
  destruct (read_meta_huffman rec dec xs ys allow) as [[d1 meta]|] eqn:Hm;
    [|discriminate].
  rewrite option_bind_Some in Hr. cbv beta iota in Hr.
  destruct meta as [[image num]|]; [|injection Hr as <- _; done].
  destruct (read_meta_huffman_cover _ _ _ _ _ _ _ _ Hrec Hxs Hys Hsz Hbits
              Hm) as (Hnum & Hb1 & Hcov).
  destruct (eos_ (br_ d1)); [injection Hr as <- _; done|].
  destruct (malloc _); [|injection Hr as <- _; done].
  destruct (VP8LHtreeGroupsNew_ok num); [|injection Hr as <- _; done].
  destruct (malloc _); [|injection Hr as <- _; done].
  destruct (read_htree_groups _ _ _ _ _) as [[d2 groups]|] eqn:Hg;
    [|discriminate].
  rewrite option_bind_Some in Hr. cbv beta iota in Hr.
  destruct groups as [gs|]; [|injection Hr as <- _; done].
  injection Hr as _ <-.
  pose proof (read_htree_groups_hdr _ _ _ _ _ _ _ Hg) as Hh2.
  apply read_htree_groups_length in Hg. simpl in Hg. simpl.
  rewrite Hh2. split; [done|]. split; [done|]. split; [lia|].
  intros x y Hx Hy. destruct (Hcov x y Hx Hy) as (idx & -> & Hi).
  destruct (load_in_range gs idx) as [g Hg']; [lia|]. eauto.
Qed.

Lemma DecodeImageStream_body_cover (rec : SubStream BR) xsize ysize
    (dec dec' : Decoder) :
  rec_clears rec -> 1 <= xsize -> 1 <= ysize -> xsize * ysize < 2 ^ 31 ->
  huffman_subsample_bits_ (hdr_ dec) = 0 ->
  DecodeImageStream_body rec xsize ysize true dec = Some (1, dec', None) ->
  height_ dec' = ysize /\ 1 <= width_ dec' <= xsize /\
  mask_ok (hdr_ dec') /\
  huffman_xsize_ (hdr_ dec')
  = VP8LSubSampleSize (width_ dec') (huffman_subsample_bits_ (hdr_ dec')) /\
  1 <= num_htree_groups_ (hdr_ dec') /\
  Z.of_nat (length (htree_groups_ (hdr_ dec')))
  = num_htree_groups_ (hdr_ dec') /\
  forall x y, 0 <= x < width_ dec' -> 0 <= y < height_ dec' ->
    exists g, GetHtreeGroupForPos (hdr_ dec') x y = Some g.
Proof.
  intros Hrec Hxs Hys Hsz Hbits. unfold DecodeImageStream_body. intros Hb.
  destruct (read_transforms _ rec dec xsize ysize)
    as [[[ok1 dec1] txs]|] eqn:Ht; [|discriminate].
  rewrite option_bind_Some in Hb. cbv zeta beta iota in Hb.
  destruct (read_transforms_tiling _ _ _ _ _ _ _ _ Hrec Hxs Hbits Ht)
    as [Hb1 Hx1].
  destruct (negb (ok1 =? 0)) eqn:Hok1.
  - destruct (read_color_cache_bits dec1) as [[ok2 dec2] ccb] eqn:Hcc.
    pose proof (read_color_cache_bits_hdr _ _ _ _ Hcc) as Hh2.
    destruct (Z.eqb_spec ok2 0) as [|Hok2]; [discriminate|].
    cbn [negb] in Hb.
    destruct (ReadHuffmanCodes rec dec2 txs ysize ccb true)
      as [[ok3 dec3]|] eqn:Hh; [|discriminate].
    rewrite option_bind_Some in Hb.
    destruct (Z.eqb_spec ok3 0) as [|Hok3]; [discriminate|].
    destruct (ReadHuffmanCodes_cover rec dec2 txs ysize ccb true ok3 dec3)
      as (Hb3 & Hn3 & Hl3 & Hcov);
      [done | lia | done | nia | congruence | done | done |].
    destruct (if ccb >? 0 then _ else _) as [dec4|dec4] eqn:Hd4 in Hb;
      [|discriminate].
    unfold stream_end in Hb. simpl in Hb. injection Hb as <-.
    assert (Hd4' : huffman_image_ (hdr_ dec4) = huffman_image_ (hdr_ dec3)
                   /\ huffman_subsample_bits_ (hdr_ dec4)
                      = huffman_subsample_bits_ (hdr_ dec3)
                   /\ num_htree_groups_ (hdr_ dec4)
                      = num_htree_groups_ (hdr_ dec3)
                   /\ htree_groups_ (hdr_ dec4) = htree_groups_ (hdr_ dec3)).
    { destruct (ccb >? 0); [destruct (malloc _); [|discriminate]|];
        injection Hd4 as <-; done. }
    destruct Hd4' as (Ei & Eb & En & Eg). simpl.
    rewrite Eb, En, Eg.
    split; [done|]. split; [done|].
    split; [unfold mask_ok; simpl; rewrite Eb; done|].
    split; [done|]. split; [done|]. split; [done|].
    intros x y Hx Hy. unfold GetHtreeGroupForPos. simpl.
    rewrite Ei, Eb, Eg.
    destruct (Hcov x y Hx Hy) as (idx & g & Hi & Hg).
    rewrite Hi, option_bind_Some. eauto.
  - rewrite Hok1, option_bind_Some in Hb. discriminate.
Qed.

(** The header of a level-0 stream names, for every pixel, a group that
    exists.  When DecodeImageStream succeeds on a decoder whose metadata
    was cleared, the decoder holds the image size behind the transforms,
    the mask and the width of the meta-Huffman image that go with the
    sub-sampling, as many groups as [num_htree_groups_] says, and for
    every pixel position GetHtreeGroupForPos finds its group: the index
    into the meta-Huffman image stays inside it and the group it names is
    below the number of groups read. *)
Theorem DecodeImageStream_groups_cover (depth : nat) (xsize ysize : Z)
    (dec dec' : Decoder) :
  1 <= xsize -> 1 <= ysize -> xsize * ysize < 2 ^ 31 ->
  huffman_subsample_bits_ (hdr_ dec) = 0 ->
  DecodeImageStream depth xsize ysize true dec = Some (1, dec', None) ->
  height_ dec' = ysize /\ 1 <= width_ dec' <= xsize /\
  mask_ok (hdr_ dec') /\
  huffman_xsize_ (hdr_ dec')
  = VP8LSubSampleSize (width_ dec') (huffman_subsample_bits_ (hdr_ dec')) /\
  1 <= num_htree_groups_ (hdr_ dec') /\
  Z.of_nat (length (htree_groups_ (hdr_ dec')))
  = num_htree_groups_ (hdr_ dec') /\
  forall x y, 0 <= x < width_ dec' -> 0 <= y < height_ dec' ->
    exists g, GetHtreeGroupForPos (hdr_ dec') x y = Some g.
Proof.
  intros Hxs Hys Hsz Hbits Hd.
  destruct depth as [|depth]; [discriminate|]. simpl in Hd.
  apply (DecodeImageStream_body_cover _ xsize ysize dec dec'
           (DecodeImageStream_rec_clears depth) Hxs Hys Hsz Hbits Hd).
Qed.
End StreamGroups.

(* ================================================================== *)
(** * The code lengths of a Huffman code *)
(* ================================================================== *)

(** A code length a Huffman code can have. *)
Definition is_code_length (l : Z) : Prop := 0 <= l <= 15.

Lemma repeat_length_spec : forall k code_lengths symbol len,
  0 <= symbol ->
  symbol + Z.of_nat k <= Z.of_nat (length code_lengths) ->
  exists cl',
    repeat_length k code_lengths symbol len
    = Some (cl', symbol + Z.of_nat k) /\
    length cl' = length code_lengths /\
    (Forall is_code_length code_lengths -> is_code_length len ->
     Forall is_code_length cl') /\
    (forall j, j < symbol \/ symbol + Z.of_nat k <= j ->
       load cl' j = load code_lengths j).
Proof.
  induction k as [|k IH]; intros cl symbol len Hs Hl.
  - exists cl. simpl. rewrite Z.add_0_r. done.
  - simpl repeat_length.
    rewrite (store_in_range cl symbol len) by lia.
    rewrite option_bind_Some.
    destruct (IH (<[Z.to_nat symbol := len]> cl) (symbol + 1) len)
      as (cl' & He & Hlen & Hall & Hout);
      [lia | rewrite length_insert; lia |].
    exists cl'. split; [rewrite He; f_equal; f_equal; lia|].
    split; [rewrite Hlen, length_insert; done|]. split.
    + intros Hcl Hlen'. apply Hall; [|done]. apply Forall_insert; done.
    + intros j Hj. rewrite Hout by lia.
      apply (load_store_ne cl _ symbol j len); [|lia].
      apply store_in_range. lia.
Qed.

Section CodeLengths.
Context {BR : Type} `{BitReaderOps BR} `{Platform}.

Local Abbreviation Decoder := (VP8LDecoder BR).

Variables (table : list HuffmanCode) (num_symbols : Z).

(** The lookup table of the code-length code: [1 << LENGTHS_TABLE_BITS]
    entries whose values are symbols of the code-length alphabet. *)
Hypothesis Hbits : 0 <= LENGTHS_TABLE_BITS.
Hypothesis Htable :
  Z.of_nat (length table) = Z.shiftl 1 LENGTHS_TABLE_BITS.
Hypothesis Hvalues :
  Forall (fun e => 0 <= value e < NUM_CODE_LENGTH_CODES) table.

Lemma lengths_table_lookup (br : BR) :
  exists p,
    load table (Z.land (VP8LPrefetchBits br) LENGTHS_TABLE_MASK) = Some p /\
    0 <= value p < NUM_CODE_LENGTH_CODES.
Proof.
  unfold LENGTHS_TABLE_MASK. rewrite shiftl_1_pow by done.
  replace (2 ^ LENGTHS_TABLE_BITS - 1) with (Z.ones LENGTHS_TABLE_BITS)
    by (rewrite Z.ones_equiv; lia).
  rewrite Z.land_ones by done.
  pose proof (Z.mod_pos_bound (VP8LPrefetchBits br)
                (2 ^ LENGTHS_TABLE_BITS)
                (Z.pow_pos_nonneg 2 _ ltac:(lia) Hbits)) as Hm.
  rewrite shiftl_1_pow in Htable by done.
  destruct (load_in_range table
              (VP8LPrefetchBits br mod 2 ^ LENGTHS_TABLE_BITS))
    as [p Hp]; [lia|].
  exists p. split; [done|].
  apply load_Some in Hp as [_ Hp].
  apply (proj1 (Forall_lookup _ _) Hvalues _ _ Hp).
Qed.

(** The loop of ReadHuffmanCodeLengths stays inside the first
    [num_symbols] entries of the buffer and ends within [num_symbols]
    rounds. *)
Lemma code_lengths_loop_spec : forall fuel br code_lengths symbol
    max_symbol prev_code_len,
  0 <= symbol ->
  num_symbols - symbol <= Z.of_nat fuel ->
  num_symbols <= Z.of_nat (length code_lengths) ->
  Forall is_code_length code_lengths ->
  is_code_length prev_code_len ->
  exists ok br' cl',
    code_lengths_loop fuel table num_symbols br code_lengths symbol
                      max_symbol prev_code_len = Some (ok, br', cl') /\
    length cl' = length code_lengths /\
    Forall is_code_length cl' /\
    (forall j, j < symbol \/ num_symbols <= j ->
       load cl' j = load code_lengths j).
Proof.
  induction fuel as [|fuel IH];
    intros br cl symbol max_symbol prev Hs Hf Hl Hcl Hprev; simpl;
    destruct (Z.ltb_spec symbol num_symbols) as [Hlt|Hge];
    try (eexists _, _, _; split; [reflexivity|]; done);
    try lia.
  destruct (max_symbol =? 0).
  { eexists _, _, _. split; [reflexivity|]. done. }
  destruct (lengths_table_lookup (VP8LFillBitWindow br))
    as (p & -> & Hv).
  rewrite option_bind_Some. cbv zeta.
  unfold NUM_CODE_LENGTH_CODES in Hv.
  unfold kCodeLengthLiterals, kCodeLengthRepeatCode.
  destruct (Z.ltb_spec (value p) 16) as [Hlit|Hrep].
  + rewrite (store_in_range cl symbol (value p)) by lia.
    rewrite option_bind_Some.
    destruct (IH (VP8LSetBitPos (VP8LFillBitWindow br)
                    (bit_pos_ (VP8LFillBitWindow br) + bits p))
                 (<[Z.to_nat symbol := value p]> cl) (symbol + 1)
                 (max_symbol - 1)
                 (if negb (value p =? 0) then value p else prev))
      as (ok & br' & cl' & -> & Hlen & Hall & Hout);
      [ lia | lia | rewrite length_insert; lia
      | apply Forall_insert; [done | unfold is_code_length; lia]
      | destruct (negb (value p =? 0)); [unfold is_code_length; lia|done]
      | ].
    eexists _, _, _. split; [reflexivity|].
    split; [rewrite Hlen, length_insert; done|]. split; [done|].
    intros j Hj. rewrite Hout by lia.
    apply (load_store_ne cl _ symbol j (value p)); [|lia].
    apply store_in_range. lia.
  + assert (Hslot : exists extra_bits repeat_offset,
               load kCodeLengthExtraBits (value p - 16) = Some extra_bits
               /\ load kCodeLengthRepeatOffsets (value p - 16)
                  = Some repeat_offset
               /\ 0 <= extra_bits /\ 3 <= repeat_offset).
    { assert (Hc : value p = 16 \/ value p = 17 \/ value p = 18) by lia.
      destruct Hc as [-> | [-> | ->]]; eexists _, _;
        (split; [reflexivity|]; split; [reflexivity|]; lia). }
    destruct Hslot as (eb & ro & -> & -> & Heb & Hro).
    rewrite !option_bind_Some.
    pose proof (VP8LReadBits_range
                  (VP8LSetBitPos (VP8LFillBitWindow br)
                     (bit_pos_ (VP8LFillBitWindow br) + bits p))
                  eb Heb) as Hv'.
    destruct (VP8LReadBits _ eb) as [v br1]. simpl in Hv'.
    destruct (Z.gtb_spec (symbol + (v + ro)) num_symbols) as [Hov|Hfit].
    * eexists _, _, _. split; [reflexivity|]. done.
    * destruct (repeat_length_spec (Z.to_nat (v + ro)) cl symbol
                  (if value p =? 16 then prev else 0))
        as (cl1 & -> & Hlen1 & Hall1 & Hout1); [lia | lia |].
      rewrite option_bind_Some. cbv beta iota.
      destruct (IH br1 cl1 (symbol + Z.of_nat (Z.to_nat (v + ro)))
                   (max_symbol - 1) prev)
        as (ok & br' & cl' & -> & Hlen & Hall & Hout);
        [ lia | lia | rewrite Hlen1; lia
        | apply Hall1; [done|];
          destruct (value p =? 16); [done | unfold is_code_length; lia]
        | done | ].
      eexists _, _, _. split; [reflexivity|].
      split; [congruence|]. split; [done|].
      intros j Hj. rewrite Hout by lia. apply Hout1. lia.
Qed.
End CodeLengths.

Lemma ReadHuffmanCodeLengths_defined {BR : Type} `{BitReaderOps BR}
    `{Platform} (dec : VP8LDecoder BR) (code_length_code_lengths : list Z)
    (num_symbols : Z) (code_lengths : list Z) :
  let table := VP8LBuildHuffmanTable LENGTHS_TABLE_BITS
                 code_length_code_lengths NUM_CODE_LENGTH_CODES in
  0 <= LENGTHS_TABLE_BITS ->
  table = [] \/ Z.of_nat (length table) = Z.shiftl 1 LENGTHS_TABLE_BITS ->
  Forall (fun e => 0 <= value e < NUM_CODE_LENGTH_CODES) table ->
  0 <= num_symbols <= Z.of_nat (length code_lengths) ->
  Forall is_code_length code_lengths ->
  exists ok dec' cl',
    ReadHuffmanCodeLengths dec code_length_code_lengths num_symbols
                           code_lengths = Some (ok, dec', cl') /\
    length cl' = length code_lengths /\
    Forall is_code_length cl' /\
    (forall j, num_symbols <= j -> load cl' j = load code_lengths j) /\
    hdr_ dec' = hdr_ dec /\
    ((ok = 0 /\ status_ dec' = VP8_STATUS_BITSTREAM_ERROR) \/
     (ok = 1 /\ status_ dec' = status_ dec)).
Proof.
  intros table Hbits Htable Hvalues Hn Hcl.
  unfold ReadHuffmanCodeLengths. cbv zeta. fold table.
  destruct (Z.eqb_spec (Z.of_nat (length table)) 0) as [Hz|Hnz].
  { eexists _, _, _. split; [reflexivity|]. simpl.
    split; [done|]. split; [done|]. split; [done|]. split; [done|].
    left. done. }
  destruct Htable as [Hnil|Htable]; [rewrite Hnil in Hnz; done|].
  destruct (VP8LReadBits (br_ dec) 1) as [use_length br1].
  destruct (if negb (use_length =? 0) then _ else _)
    as [max_symbol br2].
  destruct (negb (use_length =? 0) && (max_symbol >? num_symbols)).
  { eexists _, _, _. split; [reflexivity|]. simpl.
    split; [done|]. split; [done|]. split; [done|]. split; [done|].
    left. done. }
  destruct (code_lengths_loop_spec table num_symbols Hbits Htable Hvalues
              (Z.to_nat num_symbols) br2 code_lengths 0 max_symbol
              DEFAULT_CODE_LENGTH)
    as (ok & br' & cl' & -> & Hlen & Hall & Hout);
    [lia | lia | lia | done | unfold is_code_length, DEFAULT_CODE_LENGTH; lia
    |].
  rewrite option_bind_Some. cbv beta iota.
  destruct ok; eexists _, _, _; (split; [reflexivity|]); simpl;
    (split; [done|]); (split; [done|]);
    (split; [intros j Hj; apply Hout; lia|]); (split; [done|]).
  - right. done.
  - left. done.
Qed.

(** ReadHuffmanCodeLengths is defined for every bit reader behaviour and
    keeps to its buffer.  When the lookup table of the code-length code
    has its [1 << LENGTHS_TABLE_BITS] entries, with values in the
    code-length alphabet (or the builder reported a malformed code), and
    the buffer has room for [num_symbols] lengths, the call ends with a
    result; a repeat code that would run past [num_symbols] is refused
    before anything is written, so nothing at or beyond [num_symbols]
    changes; every length in the buffer stays within 0..15; the result
    is 1 with the status untouched or 0 with status BITSTREAM_ERROR. *)
Theorem ReadHuffmanCodeLengths_memory_safe {BR : Type} `{BitReaderOps BR}
    `{Platform} (dec : VP8LDecoder BR) (code_length_code_lengths : list Z)
    (num_symbols : Z) (code_lengths : list Z) :
  let table := VP8LBuildHuffmanTable LENGTHS_TABLE_BITS
                 code_length_code_lengths NUM_CODE_LENGTH_CODES in
  0 <= LENGTHS_TABLE_BITS ->
  table = [] \/ Z.of_nat (length table) = Z.shiftl 1 LENGTHS_TABLE_BITS ->
  Forall (fun e => 0 <= value e < NUM_CODE_LENGTH_CODES) table ->
  0 <= num_symbols <= Z.of_nat (length code_lengths) ->
  Forall is_code_length code_lengths ->
  exists ok dec' cl',
    ReadHuffmanCodeLengths dec code_length_code_lengths num_symbols
                           code_lengths = Some (ok, dec', cl') /\
    length cl' = length code_lengths /\
    Forall is_code_length cl' /\
    (forall j, num_symbols <= j -> load cl' j = load code_lengths j) /\
    hdr_ dec' = hdr_ dec /\
    ((ok = 0 /\ status_ dec' = VP8_STATUS_BITSTREAM_ERROR) \/
     (ok = 1 /\ status_ dec' = status_ dec)).
Proof. apply ReadHuffmanCodeLengths_defined. Qed.

Lemma store_range_Forall (P : Z -> Prop) : forall vs m p m',
  store_range m p vs = Some m' -> Forall P vs -> Forall P m -> Forall P m'.
Proof.
  induction vs as [|v vs IH]; intros m p m' Hs Hvs Hm; simpl in Hs.
  - injection Hs as <-. done.
  - destruct (store m p v) as [m1|] eqn:Hst; [|discriminate].
    rewrite option_bind_Some in Hs.
    inversion Hvs as [|? ? Hv Hvs']; subst.
    apply (IH _ _ _ Hs Hvs'). apply (Forall_store P m m1 p v); done.
Qed.

Lemma kCodeLengthCodeOrder_range :
  Forall (fun k => 0 <= k < NUM_CODE_LENGTH_CODES) kCodeLengthCodeOrder.
Proof. unfold NUM_CODE_LENGTH_CODES. repeat constructor; lia. Qed.

Section HuffmanCodeSafety.
Context {BR : Type} `{BitReaderOps BR} `{Platform}.

Local Abbreviation Decoder := (VP8LDecoder BR).

Lemma read_code_length_code_lengths_defined : forall n i (br : BR) cl,
  0 <= i -> i + Z.of_nat n <= NUM_CODE_LENGTH_CODES ->
  Z.of_nat (length cl) = NUM_CODE_LENGTH_CODES ->
  exists br' cl',
    read_code_length_code_lengths n i br cl = Some (br', cl') /\
    Z.of_nat (length cl') = NUM_CODE_LENGTH_CODES.
Proof.
  induction n as [|n IH]; intros i br cl Hi Hn Hl; simpl.
  - eexists _, _. done.
  - destruct (load_in_range kCodeLengthCodeOrder i) as [k Hk];
      [unfold NUM_CODE_LENGTH_CODES in Hn; simpl; lia|].
    rewrite Hk, option_bind_Some.
    assert (Hkr : 0 <= k < NUM_CODE_LENGTH_CODES).
    { apply load_Some in Hk as [_ Hk].
      apply (proj1 (Forall_lookup _ _) kCodeLengthCodeOrder_range _ _ Hk). }
    destruct (VP8LReadBits br 3) as [v br1].
    rewrite (store_in_range cl k v) by lia.
    rewrite option_bind_Some.
    apply IH; [lia | lia | rewrite length_insert; done].
Qed.

(** The builder of the code-length table behaves for every code: it
    reports a malformed code, or fills the [1 << LENGTHS_TABLE_BITS]
    entries with symbols of the code-length alphabet. *)
Definition lengths_tables_ok : Prop :=
  0 <= LENGTHS_TABLE_BITS /\
  forall clcl,
    Z.of_nat (length clcl) = NUM_CODE_LENGTH_CODES ->
    let table :=
      VP8LBuildHuffmanTable LENGTHS_TABLE_BITS clcl NUM_CODE_LENGTH_CODES in
    (table = [] \/
     Z.of_nat (length table) = Z.shiftl 1 LENGTHS_TABLE_BITS) /\
    Forall (fun e => 0 <= value e < NUM_CODE_LENGTH_CODES) table.

Lemma ReadHuffmanCode_defined (alphabet_size : Z) (dec : Decoder)
    (code_lengths : list Z) :
  lengths_tables_ok ->
  0 <= alphabet_size <= Z.of_nat (length code_lengths) ->
  256 <= Z.of_nat (length code_lengths) ->
  Forall is_code_length code_lengths ->
  exists size dec' cl' table,
    ReadHuffmanCode alphabet_size dec code_lengths
    = Some (size, dec', cl', table) /\
    length cl' = length code_lengths /\
    Forall is_code_length cl' /\
    hdr_ dec' = hdr_ dec /\
    size = Z.of_nat (length table) /\
    (size = 0 -> status_ dec' = VP8_STATUS_BITSTREAM_ERROR) /\
    (size <> 0 ->
     status_ dec' = status_ dec /\ eos_ (br_ dec') = false /\
     table = VP8LBuildHuffmanTable HUFFMAN_TABLE_BITS
               (take (Z.to_nat alphabet_size) cl') alphabet_size).
Proof.
  intros [Hbits Htables] Ha Hl Hcl. unfold ReadHuffmanCode.
  destruct (VP8LReadBits (br_ dec) 1) as [simple_code br1].
  destruct (store_range_spec (replicate (Z.to_nat alphabet_size) 0)
              code_lengths 0) as (cl0 & Hst & Hl0 & _);
    [lia | rewrite length_replicate; lia |].
  pose proof (store_range_Forall is_code_length _ _ _ _ Hst) as Hcl0.
  rewrite Hst, option_bind_Some.
  assert (Hcl0' : Forall is_code_length cl0).
  { apply Hcl0; [|done]. apply Forall_replicate. unfold is_code_length. lia. }
  clear Hcl0.
  assert (Hone : is_code_length 1) by (unfold is_code_length; lia).
  match goal with
  | |- context [?m ≫= _] =>
      assert (Hread : exists ok (d1 : Decoder) cl1,
                 m = Some (ok, d1, cl1) /\
                 length cl1 = length code_lengths /\
                 Forall is_code_length cl1 /\ hdr_ d1 = hdr_ dec /\
                 (ok <> 0 -> status_ d1 = status_ dec))
  end.
  { destruct (negb (simple_code =? 0)).
    - destruct (VP8LReadBits br1 1) as [v br2].
      destruct (VP8LReadBits br2 1) as [f br3].
      assert (Hs : 0 <= fst (VP8LReadBits br3 (if f =? 0 then 1 else 8))
                   < 256).
      { destruct (f =? 0).
        - pose proof (VP8LReadBits_range br3 1 ltac:(lia)). lia.
        - pose proof (VP8LReadBits_range br3 8 ltac:(lia)). lia. }
      destruct (VP8LReadBits br3 _) as [s br4]. simpl in Hs.
      rewrite (store_in_range cl0 s 1) by lia.
      rewrite option_bind_Some.
      destruct (v + 1 =? 2).
      + pose proof (VP8LReadBits_range br4 8 ltac:(lia)) as Hs2.
        destruct (VP8LReadBits br4 8) as [s2 br5]. simpl in Hs2.
        rewrite (store_in_range _ s2 1)
          by (rewrite length_insert; lia).
        rewrite option_bind_Some. eexists _, _, _.
        split; [reflexivity|]. rewrite !length_insert.
        split; [done|]. split; [|done].
        apply Forall_insert; [apply Forall_insert|]; done.
      + eexists _, _, _. split; [reflexivity|]. rewrite length_insert.
        split; [done|]. split; [|done]. apply Forall_insert; done.
    - cbv zeta.
      pose proof (VP8LReadBits_range br1 4 ltac:(lia)) as Hv.
      destruct (VP8LReadBits br1 4) as [v br2]. simpl in Hv.
      destruct (Z.gtb_spec (v + 4) NUM_CODE_LENGTH_CODES) as [Hnc|Hnc].
      + eexists _, _, _. split; [reflexivity|]. done.
      + destruct (read_code_length_code_lengths_defined
                    (Z.to_nat (v + 4)) 0 br2
                    (replicate (Z.to_nat NUM_CODE_LENGTH_CODES) 0))
          as (br3 & clcl & -> & Hlc);
          [lia | lia
          | rewrite length_replicate; unfold NUM_CODE_LENGTH_CODES; lia |].
        rewrite option_bind_Some. cbv beta iota.
        destruct (Htables clcl Hlc) as [Ht Hv'].
        destruct (ReadHuffmanCodeLengths_defined (set_br dec br3) clcl
                    alphabet_size cl0 Hbits Ht Hv')
          as (ok & d1 & cl1 & -> & Hl1 & Hcl1 & _ & Hh1 & Hres);
          [lia | done |].
        eexists _, _, _. split; [reflexivity|].
        split; [congruence|]. split; [done|]. split; [done|].
        intros Hok. destruct Hres as [[-> _]|[_ ->]]; done. }
  destruct Hread as (ok & d1 & cl1 & -> & Hl1 & Hcl1 & Hh1 & Hs1).
  rewrite option_bind_Some. cbv beta iota zeta.
  destruct (Z.eqb_spec ok 0) as [Hz|Hnz]; cbn [negb andb orb].
  - eexists _, _, _, _. split; [reflexivity|]. simpl. done.
  - destruct (eos_ (br_ d1)) eqn:He; cbn [negb andb orb].
    + eexists _, _, _, _. split; [reflexivity|]. simpl. done.
    + destruct (Z.eqb_spec
                  (Z.of_nat
                     (length (VP8LBuildHuffmanTable HUFFMAN_TABLE_BITS
                                (take (Z.to_nat alphabet_size) cl1)
                                alphabet_size))) 0) as [Hz|Hsz].
      * eexists _, _, _, _. split; [reflexivity|]. simpl.
        split; [done|]. split; [done|]. split; [done|].
        split; [done|]. done.
      * eexists _, _, _, _. split; [reflexivity|]. simpl.
        split; [done|]. split; [done|]. split; [done|].
        split; [done|]. split; [done|]. intros _. auto.
Qed.
End HuffmanCodeSafety.

(** ReadHuffmanCode is defined for every bit reader behaviour and keeps
    to the buffer of code lengths.  With a table builder that keeps its
    contract for the code-length code, and a buffer of at least 256
    lengths and at least [alphabet_size] (ReadHuffmanCodes allocates
    the largest alphabet), the call ends with a result.  A simple code
    marks a symbol below 256 even for the 40 distances, inside the
    buffer; every length stays within 0..15; the result is the size of
    the table built, and 0 comes with status BITSTREAM_ERROR while any
    other size leaves the status alone, with the reader not at the end
    of the stream. *)
Theorem ReadHuffmanCode_memory_safe {BR : Type} `{BitReaderOps BR}
    `{Platform} (alphabet_size : Z) (dec : VP8LDecoder BR)
    (code_lengths : list Z) :
  lengths_tables_ok ->
  0 <= alphabet_size <= Z.of_nat (length code_lengths) ->
  256 <= Z.of_nat (length code_lengths) ->
  Forall is_code_length code_lengths ->
  exists size dec' cl' table,
    ReadHuffmanCode alphabet_size dec code_lengths
    = Some (size, dec', cl', table) /\
    length cl' = length code_lengths /\
    Forall is_code_length cl' /\
    hdr_ dec' = hdr_ dec /\
    size = Z.of_nat (length table) /\
    (size = 0 -> status_ dec' = VP8_STATUS_BITSTREAM_ERROR) /\
    (size <> 0 ->
     status_ dec' = status_ dec /\ eos_ (br_ dec') = false /\
     table = VP8LBuildHuffmanTable HUFFMAN_TABLE_BITS
               (take (Z.to_nat alphabet_size) cl') alphabet_size).
Proof. apply ReadHuffmanCode_defined. Qed.

(** ** The literal of a trivial group *)

Section TrivialLiteral.
Context {BR : Type} `{BitReaderOps BR} `{Platform}.

Local Abbreviation Decoder := (VP8LDecoder BR).

(** C7.  For a group read by ReadHuffmanCodes whose red, blue and alpha
    tables each decode a single symbol without consuming bits, the group
    is marked [is_trivial_literal] with
    [literal_arb = (alpha << 24) | (red << 16) | blue]; reading the three
    symbols yields these values whatever the reader holds; and a round of
    the main loop that reads the green literal [S] from that group, the
    reader not at its end, comes back to the loop test one pixel further
    with the pixel [(alpha << 24) | (red << 16) | (S << 8) | blue]
    written at its position, the very pixel the four-symbol path
    composes.  The round is one of DecodeImageData on metadata whose
    groups can be read, at a state its loop reaches ([hdr_ok],
    [loop_inv]). *)
Theorem trivial_literal_pixel
    (color_cache_bits : Z) (dec : Decoder) (code_lengths : list Z)
    (dec' : Decoder) (code_lengths' : list Z) (grp : HTreeGroup)
    (red blue alpha : Z) :
  read_htree_group color_cache_bits dec code_lengths
    = Some (dec', code_lengths', Some grp) ->
  single_symbol_table (htrees grp RED) red ->
  single_symbol_table (htrees grp BLUE) blue ->
  single_symbol_table (htrees grp ALPHA) alpha ->
  0 <= red < 256 -> 0 <= blue < 256 -> 0 <= alpha < 256 ->
  is_trivial_literal grp = true /\
  literal_arb grp = Z.lor (Z.lor (Z.shiftl alpha 24) (Z.shiftl red 16)) blue /\
  (forall br : BR, exists br',
     read_rba grp br = Some (red, blue, alpha, br')) /\
  (forall (dec0 : Decoder) (base width height last_row : Z)
          (process_func : option (ProcessRowsFunc BR))
          (st : LoopState BR) (dec1 : Decoder) (nsr S : Z) (br1 : BR),
     let env := loop_env dec0 base width height last_row process_func in
     0 < width <= 2 ^ 28 -> last_row <= height ->
     process_func_frame process_func ->
     hdr_ok dec0 width height ->
     loop_inv dec0 width height st ->
     ls_src st < le_src_last env ->
     loop_head env st = Some (dec1, nsr, grp) ->
     ReadSymbol (htrees grp GREEN) (VP8LFillBitWindow (br_ dec1))
       = Some (S, br1) ->
     eos_ br1 = false ->
     0 <= S < NUM_LITERAL_CODES ->
     exists st',
       loop_body env st = Some (Continue st') /\
       ls_src st' = ls_src st + 1 /\
       load (ls_data st') (ls_src st)
       = Some (Z.lor (Z.lor (Z.lor (Z.shiftl alpha 24) (Z.shiftl red 16))
                            (Z.shiftl S 8)) blue) /\
       literal_pixel alpha red S blue
       = Z.lor (Z.lor (Z.lor (Z.shiftl alpha 24) (Z.shiftl red 16))
                      (Z.shiftl S 8)) blue).
Proof.
  intros Hgrp HR HB HA Hr Hb Ha.
  destruct (trivial_group_literal_arb _ _ _ _ _ _ _ _ _ Hgrp HR HB HA
              Hr Hb Ha) as (Htriv & Harb & Hrba).
  split; [done|]. split; [done|]. split; [done|].
  intros dec0 base width height last_row process_func st dec1 nsr S br1 env
    Hw Hl Hf Hh Hinv Hlt Hhead Hg He HS.
  destruct (loop_body_defined dec0 width height base last_row process_func
              Hf Hw Hl Hh st Hinv Hlt) as (o & Hbody & _).
  fold env in Hbody.
  destruct (trivial_literal_round env st o dec1 nsr S br1 grp Hhead Hg He
              ltac:(lia) Htriv Hbody) as (st' & -> & Hsrc & Hload).
  exists st'. split; [done|]. split; [done|].
  split; [|apply literal_pixel_lor; done].
  rewrite Hload, Harb. f_equal.
  unfold NUM_LITERAL_CODES in HS.
  rewrite shiftl_uint32 by (try done; lia).
  rewrite <- !Z.lor_assoc. f_equal. f_equal. apply Z.lor_comm.
Qed.
End TrivialLiteral.
(** ** Each transform kind once *)




Section TransformFrame.
Context {BR : Type} `{BitReaderOps BR} `{Platform}.

Local Abbreviation Decoder := (VP8LDecoder BR).


(** *** The codes and the pixels leave the transforms alone *)














Section Loop.
Variable env : LoopEnv BR.
Hypothesis Hfunc : le_process_func env = None.







End Loop.




(** *** What ReadTransform does to the record of the kinds *)









End TransformFrame.

(* ================================================================== *)
(** * Part III: a concrete reader, test vectors and instances *)
(* ================================================================== *)

(** ** The concrete bit reader implements the interface *)

Lemma sbr_read_bits_range br n :
  0 <= n -> 0 <= fst (sbr_read_bits br n) < 2 ^ n.
Proof.
  intros Hn. unfold sbr_read_bits.
  destruct (negb (sbr_eos br) && (n <=? 24)); simpl.
  - apply Z.mod_pos_bound. apply Z.pow_pos_nonneg; lia.
  - split; [lia|]. apply Z.pow_pos_nonneg; lia.
Qed.

Lemma sbr_prefetch_range br : 0 <= sbr_prefetch br < 2 ^ 32.
Proof. unfold sbr_prefetch. apply Z.mod_pos_bound. lia. Qed.

#[export] Instance SpecBitReader_ops : BitReaderOps SpecBitReader := {|
  VP8LReadBits := sbr_read_bits;
  VP8LPrefetchBits := sbr_prefetch;
  VP8LSetBitPos := sbr_set_bit_pos;
  VP8LFillBitWindow := fun br => br;
  bit_pos_ := sbr_pos;
  eos_ := sbr_eos;
  VP8LReadBits_range := sbr_read_bits_range;
  VP8LPrefetchBits_range := sbr_prefetch_range
|}.

Lemma CopyBlock_run_length_pattern_witness :
  exists m',
    CopyBlock32b 4 [7; 8; 9; 0; 0; 0; 0; 0; 0; 5] 3 2 5 = Some m' /\
    length m' = length [7; 8; 9; 0; 0; 0; 0; 0; 0; 5] /\
    (forall i, 0 <= i < 5 ->
       load m' (3 + i) = load [7; 8; 9; 0; 0; 0; 0; 0; 0; 5] (3 - 2 + i mod 2)) /\
    (forall j, j < 3 \/ 3 + 5 <= j ->
       load m' j = load [7; 8; 9; 0; 0; 0; 0; 0; 0; 5] j).
Proof.
  apply (CopyBlock_run_length_pattern 4 [7; 8; 9; 0; 0; 0; 0; 0; 0; 5] 3 2 5);
    [lia | lia | lia | simpl; lia |].
  repeat constructor; unfold is_uint32; lia.
Defined.

Lemma GetCopyDistance_prefix_value_witness :
  GetCopyLength 7 (sbr_init [0xb5; 0x01]) =
    GetCopyDistance 7 (sbr_init [0xb5; 0x01]) /\
  (7 < 4 -> GetCopyDistance 7 (sbr_init [0xb5; 0x01])
            = (7 + 1, sbr_init [0xb5; 0x01])) /\
  (4 <= 7 ->
   let extra := Z.shiftr (7 - 2) 1 in
   let e := fst (VP8LReadBits (sbr_init [0xb5; 0x01]) extra) in
   GetCopyDistance 7 (sbr_init [0xb5; 0x01]) =
     (Z.shiftl (2 + Z.land 7 1) extra + e + 1,
      snd (VP8LReadBits (sbr_init [0xb5; 0x01]) extra))).
Proof.
  apply (GetCopyDistance_prefix_value 7 (sbr_init [0xb5; 0x01])).
  unfold NUM_DISTANCE_CODES. lia.
Defined.

Lemma PlaneCodeToDistance_table_or_linear_witness :
  length kCodeToPlane = 120%nat /\
  (2 <= 120 ->
   exists entry,
     load kCodeToPlane (2 - 1) = Some entry /\
     PlaneCodeToDistance 100 2 =
       Some (Z.max 1 (Z.shiftr entry 4 * 100 + (8 - Z.land entry 0xf)))) /\
  (120 < 2 -> PlaneCodeToDistance 100 2 = Some (2 - 120)).
Proof.
  apply (PlaneCodeToDistance_table_or_linear 100 2); simpl; lia.
Defined.
(** ** A platform for the test vectors *)

(** The symbols with a non-zero code length, from symbol [i] on. *)
Fixpoint used_symbols (i : Z) (code_lengths : list Z) : list Z :=
  match code_lengths with
  | [] => []
  | l :: ls =>
      if l =? 0 then used_symbols (i + 1) ls
      else i :: used_symbols (i + 1) ls
  end.

(** The table builder of the test vectors: the case of
    VP8LBuildHuffmanTable for a code with a single used symbol, where
    every entry of the table is [{bits = 0, value = symbol}].  The vectors
    use no other code; the builder reports any other as malformed. *)
Definition one_symbol_table (root_bits : Z) (code_lengths : list Z)
    (size : Z) : list HuffmanCode :=
  match used_symbols 0 code_lengths with
  | [s] => replicate (Z.to_nat (2 ^ root_bits)) {| bits := 0; value := s |}
  | _ => []
  end.

(** The platform of the test vectors; a fresh block holds [0xaa] in
    every cell. *)
#[export] Instance vector_platform : Platform := {|
  VP8LBuildHuffmanTable := one_symbol_table;
  LENGTHS_TABLE_BITS := 7;
  malloc := fun n => if 0 <? n then Some 4096 else None;
  malloc_cells := fun n => replicate (Z.to_nat n) 0xaa;
  malloc_cells_length := fun n => length_replicate (Z.to_nat n) 0xaa;
  VP8LHtreeGroupsNew_ok := fun _ => true
|}.

(** ** Test vectors *)

(** A table of 256 entries of [b] bits whose value is [f] of the index. *)
Definition vec_table (b : Z) (f : Z -> Z) : list HuffmanCode :=
  map (fun i => {| bits := b; value := f (Z.of_nat i) |}) (seq 0 256).

(** A group with four green symbols of two bits (the literals 10 and 20,
    the length prefix 259 and the invalid 284), constant red, blue and
    alpha, and two distance symbols of one bit. *)
Definition vec_group : HTreeGroup :=
  {| htrees := fun j =>
       match j with
       | GREEN => vec_table 2 (fun i => match i mod 4 with
                                        | 0 => 10 | 1 => 20 | 2 => 259
                                        | _ => 284 end)
       | RED => vec_table 0 (fun _ => 1)
       | BLUE => vec_table 0 (fun _ => 2)
       | ALPHA => vec_table 0 (fun _ => 255)
       | DIST => vec_table 1 (fun i => i mod 2)
       end;
     is_trivial_literal := true;
     literal_arb := 0xff010002 |}.

Definition vec_hdr : VP8LMetadata :=
  {| color_cache_size_ := 4;
     color_cache_ := VP8LColorCacheInit 2;
     saved_color_cache_ := VP8LColorCacheInit 2;
     huffman_mask_ := -1; huffman_subsample_bits_ := 0;
     huffman_xsize_ := 0; huffman_image_ := None;
     num_htree_groups_ := 1; htree_groups_ := [vec_group] |}.

(** A decoder of a 4 x 3 image about to decode its pixels from [buf]. *)
Definition vec_dec (inc : bool) (buf : list Z) : VP8LDecoder SpecBitReader :=
  {| status_ := VP8_STATUS_OK; state_ := READ_HDR; br_ := sbr_init buf;
     incremental_ := inc; saved_br_ := sbr_init [];
     saved_last_pixel_ := 0; width_ := 4; height_ := 3; last_row_ := 0;
     last_pixel_ := 0; last_out_row_ := 0; hdr_ := vec_hdr;
     next_transform_ := 0; transforms_ := []; transforms_seen_ := 0 |}.

(** The decoder VP8LNew returns, set up for a 4 x 3 image and about to
    read the stream [buf]. *)
Definition vec_stream_dec (buf : list Z) : VP8LDecoder SpecBitReader :=
  set_br (set_size (VP8LNew (sbr_init [])) 4 3) (sbr_init buf).

Lemma DecodeImageData_bitstream_error_witness :
  exists dec' data',
    DecodeImageData (vec_dec false [0x02]) 0 (replicate 12 0) 4 3 3 None
      = Some (0, dec', data') /\
    status_ dec' = VP8_STATUS_BITSTREAM_ERROR.
Proof.
  eapply (DecodeImageData_bitstream_error
            (vec_dec false [0x02]) 0 (replicate 12 0) 4 3 3 None).
  - lia.
  - reflexivity.
  - apply Trace_nil.
  - vm_compute; reflexivity.
  - reflexivity.
  - reflexivity.
  - left. split; [reflexivity|]. split; [vm_compute; split; [discriminate|reflexivity]|].
    eexists _, _, _. split; [reflexivity|]. split; [reflexivity|].
    left. vm_compute. reflexivity.
Defined.

(** A group whose green symbols take a whole byte: [0x00] is the literal
    10, [0x01] the literal 20, [0x02] the length prefix 264 (three extra
    bits, lengths 17 to 24) and every other byte the invalid 284; red,
    blue, alpha and distance are as in [vec_group]. *)
Definition vec_long_group : HTreeGroup :=
  {| htrees := fun j =>
       match j with
       | GREEN => vec_table 8 (fun i => match i with
                                        | 0 => 10 | 1 => 20 | 2 => 264
                                        | _ => 284 end)
       | j => htrees vec_group j
       end;
     is_trivial_literal := true;
     literal_arb := 0xff010002 |}.

(** An incremental decoder of a 4 x 24 image about to decode its pixels
    from [buf]. *)
Definition vec_long_dec (buf : list Z) : VP8LDecoder SpecBitReader :=
  {| status_ := VP8_STATUS_OK; state_ := READ_HDR; br_ := sbr_init buf;
     incremental_ := true; saved_br_ := sbr_init [];
     saved_last_pixel_ := 0; width_ := 4; height_ := 24; last_row_ := 0;
     last_pixel_ := 0; last_out_row_ := 0;
     hdr_ := {| color_cache_size_ := 4;
                color_cache_ := VP8LColorCacheInit 2;
                saved_color_cache_ := VP8LColorCacheInit 2;
                huffman_mask_ := -1; huffman_subsample_bits_ := 0;
                huffman_xsize_ := 0; huffman_image_ := None;
                num_htree_groups_ := 1;
                htree_groups_ := [vec_long_group] |};
     next_transform_ := 0; transforms_ := []; transforms_seen_ := 0 |}.

(** Eleven bytes of pixels for [vec_long_dec].  Four literals of green
    10 fill row 0 (bits 0 to 31).  Three copies from one row up follow,
    each the prefix 264, three extra bits and the distance code 1: 24
    pixels from pixel 4 (bits 32 to 43), 17 pixels from pixel 28, the
    first of row 7 (bits 44 to 55), which leaves the position at pixel
    45, the second of row 11, and 19 pixels from there (bits 56 to 67).
    Pixel 64, the first of row 16, is the literal of green 20 (bits 68
    to 75) and pixel 65 a literal of green 10 (bits 76 to 83).  The
    input ends behind bit 87, inside the literal of pixel 66; the
    literal of pixel 75, the last of row 18, would end at bit 163. *)
Definition vec_long_stream : list Z :=
  [0x00; 0x00; 0x00; 0x00; 0x02; 0x27; 0x00; 0x02; 0x12; 0x00; 0x00].

Lemma DecodeImageData_suspend_restores_snapshot_witness :
  exists dec' data',
    DecodeImageData (vec_long_dec vec_long_stream) 0 (replicate 96 0)
                    4 24 24 None
      = Some (1, dec', data') /\
    status_ dec' = VP8_STATUS_SUSPENDED /\
    br_ dec' = {| sbr_buf := vec_long_stream; sbr_pos := 56;
                  sbr_eos := false |} /\
    last_pixel_ dec' = 4 * 11 + 1.
Proof.
  edestruct (DecodeImageData_suspend_restores_snapshot
               (vec_long_dec vec_long_stream) 0 (replicate 96 0)
               4 24 24 None)
    as (s & due & dec' & Hs & Hd & Hst & Hbr & Hlp & _).
  - lia.
  - reflexivity.
  - lia.
  - exact I.
  - reflexivity.
  - apply (run_rounds_Trace _ 9). vm_compute; reflexivity.
  - vm_compute; reflexivity.
  - vm_compute; reflexivity.
  - vm_compute; reflexivity.
  - exists dec'. eexists. split; [exact Hd|]. split; [exact Hst|].
    rewrite Hbr, Hlp. vm_compute in Hs.
    injection Hs as Hs _. rewrite <- Hs. split; reflexivity.
Defined.

(** C3 as the spec states it fails: on [vec_long_stream] the copy that
    begins in row 7 ends in row 11, so no symbol begins in rows 8 to
    10 and the check-point behind the one of row 0 is taken at pixel 45,
    the second pixel of row 11; the next is due in row 19.  The first
    symbol of row 16 is decoded (pixel 64 holds its green 20) without a
    check-point, and when the input ends in row 16 the decoder goes back
    to pixel 45 and bit 56, not to the first symbol of row 8 or of row
    16. *)
Lemma checkpoint_not_every_8_rows :
  (fun r => (fst (fst r), status_ (snd (fst r)), load (snd r) (4 * 16),
             last_pixel_ (snd (fst r)), sbr_pos (br_ (snd (fst r)))))
    <$> DecodeImageData (vec_long_dec vec_long_stream) 0 (replicate 96 0)
                        4 24 24 None
  = Some (1, VP8_STATUS_SUSPENDED, Some 0xff011402, 4 * 11 + 1, 56).
Proof. vm_compute; reflexivity. Qed.



(** The stream of a Huffman-code section with a meta-Huffman image: the
    bit 1, precision 2 (a 1 x 1 image for 4 x 3 pixels), a sub-stream of
    one literal pixel [0xff000100] from single-symbol codes, then the
    codes of two groups. *)
Definition vec_meta_stream : list Z :=
  [0xa1; 0x01; 0x11; 0xfd; 0x8f; 0x88; 0x88; 0x88; 0x88; 0x08; 0].

Definition vec_sub_stream : SubStream SpecBitReader :=
  fun xsize ysize dec => DecodeImageStream 1 xsize ysize false dec.

(** C4 as the spec states it fails: the sub-stream yields the pixel
    [0xff000100], whose high 16 bits are [0xff00]; the group recorded for
    the tile is 1 (bits 8..23) and [num_htree_groups] is 2, not
    [0xff00 + 1]. *)
Lemma meta_group_not_high_16_bits :
  snd <$> vec_sub_stream 1 1
            (set_br (vec_stream_dec vec_meta_stream)
               {| sbr_buf := vec_meta_stream; sbr_pos := 4;
                  sbr_eos := false |})
    = Some (Some [0xff000100]) /\
  Z.shiftr 0xff000100 16 = 0xff00 /\
  snd <$> read_meta_huffman vec_sub_stream
            (vec_stream_dec vec_meta_stream) 4 3 true
    = Some (Some (Some [1], 2)) /\
  (fun r => (fst r, num_htree_groups_ (hdr_ (snd r)),
             huffman_image_ (hdr_ (snd r)),
             length (htree_groups_ (hdr_ (snd r)))))
    <$> ReadHuffmanCodes vec_sub_stream
          (vec_stream_dec vec_meta_stream) 4 3 0 true
    = Some (1, 2, Some [1], 2%nat).
Proof. repeat split; vm_compute; reflexivity. Qed.

Lemma ReadHuffmanCodes_meta_groups_witness :
  exists dec' image' num,
    read_meta_huffman vec_sub_stream (vec_stream_dec vec_meta_stream)
                      4 3 true
    = Some (dec', Some (Some image', num)) /\
    huffman_subsample_bits_ (hdr_ dec') = 2 /\
    load image' 0 = Some (Z.land (Z.shiftr 0xff000100 8) 0xffff) /\
    (forall i g, load image' i = Some g -> 0 <= g < num) /\
    (exists i, load image' i = Some (num - 1)).
Proof.
  pose proof (ReadHuffmanCodes_meta_groups vec_sub_stream
                (vec_stream_dec vec_meta_stream) 4 3 true) as W.
  cbv zeta in W. destruct W as (_ & W & _).
  edestruct W as (dec' & image' & num & Hr & Hp & _ & Hpx & Hrg & Hmax).
  - reflexivity.
  - vm_compute; discriminate.
  - vm_compute; reflexivity.
  - discriminate.
  - reflexivity.
  - vm_compute. split; [discriminate | reflexivity].
  - exists dec', image', num. split; [exact Hr|].
    split; [rewrite Hp; vm_compute; reflexivity|].
    split; [apply Hpx; reflexivity|]. split; [exact Hrg | exact Hmax].
Defined.

Lemma single_symbol_replicate (v : Z) :
  single_symbol_table
    (replicate (Z.to_nat (2 ^ HUFFMAN_TABLE_BITS)) {| bits := 0; value := v |})
    v.
Proof.
  intros i Hi. apply load_Some. split; [lia|].
  apply lookup_replicate_2.
  change (Z.to_nat (2 ^ HUFFMAN_TABLE_BITS)) with 256%nat.
  change HUFFMAN_TABLE_MASK with 255 in Hi. lia.
Qed.

(** The codes of one group: green is the symbol 1, red [0x12], blue
    [0x34], alpha [0xff] and distance 0, each a single-symbol code. *)
Definition vec_group_stream : list Z :=
  [0x59; 0x89; 0xd2; 0xf4; 0x3f; 0; 0].

(** The group read from [vec_group_stream]. *)
Definition vec_read_group : HTreeGroup :=
  match read_htree_group 0 (vec_stream_dec vec_group_stream)
                         (replicate 280 0) with
  | Some (_, _, Some g) => g
  | _ => vec_group
  end.

Definition vec_read_hdr : VP8LMetadata :=
  {| color_cache_size_ := 0;
     color_cache_ := VP8LColorCacheClear;
     saved_color_cache_ := VP8LColorCacheClear;
     huffman_mask_ := -1; huffman_subsample_bits_ := 0;
     huffman_xsize_ := 0; huffman_image_ := None;
     num_htree_groups_ := 1; htree_groups_ := [vec_read_group] |}.

(** A decoder of a 4 x 3 image with the group read from
    [vec_group_stream], about to decode its pixels from [buf]. *)
Definition vec_read_dec (buf : list Z) : VP8LDecoder SpecBitReader :=
  {| status_ := VP8_STATUS_OK; state_ := READ_HDR; br_ := sbr_init buf;
     incremental_ := false; saved_br_ := sbr_init [];
     saved_last_pixel_ := 0; width_ := 4; height_ := 3; last_row_ := 0;
     last_pixel_ := 0; last_out_row_ := 0; hdr_ := vec_read_hdr;
     next_transform_ := 0; transforms_ := []; transforms_seen_ := 0 |}.

Lemma one_symbol_reads (v n : Z) :
  0 <= v < n ->
  table_reads_below (BR := SpecBitReader)
    (replicate 256 {| bits := 0; value := v |}) n.
Proof.
  intros Hv. apply first_level_table_reads.
  - apply length_replicate.
  - apply Forall_replicate. simpl. unfold HUFFMAN_TABLE_BITS. lia.
Qed.

Lemma vec_read_group_ok : group_ok (BR := SpecBitReader) vec_read_group.
Proof.
  split; [|split; [|split; [|split; [|split]]]].
  - apply (table_reads_below_reads _ 256).
    apply (one_symbol_reads 1 256). lia.
  - apply (table_reads_below_reads _ 256).
    apply (one_symbol_reads 0x12 256). lia.
  - apply (table_reads_below_reads _ 256).
    apply (one_symbol_reads 0x34 256). lia.
  - apply (table_reads_below_reads _ 256).
    apply (one_symbol_reads 0xff 256). lia.
  - apply (one_symbol_reads 0 NUM_DISTANCE_CODES).
    unfold NUM_DISTANCE_CODES. lia.
  - vm_compute. split; [discriminate | reflexivity].
Qed.

Lemma trivial_literal_pixel_witness :
  exists dec' code_lengths' grp st st',
    read_htree_group 0 (vec_stream_dec vec_group_stream) (replicate 280 0)
    = Some (dec', code_lengths', Some grp) /\
    is_trivial_literal grp = true /\
    literal_arb grp = 0xff120034 /\
    loop_init (vec_read_dec [0]) (replicate 12 0) 4 = Some st /\
    loop_body (loop_env (vec_read_dec [0]) 0 4 3 3 None) st
    = Some (Continue st') /\
    load (ls_data st') 0 = Some 0xff120134.
Proof.
  edestruct (trivial_literal_pixel 0 (vec_stream_dec vec_group_stream)
               (replicate 280 0))
    as (Ht & Harb & _ & Hpx).
  - vm_compute; reflexivity.
  - exact (single_symbol_replicate 0x12).
  - exact (single_symbol_replicate 0x34).
  - exact (single_symbol_replicate 0xff).
  - lia.
  - lia.
  - lia.
  - assert (Hhdr : hdr_ok (vec_read_dec [0]) 4 3).
    { split; [|simpl; lia].
      intros x y _ _. exists vec_read_group. split; [reflexivity|].
      apply vec_read_group_ok. }
    destruct (loop_init_defined (vec_read_dec [0]) 4 3 ltac:(lia) Hhdr
                (replicate 12 0))
      as (st0 & Hinit & Hinv & _);
      [ simpl; lia | reflexivity
      | apply Forall_replicate; unfold is_uint32; lia |].
    edestruct (Hpx (vec_read_dec [0]) 0 4 3 3 None st0)
      as (st' & Hbody & _ & Hload & _).
    + lia.
    + lia.
    + exact I.
    + exact Hhdr.
    + exact Hinv.
    + vm_compute in Hinit. injection Hinit as <-. vm_compute; reflexivity.
    + vm_compute in Hinit. injection Hinit as <-. vm_compute; reflexivity.
    + vm_compute; reflexivity.
    + reflexivity.
    + vm_compute; split; [discriminate | reflexivity].
    + eexists _, _, _, st0, st'.
      split; [vm_compute; reflexivity|].
      split; [exact Ht|]. split; [exact Harb|].
      split; [exact Hinit|]. split; [exact Hbody|].
      replace 0 with (ls_src st0) at 1
        by (vm_compute in Hinit; injection Hinit as <-; reflexivity).
      exact Hload.
Defined.

Lemma DecodeImageStream_color_cache_bits_witness :
  exists dec',
    DecodeImageStream 2 4 3 true (vec_stream_dec [0x3e; 0])
      = Some (0, dec', None) /\
    status_ dec' = VP8_STATUS_BITSTREAM_ERROR /\
    bit_pos_ (br_ dec') = 6.
Proof.
  pose proof (DecodeImageStream_color_cache_bits 1 4 3 true
                (vec_stream_dec [0x3e; 0])
                (set_br (vec_stream_dec [0x3e; 0])
                   (snd (VP8LReadBits (br_ (vec_stream_dec [0x3e; 0])) 1)))
                1 4) as W.
  cbv zeta in W. destruct W as (_ & _ & W).
  - reflexivity.
  - discriminate.
  - vm_compute; discriminate.
  - destruct W as (dec' & Hd & Hs & Hbr & _).
    + vm_compute. intros [_ Hc]. apply Hc. reflexivity.
    + exists dec'. split; [exact Hd|]. split; [exact Hs|].
      rewrite Hbr. reflexivity.
Defined.

Lemma ExpandColorMap_black_tail_witness :
  ColorIndexingBits 5 = 1 /\
  5 <= Z.shiftl 1 (Z.shiftr 8 (ColorIndexingBits 5)) /\
  exists new,
    ExpandColorMap 5
      {| type_ := COLOR_INDEXING_TRANSFORM; bits_ := 1; xsize_ := 4;
         ysize_ := 3; data_ := Some [1; 2; 3; 4; 5] |}
    = Some (1, {| type_ := COLOR_INDEXING_TRANSFORM; bits_ := 1;
                  xsize_ := 4; ysize_ := 3; data_ := Some new |}) /\
    Z.of_nat (length new) = 16 /\
    (forall j, 5 <= j < 16 -> load new j = Some 0).
Proof.
  destruct (ExpandColorMap_black_tail 5) as (Hb & Hle & W); [lia|].
  split; [exact Hb|]. split; [exact Hle|].
  destruct (W {| type_ := COLOR_INDEXING_TRANSFORM; bits_ := 1; xsize_ := 4;
                 ysize_ := 3; data_ := Some [1; 2; 3; 4; 5] |}
              [1; 2; 3; 4; 5] 4096)
    as (new & He & Hl & Hz & _); [reflexivity..|].
  exists new. split; [exact He|]. split; [exact Hl | exact Hz].
Defined.

(** ** Further test vectors *)

Lemma GetCopyDistance_bounds_witness :
  1 <= fst (GetCopyDistance 7 (sbr_init [0xb5; 0x01])) <= 2 ^ 20 /\
  (7 < NUM_LENGTH_CODES ->
   fst (GetCopyLength 7 (sbr_init [0xb5; 0x01])) <= 4096).
Proof.
  apply (GetCopyDistance_bounds 7 (sbr_init [0xb5; 0x01])).
  unfold NUM_DISTANCE_CODES. lia.
Defined.

Lemma GetCopyDistance_monotone_witness :
  fst (GetCopyDistance 3 (sbr_init [0xb5; 0x01]))
  < fst (GetCopyDistance 7 (sbr_init [0x00])).
Proof.
  apply (GetCopyDistance_monotone 3 7); unfold NUM_DISTANCE_CODES; lia.
Defined.

(** The header of a 4 x 3 image without alpha, then a stream without
    transforms, color cache or meta-Huffman image and with five
    single-symbol codes. *)
Definition vec_file : list Z :=
  [0x2f; 0x03; 0x80; 0x00; 0x00; 0x88; 0x88; 0x08; 0x00].

Definition vec_init (data : list Z) (size : Z) : SpecBitReader :=
  sbr_init data.

Lemma ReadImageInfo_dimensions_witness :
  exists br',
    ReadImageInfo (sbr_init vec_file) = (1, br', Some (4, 3, 0)) /\
    exists width height has_alpha,
      Some (4, 3, 0) = Some (width, height, has_alpha) /\
      1 <= width <= 16384 /\ 1 <= height <= 16384 /\ 0 <= has_alpha <= 1.
Proof.
  eexists. split; [vm_compute; reflexivity|].
  eapply (ReadImageInfo_dimensions (sbr_init vec_file) _ 1 (Some (4, 3, 0)));
    [vm_compute; reflexivity | reflexivity].
Defined.

Lemma SetCropWindow_clips_witness :
  exists io',
    SetCropWindow {| crop_left := 1; crop_right := 3; crop_top := 2;
                     crop_bottom := 10; mb_y := 0; mb_w := 0; mb_h := 0 |}
                  0 16 1000 16
    = (1, io', 1000 + 2 * 16 + 4) /\
    mb_y io' = 0 /\ mb_h io' = 8 /\ mb_w io' = 2.
Proof.
  destruct (SetCropWindow_clips
              {| crop_left := 1; crop_right := 3; crop_top := 2;
                 crop_bottom := 10; mb_y := 0; mb_w := 0; mb_h := 0 |}
              0 16 1000 16) as [_ W]; simpl; try lia.
  destruct W as (io' & He & Hy & Hh & Hw & _); [simpl; lia|].
  exists io'. split; [exact He|]. split; [exact Hy|]. split; [exact Hh|].
  exact Hw.
Defined.

Lemma DecodeImageData_result_witness :
  exists dec' data',
    DecodeImageData (vec_dec false [0x64; 0x03; 0x00]) 0
                    (replicate 12 0) 4 3 3 None
    = Some (1, dec', data') /\
    length data' = 12%nat /\
    status_ dec' = VP8_STATUS_OK /\ 12 <= last_pixel_ dec'.
Proof.
  eexists _, _. split; [vm_compute; reflexivity|].
  edestruct (DecodeImageData_result
               (vec_dec false [0x64; 0x03; 0x00]) 0
               (replicate 12 0) 4 3 3 None)
    as (Hl & [(Hc & _)|[(_ & Hs & _)|(_ & Hs & _ & Hp)]]).
  - exact I.
  - vm_compute; reflexivity.
  - discriminate Hc.
  - discriminate Hs.
  - split; [exact Hl|]. split; [exact Hs | exact Hp].
Defined.

(** A stream that announces five transforms: subtract-green; predictor
    and cross-color, each with a 1 x 1 sub-stream; color indexing with
    two colors in a 2 x 1 sub-stream; then one more predictor.  The
    sub-streams have no color cache and five single-symbol codes. *)
Definition vec_five_transforms : list Z :=
  [0x0d; 0x44; 0x44; 0xc4; 0x20; 0x22; 0x22; 0x1e; 0x20; 0x22; 0x22; 0x02;
   0; 0; 0; 0].

Lemma DecodeImageStream_result_witness :
  exists dec',
    DecodeImageStream 2 4 3 true (vec_stream_dec vec_five_transforms)
    = Some (0, dec', None) /\
    status_ dec' <> VP8_STATUS_OK /\ hdr_ dec' = InitMetadata /\
    next_transform_ dec' = 4 /\ bit_pos_ (br_ dec') = 92.
Proof.
  eexists. split; [vm_compute; reflexivity|].
  edestruct (DecodeImageStream_result 2 4 3 true
               (vec_stream_dec vec_five_transforms))
    as [W _]; [vm_compute; reflexivity|].
  destruct (W eq_refl) as (Hs & _ & Hh).
  split; [exact Hs|]. split; [exact Hh|]. split; reflexivity.
Defined.

(** The header of a 4 x 3 image, then [vec_five_transforms]. *)
Definition vec_five_file : list Z :=
  [0x2f; 0x03; 0x80; 0x00; 0x00] ++ vec_five_transforms.

Lemma VP8LDecodeHeader_result_witness :
  exists dec',
    VP8LDecodeHeader vec_init (VP8LNew (sbr_init []))
                     (Some (vec_five_file, 21))
    = Some (0, dec', Some (4, 3)) /\
    status_ dec' <> VP8_STATUS_OK /\
    hdr_ dec' = InitMetadata /\ next_transform_ dec' = 0 /\
    transforms_seen_ dec' = 0.
Proof.
  eexists. split; [vm_compute; reflexivity|].
  edestruct (VP8LDecodeHeader_result vec_init (VP8LNew (sbr_init []))
               (Some (vec_five_file, 21)))
    as (_ & W & _); [vm_compute; reflexivity|].
  destruct (W eq_refl) as (Hs & _ & Hc).
  split; [exact Hs|]. apply Hc. discriminate.
Defined.

Lemma Is8bOptimizable_trivial_literals_witness :
  color_cache_size_ vec_read_hdr <= 0 /\
  is_trivial_literal vec_read_group = true /\
  (0 <= first_value (htrees vec_read_group BLUE) < 256 ->
   forall S, 0 <= S < NUM_LITERAL_CODES ->
     Z.land (Z.shiftr (Z.lor (literal_arb vec_read_group)
                             (to_uint32 (Z.shiftl S 8))) 8) 0xff = S).
Proof.
  eapply (Is8bOptimizable_trivial_literals vec_read_hdr 0 vec_read_group 0
            (vec_stream_dec vec_group_stream) _ (replicate 280 0) _).
  - vm_compute; reflexivity.
  - simpl; lia.
  - reflexivity.
  - vm_compute; reflexivity.
  - vm_compute; discriminate.
  - vm_compute; discriminate.
  - vm_compute; discriminate.
Defined.

Lemma CopyBlock_plain_copy_witness :
  exists m',
    CopyBlock32b 0 [1; 2; 3; 4; 0; 0; 0] 4 3 2 = Some m' /\
    CopyBlock8b 0 [1; 2; 3; 4; 0; 0; 0] 4 3 2 = Some m' /\
    m' = [1; 2; 3; 4; 2; 3; 0].
Proof.
  destruct (CopyBlock_plain_copy 0 [1; 2; 3; 4; 0; 0; 0] 4 3 2)
    as (m' & H32 & H8 & _); [lia | lia | lia | simpl; lia |].
  exists m'. split; [exact H32|]. split; [exact H8|].
  vm_compute in H32. injection H32 as <-. reflexivity.
Defined.

Lemma vec_table_reads (b : Z) (f : Z -> Z) (n : Z) :
  b <= 8 -> (forall i, 0 <= f i < n) ->
  table_reads_below (BR := SpecBitReader) (vec_table b f) n.
Proof.
  intros Hb Hf. apply first_level_table_reads; [done|].
  unfold vec_table. apply Forall_fmap, Forall_forall. intros i _. simpl.
  split; [done | apply Hf].
Qed.

Lemma vec_hdr_ok (inc : bool) (buf : list Z) :
  hdr_ok (vec_dec inc buf) 4 3.
Proof.
  split.
  - intros x y _ _. exists vec_group. split; [done|].
    split; [|split; [|split; [|split; [|split]]]]; simpl.
    + apply (table_reads_below_reads _ 285), vec_table_reads; [lia|].
      intros i.
      repeat match goal with
             | |- context [match ?x with _ => _ end] => destruct x
             end; lia.
    + apply (table_reads_below_reads _ 256), vec_table_reads; lia.
    + apply (table_reads_below_reads _ 256), vec_table_reads; lia.
    + apply (table_reads_below_reads _ 256), vec_table_reads; lia.
    + apply vec_table_reads; [lia|]. intros i. unfold NUM_DISTANCE_CODES.
      pose proof (Z.mod_pos_bound i 2 ltac:(lia)). lia.
    + unfold is_uint32. lia.
  - intros _. split; [|split; [simpl; lia | done]].
    split; [simpl; lia|]. split; [done|].
    simpl. repeat constructor; unfold is_uint32; lia.
Qed.

Lemma DecodeImageData_memory_safe_witness :
  exists ok dec' data',
    DecodeImageData (vec_dec true [0x64]) 0 (replicate 12 0) 4 3 3 None
    = Some (ok, dec', data').
Proof.
  apply (DecodeImageData_memory_safe (vec_dec true [0x64]) 0
           (replicate 12 0) 4 3 3 None).
  - lia.
  - lia.
  - exact I.
  - apply vec_hdr_ok.
  - simpl; lia.
  - simpl; lia.
  - simpl. repeat constructor; unfold is_uint32; lia.
Defined.

Lemma DecodeImageData_group_of_position_witness :
  exists st0 st1 d1 nsr,
    loop_init (vec_dec false [0x64]) (replicate 12 0) 4 = Some st0 /\
    loop_body (loop_env (vec_dec false [0x64]) 0 4 3 3 None) st0
      = Some (Continue st1) /\
    loop_head (loop_env (vec_dec false [0x64]) 0 4 3 3 None) st1
      = Some (d1, nsr, vec_group) /\
    GetHtreeGroupForPos vec_hdr (ls_col st1) (ls_row st1) = Some vec_group.
Proof.
  eexists _, _, _, _. split; [reflexivity|].
  split; [vm_compute; reflexivity|].
  match goal with |- loop_head ?e ?b = Some (?d, ?n, _) /\ _ =>
    assert (Hh : loop_head e b = Some (d, n, vec_group))
      by (vm_compute; reflexivity);
    split; [exact Hh|];
    eapply (DecodeImageData_group_of_position
              (vec_dec false [0x64]) 0 (replicate 12 0) 4 3 3 None
              _ [_] b d n vec_group);
      [ exact I
      | split; [simpl; lia | reflexivity]
      | reflexivity
      | eapply Trace_cons;
          [vm_compute; reflexivity | vm_compute; reflexivity | apply Trace_nil]
      | exact Hh ]
  end.
Defined.


(** ** The 8-bit alpha path *)

(** A stand-in for the palette lookup of dsp/lossless: the rows
    [y_start, y_end) of the byte raster go to the plane unchanged. *)
Definition vec_inverse (t : VP8LTransform) (y_start y_end : Z)
    (src : list Z) (src_off : Z) (dst : list Z) (dst_off : Z) : list Z :=
  foldl (fun acc i =>
           match load src (src_off + Z.of_nat i) with
           | Some v => <[Z.to_nat (dst_off + Z.of_nat i) := v]> acc
           | None => acc
           end)
        dst (seq 0 (Z.to_nat ((y_end - y_start) * xsize_ t))).

Definition vec_alpha_hdr : VP8LMetadata :=
  {| color_cache_size_ := 0;
     color_cache_ := VP8LColorCacheInit 0;
     saved_color_cache_ := VP8LColorCacheInit 0;
     huffman_mask_ := -1; huffman_subsample_bits_ := 0;
     huffman_xsize_ := 0; huffman_image_ := None;
     num_htree_groups_ := 1; htree_groups_ := [vec_group] |}.

(** A decoder of a 4 x 3 alpha plane with its color-indexing transform,
    about to decode the bytes from [buf]. *)
Definition vec_alpha_dec (buf : list Z) : VP8LDecoder SpecBitReader :=
  {| status_ := VP8_STATUS_OK; state_ := READ_HDR; br_ := sbr_init buf;
     incremental_ := false; saved_br_ := sbr_init [];
     saved_last_pixel_ := 0; width_ := 4; height_ := 3; last_row_ := 0;
     last_pixel_ := 0; last_out_row_ := 0; hdr_ := vec_alpha_hdr;
     next_transform_ := 1;
     transforms_ :=
       [{| type_ := COLOR_INDEXING_TRANSFORM; bits_ := 0; xsize_ := 4;
           ysize_ := 3; data_ := None |}];
     transforms_seen_ := 8 |}.

Lemma vec_group_ok : group_ok (BR := SpecBitReader) vec_group.
Proof.
  split; [|split; [|split; [|split; [|split]]]]; simpl.
  - apply (table_reads_below_reads _ 285), vec_table_reads; [lia|].
    intros i.
    repeat match goal with
           | |- context [match ?x with _ => _ end] => destruct x
           end; lia.
  - apply (table_reads_below_reads _ 256), vec_table_reads; lia.
  - apply (table_reads_below_reads _ 256), vec_table_reads; lia.
  - apply (table_reads_below_reads _ 256), vec_table_reads; lia.
  - apply vec_table_reads; [lia|]. intros i. unfold NUM_DISTANCE_CODES.
    pose proof (Z.mod_pos_bound i 2 ltac:(lia)). lia.
  - unfold is_uint32. lia.
Qed.

Lemma DecodeAlphaData_memory_safe_witness :
  exists ok dec' plane' data',
    DecodeAlphaData vec_inverse 4 (vec_alpha_dec [0x64]) 0
                    (replicate 12 0) (replicate 12 0) 4 3 3
    = Some (ok, dec', plane', data') /\
    Z.of_nat (length data') = 4 * 3 /\
    Forall is_uint8 data'.
Proof.
  apply (DecodeAlphaData_memory_safe vec_inverse 4 (vec_alpha_dec [0x64]) 0
           (replicate 12 0) (replicate 12 0) 4 3 3).
  - lia.
  - lia.
  - intros x y _ _. exists vec_group. split; [reflexivity|].
    apply vec_group_ok.
  - discriminate.
  - simpl; lia.
  - simpl; lia.
  - simpl. repeat constructor; unfold is_uint8; lia.
Defined.

Lemma DecodeAlphaData_result_witness :
  exists dec' plane' data',
    DecodeAlphaData vec_inverse 4 (vec_alpha_dec [0x64; 0x03; 0x00]) 0
                    (replicate 12 0) (replicate 12 0) 4 3 3
    = Some (1, dec', plane', data') /\
    last_pixel_ dec' = 12 /\
    last_row_ dec' = last_pixel_ dec' / 4.
Proof.
  eexists _, _, _. split; [vm_compute; reflexivity|].
  split; [reflexivity|].
  edestruct (DecodeAlphaData_result vec_inverse 4
               (vec_alpha_dec [0x64; 0x03; 0x00]) 0
               (replicate 12 0) (replicate 12 0) 4 3 3 1)
    as [_ [(H0 & _)|(_ & _ & _ & _ & Hrow & _)]];
    [ lia | lia
    | intros x y _ _; exists vec_group; split;
        [reflexivity | apply vec_group_ok]
    | discriminate
    | simpl; lia | simpl; lia
    | simpl; repeat constructor; unfold is_uint8; lia
    | vm_compute; reflexivity
    | discriminate H0
    | exact Hrow ].
Defined.

Lemma DecodeAlphaData_green_plane_witness :
  exists dec32' data32' dec8' plane' data8',
    DecodeImageData (vec_alpha_dec [0x64; 0x03; 0x00]) 0 (replicate 12 0)
                    4 3 3 None
    = Some (1, dec32', data32') /\
    DecodeAlphaData vec_inverse 4 (vec_alpha_dec [0x64; 0x03; 0x00]) 0
                    (replicate 12 0) (replicate 12 0) 4 3 3
    = Some (1, dec8', plane', data8') /\
    green_rel data8' data32' 12.
Proof.
  edestruct (DecodeAlphaData_green_plane vec_inverse 4
               (vec_alpha_dec [0x64; 0x03; 0x00]) 0 0
               (replicate 12 0) (replicate 12 0) (replicate 12 0) 4 3 3
               None)
    as (d8 & p8 & m8 & He & _ & _ & Hg);
    [ exact I | lia | lia | simpl; lia
    | constructor; [|constructor];
        split; [apply vec_group_ok|];
        split; [reflexivity | vm_compute; reflexivity]
    | discriminate
    | simpl; lia
    | vm_compute; reflexivity
    | simpl; lia
    | simpl; repeat constructor; unfold is_uint32; lia
    | simpl; lia
    | simpl; repeat constructor; unfold is_uint8; lia
    | intros i Hi; simpl in Hi; lia
    | vm_compute; reflexivity
    | reflexivity
    | ].
  eexists _, _, d8, p8, m8. split; [vm_compute; reflexivity|].
  split; [exact He | exact Hg].
Defined.

(** A level-0 stream without transforms or color cache whose
    meta-Huffman image (precision 2, one pixel for the 4 x 3 image)
    names group 1, followed by the codes of its two groups. *)
Definition vec_tiled_stream : list Z :=
  [0x84; 0x8c; 0x88; 0x88; 0x88; 0x88; 0x88; 0x88; 0x00; 0x00; 0x00].

Lemma DecodeImageStream_groups_cover_witness :
  exists dec' g,
    DecodeImageStream 2 4 3 true (vec_stream_dec vec_tiled_stream)
    = Some (1, dec', None) /\
    huffman_image_ (hdr_ dec') = Some [1] /\
    GetHtreeGroupForPos (hdr_ dec') 3 2 = Some g.
Proof.
  edestruct (DecodeImageStream_groups_cover 2 4 3
               (vec_stream_dec vec_tiled_stream))
    as (_ & _ & _ & _ & _ & _ & Hcov);
    [lia | lia | lia | reflexivity | vm_compute; reflexivity |].
  destruct (Hcov 3 2) as [g Hg];
    [vm_compute; split; [discriminate | reflexivity]
    |vm_compute; split; [discriminate | reflexivity]|].
  eexists _, g. split; [vm_compute; reflexivity|].
  split; [reflexivity | exact Hg].
Defined.

(** ** Reading Huffman codes *)

Lemma used_symbols_range : forall cl i s,
  s ∈ used_symbols i cl -> i <= s < i + Z.of_nat (length cl).
Proof.
  induction cl as [|l cl IH]; intros i s Hs; simpl in Hs.
  - apply elem_of_nil in Hs. done.
  - destruct (l =? 0).
    + apply IH in Hs. simpl length. lia.
    + apply elem_of_cons in Hs as [->|Hs]; [simpl length; lia|].
      apply IH in Hs. simpl length. lia.
Qed.

Lemma vec_lengths_tables_ok : lengths_tables_ok.
Proof.
  split; [simpl; lia|]. intros clcl Hlen table. subst table. simpl.
  unfold one_symbol_table.
  destruct (used_symbols 0 clcl) as [|s [|s' rest]] eqn:Hu.
  - split; [by left | constructor].
  - split.
    + right. rewrite length_replicate. reflexivity.
    + apply Forall_replicate. simpl.
      assert (Hs : s ∈ used_symbols 0 clcl) by (rewrite Hu; left).
      apply used_symbols_range in Hs. lia.
  - split; [by left | constructor].
Qed.

(** A code-length code whose only symbol is the length 3. *)
Definition vec_code_length_code : list Z :=
  [0; 0; 0; 1; 0; 0; 0; 0; 0; 0; 0; 0; 0; 0; 0; 0; 0; 0; 0].

Lemma ReadHuffmanCodeLengths_memory_safe_witness :
  exists ok dec' cl',
    ReadHuffmanCodeLengths (vec_stream_dec [0x00; 0x00])
      vec_code_length_code 4 (replicate 6 0)
    = Some (ok, dec', cl') /\
    length cl' = length (replicate 6 0) /\
    Forall is_code_length cl' /\
    (forall j, 4 <= j -> load cl' j = load (replicate 6 0) j) /\
    hdr_ dec' = hdr_ (vec_stream_dec [0x00; 0x00]) /\
    ((ok = 0 /\ status_ dec' = VP8_STATUS_BITSTREAM_ERROR) \/
     (ok = 1 /\ status_ dec' = status_ (vec_stream_dec [0x00; 0x00]))).
Proof.
  apply (ReadHuffmanCodeLengths_memory_safe (vec_stream_dec [0x00; 0x00])
           vec_code_length_code 4 (replicate 6 0)).
  - simpl; lia.
  - right. vm_compute. reflexivity.
  - apply (proj2 (proj2 vec_lengths_tables_ok vec_code_length_code
                     eq_refl)).
  - simpl; lia.
  - apply Forall_replicate. unfold is_code_length. lia.
Defined.

Lemma ReadHuffmanCode_memory_safe_witness :
  exists size dec' cl' table,
    ReadHuffmanCode 40 (vec_stream_dec [0x01; 0x00]) (replicate 280 0)
    = Some (size, dec', cl', table) /\
    length cl' = length (replicate 280 0) /\
    Forall is_code_length cl' /\
    hdr_ dec' = hdr_ (vec_stream_dec [0x01; 0x00]) /\
    size = Z.of_nat (length table) /\
    (size = 0 -> status_ dec' = VP8_STATUS_BITSTREAM_ERROR) /\
    (size <> 0 ->
     status_ dec' = status_ (vec_stream_dec [0x01; 0x00]) /\
     eos_ (br_ dec') = false /\
     table = VP8LBuildHuffmanTable HUFFMAN_TABLE_BITS
               (take (Z.to_nat 40) cl') 40).
Proof.
  apply (ReadHuffmanCode_memory_safe 40 (vec_stream_dec [0x01; 0x00])
           (replicate 280 0)).
  - apply vec_lengths_tables_ok.
  - rewrite length_replicate. lia.
  - rewrite length_replicate. lia.
  - apply Forall_replicate. unfold is_code_length. lia.
Defined.
